(* ===== verification/_CoqProject ===== *)
-Q . S2P
Prelude.v
DomainValues.v
DomainReducer.v
CloudTypes.v
SessionTypes.v
SessionRuntime.v
SessionLog.v
SessionSystem.v
SessionTurns.v
SessionReports.v
SessionAudit.v
SessionConsistency.v
SessionStops.v
SessionClaims.v
LifecycleLedger.v
CloudAdapter.v
Effects.v
LoginTypes.v
SubmitLedger.v
CloudRunner.v
RunnerSafety.v
RunnerClaims.v
Orchestrator.v
OrchestratorSafety.v
OrchestratorClaims.v
P0System.v
P0Calls.v
P0Safety.v
P0Typing.v
P0Claims.v
SessionApi.v
LoginParser.v
LoginLedger.v
Json.v
JsonCompact.v
LedgerWire.v
LedgerFiles.v
LoginBroker.v
LoginClaims.v
Scope.v
ChildProcess.v
LoginSupervisor.v
CloudProcess.v
HttpTypes.v
Idempotency.v
IdempotencyClaims.v
HttpConfig.v
AppSessions.v
AppSessionClaims.v
Shutdown.v
ShutdownClaims.v
Routes.v
RouteClaims.v
RouteCalls.v
LoginPort.v
WebSocket.v
RequestWire.v
PublishedWire.v
EventWire.v
WebSocketClaims.v
StreamSession.v
EntryPoint.v
Deployment.v
Redaction.v
