(* ===== verification/Prelude.v ===== *)
(** * Verification of the Codebox P0 control system

    Codebox lets one operator drive one Codex Cloud task at a time from a private web page.  The
    parts of the program, from the bottom up, and the files that model them:

    - [codebox-domain] (crates/codebox-domain/src): identifiers, event sequences, workspace paths,
      the domain events and the reducer that replays them.  [DomainValues] models id.rs, sequence.rs,
      path.rs and error.rs; [DomainReducer] models event.rs and reducer.rs, with the state diagram of
      docs/TD.md as the abstract machine the reducer is proved to implement.
    - [codebox-agent-codex] (crates/codebox-agent-codex/src): everything that talks to the Codex CLI.
      [CloudTypes] holds the values its layers share.  [CloudAdapter] models cloud.rs: validated
      values, the argv policy, the decoders of what the CLI prints.  [SubmitLedger] models the durable
      submit record (cloud_submit_ledger.rs), [LifecycleLedger] the durable lifecycle record
      (cloud_lifecycle_ledger.rs): their phases, every recording, their validators.  [LoginTypes]
      models the error enumerations (error.rs, login_error.rs) and login values.  [CloudRunner] models cloud_runner.rs:
      submit, status, diff, reconcile, observe, resolve, over the durable files.  [RunnerSafety] has
      the weakest-precondition lemmas of its building blocks and [RunnerClaims] its properties.
      [Orchestrator] models cloud_lifecycle.rs over an interface of the runner (a class with the
      contract it relies on, which the model of [CloudRunner] discharges); [OrchestratorSafety] and
      [OrchestratorClaims] have its invariants and properties.  [LoginParser] models parser.rs,
      [LoginLedger] ledger.rs with its file operations, [LoginBroker] broker.rs over them, and
      [LoginClaims] has the broker's properties; [Scope] models scope.rs and invocation.rs,
      [ChildProcess] the lease of a call and how runtime.rs builds a child and binds it to its parent,
      [LoginSupervisor] the rest of runtime.rs, and [CloudProcess] the process runtime of
      cloud_runner.rs, whose answers are those the model of [CloudRunner] takes as input.
    - [codebox-session-runtime] (crates/codebox-session-runtime/src): the in-memory session with its
      worker thread, event log and subscribers.  [SessionTypes] models config.rs, error.rs and
      types.rs; [SessionRuntime] models runtime.rs, one definition per locked region of a public
      method or of the worker; [SessionSystem] composes them: the worker's program counter, the
      pending callers and their lower calls, every interleaving of regions as a labelled step.
      [SessionLog], [SessionTurns], [SessionAudit] and [SessionConsistency] hold the invariants, each
      proved for every step; [SessionReports] follows what a step publishes and starts;
      [SessionStops] what a stopped runtime leaves behind; [SessionClaims] states the properties on reachable states.  [SessionApi] has the public methods
      whole, over the trait they are written against.
    - The Cloud path as a whole: [P0System] composes session, orchestrator and runner on one host the
      way runtime.rs does, so that the lower results of a session are those its orchestrator returns;
      a step is a locked region, a submission, the start of a process or its death.  [P0Calls] and
      [P0Safety] carry the invariants of the layers through the composition, [P0Typing] the
      invariants of the published types, and [P0Claims] states what holds of every reachable state.
    - [control-plane] (apps/control-plane/src): the private HTTP interface.  [HttpTypes] models
      error.rs, transport.rs and types.rs; [HttpConfig] config.rs and the header and cookie parsing of
      state.rs; [Idempotency] idempotency.rs; [AppSessions] the operator sessions and [Shutdown] the
      lifecycle of state.rs; [Routes] routes.rs with the execution of mutations of state.rs, over a
      class of ports (ports.rs); [RouteCalls] which call a request makes; [LoginPort] the login port on the broker; [WebSocket] websocket.rs;
      [EntryPoint] main.rs and web.rs.  [IdempotencyClaims], [AppSessionClaims],
      [ShutdownClaims], [RouteClaims] and [WebSocketClaims] have their properties; [StreamSession] puts
      the stream on top of the session of [SessionSystem].
    - The text at the boundaries.  [Json] has JSON values, what serde's derive makes of a declaration, and
      the interfaces of serde_json and uuid (classes with their laws); [JsonCompact] has a concrete writer
      and reader that discharge them.  [LedgerWire] has the three durable records as JSON and
      [LedgerFiles] their files as bytes, which refine the files of records that [CloudRunner],
      [Orchestrator] and [LoginLedger] keep.  [RequestWire] has the JSON a client or the CLI sends,
      [PublishedWire] the JSON a client receives, [EventWire] the JSON of the durable domain events;
      [Redaction] has the Debug and Display implementations.
    - The deployed program: [Deployment] puts the handlers of [Routes] on the login broker and on
      [P0System], with the history of all requests over the processes of a host.

    This file has what all of them share: Rust's [Result] with the [let?] notation for [?], machine
    integers at their width, list lemmas and tactics.  [Effects] has the state monad with process
    death in which the runner is written, with its weakest precondition.

    How state and effects correspond.  A Rust struct is a [Record], an enum an [Inductive], a
    [Result] a [result]; a [str] is its UTF-8 bytes; integers are in [Z] at their width, with the
    release profile's wrap-around where the source adds without a check.  A method on [&mut self]
    returns the new value.  A locked region of the session runtime is a function of its whole state
    (the [RuntimeState], the channels as a heap shared by sender and receiver, a ghost log of all
    published events); what happens between two regions of the same method is left to the other
    steps.  The lower Cloud answers, the clock and the drawn identifiers are inputs of the steps.
    A call of the runner takes the answers of the operating system and of the CLI as an argument;
    each durable write succeeds, fails before its rename, or fails after it; the process may die
    before any effect, which a count of the effects it lives decides.  The commands that may have run
    are a ghost log.  In the control plane every critical section of a lock is one step: the
    idempotency registry, the session registry and the lifecycle are each a system of steps with ghost
    state; a handler of a route is a function of the whole control plane; a WebSocket connection is a
    function of a script of what it awaits.

    What the theorems show.
    - End to end: every Cloud command and every device login ever started on the host was posted by an
      authorized request of its own, in a process whose sessions were opened with the bootstrap secret;
      every command is the submission of one accepted turn, with
      its prompt, and no turn or operation is submitted twice, over every interleaving, failed write
      and process death; a client is never told that a command did not run when it did; every value a
      session publishes is well typed; a start establishes what these theorems assume.
    - Domain: accepted paths are normal forms that re-validate to themselves but for drive letters;
      the reducer implements the design's state machine exactly, and the projection it replays is
      consistent.
    - Session: the event log is gap-free and bounded; a subscriber loses, repeats and reorders
      nothing; the lower start is called at most once per turn; the published state, turn and
      lifecycle agree and move forward only; a shutdown ends the worker; a public method run alone is
      a schedule of the concurrent system, and [cancel_turn] returns.  Two theorems show how, from any
      reachable state, a cancel that overtakes a start and a status read that comes back to another turn
      stop the runtime; three more exhibit runs in which it publishes a wrong state.
    - Records: every recording on a valid durable record is again valid, and the lifecycle record
      moves only as the session runtime allows.
    - Runner: a command runs at most once per submission and only after its authorization is durable;
      while an outcome is unsettled no other command runs, across process deaths and failed writes;
      a command is never forgotten by recovery; success is durable; an uncertain outcome is reported
      as such; reconciliations are recorded as returned; resolutions are final; a diff needs both
      records to agree.  Once reconciliations have filled the record's history, an unknown
      submission can never be settled.
    - Orchestrator: a record that says an operation failed before its submission is never of an
      operation whose command ran; a running submission excludes other calls; one theorem shows a
      failing directory sync that strands it.
    - Login: a device-login command starts only when every earlier one was settled on disk; a status is
      never inferred; an interrupted login is settled by one reconciliation exactly when its
      record got past its first entry and has room for another; a record that did not, or whose temporary
      file was left behind, no call can ever settle; the prompt is recognized exactly when it is complete; the supervisor's
      events follow a protocol, it ends, and captures do not depend on how the output was chunked.
      The scope's directories are private, apart from each other and outside repositories, its lease is
      exclusive; no process it starts outlives its parent or sees more than its policy.  The runner's log of commands agrees with the processes that were spawned.
    - Control plane: the lower runtimes change only for an authorized request and its first use of an
      idempotency key, and a device login is started only by such a [POST]; a key is answered by one execution, which serves every waiter; authentication
      accepts exactly the live sessions; a request gives back its admission; shutdown cleans up once,
      after the last operation, and ends; a stream is numbered without gaps, closes once, and is never
      given by the session an event it would refuse.
    - Adapter: what the decoders accept, exactly or by its bounds.
    - Text: a valid durable record fits in its file and reads back; whatever bytes a file holds, an
      operation on it is one of the record level; a request is accepted exactly when it presents the
      declared fields; every value a session may publish fits in a message of the stream, which
      determines it; durable events read back and replay to the same projection; no prompt, code, token,
      diff or captured output can be seen in what a value prints.

    Bounds and fuel.  [strip_leading] takes the length of the text as fuel, which bounds what it can
    strip; [skip_digits] likewise.  The reconciliation loop runs over its own bound of five pages.
    The retry loop of [cancel_turn] takes the number of its turns: [cancel_turn_returns] shows that a
    hundred and one are enough.  [fuel] of a runner call is not a bound of the model but the moment the process dies, over which
    every theorem quantifies.

    [measure] of [ShutdownClaims] is the bound that makes shutdown end; the loops of the idempotency
    registry take the number of entries as fuel, each turn removing one.

    The polling loops of [LoginSupervisor] and [CloudProcess] take the number of turns as fuel:
    [supervision_ends] and [cloud_command_ends] show that the turn whose clock passes the limit is the
    last, so one more than its number is enough.  [strip_ansi] takes the length of the text.  The reader
    of [JsonCompact] takes the length of the text as fuel; its round trip shows that to be enough.

    Not modelled: the kernel, the clock and the threads, whose answers are inputs (of a child whose
    parent dies, what the manual says of reparenting and of the death signal); axum and tokio,
    represented by their documented effects; the text of JSON, UUIDs and instants and the escapes of
    [str], which are interfaces with their laws (serde_json, uuid, chrono and core are not part of the
    repository) and have concrete instances in the witnesses; URL, path and base64 text, which are
    parameters; mutex poisoning, but for the login port; power loss, as opposed to the death of the
    process; derived Debug output; the contents of the web page; the scaffold binaries, which have
    no logic of their own.  What is left of the sources besides is imports and attributes, accessors,
    code that is compiled for tests only, and the adapters to the clock, the entropy source and the
    sockets.  In [Deployment] requests are
    handled one after another, as functions of the control plane: the interleaving of their critical
    sections is in [IdempotencyClaims], [AppSessionClaims] and [ShutdownClaims]; a call of the session
    port other than [snapshot] and [start_turn] is there any sequence of steps of the session with any
    answer, which contains what [SessionApi] does. *)
From stdpp Require Import base numbers list strings gmap list_numbers.
From Stdlib Require Import ZArith Lia.

Open Scope Z_scope.

(** ** Fallible code: Rust's [Result] *)

Inductive result (E A : Type) : Type :=
| Ok (a : A)
| Err (e : E).
Arguments Ok {E A} _.
Arguments Err {E A} _.

Declare Scope rust_scope.
Delimit Scope rust_scope with rust.
Open Scope rust_scope.

(** [let? x := e in k] is the source's [let x = e?; k]. *)
Notation "'let?' x ':=' e 'in' k" :=
  (match e with Ok x => k | Err err => Err err end)
  (at level 10, x pattern, e at level 100, k at level 200) : rust_scope.

Definition is_ok {E A} (r : result E A) : bool :=
  match r with Ok _ => true | Err _ => false end.

Definition is_err {E A} (r : result E A) : bool := negb (is_ok r).

Definition map_err {E F A} (f : E -> F) (r : result E A) : result F A :=
  match r with Ok a => Ok a | Err e => Err (f e) end.

Definition ok_or {E A} (o : option A) (e : E) : result E A :=
  match o with Some a => Ok a | None => Err e end.

(** [Result::unwrap_or]. *)
Definition unwrap_or {E A} (r : result E A) (d : A) : A :=
  match r with Ok a => a | Err _ => d end.

(** [Option::transpose] of an [Option<Result<..>>]. *)
Definition transpose {E A} (o : option (result E A)) : result E (option A) :=
  match o with
  | None => Ok None
  | Some (Ok a) => Ok (Some a)
  | Some (Err e) => Err e
  end.

#[export] Instance result_eq_dec {E A} `{EqDecision E, EqDecision A} : EqDecision (result E A).
Proof. solve_decision. Defined.

(** ** Machine integers, at their width *)

Definition u8_max : Z := 2 ^ 8 - 1.
Definition u16_max : Z := 2 ^ 16 - 1.
Definition u32_max : Z := 2 ^ 32 - 1.
Definition u64_max : Z := 2 ^ 64 - 1.
(** [usize] on the 64-bit Linux targets the runner supports. *)
Definition usize_max : Z := u64_max.

Definition in_u64 (x : Z) : Prop := 0 <= x <= u64_max.
Definition in_u32 (x : Z) : Prop := 0 <= x <= u32_max.

(** [u64::checked_add]. *)
Definition u64_checked_add (x y : Z) : option Z :=
  if x + y <=? u64_max then Some (x + y) else None.

(** Plain [+] on [u64] and [u32], with the release profile's wrap-around. *)
Definition u64_add (x y : Z) : Z := (x + y) mod 2 ^ 64.
Definition u32_add (x y : Z) : Z := (x + y) mod 2 ^ 32.

Definition u64_saturating_sub (x y : Z) : Z := Z.max 0 (x - y).
Definition u32_saturating_add (x y : Z) : Z := Z.min u32_max (x + y).
Definition usize_saturating_add (x y : Z) : Z := Z.min usize_max (x + y).
Definition usize_saturating_sub (x y : Z) : Z := Z.max 0 (x - y).

(** [usize] length of a vector or deque. *)
Definition len {A} (l : list A) : Z := Z.of_nat (length l).

Lemma u64_checked_add_Some x y z :
  u64_checked_add x y = Some z -> z = x + y /\ x + y <= u64_max.
Proof. unfold u64_checked_add. destruct (Z.leb_spec (x + y) u64_max); naive_solver. Qed.

Lemma u64_checked_add_None x y : u64_checked_add x y = None <-> u64_max < x + y.
Proof.
  unfold u64_checked_add. destruct (Z.leb_spec (x + y) u64_max); split; intros; try done; lia.
Qed.

Lemma u64_add_exact x y : 0 <= x + y <= u64_max -> u64_add x y = x + y.
Proof. unfold u64_max, u64_add. intros. apply Z.mod_small. lia. Qed.

Lemma u32_add_exact x y : 0 <= x + y <= u32_max -> u32_add x y = x + y.
Proof. unfold u32_max, u32_add. intros. apply Z.mod_small. lia. Qed.

(** ** Lists *)

(** The last [n] elements, what a bounded deque retains. *)
Definition lastn {A} (n : nat) (l : list A) : list A := drop (length l - n) l.

Lemma lastn_all {A} n (l : list A) : (length l <= n)%nat -> lastn n l = l.
Proof. intros. unfold lastn. replace (length l - n)%nat with 0%nat by lia. apply drop_0. Qed.

Lemma length_lastn {A} n (l : list A) : length (lastn n l) = Nat.min n (length l).
Proof. unfold lastn. rewrite length_drop. lia. Qed.

(** Pushing on a bounded deque that retains the last [n] of [l]. *)
Lemma lastn_snoc {A} n (l : list A) x :
  (0 < n)%nat -> lastn n (lastn n l ++ [x]) = lastn n (l ++ [x]).
Proof.
  intros. unfold lastn. rewrite !length_app, length_drop. simpl.
  destruct (decide (length l < n)%nat).
  - replace (length l - n)%nat with 0%nat by lia. rewrite drop_0. f_equal. lia.
  - rewrite (drop_app_le l) by lia.
    rewrite drop_app_le by (rewrite length_drop; lia). rewrite drop_drop. do 2 f_equal. lia.
Qed.

(** [seen.insert] on every element: whether one repeats an earlier one. *)
Fixpoint has_duplicate {A} `{EqDecision A} (seen l : list A) : bool :=
  match l with
  | [] => false
  | x :: rest => bool_decide (x ∈ seen) || has_duplicate (x :: seen) rest
  end.

Lemma has_duplicate_spec {A} `{EqDecision A} (l seen : list A) :
  has_duplicate seen l = false <-> NoDup l /\ forall x, x ∈ l -> x ∉ seen.
Proof.
  revert seen. induction l as [|x l IH]; intros seen; simpl.
  { split; [|done]. intros _. split; [apply NoDup_nil_2|]. intros x H. by inversion H. }
  rewrite orb_false_iff, IH, bool_decide_eq_false, NoDup_cons. setoid_rewrite elem_of_cons. split.
  - intros (Hx & Hnd & Hl). split_and!; [intros Hin; apply (Hl x Hin); by left|done|].
    intros y [->|Hy]; [done|]. intros Hs. apply (Hl y Hy). by right.
  - intros ((Hx & Hnd) & Hl). split_and!; [apply Hl; by left|done|].
    intros y Hy [->|Hs]; [done|]. by apply (Hl y); [right|].
Qed.

(** [windows(2)]: every pair of neighbours is accepted. *)
Fixpoint chain {A} (ok : A -> A -> bool) (h : list A) : bool :=
  match h with
  | a :: (b :: _) as rest => ok a b && chain ok rest
  | _ => true
  end.

Lemma chain_snoc {A} (ok : A -> A -> bool) h a b :
  last h = Some a -> chain ok (h ++ [b]) = chain ok h && ok a b.
Proof.
  induction h as [|x h IH]; [done|]. destruct h as [|y h].
  - intros [= ->]. simpl. by rewrite andb_true_r.
  - intros Hl. change (last (y :: h) = Some a) in Hl. specialize (IH Hl).
    change (ok x y && chain ok ((y :: h) ++ [b]) = ok x y && chain ok (y :: h) && ok a b).
    by rewrite IH, andb_assoc.
Qed.

(** An element nothing may follow is the last. *)
Lemma chain_terminal {A} (ok : A -> A -> bool) h p :
  chain ok h = true -> (forall q, ok p q = false) -> p ∈ h -> last h = Some p.
Proof.
  intros Hc Ht. induction h as [|x h IH]; [by intros ?%not_elem_of_nil|]. destruct h as [|y h].
  - by intros ->%list_elem_of_singleton.
  - change (ok x y && chain ok (y :: h) = true) in Hc. apply andb_true_iff in Hc as [Hxy Hc].
    intros [->|Hin]%elem_of_cons; [by rewrite Ht in Hxy|]. by apply IH.
Qed.

(** A fact that holds as soon as one of two causes does. *)
Lemma keep_iff (X Y P : Prop) : ¬ Y -> (X <-> P) -> (X \/ Y <-> P).
Proof. tauto. Qed.
Lemma gain_iff {A} (X Y : Prop) (x : A) : Y -> (X \/ Y <-> is_Some (Some x)).
Proof. intros. split; [by eexists|by right]. Qed.

Lemma elem_of_cons_ne {A} (x y : A) l : x <> y -> x ∈ y :: l <-> x ∈ l.
Proof. intros. rewrite elem_of_cons. naive_solver. Qed.

Lemma bool_decide_cong (P Q : Prop) `{Decision P, Decision Q} :
  (P <-> Q) -> bool_decide P = bool_decide Q.
Proof. apply bool_decide_ext. Qed.

(** Consecutive sequence numbers [m, m+1, ..]. *)
Lemma seqZ_snoc m n : 0 <= n -> seqZ m n ++ [m + n] = seqZ m (n + 1).
Proof. intros. rewrite seqZ_app by lia. f_equal. Qed.

(** ** Automation *)

Create HintDb codebox.

(** Case analysis on the scrutinee of a match or an [if] of the goal or of a hypothesis. *)
Ltac break_match_goal :=
  match goal with
  | |- context [match ?x with _ => _ end] =>
      lazymatch x with
      | context [match _ with _ => _ end] => fail
      | _ => let E := fresh "E" in destruct x eqn:E
      end
  end.

Ltac break_match_hyp :=
  match goal with
  | H : context [match ?x with _ => _ end] |- _ =>
      lazymatch x with
      | context [match _ with _ => _ end] => fail
      | _ => let E := fresh "E" in destruct x eqn:E
      end
  end.

Ltac break_match := first [break_match_goal | break_match_hyp].

(** Turn boolean facts into propositions. *)
Ltac bool_to_prop :=
  repeat match goal with
  | H : _ && _ = true |- _ => apply andb_true_iff in H as [? ?]
  | H : _ || _ = false |- _ => apply orb_false_iff in H as [? ?]
  | H : negb _ = true |- _ => apply negb_true_iff in H
  | H : negb _ = false |- _ => apply negb_false_iff in H
  | H : (_ <=? _) = true |- _ => apply Z.leb_le in H
  | H : (_ <=? _) = false |- _ => apply Z.leb_gt in H
  | H : (_ <? _) = true |- _ => apply Z.ltb_lt in H
  | H : (_ <? _) = false |- _ => apply Z.ltb_ge in H
  | H : (_ =? _) = true |- _ => apply Z.eqb_eq in H
  | H : (_ =? _) = false |- _ => apply Z.eqb_neq in H
  | H : bool_decide _ = true |- _ => apply bool_decide_eq_true in H
  | H : bool_decide _ = false |- _ => apply bool_decide_eq_false in H
  end.
