(* ===== verification/DomainValues.v ===== *)
(** * Validated domain values: identifiers, event sequences, workspace paths

    Models [crates/codebox-domain/src/{error,id,sequence,path}.rs].  A UUID is its 128-bit value
    (nil is 0), a Rust [str] its UTF-8 bytes, [u64] and [usize] values are in [Z] at their width.
    The macro-generated identifier types are one type family indexed by the macro's argument. *)
From S2P Require Import Prelude.
From stdpp Require Import base numbers list strings sets gmap.
From Stdlib Require Import ZArith Lia.
From Stdlib Require Ascii String.

Open Scope Z_scope.

(** ** Identifiers (id.rs) *)
Module Ids.

Definition Uuid := Z.
Definition is_nil (u : Uuid) : bool := u =? 0.

(** The argument of [define_uuid_id!]. *)
Inductive IdType :=
| SessionIdT | TurnIdT | ToolCallIdT | ApprovalIdT | SandboxIdT | ArtifactIdT | CommandIdT.

#[export] Instance IdType_eq_dec : EqDecision IdType.
Proof. solve_decision. Defined.

Definition TYPE_NAME (t : IdType) : string :=
  match t with
  | SessionIdT => "SessionId" | TurnIdT => "TurnId" | ToolCallIdT => "ToolCallId"
  | ApprovalIdT => "ApprovalId" | SandboxIdT => "SandboxId" | ArtifactIdT => "ArtifactId"
  | CommandIdT => "CommandId"
  end.

Inductive IdError := Nil (id_type : string).

(** [pub struct $name(Uuid)]. *)
Record Id (t : IdType) := mkId { as_uuid : Uuid }.
Arguments mkId {t} _.
Arguments as_uuid {t} _.

#[export] Instance Id_eq_dec t : EqDecision (Id t).
Proof. solve_decision. Defined.
#[export] Instance IdError_eq_dec : EqDecision IdError.
Proof. solve_decision. Defined.

Abbreviation SessionId := (Id SessionIdT).
Abbreviation TurnId := (Id TurnIdT).
Abbreviation ApprovalId := (Id ApprovalIdT).
Abbreviation SandboxId := (Id SandboxIdT).
Abbreviation CommandId := (Id CommandIdT).

Definition try_from_uuid (t : IdType) (value : Uuid) : result IdError (Id t) :=
  if is_nil value then Err (Nil (TYPE_NAME t)) else Ok (mkId value).

(** [new]: the loop draws version-4 UUIDs until one is not nil.  [draws] are the values the
    generator returns; [None] is a loop that has not ended within them. *)
Fixpoint new (t : IdType) (draws : list Uuid) : option (Id t * list Uuid) :=
  match draws with
  | [] => None
  | value :: rest => if negb (is_nil value) then Some (mkId value, rest) else new t rest
  end.

Definition valid_id {t} (i : Id t) : Prop := is_nil (as_uuid i) = false.

Lemma try_from_uuid_valid t u i : try_from_uuid t u = Ok i -> valid_id i /\ as_uuid i = u.
Proof. unfold try_from_uuid, valid_id. destruct (is_nil u) eqn:E; naive_solver. Qed.

(** The loop returns the first draw that is not nil, so it ends as soon as there is one. *)
Lemma new_first_non_nil t draws :
  Exists (fun u => is_nil u = false) draws ->
  exists skipped u rest, draws = skipped ++ u :: rest /\
    Forall (fun v => is_nil v = true) skipped /\
    new t draws = Some (mkId u, rest) /\ valid_id (mkId (t:=t) u).
Proof.
  unfold valid_id. induction draws as [|v draws IH]; intros H; [by inversion H|]. simpl.
  destruct (is_nil v) eqn:E; simpl.
  - inversion H as [? ? H0|? ? H0]; subst; [congruence|].
    destruct (IH H0) as (s & u & r & -> & Hs & Hn & Hv).
    exists (v :: s), u, r. repeat split; auto.
  - exists [], v, draws. repeat split; auto.
Qed.

End Ids.

(** ** Event sequences (sequence.rs) *)
Module Seqs.

Inductive EventSeqError := Overflow.

Record EventSeq := mkSeq { value : Z }.

#[export] Instance EventSeq_eq_dec : EqDecision EventSeq.
Proof. solve_decision. Defined.
#[export] Instance EventSeqError_eq_dec : EqDecision EventSeqError.
Proof. solve_decision. Defined.

Definition initial : EventSeq := mkSeq 0.

Definition checked_next (s : EventSeq) : result EventSeqError EventSeq :=
  ok_or (mkSeq <$> u64_checked_add (value s) 1) Overflow.

Definition seq_wf (s : EventSeq) : Prop := in_u64 (value s).

Lemma checked_next_Ok s s' :
  checked_next s = Ok s' -> value s' = value s + 1 /\ value s < u64_max.
Proof.
  unfold checked_next. destruct (u64_checked_add _ _) eqn:E; simpl; [|done].
  apply u64_checked_add_Some in E as [-> ?]. intros [= <-]. simpl. lia.
Qed.

Lemma checked_next_Err s : checked_next s = Err Overflow <-> u64_max <= value s.
Proof.
  unfold checked_next. destruct (u64_checked_add _ _) eqn:E; simpl.
  - apply u64_checked_add_Some in E. split; [done|lia].
  - apply u64_checked_add_None in E. split; [lia|done].
Qed.

Lemma checked_next_wf s s' : seq_wf s -> checked_next s = Ok s' -> seq_wf s'.
Proof. unfold seq_wf, in_u64. intros H E. apply checked_next_Ok in E. lia. Qed.

End Seqs.

(** ** Byte strings: what the source uses of [str] *)
Module Str.

Definition slash : Ascii.ascii := Ascii.ascii_of_nat 47.

Fixpoint contains (c : Ascii.ascii) (s : string) : bool :=
  match s with
  | EmptyString => false
  | String d rest => Ascii.eqb d c || contains c rest
  end.

Definition starts_with_char (c : Ascii.ascii) (s : string) : bool :=
  match s with EmptyString => false | String d _ => Ascii.eqb d c end.

(** [str::len], in bytes. *)
Definition slen (s : string) : Z := Z.of_nat (String.length s).

(** [str::split(c)]. *)
Fixpoint split (c : Ascii.ascii) (s : string) : list string :=
  match s with
  | EmptyString => [EmptyString]
  | String d rest =>
      if Ascii.eqb d c then EmptyString :: split c rest
      else match split c rest with
           | [] => [String d EmptyString]
           | first :: others => String d first :: others
           end
  end.

Fixpoint join (c : Ascii.ascii) (xs : list string) : string :=
  match xs with
  | [] => EmptyString
  | [x] => x
  | x :: rest => x +:+ String c (join c rest)
  end.

Lemma contains_app c a b : contains c (a +:+ b) = contains c a || contains c b.
Proof. induction a; simpl; [done|]. by rewrite IHa, orb_assoc. Qed.

Lemma slen_app a b : slen (a +:+ b) = slen a + slen b.
Proof. unfold slen. induction a; simpl; [done|]. rewrite !Nat2Z.inj_succ. lia. Qed.

Lemma split_not_nil c s : split c s <> [].
Proof. destruct s; simpl; [done|]. destruct (Ascii.eqb _ _); [done|]. by destruct (split c s). Qed.

Lemma split_no_sep c s : contains c s = false -> split c s = [s].
Proof.
  induction s; simpl; [done|]. intros [H1 H2]%orb_false_iff. rewrite H1, IHs; done.
Qed.

Lemma split_app_sep c a b :
  contains c a = false -> split c (a +:+ String c b) = a :: split c b.
Proof.
  induction a; simpl.
  - by rewrite Ascii.eqb_refl.
  - intros [H1 H2]%orb_false_iff. rewrite H1, IHa; done.
Qed.

(** A component of a split carries no separator. *)
Lemma split_components c s : Forall (fun x => contains c x = false) (split c s).
Proof.
  induction s; simpl; [by repeat constructor|].
  destruct (Ascii.eqb a c) eqn:E; [by constructor|].
  destruct (split c s); inversion IHs; constructor; simpl; rewrite ?E; auto.
Qed.

Lemma split_join c xs :
  xs <> [] -> Forall (fun x => contains c x = false) xs -> split c (join c xs) = xs.
Proof.
  induction xs as [|x [|y ys] IH]; intros Hne H; inversion H as [|? ? Hx Hr]; subst; [done| |].
  - by apply split_no_sep.
  - cbn [join]. rewrite split_app_sep by done. f_equal. by apply IH.
Qed.

Lemma join_split c s : join c (split c s) = s.
Proof.
  induction s; simpl; [done|].
  destruct (Ascii.eqb a c) eqn:E.
  - apply Ascii.eqb_eq in E as ->. destruct (split c s) eqn:Es; [by apply split_not_nil in Es|].
    cbn. by rewrite <- IHs.
  - destruct (split c s) as [|x xs] eqn:Es; [by apply split_not_nil in Es|].
    rewrite <- IHs. by destruct xs.
Qed.

(** Characters and bytes of a join come from its parts. *)
Lemma contains_join d c xs :
  d <> c -> contains d (join c xs) = existsb (contains d) xs.
Proof.
  intros Hd. induction xs as [|x [|y ys] IH]; [done|simpl; by rewrite orb_false_r|].
  change (join c (x :: y :: ys)) with (x +:+ String c (join c (y :: ys))).
  rewrite contains_app. change (contains d (String c (join c (y :: ys))))
    with (Ascii.eqb c d || contains d (join c (y :: ys))). rewrite IH. simpl.
  destruct (Ascii.eqb c d) eqn:E; [by apply Ascii.eqb_eq in E|]. done.
Qed.

Fixpoint join_len (xs : list string) : Z :=
  match xs with [] => 0 | [x] => slen x | x :: rest => slen x + 1 + join_len rest end.

Lemma slen_join c xs : slen (join c xs) = join_len xs.
Proof.
  induction xs as [|x [|y ys] IH]; [done..|].
  change (join c (x :: y :: ys)) with (x +:+ String c (join c (y :: ys))).
  change (join_len (x :: y :: ys)) with (slen x + 1 + join_len (y :: ys)).
  rewrite slen_app, <- IH. unfold slen. simpl String.length. lia.
Qed.

Lemma join_len_filter (P : string -> Prop) `{!forall x, Decision (P x)} xs :
  join_len (filter P xs) <= join_len xs.
Proof.
  induction xs as [|x xs IH]; [done|]. rewrite filter_cons.
  assert (Hs : forall y, 0 <= slen y) by (intros; unfold slen; lia).
  assert (Hn : forall l, 0 <= join_len l).
  { induction l as [|a [|b l'] IHl]; simpl; [lia|apply Hs|]. specialize (Hs a). simpl in IHl. lia. }
  specialize (Hs x). specialize (Hn xs) as Hx.
  case_decide; destruct xs as [|y ys]; simpl in *; try lia.
  destruct (filter P (y :: ys)); simpl in *; lia.
Qed.

End Str.

(** ** Workspace paths (path.rs) *)
Module Paths.
Import Str.

Definition MAX_WORKSPACE_PATH_BYTES : Z := 4096.

Inductive WorkspacePathError :=
| Empty
| Absolute
| ParentTraversal
| ContainsNul
| BackslashNotAllowed
| DrivePrefix
| TooLong (max_bytes actual_bytes : Z).

#[export] Instance WorkspacePathError_eq_dec : EqDecision WorkspacePathError.
Proof. solve_decision. Defined.

Record WorkspacePath := mkPath { as_str : string }.

Definition nul : Ascii.ascii := Ascii.ascii_of_nat 0.
Definition backslash : Ascii.ascii := Ascii.ascii_of_nat 92.
Definition colon : Ascii.ascii := Ascii.ascii_of_nat 58.

Definition is_ascii_alphabetic (c : Ascii.ascii) : bool :=
  let n := Z.of_nat (Ascii.nat_of_ascii c) in
  ((65 <=? n) && (n <=? 90)) || ((97 <=? n) && (n <=? 122)).

Definition is_drive_prefixed (value : string) : bool :=
  match value with
  | String b0 (String b1 _) => is_ascii_alphabetic b0 && Ascii.eqb b1 colon
  | _ => false
  end.

(** The component loop of [try_new], accumulating [normalized]. *)
Fixpoint push_components (components : list string) (normalized : string)
  : result WorkspacePathError string :=
  match components with
  | [] => Ok normalized
  | component :: rest =>
      if bool_decide (component = "" \/ component = ".") then push_components rest normalized
      else if bool_decide (component = "..") then Err ParentTraversal
      else
        let normalized :=
          if bool_decide (normalized = "") then normalized else normalized +:+ "/" in
        push_components rest (normalized +:+ component)
  end.

Definition try_new (raw : string) : result WorkspacePathError WorkspacePath :=
  if bool_decide (raw = "") then Err Empty
  else if contains nul raw then Err ContainsNul
  else if contains backslash raw then Err BackslashNotAllowed
  else if starts_with_char slash raw then Err Absolute
  else if is_drive_prefixed raw then Err DrivePrefix
  else if MAX_WORKSPACE_PATH_BYTES <? slen raw then
    Err (TooLong MAX_WORKSPACE_PATH_BYTES (slen raw))
  else
    let? normalized := push_components (split slash raw) "" in
    if bool_decide (normalized = "") then Err Empty
    else if MAX_WORKSPACE_PATH_BYTES <? slen normalized then
      Err (TooLong MAX_WORKSPACE_PATH_BYTES (slen normalized))
    else Ok (mkPath normalized).

(** Reference definition of the normalization: keep the components that are neither empty nor
    [.], and join them. *)
Definition significant (component : string) : Prop := component <> "" /\ component <> ".".
#[export] Instance significant_dec x : Decision (significant x).
Proof. unfold significant. apply _. Defined.

Definition components (p : string) : list string := split slash p.

Lemma app_cons_str d (a b : string) : String d a +:+ b = String d (a +:+ b).
Proof. done. Qed.

Lemma app_assoc_str (a b c : string) : a +:+ (b +:+ c) = (a +:+ b) +:+ c.
Proof. induction a as [|d a IH]; [done|]. rewrite !app_cons_str. by rewrite IH. Qed.

Lemma join_snoc xs x :
  join slash (xs ++ [x]) =
    (if bool_decide (xs = []) then "" else join slash xs +:+ "/") +:+ x.
Proof.
  induction xs as [|y [|z zs] IH]; [done|..].
  { simpl. by rewrite <- app_assoc_str, app_cons_str. }
  change (join slash ((y :: z :: zs) ++ [x]))
    with (y +:+ String slash (join slash ((z :: zs) ++ [x]))).
  rewrite IH, !bool_decide_eq_false_2 by done.
  change (join slash (y :: z :: zs)) with (y +:+ String slash (join slash (z :: zs))).
  by rewrite <- !app_assoc_str, !app_cons_str.
Qed.

Lemma join_empty xs : Forall significant xs -> join slash xs = "" <-> xs = [].
Proof.
  intros H. split; [|by intros ->].
  destruct xs as [|x [|y ys]]; [done|..]; inversion H as [|? ? [Hx _] _]; subst; [done|].
  intros E. change (x +:+ String slash (join slash (y :: ys)) = "") in E. by destruct x.
Qed.

(** The loop computes the reference normalization, and fails exactly on a parent component. *)
Lemma push_components_spec cs kept :
  Forall significant kept ->
  push_components cs (join slash kept) =
    if bool_decide (".." ∈ cs) then Err ParentTraversal
    else Ok (join slash (kept ++ filter significant cs)).
Proof.
  revert kept. induction cs as [|c cs IH]; intros kept Hd; cbn [push_components].
  { by rewrite filter_nil, app_nil_r. }
  rewrite filter_cons.
  destruct (decide (c = "" \/ c = ".")) as [Hskip|Hskip].
  - rewrite (bool_decide_eq_true_2 _ Hskip), IH by done.
    rewrite (decide_False (P := significant c)) by (intros []; destruct Hskip; done).
    rewrite (bool_decide_cong (".." ∈ c :: cs) (".." ∈ cs)); [done|].
    apply elem_of_cons_ne. by destruct Hskip as [-> | ->].
  - rewrite (bool_decide_eq_false_2 _ Hskip).
    assert (Hc : significant c) by (unfold significant; naive_solver).
    rewrite (decide_True (P := significant c)) by done.
    destruct (decide (c = "..")) as [->|Hpar].
    { rewrite !bool_decide_eq_true_2; [done|left|done]. }
    rewrite (bool_decide_eq_false_2 _ Hpar).
    replace (_ +:+ c) with (join slash (kept ++ [c])).
    + rewrite IH by (apply Forall_app; auto). rewrite <- app_assoc. simpl.
      rewrite (bool_decide_cong (".." ∈ c :: cs) (".." ∈ cs)); [done|].
      by apply elem_of_cons_ne.
    + rewrite join_snoc. f_equal. pose proof (join_empty kept Hd).
      repeat case_bool_decide; naive_solver.
Qed.

Lemma normalize_spec raw :
  push_components (split slash raw) "" =
    if bool_decide (".." ∈ components raw) then Err ParentTraversal
    else Ok (join slash (filter significant (components raw))).
Proof. by apply (push_components_spec _ []). Qed.

Lemma Forall_filter_significant xs : Forall significant (filter significant xs).
Proof. rewrite Forall_forall. intros x [? _]%list_elem_of_filter. done. Qed.

(** What the guards before the loop require. *)
Definition raw_ok (raw : string) : Prop :=
  raw <> "" /\ contains nul raw = false /\ contains backslash raw = false /\
  starts_with_char slash raw = false /\ is_drive_prefixed raw = false /\
  slen raw <= MAX_WORKSPACE_PATH_BYTES.

Lemma normalized_fits raw :
  slen raw <= MAX_WORKSPACE_PATH_BYTES ->
  slen (join slash (filter significant (components raw))) <= MAX_WORKSPACE_PATH_BYTES.
Proof.
  intros H. rewrite slen_join. pose proof (join_len_filter significant (components raw)) as Hf.
  pose proof (slen_join slash (components raw)) as E. unfold components in *.
  rewrite join_split in E. lia.
Qed.

(** Acceptance, exactly. *)
Lemma try_new_Ok_iff raw p :
  try_new raw = Ok p <->
  (raw_ok raw /\ (".." ∉ components raw) /\ filter significant (components raw) <> [] /\
   as_str p = join slash (filter significant (components raw))).
Proof.
  pose proof (normalized_fits raw) as Hfit.
  pose proof (join_empty (filter significant (components raw))
                (Forall_filter_significant _)) as Hne.
  unfold try_new, raw_ok. rewrite normalize_spec.
  destruct (bool_decide_reflect (raw = "")); [split; [done|tauto]|].
  destruct (contains nul raw); [split; [done|naive_solver]|].
  destruct (contains backslash raw); [split; [done|naive_solver]|].
  destruct (starts_with_char slash raw); [split; [done|naive_solver]|].
  destruct (is_drive_prefixed raw); [split; [done|naive_solver]|].
  destruct (Z.ltb_spec MAX_WORKSPACE_PATH_BYTES (slen raw)); [split; [done|]; intros; lia|].
  destruct (bool_decide_reflect (".." ∈ components raw)); [split; [done|tauto]|].
  destruct (bool_decide_reflect (join slash (filter significant (components raw)) = ""));
    [split; [done|tauto]|].
  rewrite (proj2 (Z.ltb_ge _ _)) by auto.
  destruct p as [s]. simpl. split; [intros [= <-]; tauto|intros (_ & _ & _ & ->); done].
Qed.

Lemma components_kept raw :
  Forall (fun x => contains slash x = false) (filter significant (components raw)).
Proof.
  pose proof (split_components slash raw) as H. rewrite Forall_forall in H |- *.
  intros x [_ Hx]%list_elem_of_filter. by apply H.
Qed.

Lemma components_normalized raw :
  filter significant (components raw) <> [] ->
  components (join slash (filter significant (components raw))) =
    filter significant (components raw).
Proof. intros. apply split_join; [done|apply components_kept]. Qed.

(** A byte other than the separator occurs in the normal form only if it occurs in the input. *)
Lemma contains_normalized d raw :
  d <> slash -> contains d raw = false ->
  contains d (join slash (filter significant (components raw))) = false.
Proof.
  intros Hd H. rewrite contains_join by done.
  rewrite <- (join_split slash raw), contains_join in H by done.
  apply not_true_iff_false. rewrite existsb_exists. intros (x & Hin & Hx').
  apply list_elem_of_In, list_elem_of_filter in Hin as [_ Hin].
  eapply not_true_iff_false; [exact H|]. apply existsb_exists. exists x. split; [|done].
  by apply list_elem_of_In.
Qed.

Lemma normalized_relative raw :
  starts_with_char slash (join slash (filter significant (components raw))) = false.
Proof.
  pose proof (components_kept raw) as H. pose proof (Forall_filter_significant (components raw)) as S.
  destruct (filter significant (components raw)) as [|x xs]; [done|].
  inversion H as [|? ? Hx _]; inversion S as [|? ? [Hne _] _]; subst.
  destruct x as [|c x]; [done|]. simpl in Hx. apply orb_false_iff in Hx as [Hc _].
  by destruct xs.
Qed.

(** Accepting a normal form again: only the drive-prefix guard can refuse it. *)
Lemma try_new_normalized raw p :
  try_new raw = Ok p ->
  try_new (as_str p) = if is_drive_prefixed (as_str p) then Err DrivePrefix else Ok p.
Proof.
  intros ((_ & Hnul & Hbs & _ & _ & Hlen) & Hpar & Hne & Hp)%try_new_Ok_iff.
  pose proof (components_normalized raw Hne) as Hc. rewrite <- Hp in Hc.
  pose proof (contains_normalized nul raw ltac:(done) Hnul) as Hnul'.
  pose proof (contains_normalized backslash raw ltac:(done) Hbs) as Hbs'.
  pose proof (normalized_relative raw) as Hrel. pose proof (normalized_fits raw Hlen) as Hfit.
  rewrite <- Hp in Hnul', Hbs', Hrel, Hfit.
  assert (as_str p <> "").
  { rewrite Hp, join_empty; [done|apply Forall_filter_significant]. }
  destruct (is_drive_prefixed (as_str p)) eqn:Ed.
  - unfold try_new. rewrite bool_decide_eq_false_2, Hnul', Hbs', Hrel, Ed by done. done.
  - apply try_new_Ok_iff. rewrite Hc, list_filter_filter_l by naive_solver.
    repeat split; try done. rewrite list_elem_of_filter. tauto.
Qed.

(** An accepted workspace path is in normal form.  Its components are those of the input
    without the empty ones and the [.] ones; none of them is a parent component; the path is
    relative, carries neither NUL nor backslash, and is between 1 and 4096 bytes long. *)
Theorem workspace_path_normal_form raw p (H : try_new raw = Ok p) :
  components (as_str p) = filter significant (components raw) /\
  Forall (fun c => c <> "" /\ c <> "." /\ c <> "..") (components (as_str p)) /\
  contains nul (as_str p) = false /\ contains backslash (as_str p) = false /\
  starts_with_char slash (as_str p) = false /\
  1 <= slen (as_str p) <= MAX_WORKSPACE_PATH_BYTES.
Proof.
  apply try_new_Ok_iff in H as ((_ & Hnul & Hbs & _ & _ & Hlen) & Hpar & Hne & Hp).
  pose proof (components_normalized raw Hne) as Hc. rewrite <- Hp in Hc.
  rewrite Hc. repeat split; rewrite ?Hp.
  - rewrite Forall_forall. intros x [[] ?]%list_elem_of_filter. repeat split; congruence.
  - by apply contains_normalized.
  - by apply contains_normalized.
  - apply normalized_relative.
  - destruct (join slash _) eqn:E; [|unfold slen; simpl; lia].
    by apply join_empty in E; [|apply Forall_filter_significant].
  - by apply normalized_fits.
Qed.

Lemma workspace_path_normal_form_witness :
  try_new "./src//a/./b.rs" = Ok (mkPath "src/a/b.rs") /\
  components "src/a/b.rs" = filter significant (components "./src//a/./b.rs").
Proof.
  split; [vm_compute; reflexivity|].
  apply (workspace_path_normal_form "./src//a/./b.rs" (mkPath "src/a/b.rs")).
  vm_compute. reflexivity.
Defined.

(** re-validating the textual form of an accepted path (what serialization followed by
    deserialization does) returns the same path, unless its normal form begins with a drive
    letter, which is refused. *)
Theorem workspace_path_reparse raw p (H : try_new raw = Ok p) :
  try_new (as_str p) = if is_drive_prefixed (as_str p) then Err DrivePrefix else Ok p.
Proof. by eapply try_new_normalized. Qed.

Lemma workspace_path_reparse_witness : try_new "a/b" = Ok (mkPath "a/b").
Proof. apply (workspace_path_reparse "a/./b" (mkPath "a/b")). vm_compute. reflexivity. Defined.

(** The drive-prefix guard reads the raw input and not the normal form: a leading [./]
    carries a drive-prefixed path through it, and the accepted value does not deserialize. *)
Theorem workspace_path_drive_bypass :
  try_new "./C:/Windows" = Ok (mkPath "C:/Windows") /\
  try_new (as_str (mkPath "C:/Windows")) = Err DrivePrefix.
Proof. split; vm_compute; reflexivity. Qed.

End Paths.
