(* ===== verification/DomainReducer.v ===== *)
(** * Durable session events and their reducer

    Models [crates/codebox-domain/src/{event,reducer}.rs]: the version-1 event vocabulary, the
    immutable [SessionReducer] with every check of [apply] in the source's order, and the replay of
    a stream.  The abstract specification is the session state machine of docs/TD.md 4.2, as the
    relation [td_edge].  A [DateTime<Utc>] is an instant in [Z]. *)
From S2P Require Import Prelude DomainValues.
From stdpp Require Import base numbers list strings list_numbers.
From Stdlib Require Import ZArith Lia.
Import Ids Seqs.

Open Scope Z_scope.

(** ** Events (event.rs) *)
Module Events.

Definition DOMAIN_EVENT_SCHEMA_V1 : Z := 1.

Inductive ApprovalDecision := Approved | Denied.

Inductive DomainEventKind :=
| KSessionCreated | KSandboxProvisioned | KProvisioningFailed | KTurnStarted
| KApprovalRequested | KApprovalResolved | KTurnCancellationRequested | KTurnCancelled
| KTurnCompleted | KTurnFailed | KSessionIdled | KSessionResumed
| KSessionArchivingStarted | KSessionArchived.

Inductive DomainEvent :=
| SessionCreated
| SandboxProvisioned (sandbox_id : SandboxId)
| ProvisioningFailed
| TurnStarted (turn_id : TurnId)
| ApprovalRequested (turn_id : TurnId) (approval_id : ApprovalId)
| ApprovalResolved (turn_id : TurnId) (approval_id : ApprovalId) (decision : ApprovalDecision)
| TurnCancellationRequested (turn_id : TurnId)
| TurnCancelled (turn_id : TurnId)
| TurnCompleted (turn_id : TurnId)
| TurnFailed (turn_id : TurnId)
| SessionIdled
| SessionResumed
| SessionArchivingStarted
| SessionArchived.

#[export] Instance ApprovalDecision_eq_dec : EqDecision ApprovalDecision.
Proof. solve_decision. Defined.
#[export] Instance DomainEventKind_eq_dec : EqDecision DomainEventKind.
Proof. solve_decision. Defined.
#[export] Instance DomainEvent_eq_dec : EqDecision DomainEvent.
Proof. solve_decision. Defined.

Definition kind (e : DomainEvent) : DomainEventKind :=
  match e with
  | SessionCreated => KSessionCreated
  | SandboxProvisioned _ => KSandboxProvisioned
  | ProvisioningFailed => KProvisioningFailed
  | TurnStarted _ => KTurnStarted
  | ApprovalRequested _ _ => KApprovalRequested
  | ApprovalResolved _ _ _ => KApprovalResolved
  | TurnCancellationRequested _ => KTurnCancellationRequested
  | TurnCancelled _ => KTurnCancelled
  | TurnCompleted _ => KTurnCompleted
  | TurnFailed _ => KTurnFailed
  | SessionIdled => KSessionIdled
  | SessionResumed => KSessionResumed
  | SessionArchivingStarted => KSessionArchivingStarted
  | SessionArchived => KSessionArchived
  end.

Record DomainEventEnvelope := {
  event_id : Uuid;
  stream_id : SessionId;
  seq : EventSeq;
  schema_version : Z;
  occurred_at : Z;
  causation_id : option Uuid;
  correlation_id : Uuid;
  payload : DomainEvent }.

Inductive EventPersistence := Durable | Ephemeral.

Inductive RuntimeEventKind :=
| Domain (k : DomainEventKind)
| TextDelta | ReasoningSummaryDelta | TerminalDelta | ToolOutputDelta.

Definition persistence (k : RuntimeEventKind) : EventPersistence :=
  match k with
  | Domain _ => Durable
  | TextDelta | ReasoningSummaryDelta | TerminalDelta | ToolOutputDelta => Ephemeral
  end.

End Events.

(** ** The reducer (reducer.rs) *)
Module Reducer.
Import Events.

Inductive SessionStatus :=
| Provisioning | Ready | Running | WaitingApproval | Cancelling | Idle | Failed
| Archiving | Archived.

#[export] Instance SessionStatus_eq_dec : EqDecision SessionStatus.
Proof. solve_decision. Defined.

Record SessionProjection := {
  session_id : SessionId;
  status : SessionStatus;
  active_turn : option TurnId;
  pending_approval : option ApprovalId;
  sandbox_id : option SandboxId;
  last_activity : Z;
  last_seq : EventSeq }.

Inductive SessionReducerError :=
| WrongStream (expected actual : SessionId)
| SequenceOverflow (current : EventSeq)
| UnexpectedSequence (expected actual : EventSeq)
| UnsupportedSchemaVersion (supported actual : Z)
| SessionNotCreated (event : DomainEventKind)
| InvalidTransition (state : SessionStatus) (event : DomainEventKind)
| ActiveTurnMismatch (expected : option TurnId) (actual : TurnId)
| PendingApprovalMismatch (expected : option ApprovalId) (actual : ApprovalId).

Record SessionReducer := {
  r_stream_id : SessionId;
  r_last_seq : EventSeq;
  projection : option SessionProjection }.

Definition new (sid : SessionId) : SessionReducer :=
  {| r_stream_id := sid; r_last_seq := initial; projection := None |}.

Definition invalid_transition {A} (state : SessionStatus) (event : DomainEventKind)
  : result SessionReducerError A := Err (InvalidTransition state event).

Definition require_status (p : SessionProjection) (expected : SessionStatus)
    (event : DomainEventKind) : result SessionReducerError unit :=
  if bool_decide (status p = expected) then Ok tt else invalid_transition (status p) event.

Definition require_active_turn (p : SessionProjection) (actual : TurnId)
  : result SessionReducerError unit :=
  if bool_decide (active_turn p = Some actual) then Ok tt
  else Err (ActiveTurnMismatch (active_turn p) actual).

Definition require_pending_approval (p : SessionProjection) (actual : ApprovalId)
  : result SessionReducerError unit :=
  if bool_decide (pending_approval p = Some actual) then Ok tt
  else Err (PendingApprovalMismatch (pending_approval p) actual).

(** Field assignments on the mutable projection. *)
Definition with_status (s : SessionStatus) (p : SessionProjection) : SessionProjection :=
  {| session_id := session_id p; status := s; active_turn := active_turn p;
     pending_approval := pending_approval p; sandbox_id := sandbox_id p;
     last_activity := last_activity p; last_seq := last_seq p |}.
Definition with_active_turn (t : option TurnId) (p : SessionProjection) : SessionProjection :=
  {| session_id := session_id p; status := status p; active_turn := t;
     pending_approval := pending_approval p; sandbox_id := sandbox_id p;
     last_activity := last_activity p; last_seq := last_seq p |}.
Definition with_pending_approval (a : option ApprovalId) (p : SessionProjection)
  : SessionProjection :=
  {| session_id := session_id p; status := status p; active_turn := active_turn p;
     pending_approval := a; sandbox_id := sandbox_id p;
     last_activity := last_activity p; last_seq := last_seq p |}.
Definition with_sandbox_id (s : option SandboxId) (p : SessionProjection) : SessionProjection :=
  {| session_id := session_id p; status := status p; active_turn := active_turn p;
     pending_approval := pending_approval p; sandbox_id := s;
     last_activity := last_activity p; last_seq := last_seq p |}.
Definition with_position (at_ : Z) (s : EventSeq) (p : SessionProjection) : SessionProjection :=
  {| session_id := session_id p; status := status p; active_turn := active_turn p;
     pending_approval := pending_approval p; sandbox_id := sandbox_id p;
     last_activity := at_; last_seq := s |}.

Definition apply_transition (p : SessionProjection) (event : DomainEvent)
  : result SessionReducerError SessionProjection :=
  let event_kind := kind event in
  match event with
  | SessionCreated => invalid_transition (status p) event_kind
  | SandboxProvisioned sandbox =>
      let? _ := require_status p Provisioning event_kind in
      Ok (with_sandbox_id (Some sandbox) (with_status Ready p))
  | ProvisioningFailed =>
      let? _ := require_status p Provisioning event_kind in
      Ok (with_status Failed p)
  | TurnStarted turn =>
      let? _ := require_status p Ready event_kind in
      Ok (with_active_turn (Some turn) (with_status Running p))
  | ApprovalRequested turn approval =>
      let? _ := require_status p Running event_kind in
      let? _ := require_active_turn p turn in
      Ok (with_pending_approval (Some approval) (with_status WaitingApproval p))
  | ApprovalResolved turn approval _ =>
      let? _ := require_status p WaitingApproval event_kind in
      let? _ := require_active_turn p turn in
      let? _ := require_pending_approval p approval in
      Ok (with_pending_approval None (with_status Running p))
  | TurnCancellationRequested turn =>
      let? _ := require_status p Running event_kind in
      let? _ := require_active_turn p turn in
      Ok (with_status Cancelling p)
  | TurnCancelled turn =>
      let? _ := require_status p Cancelling event_kind in
      let? _ := require_active_turn p turn in
      Ok (with_active_turn None (with_status Ready p))
  | TurnCompleted turn =>
      let? _ := require_status p Running event_kind in
      let? _ := require_active_turn p turn in
      Ok (with_active_turn None (with_status Ready p))
  | TurnFailed turn =>
      let? _ := require_status p Running event_kind in
      let? _ := require_active_turn p turn in
      Ok (with_active_turn None (with_status Failed p))
  | SessionIdled =>
      let? _ := require_status p Ready event_kind in
      Ok (with_status Idle p)
  | SessionResumed =>
      let? _ := require_status p Idle event_kind in
      Ok (with_status Ready p)
  | SessionArchivingStarted =>
      match status p with
      | Ready | Idle | Failed => Ok (with_status Archiving p)
      | _ => invalid_transition (status p) event_kind
      end
  | SessionArchived =>
      let? _ := require_status p Archiving event_kind in
      Ok (with_status Archived p)
  end.

Definition apply (r : SessionReducer) (event : DomainEventEnvelope)
  : result SessionReducerError SessionReducer :=
  if bool_decide (stream_id event <> r_stream_id r) then
    Err (WrongStream (r_stream_id r) (stream_id event))
  else
  let? expected_seq :=
    map_err (fun _ => SequenceOverflow (r_last_seq r)) (checked_next (r_last_seq r)) in
  if bool_decide (seq event <> expected_seq) then
    Err (UnexpectedSequence expected_seq (seq event))
  else if bool_decide (schema_version event <> DOMAIN_EVENT_SCHEMA_V1) then
    Err (UnsupportedSchemaVersion DOMAIN_EVENT_SCHEMA_V1 (schema_version event))
  else
  let? next :=
    match projection r with
    | None =>
        if bool_decide (payload event <> SessionCreated) then
          Err (SessionNotCreated (kind (payload event)))
        else
          Ok {| session_id := r_stream_id r; status := Provisioning; active_turn := None;
                pending_approval := None; sandbox_id := None;
                last_activity := occurred_at event; last_seq := seq event |}
    | Some current =>
        let? next := apply_transition current (payload event) in
        Ok (with_position (occurred_at event) (seq event) next)
    end in
  Ok {| r_stream_id := r_stream_id r; r_last_seq := seq event; projection := Some next |}.

(** Replay of a stream, stopping at the first refused event. *)
Fixpoint replay (r : SessionReducer) (events : list DomainEventEnvelope)
  : result SessionReducerError SessionReducer :=
  match events with
  | [] => Ok r
  | e :: rest => let? r' := apply r e in replay r' rest
  end.

(** ** Abstract specification: the state machine of docs/TD.md 4.2 *)

Inductive td_edge : SessionStatus -> SessionStatus -> Prop :=
| td_provisioned : td_edge Provisioning Ready
| td_provision_failed : td_edge Provisioning Failed
| td_start_turn : td_edge Ready Running
| td_wait_approval : td_edge Running WaitingApproval
| td_resolve_approval : td_edge WaitingApproval Running
| td_cancel_turn : td_edge Running Cancelling
| td_cancelled : td_edge Cancelling Ready
| td_turn_completed : td_edge Running Ready
| td_turn_failed : td_edge Running Failed
| td_idle_timeout : td_edge Ready Idle
| td_resume : td_edge Idle Ready
| td_archive : td_edge Ready Archiving
| td_ttl : td_edge Idle Archiving
| td_archive_failed : td_edge Failed Archiving
| td_archived : td_edge Archiving Archived.
#[export] Hint Constructors td_edge : codebox.

(** ** Well-formed projections *)

Definition has_turn (s : SessionStatus) : bool :=
  match s with Running | WaitingApproval | Cancelling => true | _ => false end.

Definition has_sandbox (s : SessionStatus) : bool :=
  match s with Ready | Running | WaitingApproval | Cancelling | Idle => true | _ => false end.

Definition wf_projection (p : SessionProjection) : Prop :=
  (is_Some (active_turn p) <-> has_turn (status p) = true) /\
  (is_Some (pending_approval p) <-> status p = WaitingApproval) /\
  (has_sandbox (status p) = true -> is_Some (sandbox_id p)) /\
  (status p = Provisioning -> sandbox_id p = None).

Definition wf_reducer (r : SessionReducer) : Prop :=
  seq_wf (r_last_seq r) /\
  match projection r with
  | None => r_last_seq r = initial
  | Some p => session_id p = r_stream_id r /\ last_seq p = r_last_seq r /\ wf_projection p
  end.

(** Case analysis on the guards of a transition. *)
Ltac cases_transition :=
  unfold apply_transition, require_status, require_active_turn, require_pending_approval,
    invalid_transition in *;
  repeat (case_bool_decide || break_match); simplify_eq.

Lemma apply_transition_edge p e p' :
  apply_transition p e = Ok p' -> td_edge (status p) (status p').
Proof. destruct e; intros H; cases_transition; simpl; simplify_eq; simpl; auto with codebox;
  match goal with H : status _ = _ |- _ => rewrite H; auto with codebox end.
Qed.

Lemma apply_transition_frame p e p' :
  apply_transition p e = Ok p' ->
  session_id p' = session_id p /\ last_seq p' = last_seq p /\ e <> SessionCreated.
Proof. destruct e; intros H; cases_transition; done. Qed.

Lemma apply_transition_wf p e p' :
  wf_projection p -> apply_transition p e = Ok p' -> wf_projection p'.
Proof.
  unfold wf_projection. intros (Ht & Ha & Hs & Hn) H.
  destruct e; cases_transition; simpl;
    repeat match goal with H : status _ = _ |- _ => rewrite H in * end; simpl in *;
    repeat split; intros; simplify_eq; try done; eauto; try tauto; naive_solver.
Qed.

(** Every edge of the diagram is taken by some event. *)
Lemma td_edge_realized p s' :
  wf_projection p -> td_edge (status p) s' ->
  exists e p', apply_transition p e = Ok p' /\ status p' = s'.
Proof.
  intros (Ht & Ha & _ & _) H.
  assert (Hturn : has_turn (status p) = true -> exists t, active_turn p = Some t)
    by (intros ?; by apply Ht).
  assert (Happ : status p = WaitingApproval -> exists a, pending_approval p = Some a)
    by (intros ?; by apply Ha).
  assert (Hwit : exists e, match apply_transition p e with Ok p' => status p' = s' | _ => False end).
  { unfold apply_transition, require_status, require_active_turn, require_pending_approval.
    inversion H as [E|E|E|E|E|E|E|E|E|E|E|E|E|E|E]; rewrite <- E in *; simpl in *;
      try destruct (Hturn eq_refl) as [t Et]; try destruct (Happ eq_refl) as [a Ea];
      [exists (SandboxProvisioned (mkId 1))|exists ProvisioningFailed|exists (TurnStarted (mkId 1))
      |exists (ApprovalRequested t (mkId 1))|exists (ApprovalResolved t a Approved)
      |exists (TurnCancellationRequested t)|exists (TurnCancelled t)|exists (TurnCompleted t)
      |exists (TurnFailed t)|exists SessionIdled|exists SessionResumed
      |exists SessionArchivingStarted..|exists SessionArchived];
      rewrite ?Et, ?Ea, ?bool_decide_eq_true_2; done. }
  destruct Hwit as [e He]. destruct (apply_transition p e) as [p'|] eqn:E; [|done]. eauto.
Qed.

(** The checks before the transition, as a proposition. *)
Definition accepts (r : SessionReducer) (e : DomainEventEnvelope) : Prop :=
  stream_id e = r_stream_id r /\ value (seq e) = value (r_last_seq r) + 1 /\
  value (r_last_seq r) < u64_max /\ schema_version e = DOMAIN_EVENT_SCHEMA_V1.

Lemma apply_Ok r e r' :
  apply r e = Ok r' ->
  accepts r e /\ r_stream_id r' = r_stream_id r /\ r_last_seq r' = seq e /\
  match projection r with
  | None => payload e = SessionCreated /\
      projection r' = Some {| session_id := r_stream_id r; status := Provisioning;
        active_turn := None; pending_approval := None; sandbox_id := None;
        last_activity := occurred_at e; last_seq := seq e |}
  | Some p => exists p', apply_transition p (payload e) = Ok p' /\
      projection r' = Some (with_position (occurred_at e) (seq e) p')
  end.
Proof.
  unfold apply, accepts. case_bool_decide as Hs; [done|].
  destruct (checked_next _) as [n|] eqn:En; simpl; [|done].
  apply checked_next_Ok in En as [En ?].
  case_bool_decide as Hq; [done|]. case_bool_decide as Hv; [done|].
  rewrite Hq.
  destruct (projection r) as [p|].
  - destruct (apply_transition p (payload e)) eqn:Ea; [|done]. intros [= <-]. simpl.
    repeat split; eauto.
  - case_bool_decide as Hp; [done|]. intros [= <-]. simpl.
    repeat split; eauto.
Qed.

Lemma apply_wf r e r' : wf_reducer r -> apply r e = Ok r' -> wf_reducer r'.
Proof.
  intros [Hq Hp] ((_ & Hs & Hm & _) & Hr & Hl & H)%apply_Ok. unfold wf_reducer.
  rewrite Hl, Hr. split; [unfold seq_wf, in_u64 in *; lia|].
  destruct (projection r) as [p|].
  - destruct H as (p' & Ht & ->), Hp as (Hsid & _ & Hw). simpl.
    pose proof (apply_transition_frame _ _ _ Ht) as (-> & _ & _).
    repeat split; try done; eapply (apply_transition_wf p) in Ht; eauto; apply Ht.
  - destruct H as (_ & ->). simpl. repeat split; simpl; try done; by intros [].
Qed.

Lemma new_wf sid : wf_reducer (new sid).
Proof. split; [split; done|done]. Qed.

Lemma replay_wf r es r' : wf_reducer r -> replay r es = Ok r' -> wf_reducer r'.
Proof.
  revert r. induction es as [|e es IH]; simpl; intros r Hr H; [by simplify_eq|].
  destruct (apply r e) eqn:E; [|done]. eauto using apply_wf.
Qed.
#[export] Hint Resolve apply_wf new_wf replay_wf : codebox.

(** Sequence numbers, stream and version of a replayed suffix. *)
Lemma replay_shape r es r' :
  replay r es = Ok r' ->
  map (fun e => value (seq e)) es = seqZ (value (r_last_seq r) + 1) (len es) /\
  Forall (fun e => stream_id e = r_stream_id r /\ schema_version e = DOMAIN_EVENT_SCHEMA_V1) es /\
  r_stream_id r' = r_stream_id r /\ value (r_last_seq r') = value (r_last_seq r) + len es /\
  (is_Some (projection r) -> Forall (fun e => payload e <> SessionCreated) es).
Proof.
  revert r. induction es as [|e es IH]; simpl; intros r H.
  { simplify_eq. unfold len. simpl. rewrite Z.add_0_r. eauto. }
  destruct (apply r e) as [r1|] eqn:E; [|done].
  apply apply_Ok in E as ((H1 & H2 & H3 & H4) & Hs & Hl & Hp).
  destruct (IH _ H) as (IHq & IHf & IHs & IHl & IHc). rewrite Hl, Hs in *.
  unfold len in *. simpl length. rewrite Nat2Z.inj_succ, seqZ_cons by lia.
  rewrite IHq, H2. repeat split; [| |done|lia|].
  - do 2 f_equal; lia.
  - constructor; [done|]. by rewrite IHs || done.
  - intros [p Ep]. rewrite Ep in Hp. destruct Hp as (p' & Ht & Hp'). constructor.
    + by apply apply_transition_frame in Ht as (_ & _ & ?).
    + apply IHc. by rewrite Hp'.
Qed.

(** The next envelope of a stream carrying a given event. *)
Definition next_envelope (r : SessionReducer) (e : DomainEvent) : DomainEventEnvelope :=
  {| event_id := 1; stream_id := r_stream_id r; seq := mkSeq (value (r_last_seq r) + 1);
     schema_version := DOMAIN_EVENT_SCHEMA_V1; occurred_at := 0; causation_id := None;
     correlation_id := 1; payload := e |}.

Lemma apply_next_envelope r p e p' :
  value (r_last_seq r) < u64_max -> projection r = Some p -> apply_transition p e = Ok p' ->
  exists r' q, apply r (next_envelope r e) = Ok r' /\ projection r' = Some q /\ status q = status p'.
Proof.
  intros Hm Hp Ht. unfold apply. simpl. rewrite bool_decide_eq_false_2 by auto.
  unfold checked_next, u64_checked_add. rewrite (proj2 (Z.leb_le _ _)) by lia. simpl.
  rewrite !bool_decide_eq_false_2 by auto. rewrite Hp, Ht. eauto.
Qed.

(** C29: refinement of the session state machine of docs/TD.md 4.2.  After any accepted stream, and
    as long as the 64-bit sequence is not exhausted, the statuses some next event can lead to are
    exactly the successors of the current status in the diagram: the reducer takes no edge the
    diagram lacks, and blocks no edge it has. *)
Theorem reducer_implements_td_machine sid es r p s'
  (Hr : replay (new sid) es = Ok r) (Hp : projection r = Some p)
  (Hm : value (r_last_seq r) < u64_max) :
  (exists e r' p', apply r e = Ok r' /\ projection r' = Some p' /\ status p' = s')
  <-> td_edge (status p) s'.
Proof.
  assert (Hw : wf_reducer r) by eauto with codebox. destruct Hw as [_ Hw]. rewrite Hp in Hw.
  split.
  - intros (e & r' & p' & (_ & _ & _ & Ha)%apply_Ok & Hp' & <-). rewrite Hp in Ha.
    destruct Ha as (q & Ht & Eq). rewrite Eq in Hp'. simplify_eq. simpl.
    by eapply apply_transition_edge.
  - intros (e & p' & Ht & <-)%td_edge_realized; [|apply Hw].
    destruct (apply_next_envelope r p e p') as (r' & q & Ha & Hq & Es); eauto 10.
Qed.

(** The concrete stream the witnesses replay. *)
Definition sample_session : SessionId := mkId 7.
Definition sample_envelope (n : Z) (e : DomainEvent) : DomainEventEnvelope :=
  {| event_id := n; stream_id := sample_session; seq := mkSeq n;
     schema_version := DOMAIN_EVENT_SCHEMA_V1; occurred_at := 10 * n; causation_id := None;
     correlation_id := 99; payload := e |}.
Definition sample_stream : list DomainEventEnvelope :=
  [sample_envelope 1 SessionCreated; sample_envelope 2 (SandboxProvisioned (mkId 3));
   sample_envelope 3 (TurnStarted (mkId 4)); sample_envelope 4 (ApprovalRequested (mkId 4) (mkId 5))].
Definition sample_projection : SessionProjection :=
  {| session_id := sample_session; status := WaitingApproval; active_turn := Some (mkId 4);
     pending_approval := Some (mkId 5); sandbox_id := Some (mkId 3); last_activity := 40;
     last_seq := mkSeq 4 |}.
Definition sample_reducer : SessionReducer :=
  {| r_stream_id := sample_session; r_last_seq := mkSeq 4; projection := Some sample_projection |}.

Lemma reducer_implements_td_machine_witness :
  (exists e r' p', apply sample_reducer e = Ok r' /\ projection r' = Some p' /\ status p' = Running).
Proof.
  apply (reducer_implements_td_machine sample_session sample_stream sample_reducer
           sample_projection Running); [reflexivity|reflexivity|reflexivity|].
  constructor.
Defined.

(** The projection of an accepted stream is consistent.  A turn is active exactly while the
    session is running, waiting for an approval or cancelling; an approval is pending exactly while
    it waits for one; the sandbox is known in every state after provisioning succeeded; and the
    projection's identity and high-water are the reducer's. *)
Theorem replayed_projection_consistent sid es r p
  (Hr : replay (new sid) es = Ok r) (Hp : projection r = Some p) :
  wf_projection p /\ session_id p = sid /\ last_seq p = r_last_seq r.
Proof.
  assert (Hw : wf_reducer r) by eauto with codebox. destruct Hw as [_ Hw]. rewrite Hp in Hw.
  apply replay_shape in Hr as (_ & _ & Hs & _). destruct Hw as (-> & ? & ?). auto.
Qed.

Lemma replayed_projection_consistent_witness :
  wf_projection sample_projection /\ session_id sample_projection = sample_session /\
  last_seq sample_projection = r_last_seq sample_reducer.
Proof.
  apply (replayed_projection_consistent sample_session sample_stream sample_reducer
           sample_projection); reflexivity.
Defined.

(** Shape of every accepted stream.  Its sequence numbers are 1, 2, .., n without gap or
    repetition, every event belongs to the stream and has schema version 1, the first event and no
    later one is [SessionCreated], and the reducer's high-water is n. *)
Theorem accepted_stream_shape sid es r (Hr : replay (new sid) es = Ok r) :
  map (fun e => value (seq e)) es = seqZ 1 (len es) /\
  Forall (fun e => stream_id e = sid /\ schema_version e = DOMAIN_EVENT_SCHEMA_V1) es /\
  value (r_last_seq r) = len es /\
  (forall e rest, es = e :: rest ->
     payload e = SessionCreated /\ Forall (fun e' => payload e' <> SessionCreated) rest).
Proof.
  pose proof (replay_shape _ _ _ Hr) as (Hq & Hf & _ & Hl & _). repeat split; try done.
  - destruct es as [|e' rest']; [done|]. simplify_eq. simpl in Hr.
    destruct (apply _ _) eqn:E; [|done]. apply apply_Ok in E as (_ & _ & _ & H). apply H.
  - simplify_eq. simpl in Hr. destruct (apply _ _) as [r1|] eqn:E; [|done].
    apply apply_Ok in E as (_ & _ & _ & [_ Hp]). apply replay_shape in Hr as (_ & _ & _ & _ & Hc).
    apply Hc. by rewrite Hp.
Qed.

Lemma accepted_stream_shape_witness :
  map (fun e => value (seq e)) sample_stream = seqZ 1 4 /\ value (r_last_seq sample_reducer) = 4.
Proof.
  destruct (accepted_stream_shape sample_session sample_stream sample_reducer eq_refl)
    as (Hq & _ & Hl & _). split; [exact Hq|exact Hl].
Defined.

End Reducer.
