(* ===== verification/CloudTypes.v ===== *)
(** * Values shared by the Cloud layers

    Models the parts of [crates/codebox-agent-codex/src] every Cloud component speaks in:
    [CloudTaskId] and [CloudTaskStatus] (cloud.rs), operation identities, submissions, runner
    errors and observations (cloud_runner_types.rs), the lifecycle and its errors
    (cloud_lifecycle_types.rs), and the diff error categories (cloud_diff.rs). *)
From S2P Require Import Prelude DomainValues.
From stdpp Require Import base numbers list strings.
From Stdlib Require Import ZArith Lia.
Import Ids Str.

Open Scope Z_scope.

(** ** ASCII classes used by the validators *)
Definition byte (c : Ascii.ascii) : Z := Z.of_nat (Ascii.nat_of_ascii c).
Definition in_range (lo hi n : Z) : bool := (lo <=? n) && (n <=? hi).
Definition is_ascii_digit (c : Ascii.ascii) : bool := in_range 48 57 (byte c).
Definition is_ascii_uppercase (c : Ascii.ascii) : bool := in_range 65 90 (byte c).
Definition is_ascii_alphanumeric (c : Ascii.ascii) : bool :=
  is_ascii_digit c || is_ascii_uppercase c || in_range 97 122 (byte c).
Definition is_ascii_control (c : Ascii.ascii) : bool := (byte c <? 32) || (byte c =? 127).

(** [str::parse::<usize>] and [::<u64>]: digits after an optional plus sign, in range. *)
Fixpoint parse_decimal (acc : Z) (s : string) : option Z :=
  match s with
  | EmptyString => Some acc
  | String c rest =>
      if is_ascii_digit c then
        let acc := acc * 10 + (byte c - 48) in
        if usize_max <? acc then None else parse_decimal acc rest
      else None
  end.

Definition parse_usize (s : string) : option Z :=
  match s with
  | EmptyString => None
  | String c rest =>
      if byte c =? 43 then match rest with EmptyString => None | _ => parse_decimal 0 rest end
      else parse_decimal 0 s
  end.

Fixpoint all_bytes (f : Ascii.ascii -> bool) (s : string) : bool :=
  match s with EmptyString => true | String c rest => f c && all_bytes f rest end.

Definition any_byte (f : Ascii.ascii -> bool) (s : string) : bool :=
  negb (all_bytes (fun c => negb (f c)) s).

(** ** Adapter errors (cloud.rs) *)
Inductive CloudField :=
| FEnvironment | FBranch | FPrompt | FTaskId | FTaskUrl | FCursor | FStatus | FTitle | FUpdatedAt
| FEnvironmentId | FEnvironmentLabel | FFilesChanged | FLinesAdded | FLinesRemoved | FAttempts
| FList | FDiff | FStdout | FStderr | FExitStatus | FVersion.

Inductive CloudErrorCategory :=
| CEmpty | CTooLong | CControlCharacter | CLeadingHyphen | CReservedValue | CInvalidFormat
| CInvalidUtf8 | COverflow | CMissing | CUnexpected | CDuplicate | CLimitExceeded | CProviderDrift.

Record CloudAdapterError := mkAdapterError { ae_field : CloudField; ae_category : CloudErrorCategory }.

#[export] Instance CloudField_eq_dec : EqDecision CloudField.
Proof. solve_decision. Defined.
#[export] Instance CloudErrorCategory_eq_dec : EqDecision CloudErrorCategory.
Proof. solve_decision. Defined.
#[export] Instance CloudAdapterError_eq_dec : EqDecision CloudAdapterError.
Proof. solve_decision. Defined.

(** ** Task identity and status (cloud.rs) *)
Definition MAX_TASK_ID_BYTES : Z := 128.

Record CloudTaskId := mkTask { task_str : string }.
#[export] Instance CloudTaskId_eq_dec : EqDecision CloudTaskId.
Proof. solve_decision. Defined.

(** A prompt; only its constructor and the command line look inside. *)
Record CloudPrompt := mkPrompt { prompt_str : string }.

Definition task_id_byte (c : Ascii.ascii) : bool :=
  is_ascii_alphanumeric c || (byte c =? 95) || (byte c =? 45).

Definition CloudTaskId_try_new (value : string) : result CloudAdapterError CloudTaskId :=
  if bool_decide (value = "") then Err (mkAdapterError FTaskId CEmpty)
  else if MAX_TASK_ID_BYTES <? slen value then Err (mkAdapterError FTaskId CTooLong)
  else if negb (String.prefix "task_" value) || negb (all_bytes task_id_byte value) then
    Err (mkAdapterError FTaskId CInvalidFormat)
  else Ok (mkTask value).

Inductive CloudTaskStatus := TPending | TReady | TApplied | TError.
#[export] Instance CloudTaskStatus_eq_dec : EqDecision CloudTaskStatus.
Proof. solve_decision. Defined.

(** A task identity that came through its validating constructor. *)
Definition valid_task (t : CloudTaskId) : Prop := CloudTaskId_try_new (task_str t) = Ok t.

Lemma CloudTaskId_try_new_Ok s t : CloudTaskId_try_new s = Ok t -> t = mkTask s /\ valid_task t.
Proof.
  unfold valid_task. intros H. assert (t = mkTask s) as ->; [|done].
  unfold CloudTaskId_try_new in H. repeat break_match; simplify_eq; done.
Qed.

(** The loop of both ledgers over their recorded candidates. *)
Fixpoint check_candidates {X} (invalid : X) (seen : list CloudTaskId) (cs : list string) : result X unit :=
  match cs with
  | [] => Ok tt
  | c :: rest =>
      let? t := map_err (fun _ => invalid) (CloudTaskId_try_new c) in
      if bool_decide (t ∈ seen) then Err invalid else check_candidates invalid (t :: seen) rest
  end.

Lemma check_candidates_Ok {X} (invalid : X) cs seen :
  check_candidates invalid seen cs = Ok tt <->
  Forall (fun c => valid_task (mkTask c)) cs /\ NoDup cs /\ forall c, c ∈ cs -> mkTask c ∉ seen.
Proof.
  revert seen. induction cs as [|c cs IH]; intros seen; simpl.
  { split; [|done]. intros _. split_and!; [done|apply NoDup_nil_2|]. intros c H. by inversion H. }
  rewrite Forall_cons, NoDup_cons. setoid_rewrite elem_of_cons. unfold map_err.
  destruct (CloudTaskId_try_new c) as [t|] eqn:E.
  2:{ split; [done|]. intros ((Hv & _) & _). unfold valid_task in Hv. simpl in Hv. congruence. }
  destruct (CloudTaskId_try_new_Ok _ _ E) as [-> Hv].
  destruct (decide (mkTask c ∈ seen)) as [Hin|Hin].
  - rewrite bool_decide_true by done. split; [done|]. intros (_ & _ & Hs). by destruct (Hs c); [left|].
  - rewrite bool_decide_false, IH by done. setoid_rewrite elem_of_cons. split.
    + intros (HF & Hnd & Hs). split_and!; [done|done| |done|].
      * intros Hc. apply (Hs c Hc). by left.
      * intros x [->|Hx]; [done|]. intros Hx'. apply (Hs x Hx). by right.
    + intros ((_ & HF) & (Hc & Hnd) & Hs). split_and!; [done|done|].
      intros x Hx [[= ->]|Hx']; [done|]. by apply (Hs x); [right|].
Qed.

Lemma map_task_str_valid ts :
  Forall valid_task ts -> Forall (fun c => valid_task (mkTask c)) (map task_str ts).
Proof. induction 1 as [|[s] ts Ht _ IH]; simpl; constructor; done. Qed.

(** ** Operations, submissions, runner errors (cloud_runner_types.rs) *)
Record CloudSubmitOperationId := mkOp { op_uuid : Uuid }.
#[export] Instance CloudSubmitOperationId_eq_dec : EqDecision CloudSubmitOperationId.
Proof. solve_decision. Defined.

Record CloudSubmission := mkSubmission { sub_operation_id : CloudSubmitOperationId; sub_task_id : CloudTaskId }.

Inductive CloudSubmitObservation :=
| OAbsent
| OFailedBeforeSpawn
| OOutcomeUnknown
| OTaskRecorded (submission : CloudSubmission)
| OExplicitlyAbandoned.

Inductive CloudUnknownResolution :=
| RAdoptListedTask (task : CloudTaskId)
| RExplicitlyAbandon.

Inductive CloudRunnerErrorCategory :=
| RunScope | RunBusy | RunVersion | RunNotAuthenticated | RunLoginOutcomeUnknown
| RunDiagnosticBoundary | RunLedgerInvalid | RunLedgerUnavailable | RunProcess | RunTimeout
| RunCanceledBeforeStart | RunProviderOutput | RunOutcomeUnknown | RunRecoveryRequired
| RunPriorFailedBeforeSpawn | RunPriorExplicitlyAbandoned | RunReconciliationCycle
| RunNoUnknownOperation | RunOperationConflict | RunResolutionUnavailable
| RunResolutionConflict | RunCandidateNotRecorded.

Record CloudRunnerError := mkRunErr {
  re_category : CloudRunnerErrorCategory; re_operation_id : option CloudSubmitOperationId }.

Definition run_err (c : CloudRunnerErrorCategory) : CloudRunnerError := mkRunErr c None.
Definition run_err_for (c : CloudRunnerErrorCategory) (op : CloudSubmitOperationId) : CloudRunnerError :=
  mkRunErr c (Some op).

#[export] Instance CloudSubmission_eq_dec : EqDecision CloudSubmission.
Proof. solve_decision. Defined.
#[export] Instance CloudSubmitObservation_eq_dec : EqDecision CloudSubmitObservation.
Proof. solve_decision. Defined.
#[export] Instance CloudUnknownResolution_eq_dec : EqDecision CloudUnknownResolution.
Proof. solve_decision. Defined.
#[export] Instance CloudRunnerErrorCategory_eq_dec : EqDecision CloudRunnerErrorCategory.
Proof. solve_decision. Defined.
#[export] Instance CloudRunnerError_eq_dec : EqDecision CloudRunnerError.
Proof. solve_decision. Defined.

(** ** The lifecycle and its errors (cloud_lifecycle_types.rs) *)
Inductive CloudLifecycle :=
| LSubmitting (operation_id : CloudSubmitOperationId)
| LFailedBeforeSubmit (operation_id : CloudSubmitOperationId)
| LOutcomeUnknown (operation_id : CloudSubmitOperationId)
| LPending (operation_id : CloudSubmitOperationId) (task_id : CloudTaskId)
| LReady (operation_id : CloudSubmitOperationId) (task_id : CloudTaskId)
| LApplied (operation_id : CloudSubmitOperationId) (task_id : CloudTaskId)
| LProviderError (operation_id : CloudSubmitOperationId) (task_id : CloudTaskId)
| LCanceledLocally (operation_id : CloudSubmitOperationId) (task_id : option CloudTaskId)
    (provider_may_continue : bool)
| LAbandonedUnknown (operation_id : CloudSubmitOperationId).
#[export] Instance CloudLifecycle_eq_dec : EqDecision CloudLifecycle.
Proof. solve_decision. Defined.

Definition lifecycle_operation_id (l : CloudLifecycle) : CloudSubmitOperationId :=
  match l with
  | LSubmitting o | LFailedBeforeSubmit o | LOutcomeUnknown o | LPending o _ | LReady o _
  | LApplied o _ | LProviderError o _ | LCanceledLocally o _ _ | LAbandonedUnknown o => o
  end.

Definition lifecycle_task_id (l : CloudLifecycle) : option CloudTaskId :=
  match l with
  | LPending _ t | LReady _ t | LApplied _ t | LProviderError _ t => Some t
  | LCanceledLocally _ t _ => t
  | LSubmitting _ | LFailedBeforeSubmit _ | LOutcomeUnknown _ | LAbandonedUnknown _ => None
  end.

(** [DuplicateRiskAcknowledgement] is the operation it acknowledges. *)
Inductive UnknownSubmitDecision :=
| AdoptListedTask (task : CloudTaskId)
| AbandonAfterReconciliation (acknowledged : CloudSubmitOperationId).

Inductive CloudLifecycleErrorCategory :=
| EScope | EBusy | ETurnAlreadyRunning | ENoCurrentOperation | EWrongState | EStaleDecision
| ETaskNotListed | EAcknowledgementRequired | ELowerRunner | EProviderRead | EOperationConflict
| EOutcomeUnknown | ELedgerInvalid | ELedgerUnavailable | ERecoveryRequired.

Record CloudLifecycleError := mkLifeErr {
  le_category : CloudLifecycleErrorCategory; le_operation_id : option CloudSubmitOperationId }.

Definition life_err (c : CloudLifecycleErrorCategory) : CloudLifecycleError := mkLifeErr c None.
Definition life_err_for (c : CloudLifecycleErrorCategory) (op : CloudSubmitOperationId)
  : CloudLifecycleError := mkLifeErr c (Some op).

#[export] Instance UnknownSubmitDecision_eq_dec : EqDecision UnknownSubmitDecision.
Proof. solve_decision. Defined.
#[export] Instance CloudLifecycleErrorCategory_eq_dec : EqDecision CloudLifecycleErrorCategory.
Proof. solve_decision. Defined.
#[export] Instance CloudLifecycleError_eq_dec : EqDecision CloudLifecycleError.
Proof. solve_decision. Defined.

(** ** Diff errors (cloud_diff.rs) *)
Inductive CloudDiffReadErrorCategory :=
| DIneligibleLifecycle | DAuthorityMismatch | DScope | DBusy | DVersion | DDiagnosticBoundary
| DProcess | DTimeout | DCanceled | DOutputLimit | DProviderDrift | DInvalidDiff.
#[export] Instance CloudDiffReadErrorCategory_eq_dec : EqDecision CloudDiffReadErrorCategory.
Proof. solve_decision. Defined.
