(* ===== verification/SessionTypes.v ===== *)
(** * Types of the process-lifetime P0 session

    Models [crates/codebox-session-runtime/src/{config,error,types}.rs]: the validated
    configuration, the redacted error record with its constructors, and the projections, snapshots
    and events published by the runtime.  A [Duration] is a number of nanoseconds. *)
From S2P Require Import Prelude DomainValues CloudTypes.
From stdpp Require Import base numbers list strings.
From Stdlib Require Import ZArith Lia.
Import Ids Seqs.

Open Scope Z_scope.

(** ** Durations *)
Definition NANOS_PER_SEC : Z := 1000000000.
Definition from_secs (s : Z) : Z := s * NANOS_PER_SEC.
Definition from_millis (m : Z) : Z := m * 1000000.
(** [Duration::MAX]: [u64] seconds and 999999999 nanoseconds. *)
Definition DURATION_MAX : Z := u64_max * NANOS_PER_SEC + 999999999.
Definition duration_checked_mul (d k : Z) : option Z :=
  if d * k <=? DURATION_MAX then Some (d * k) else None.

(** ** Configuration (config.rs) *)
Module Config.

Definition MAX_BACKOFF : Z := from_secs 60.
Definition DEFAULT_POLL_INTERVAL : Z := from_secs 2.
Definition MIN_POLL_INTERVAL : Z := from_millis 250.
Definition MAX_POLL_INTERVAL : Z := from_secs 60.
Definition DEFAULT_HISTORY_CAPACITY : Z := 256.
Definition MIN_HISTORY_CAPACITY : Z := 64.
Definition MAX_HISTORY_CAPACITY : Z := 1024.
Definition DEFAULT_MAX_SUBSCRIBERS : Z := 8.
Definition MIN_MAX_SUBSCRIBERS : Z := 1.
Definition MAX_MAX_SUBSCRIBERS : Z := 32.
Definition DEFAULT_LIVE_CAPACITY : Z := 32.
Definition MIN_LIVE_CAPACITY : Z := 8.
Definition MAX_LIVE_CAPACITY : Z := 256.

Record P0SessionConfig := {
  poll_interval : Z;
  history_capacity : Z;
  max_subscribers : Z;
  live_capacity : Z }.

Inductive P0SessionConfigField := PollInterval | HistoryCapacity | MaxSubscribers | LiveCapacity.

End Config.
Import Config.

(** ** Errors (error.rs) *)
Module Errors.

Inductive P0SessionErrorCategory :=
| InvalidConfig | TurnAlreadyRunning | NoCurrentTurn | WrongState | WrongSession | WrongOperation
| RuntimeStopped | CloudLifecycleFailed | CloudDiffFailed | HistoryGap | FutureCursor
| SubscriberLimit | SequenceExhausted | LowerConflict.

Record P0SessionError := {
  category : P0SessionErrorCategory;
  turn_id : option TurnId;
  operation_id : option CloudSubmitOperationId;
  oldest_available : option EventSeq;
  latest_available : option EventSeq;
  cloud_lifecycle : option CloudLifecycleErrorCategory;
  cloud_diff : option CloudDiffReadErrorCategory;
  config_field : option P0SessionConfigField }.

Definition new (c : P0SessionErrorCategory) : P0SessionError :=
  {| category := c; turn_id := None; operation_id := None; oldest_available := None;
     latest_available := None; cloud_lifecycle := None; cloud_diff := None; config_field := None |}.

Definition invalid_config (f : P0SessionConfigField) : P0SessionError :=
  {| category := InvalidConfig; turn_id := None; operation_id := None; oldest_available := None;
     latest_available := None; cloud_lifecycle := None; cloud_diff := None;
     config_field := Some f |}.

Definition for_turn (c : P0SessionErrorCategory) (t : TurnId) : P0SessionError :=
  {| category := c; turn_id := Some t; operation_id := None; oldest_available := None;
     latest_available := None; cloud_lifecycle := None; cloud_diff := None; config_field := None |}.

Definition for_operation (c : P0SessionErrorCategory) (o : CloudSubmitOperationId) : P0SessionError :=
  {| category := c; turn_id := None; operation_id := Some o; oldest_available := None;
     latest_available := None; cloud_lifecycle := None; cloud_diff := None; config_field := None |}.

Definition history_gap (oldest latest : EventSeq) : P0SessionError :=
  {| category := HistoryGap; turn_id := None; operation_id := None;
     oldest_available := Some oldest; latest_available := Some latest; cloud_lifecycle := None;
     cloud_diff := None; config_field := None |}.

Definition future_cursor (latest : EventSeq) : P0SessionError :=
  {| category := FutureCursor; turn_id := None; operation_id := None; oldest_available := None;
     latest_available := Some latest; cloud_lifecycle := None; cloud_diff := None;
     config_field := None |}.

Definition from_cloud_lifecycle (c : CloudLifecycleErrorCategory)
    (o : option CloudSubmitOperationId) : P0SessionError :=
  {| category := CloudLifecycleFailed; turn_id := None; operation_id := o;
     oldest_available := None; latest_available := None; cloud_lifecycle := Some c;
     cloud_diff := None; config_field := None |}.

Definition from_cloud_diff (c : CloudDiffReadErrorCategory) : P0SessionError :=
  {| category := CloudDiffFailed; turn_id := None; operation_id := None; oldest_available := None;
     latest_available := None; cloud_lifecycle := None; cloud_diff := Some c;
     config_field := None |}.

Inductive P0LiveReceiveError := LiveEmpty | LiveLagged | LiveRuntimeStopped | LiveClosed.

#[export] Instance P0SessionErrorCategory_eq_dec : EqDecision P0SessionErrorCategory.
Proof. solve_decision. Defined.
#[export] Instance P0LiveReceiveError_eq_dec : EqDecision P0LiveReceiveError.
Proof. solve_decision. Defined.

End Errors.

(** [P0SessionConfig::try_new] and its default. *)
Definition config_try_new (poll history subscribers live : Z)
  : result Errors.P0SessionError P0SessionConfig :=
  if negb (in_range MIN_POLL_INTERVAL MAX_POLL_INTERVAL poll) then
    Err (Errors.invalid_config PollInterval)
  else if negb (in_range MIN_HISTORY_CAPACITY MAX_HISTORY_CAPACITY history) then
    Err (Errors.invalid_config HistoryCapacity)
  else if negb (in_range MIN_MAX_SUBSCRIBERS MAX_MAX_SUBSCRIBERS subscribers) then
    Err (Errors.invalid_config MaxSubscribers)
  else if negb (in_range MIN_LIVE_CAPACITY MAX_LIVE_CAPACITY live) then
    Err (Errors.invalid_config LiveCapacity)
  else Ok {| poll_interval := poll; history_capacity := history; max_subscribers := subscribers;
             live_capacity := live |}.

Definition config_default : P0SessionConfig :=
  {| poll_interval := DEFAULT_POLL_INTERVAL; history_capacity := DEFAULT_HISTORY_CAPACITY;
     max_subscribers := DEFAULT_MAX_SUBSCRIBERS; live_capacity := DEFAULT_LIVE_CAPACITY |}.

Definition valid_config (c : P0SessionConfig) : Prop :=
  MIN_POLL_INTERVAL <= poll_interval c <= MAX_POLL_INTERVAL /\
  MIN_HISTORY_CAPACITY <= history_capacity c <= MAX_HISTORY_CAPACITY /\
  MIN_MAX_SUBSCRIBERS <= max_subscribers c <= MAX_MAX_SUBSCRIBERS /\
  MIN_LIVE_CAPACITY <= live_capacity c <= MAX_LIVE_CAPACITY.

Lemma config_try_new_valid p h s l c : config_try_new p h s l = Ok c -> valid_config c.
Proof.
  unfold config_try_new, in_range. intros H. repeat break_match; simplify_eq.
  bool_to_prop. unfold valid_config. simpl. lia.
Qed.

Lemma config_default_valid : valid_config config_default.
Proof. unfold valid_config. cbv. intuition congruence. Qed.

(** ** Published types (types.rs) *)
Record P0InstanceId := mkInstance { instance_uuid : Uuid }.
Inductive P0Actor := Operator.

Record P0SessionIdentity := { session_id : SessionId; instance_id : P0InstanceId }.

Inductive P0SessionState := SReady | SRunning | SRecoveryRequired | SMonitoringDegraded | SStopped.

Record P0CloudTaskId := mkP0Task { p0_task_str : string }.
Definition p0_task_from_cloud (t : CloudTaskId) : P0CloudTaskId := mkP0Task (task_str t).

Inductive P0CloudLifecycle :=
| Submitting (operation_id : CloudSubmitOperationId)
| FailedBeforeSubmit (operation_id : CloudSubmitOperationId)
| OutcomeUnknown (operation_id : CloudSubmitOperationId)
| Pending (operation_id : CloudSubmitOperationId) (task_id : P0CloudTaskId)
| Ready (operation_id : CloudSubmitOperationId) (task_id : P0CloudTaskId)
| Applied (operation_id : CloudSubmitOperationId) (task_id : P0CloudTaskId)
| ProviderError (operation_id : CloudSubmitOperationId) (task_id : P0CloudTaskId)
| CanceledLocally (operation_id : CloudSubmitOperationId) (task_id : option P0CloudTaskId)
    (provider_may_continue : bool)
| AbandonedUnknown (operation_id : CloudSubmitOperationId).

Definition from_cloud (value : CloudLifecycle) : P0CloudLifecycle :=
  match value with
  | LSubmitting o => Submitting o
  | LFailedBeforeSubmit o => FailedBeforeSubmit o
  | LOutcomeUnknown o => OutcomeUnknown o
  | LPending o t => Pending o (p0_task_from_cloud t)
  | LReady o t => Ready o (p0_task_from_cloud t)
  | LApplied o t => Applied o (p0_task_from_cloud t)
  | LProviderError o t => ProviderError o (p0_task_from_cloud t)
  | LCanceledLocally o t m => CanceledLocally o (p0_task_from_cloud <$> t) m
  | LAbandonedUnknown o => AbandonedUnknown o
  end.

Definition p0_operation_id (l : P0CloudLifecycle) : CloudSubmitOperationId :=
  match l with
  | Submitting o | FailedBeforeSubmit o | OutcomeUnknown o | Pending o _ | Ready o _ | Applied o _
  | ProviderError o _ | CanceledLocally o _ _ | AbandonedUnknown o => o
  end.

Definition is_pending (l : P0CloudLifecycle) : bool :=
  match l with Pending _ _ => true | _ => false end.

Definition is_unknown (l : P0CloudLifecycle) : bool :=
  match l with OutcomeUnknown _ => true | _ => false end.

Definition is_terminal (l : P0CloudLifecycle) : bool :=
  match l with
  | FailedBeforeSubmit _ | Ready _ _ | Applied _ _ | ProviderError _ _ | CanceledLocally _ _ _
  | AbandonedUnknown _ => true
  | _ => false
  end.

Definition p0_task_id (l : P0CloudLifecycle) : option P0CloudTaskId :=
  match l with
  | Pending _ t | Ready _ t | Applied _ t | ProviderError _ t => Some t
  | CanceledLocally _ t _ => t
  | Submitting _ | FailedBeforeSubmit _ | OutcomeUnknown _ | AbandonedUnknown _ => None
  end.

Inductive P0TurnProjection :=
| Queued
| Starting (cancel_requested : bool)
| Cloud (lifecycle : P0CloudLifecycle) (cancel_requested : bool)
| MonitoringDegraded (operation_id : CloudSubmitOperationId)
    (last_known_pending : P0CloudLifecycle) (cancel_requested : bool)
| CanceledBeforeCloudStart
| StoppedBeforeCloudStart
| StoppedAfterLowerFailure.

Record P0TurnSnapshot := { ts_turn_id : TurnId; ts_projection : P0TurnProjection }.

Record P0SessionSnapshot := {
  sn_identity : P0SessionIdentity;
  sn_state : P0SessionState;
  sn_current_turn : option P0TurnSnapshot;
  sn_high_water_seq : EventSeq }.

Record P0TurnReceipt := { tr_turn_id : TurnId; tr_high_water_seq : EventSeq }.

Inductive P0RecoveryDecisionKind := Adopt | Abandon.
Inductive P0RuntimeStopReason := Shutdown | LowerFailure.

Record P0RecoveryCandidates := {
  rc_operation_id : CloudSubmitOperationId;
  rc_task_ids : list P0CloudTaskId;
  rc_complete : bool }.

Inductive P0SessionEvent :=
| TurnAccepted
| TurnCanceledBeforeCloudStart
| LifecycleChanged (lifecycle : P0CloudLifecycle)
| CancelRequested (actor : P0Actor)
| EvMonitoringDegraded
| RecoveryObserved (actor : P0Actor) (operation_id : CloudSubmitOperationId)
    (task_ids : list P0CloudTaskId) (complete : bool)
| RecoveryResolved (actor : P0Actor) (operation_id : CloudSubmitOperationId)
    (decision : P0RecoveryDecisionKind)
| EvRuntimeStopped (reason : P0RuntimeStopReason).

Record P0SessionEventEnvelope := {
  ev_schema_version : Z;
  ev_session_id : SessionId;
  ev_seq : EventSeq;
  ev_turn_id : option TurnId;
  ev_payload : P0SessionEvent }.

#[export] Instance P0SessionState_eq_dec : EqDecision P0SessionState.
Proof. solve_decision. Defined.
#[export] Instance P0CloudTaskId_eq_dec : EqDecision P0CloudTaskId.
Proof. solve_decision. Defined.
#[export] Instance P0CloudLifecycle_eq_dec : EqDecision P0CloudLifecycle.
Proof. solve_decision. Defined.
#[export] Instance P0TurnProjection_eq_dec : EqDecision P0TurnProjection.
Proof. solve_decision. Defined.
#[export] Instance P0RuntimeStopReason_eq_dec : EqDecision P0RuntimeStopReason.
Proof. solve_decision. Defined.
#[export] Instance P0Actor_eq_dec : EqDecision P0Actor.
Proof. solve_decision. Defined.
#[export] Instance P0RecoveryDecisionKind_eq_dec : EqDecision P0RecoveryDecisionKind.
Proof. solve_decision. Defined.
#[export] Instance P0SessionEvent_eq_dec : EqDecision P0SessionEvent.
Proof. solve_decision. Defined.
#[export] Instance P0SessionEventEnvelope_eq_dec : EqDecision P0SessionEventEnvelope.
Proof. solve_decision. Defined.

(** The projection of an accepted lifecycle keeps identity, task and class. *)
Lemma from_cloud_operation l : p0_operation_id (from_cloud l) = lifecycle_operation_id l.
Proof. by destruct l. Qed.

Lemma from_cloud_task l : p0_task_id (from_cloud l) = p0_task_from_cloud <$> lifecycle_task_id l.
Proof. by destruct l. Qed.

