(* ===== verification/SessionRuntime.v ===== *)
(** * The process-lifetime session runtime

    Models [crates/codebox-session-runtime/src/runtime.rs].  Every region the source runs under the
    session mutex is one function on [World]: the mutable [RuntimeState], the heap of subscriber
    channels it shares with the receivers, and an auxiliary log of every event ever appended
    (written by [append_event], read by no operation; the theorems refer to it).  Calls into the
    lower Cloud layer happen between regions, with the lock released: their results, the fresh
    identifiers and the clock are arguments.  SessionSystem.v interleaves the regions.

    A subscriber's channel and close flag are allocated together by [subscribe] and are named by
    the subscriber id; [subscribers] is the key list of the [BTreeMap], in ascending order.  Lock
    poisoning and thread-spawn failure are not modelled. *)
From S2P Require Import Prelude DomainValues CloudTypes SessionTypes.
From stdpp Require Import base numbers list strings gmap list_numbers.
From Stdlib Require Import ZArith Lia.
Import Ids Seqs Config Errors.

Open Scope Z_scope.

Definition EVENT_SCHEMA_VERSION : Z := 1.
Definition CANCEL_ADMISSION_POLL : Z := from_millis 10.
Definition CANCEL_ADMISSION_LIMIT : Z := from_secs 1.
Definition CLOSE_OPEN : Z := 0.
Definition CLOSE_LAGGED : Z := 1.
Definition CLOSE_RUNTIME_STOPPED : Z := 2.
Definition CLOSE_NORMAL : Z := 3.

(** [LowerLifecycleError]. *)
Record LowerLifecycleError := mkLower {
  lower_category : CloudLifecycleErrorCategory;
  lower_operation_id : option CloudSubmitOperationId }.

(** ** State *)

Record Channel := mkChannel {
  queue : list P0SessionEventEnvelope;
  receiver_alive : bool;
  sender_alive : bool;
  close_reason : Z }.

Record TurnRecord := mkTurn {
  turn_id : TurnId;
  projection : P0TurnProjection;
  lower_start_admitted : bool;
  cancel_in_progress : bool;
  cancel_completed : bool }.

Inductive WorkerWork :=
| WorkStart (turn_id : TurnId) (prompt : CloudPrompt)
| WorkMonitor (turn_id : TurnId) (due : Z) (failures : Z).

Record RuntimeState := mkState {
  session_state : P0SessionState;
  current_turn : option TurnRecord;
  high_water_seq : EventSeq;
  history : list P0SessionEventEnvelope;
  subscribers : list Z;
  next_subscriber_id : Z;
  work : option WorkerWork;
  shutdown_requested : bool;
  worker_stopped : bool }.

(** The immutable part of [Inner]. *)
Record Inner := { config : P0SessionConfig; identity : P0SessionIdentity }.

Record World := mkWorld {
  st : RuntimeState;
  heap : gmap Z Channel;
  log : list P0SessionEventEnvelope }.

Inductive WorkerAction :=
| ActStart (turn_id : TurnId) (prompt : CloudPrompt)
| ActMonitor (turn_id : TurnId) (failures : Z)
| ActCancel (turn_id : TurnId)
| ActStop.

(** ** Field assignments *)

Definition on_st (f : RuntimeState -> RuntimeState) (w : World) : World :=
  mkWorld (f (st w)) (heap w) (log w).

Definition set_session_state (x : P0SessionState) (s : RuntimeState) : RuntimeState :=
  mkState x (current_turn s) (high_water_seq s) (history s) (subscribers s)
    (next_subscriber_id s) (work s) (shutdown_requested s) (worker_stopped s).
Definition set_current_turn (x : option TurnRecord) (s : RuntimeState) : RuntimeState :=
  mkState (session_state s) x (high_water_seq s) (history s) (subscribers s)
    (next_subscriber_id s) (work s) (shutdown_requested s) (worker_stopped s).
Definition set_work (x : option WorkerWork) (s : RuntimeState) : RuntimeState :=
  mkState (session_state s) (current_turn s) (high_water_seq s) (history s) (subscribers s)
    (next_subscriber_id s) x (shutdown_requested s) (worker_stopped s).
Definition set_shutdown_requested (x : bool) (s : RuntimeState) : RuntimeState :=
  mkState (session_state s) (current_turn s) (high_water_seq s) (history s) (subscribers s)
    (next_subscriber_id s) (work s) x (worker_stopped s).
Definition set_worker_stopped (x : bool) (s : RuntimeState) : RuntimeState :=
  mkState (session_state s) (current_turn s) (high_water_seq s) (history s) (subscribers s)
    (next_subscriber_id s) (work s) (shutdown_requested s) x.

Definition with_projection (p : P0TurnProjection) (t : TurnRecord) : TurnRecord :=
  mkTurn (turn_id t) p (lower_start_admitted t) (cancel_in_progress t) (cancel_completed t).
Definition with_admitted (b : bool) (t : TurnRecord) : TurnRecord :=
  mkTurn (turn_id t) (projection t) b (cancel_in_progress t) (cancel_completed t).
Definition with_cancel_in_progress (b : bool) (t : TurnRecord) : TurnRecord :=
  mkTurn (turn_id t) (projection t) (lower_start_admitted t) b (cancel_completed t).
Definition with_cancel_completed (b : bool) (t : TurnRecord) : TurnRecord :=
  mkTurn (turn_id t) (projection t) (lower_start_admitted t) (cancel_in_progress t) b.

(** [if let Some(turn) = state.current_turn.as_mut() { .. }], and the same with the source's
    [.filter(|turn| turn.turn_id == id)]. *)
Definition on_turn (f : TurnRecord -> TurnRecord) (s : RuntimeState) : RuntimeState :=
  set_current_turn (f <$> current_turn s) s.
Definition turn_of (s : RuntimeState) (id : TurnId) : option TurnRecord :=
  match current_turn s with
  | Some t => if bool_decide (turn_id t = id) then Some t else None
  | None => None
  end.
Definition on_turn_of (id : TurnId) (f : TurnRecord -> TurnRecord) (s : RuntimeState)
  : RuntimeState :=
  match turn_of s id with Some t => set_current_turn (Some (f t)) s | None => s end.

(** ** Projections of a turn *)

Definition projection_operation (p : P0TurnProjection) : option CloudSubmitOperationId :=
  match p with
  | Cloud l _ => Some (p0_operation_id l)
  | MonitoringDegraded o _ _ => Some o
  | Queued | Starting _ | CanceledBeforeCloudStart | StoppedBeforeCloudStart
  | StoppedAfterLowerFailure => None
  end.

Definition projection_lifecycle (p : P0TurnProjection) : option P0CloudLifecycle :=
  match p with
  | Cloud l _ => Some l
  | MonitoringDegraded _ l _ => Some l
  | _ => None
  end.

Definition projection_cancel_requested (p : P0TurnProjection) : bool :=
  match p with
  | Starting c | Cloud _ c | MonitoringDegraded _ _ c => c
  | _ => false
  end.

Definition set_projection_cancel_requested (p : P0TurnProjection) : P0TurnProjection :=
  match p with
  | Starting _ => Starting true
  | Cloud l _ => Cloud l true
  | MonitoringDegraded o l _ => MonitoringDegraded o l true
  | p => p
  end.

Definition current_operation (s : RuntimeState) : option CloudSubmitOperationId :=
  current_turn s ≫= fun t => projection_operation (projection t).

Definition current_lifecycle (s : RuntimeState) : option P0CloudLifecycle :=
  current_turn s ≫= fun t => projection_lifecycle (projection t).

Definition state_for_lifecycle (l : P0CloudLifecycle) : P0SessionState :=
  if is_unknown l then SRecoveryRequired
  else if is_pending l || (match l with Submitting _ => true | _ => false end) then SRunning
  else SReady.

Definition lifecycle_transition_allowed (current next : P0CloudLifecycle) : bool :=
  if bool_decide (current = next) then true
  else match current with
  | Submitting _ =>
      match next with FailedBeforeSubmit _ | OutcomeUnknown _ | Pending _ _ => true | _ => false end
  | OutcomeUnknown _ =>
      match next with
      | Pending _ _ | Ready _ _ | Applied _ _ | ProviderError _ _ | AbandonedUnknown _ => true
      | _ => false
      end
  | Pending _ _ =>
      bool_decide (p0_task_id current = p0_task_id next) &&
      match next with
      | Pending _ _ | Ready _ _ | Applied _ _ | ProviderError _ _ | CanceledLocally _ _ _ => true
      | _ => false
      end
  | FailedBeforeSubmit _ | Ready _ _ | Applied _ _ | ProviderError _ _ | CanceledLocally _ _ _
  | AbandonedUnknown _ => false
  end.

(** [backoff]. [1_u32.checked_shl(exponent)] of an exponent below 32 does not overflow. *)
Definition backoff (base failures : Z) : Z :=
  let exponent := Z.min failures 8 in
  let multiplier := if exponent <? 32 then Z.shiftl 1 exponent else u32_max in
  Z.min (default MAX_BACKOFF (duration_checked_mul base multiplier)) MAX_BACKOFF.

(** ** Guards *)

Definition reserve_events (s : RuntimeState) (count : Z) : result P0SessionError unit :=
  match u64_checked_add (value (high_water_seq s)) count with
  | Some _ => Ok tt
  | None => Err (new SequenceExhausted)
  end.

Definition require_running_worker (s : RuntimeState) : result P0SessionError unit :=
  if worker_stopped s || shutdown_requested s then Err (new RuntimeStopped) else Ok tt.

Definition require_current_operation (s : RuntimeState) (op : CloudSubmitOperationId)
  : result P0SessionError unit :=
  match current_operation s with
  | Some current => if bool_decide (current = op) then Ok tt else Err (for_operation WrongOperation op)
  | None => Err (for_operation WrongOperation op)
  end.

Definition map_lower_error (e : LowerLifecycleError) : P0SessionError :=
  from_cloud_lifecycle (lower_category e) (lower_operation_id e).

(** ** Channels: [std::sync::mpsc::sync_channel] and the shared close flag *)

Definition store_reason (r : Z) (c : Channel) : Channel :=
  mkChannel (queue c) (receiver_alive c) (sender_alive c) r.
Definition drop_sender (c : Channel) : Channel :=
  mkChannel (queue c) (receiver_alive c) false (close_reason c).
Definition drop_receiver (c : Channel) : Channel :=
  mkChannel (queue c) false (sender_alive c) (close_reason c).
Definition push (e : P0SessionEventEnvelope) (c : Channel) : Channel :=
  mkChannel (queue c ++ [e]) (receiver_alive c) (sender_alive c) (close_reason c).

Inductive SendResult := Sent (c : Channel) | Full | Disconnected.

(** [SyncSender::try_send] on a channel of the given (positive) capacity. *)
Definition try_send (capacity : Z) (e : P0SessionEventEnvelope) (c : Channel) : SendResult :=
  if negb (receiver_alive c) then Disconnected
  else if capacity <=? len (queue c) then Full
  else Sent (push e c).

(** [BTreeMap::insert] of a key, on the ascending key list. *)
Fixpoint key_insert (k : Z) (keys : list Z) : list Z :=
  match keys with
  | [] => [k]
  | x :: rest => if k <? x then k :: keys else if k =? x then keys else x :: key_insert k rest
  end.

(** [while history.len() > capacity { history.pop_front() }]. *)
Fixpoint trim_front {A} (capacity : Z) (l : list A) : list A :=
  match l with
  | [] => []
  | _ :: rest => if capacity <? len l then trim_front capacity rest else l
  end.

(** The send loop of [append_event]: the new heap and the subscribers to remove. *)
Fixpoint send_all (capacity : Z) (e : P0SessionEventEnvelope) (subs : list Z) (h : gmap Z Channel)
  : gmap Z Channel * list Z :=
  match subs with
  | [] => (h, [])
  | id :: rest =>
      match h !! id with
      | None => send_all capacity e rest h
      | Some c =>
          match try_send capacity e c with
          | Sent c' => send_all capacity e rest (<[id := c']> h)
          | Full =>
              let '(h', remove) := send_all capacity e rest (<[id := store_reason CLOSE_LAGGED c]> h) in
              (h', id :: remove)
          | Disconnected =>
              let '(h', remove) := send_all capacity e rest (<[id := store_reason CLOSE_NORMAL c]> h) in
              (h', id :: remove)
          end
      end
  end.

(** [state.subscribers.remove(&id)]: the key goes, and its sender is dropped. *)
Definition remove_subscriber (id : Z) (s : list Z * gmap Z Channel) : list Z * gmap Z Channel :=
  (filter (fun k => k <> id) s.1, alter drop_sender id s.2).

(** Both loops of [append_event] over the subscribers. *)
Definition publish (capacity : Z) (e : P0SessionEventEnvelope) (subs : list Z) (h : gmap Z Channel)
  : list Z * gmap Z Channel :=
  let '(h, remove) := send_all capacity e subs h in
  foldl (fun acc id => remove_subscriber id acc) (subs, h) remove.

Definition append_event (i : Inner) (turn : option TurnId) (payload : P0SessionEvent) (w : World)
  : World :=
  let s := st w in
  let seq := mkSeq (u64_add (value (high_water_seq s)) 1) in
  let envelope :=
    {| ev_schema_version := EVENT_SCHEMA_VERSION;
       ev_session_id := SessionTypes.session_id (identity i);
       ev_seq := seq; ev_turn_id := turn; ev_payload := payload |} in
  let hist := trim_front (history_capacity (config i)) (history s ++ [envelope]) in
  let '(subs, h) := publish (live_capacity (config i)) envelope (subscribers s) (heap w) in
  mkWorld
    (mkState (session_state s) (current_turn s) seq hist subs (next_subscriber_id s) (work s)
       (shutdown_requested s) (worker_stopped s))
    h (log w ++ [envelope]).

Definition close_subscribers (reason : Z) (w : World) : World :=
  let s := st w in
  let h := foldl (fun h id => alter (store_reason reason) id h) (heap w) (subscribers s) in
  let h := foldl (fun h id => alter drop_sender id h) h (subscribers s) in
  mkWorld
    (mkState (session_state s) (current_turn s) (high_water_seq s) (history s) []
       (next_subscriber_id s) (work s) (shutdown_requested s) (worker_stopped s))
    h (log w).

Definition snapshot_from (i : Inner) (s : RuntimeState) : P0SessionSnapshot :=
  {| sn_identity := identity i; sn_state := session_state s;
     sn_current_turn :=
       (fun t => {| ts_turn_id := turn_id t; ts_projection := projection t |}) <$> current_turn s;
     sn_high_water_seq := high_water_seq s |}.

(** ** Stopping *)

Definition start_not_admitted (s : RuntimeState) : bool :=
  match current_turn s with
  | Some t => match projection t with Queued | Starting _ => true | _ => false end
              && negb (lower_start_admitted t)
  | None => false
  end.

Definition stop_worker (i : Inner) (reason : P0RuntimeStopReason) (w : World) : World :=
  if worker_stopped (st w) then w
  else
  let w :=
    if bool_decide (reason = Shutdown) && start_not_admitted (st w)
    then on_st (on_turn (with_projection StoppedBeforeCloudStart)) w else w in
  let w := on_st (set_work None) w in
  let w := on_st (set_session_state SStopped) w in
  let w := on_st (set_worker_stopped true) w in
  let w :=
    if is_ok (reserve_events (st w) 1)
    then append_event i (turn_id <$> current_turn (st w)) (EvRuntimeStopped reason) w
    else w in
  close_subscribers CLOSE_RUNTIME_STOPPED w.

Definition stop_after_lower_failure (i : Inner) (turn : TurnId) (w : World) : World :=
  stop_worker i LowerFailure (on_st (on_turn_of turn (with_projection StoppedAfterLowerFailure)) w).

(** ** Committing a lower lifecycle *)

Definition apply_projected_lifecycle (turn : TurnId) (projected : P0CloudLifecycle)
    (completed : bool) (s : RuntimeState) : result P0SessionError RuntimeState :=
  let invalid_transition :=
    match turn_of s turn ≫= fun t => projection_lifecycle (projection t) with
    | Some current =>
        bool_decide (p0_operation_id current <> p0_operation_id projected)
        || negb (lifecycle_transition_allowed current projected)
    | None => false
    end in
  if invalid_transition then Err (for_operation LowerConflict (p0_operation_id projected))
  else
  match turn_of s turn with
  | None => Err (new WrongState)
  | Some t =>
      let cancel_requested := projection_cancel_requested (projection t) in
      let s := set_session_state (state_for_lifecycle projected) s in
      let s := if negb (is_pending projected) then set_work None s else s in
      let t := with_projection (Cloud projected cancel_requested) t in
      let t := with_cancel_completed (cancel_completed t || completed) t in
      Ok (set_current_turn (Some t) s)
  end.

Definition commit_cancel_result (i : Inner) (turn : TurnId) (lifecycle : CloudLifecycle) (w : World)
  : World * result P0SessionError P0SessionSnapshot :=
  let projected := from_cloud lifecycle in
  if worker_stopped (st w) then (w, Err (new RuntimeStopped))
  else
  match turn_of (st w) turn with
  | None => (w, Err (new WrongState))
  | Some t =>
      if match projection_operation (projection t) with
         | Some current => bool_decide (current <> p0_operation_id projected)
         | None => false
         end
      then (w, Err (for_operation LowerConflict (p0_operation_id projected)))
      else
      let changed := bool_decide (projection_lifecycle (projection t) <> Some projected) in
      if changed && is_err (reserve_events (st w) 1) then (w, Err (new SequenceExhausted))
      else
      match apply_projected_lifecycle turn projected true (st w) with
      | Err e => (w, Err e)
      | Ok s =>
          let s := on_turn (fun t => with_cancel_completed true (with_cancel_in_progress false t)) s in
          let w := on_st (fun _ => s) w in
          let w := if changed then append_event i (Some turn) (LifecycleChanged projected) w else w in
          (w, Ok (snapshot_from i (st w)))
      end
  end.

Definition commit_worker_cancel (i : Inner) (turn : TurnId) (lifecycle : CloudLifecycle) (w : World)
  : World * result P0SessionError unit :=
  let projected := from_cloud lifecycle in
  match reserve_events (st w) 1 with
  | Err e => (w, Err e)
  | Ok _ =>
      match apply_projected_lifecycle turn projected true (st w) with
      | Err e => (w, Err e)
      | Ok s =>
          let s := on_turn (fun t => with_cancel_completed true (with_cancel_in_progress false t)) s in
          (append_event i (Some turn) (LifecycleChanged projected) (on_st (fun _ => s) w), Ok tt)
      end
  end.

(** ** Construction *)

Definition initial_state (cfg : P0SessionConfig) (now : Z) (fresh : TurnId)
    (inspected : result LowerLifecycleError CloudLifecycle)
  : result P0SessionError (P0SessionState * option TurnRecord * option WorkerWork) :=
  match inspected with
  | Ok lifecycle =>
      let projected := from_cloud lifecycle in
      match projected with
      | Submitting o => Err (for_operation LowerConflict o)
      | _ =>
          let work :=
            if is_pending projected then Some (WorkMonitor fresh (now + poll_interval cfg) 0)
            else None in
          Ok (state_for_lifecycle projected,
              Some (mkTurn fresh (Cloud projected false) false false false), work)
      end
  | Err e =>
      match lower_category e, lower_operation_id e with
      | ENoCurrentOperation, _ => Ok (SReady, None, None)
      | EOutcomeUnknown, Some o =>
          Ok (SRecoveryRequired,
              Some (mkTurn fresh (Cloud (OutcomeUnknown o) false) false false false), None)
      | _, _ => Err (map_lower_error e)
      end
  end.

Definition from_cloud_control (i : Inner) (now : Z) (fresh : TurnId)
    (inspected : result LowerLifecycleError CloudLifecycle) : result P0SessionError World :=
  let? (session, turn, work) := initial_state (config i) now fresh inspected in
  Ok (mkWorld (mkState session turn initial [] [] 1 work false false) ∅ []).

(** ** Commands *)

Definition start_turn (i : Inner) (fresh : TurnId) (prompt : CloudPrompt) (w : World)
  : World * result P0SessionError P0TurnReceipt :=
  match require_running_worker (st w) with
  | Err e => (w, Err e)
  | Ok _ =>
      if bool_decide (session_state (st w) <> SReady) then
        (w, Err match current_turn (st w) with
                | Some t => for_turn TurnAlreadyRunning (turn_id t)
                | None => new TurnAlreadyRunning
                end)
      else
      match reserve_events (st w) 1 with
      | Err e => (w, Err e)
      | Ok _ =>
          let w := on_st (set_session_state SRunning) w in
          let w := on_st (set_current_turn (Some (mkTurn fresh Queued false false false))) w in
          let w := on_st (set_work (Some (WorkStart fresh prompt))) w in
          let w := append_event i (Some fresh) TurnAccepted w in
          (w, Ok {| tr_turn_id := fresh; tr_high_water_seq := high_water_seq (st w) |})
      end
  end.

(** What the first locked region of [cancel_turn] decides. *)
Inductive CancelEntry :=
| CancelDone (r : result P0SessionError P0SessionSnapshot)
| CancelResnapshot
| CancelCall (turn : TurnId) (admission_may_be_pending : bool).

(** The rest of that region for a turn that is no longer queued. *)
Definition cancel_turn_active (i : Inner) (actor : P0Actor) (t : TurnRecord) (w : World)
  : World * CancelEntry :=
  let already_requested := projection_cancel_requested (projection t) in
  if negb already_requested && is_err (reserve_events (st w) 1)
  then (w, CancelDone (Err (new SequenceExhausted)))
  else
  let w :=
    if already_requested then w
    else append_event i (Some (turn_id t)) (CancelRequested actor)
           (on_st (on_turn (fun t =>
              with_projection (set_projection_cancel_requested (projection t)) t)) w) in
  match current_turn (st w) with
  | None => (w, CancelDone (Err (new NoCurrentTurn)))
  | Some t' =>
      if cancel_completed t' then (w, CancelDone (Ok (snapshot_from i (st w))))
      else
      let should_call_lower := negb (cancel_in_progress t') in
      let admission := match projection t' with Starting _ => true | _ => false end in
      let w := if should_call_lower then on_st (on_turn (with_cancel_in_progress true)) w else w in
      let w := if should_call_lower && negb admission then on_st (set_work None) w else w in
      (w, if should_call_lower then CancelCall (turn_id t) admission else CancelResnapshot)
  end.

Definition cancel_turn_enter (i : Inner) (actor : P0Actor) (w : World) : World * CancelEntry :=
  match require_running_worker (st w) with
  | Err e => (w, CancelDone (Err e))
  | Ok _ =>
  match session_state (st w) with
  | SRecoveryRequired =>
      (w, CancelDone (Err match current_operation (st w) with
                          | Some o => for_operation WrongState o
                          | None => new WrongState
                          end))
  | SReady | SStopped => (w, CancelDone (Err (new WrongState)))
  | SRunning | SMonitoringDegraded =>
  match current_turn (st w) with
  | None => (w, CancelDone (Err (new NoCurrentTurn)))
  | Some t =>
  match projection t with
  | Queued =>
      match reserve_events (st w) 1 with
      | Err e => (w, CancelDone (Err e))
      | Ok _ =>
          let w := on_st (set_work None) w in
          let w := on_st (set_session_state SReady) w in
          let w := on_st (on_turn (fun t =>
                     with_cancel_completed true (with_projection CanceledBeforeCloudStart t))) w in
          let w := append_event i (Some (turn_id t)) TurnCanceledBeforeCloudStart w in
          (w, CancelDone (Ok (snapshot_from i (st w))))
      end
  | _ => cancel_turn_active i actor t w
  end end end end.

(** One iteration of the loop of [cancel_turn] after the lower [cancel] returned. *)
Inductive CancelStep :=
| CancelReturn (r : result P0SessionError P0SessionSnapshot)
| CancelRetry.

Definition cancel_turn_on_lower (i : Inner) (turn : TurnId) (admission : bool) (now deadline : Z)
    (lower : result LowerLifecycleError CloudLifecycle) (w : World) : World * CancelStep :=
  match lower with
  | Ok lifecycle =>
      let '(w, r) := commit_cancel_result i turn lifecycle w in (w, CancelReturn r)
  | Err e =>
      if admission && bool_decide (lower_category e = ENoCurrentOperation) && (now <? deadline) then
        if match turn_of (st w) turn with Some t => cancel_completed t | None => false end
        then (w, CancelReturn (Ok (snapshot_from i (st w))))
        else (w, CancelRetry)
      else if admission && bool_decide (lower_category e = ENoCurrentOperation) then
        let w := on_st (on_turn_of turn (with_cancel_in_progress false)) w in
        (w, CancelReturn (Ok (snapshot_from i (st w))))
      else
        let w := on_st (on_turn_of turn (with_cancel_in_progress false)) w in
        (w, CancelReturn (Err (map_lower_error e)))
  end.

Definition reconcile_unknown_enter (s : RuntimeState)
  : result P0SessionError CloudSubmitOperationId :=
  let? _ := require_running_worker s in
  if bool_decide (session_state s <> SRecoveryRequired) then Err (new WrongState)
  else ok_or (current_operation s) (new WrongOperation).

Definition reconcile_unknown_commit (i : Inner) (actor : P0Actor) (expected : CloudSubmitOperationId)
    (lower : result LowerLifecycleError P0RecoveryCandidates) (w : World)
  : World * result P0SessionError P0RecoveryCandidates :=
  match lower with
  | Err e => (w, Err (map_lower_error e))
  | Ok candidates =>
      if bool_decide (rc_operation_id candidates <> expected) then
        (w, Err (for_operation LowerConflict (rc_operation_id candidates)))
      else
      match require_current_operation (st w) expected with
      | Err e => (w, Err e)
      | Ok _ =>
          match reserve_events (st w) 1 with
          | Err e => (w, Err e)
          | Ok _ =>
              (append_event i (turn_id <$> current_turn (st w))
                 (RecoveryObserved actor expected (rc_task_ids candidates) (rc_complete candidates)) w,
               Ok candidates)
          end
      end
  end.

Definition decision_kind (d : UnknownSubmitDecision) : P0RecoveryDecisionKind :=
  match d with AdoptListedTask _ => Adopt | AbandonAfterReconciliation _ => Abandon end.

Definition resolve_unknown_enter (op : CloudSubmitOperationId) (s : RuntimeState)
  : result P0SessionError unit :=
  let? _ := require_running_worker s in
  if bool_decide (session_state s <> SRecoveryRequired) then Err (for_operation WrongState op)
  else require_current_operation s op.

Definition resolve_unknown_commit (i : Inner) (actor : P0Actor) (op : CloudSubmitOperationId)
    (decision : UnknownSubmitDecision) (now : Z)
    (lower : result LowerLifecycleError CloudLifecycle) (w : World)
  : World * result P0SessionError P0SessionSnapshot :=
  match lower with
  | Err e => (w, Err (map_lower_error e))
  | Ok lifecycle =>
  let projected := from_cloud lifecycle in
  if bool_decide (p0_operation_id projected <> op) then
    (w, Err (for_operation LowerConflict (p0_operation_id projected)))
  else
  match (let? _ := require_current_operation (st w) op in
         let? _ := require_running_worker (st w) in
         let? _ := reserve_events (st w) 2 in
         let? id := ok_or (turn_id <$> current_turn (st w)) (new NoCurrentTurn) in
         let? s := apply_projected_lifecycle id projected false (st w) in
         Ok (id, s)) with
  | Err e => (w, Err e)
  | Ok (id, s) =>
      let w := on_st (fun _ => s) w in
      let w := append_event i (Some id) (RecoveryResolved actor op (decision_kind decision)) w in
      let w := append_event i (Some id) (LifecycleChanged projected) w in
      let w :=
        if is_pending projected
        then on_st (set_work (Some (WorkMonitor id (now + poll_interval (config i)) 0))) w
        else w in
      (w, Ok (snapshot_from i (st w)))
  end end.

(** The eligibility check of [read_diff]; the lower read changes no session state. *)
Definition read_diff_enter (s : RuntimeState) : result P0SessionError unit :=
  let? _ := require_running_worker s in
  match current_turn s with
  | Some t =>
      match projection t with
      | Cloud (Ready _ _) _ | Cloud (Applied _ _) _ => Ok tt
      | _ => Err (new WrongState)
      end
  | None => Err (new WrongState)
  end.

(** ** Subscriptions *)

Record Subscription := {
  sub_replay : list P0SessionEventEnvelope;
  sub_snapshot : P0SessionSnapshot;
  sub_live : Z }.

Definition subscribe (i : Inner) (sid : SessionId) (after_seq : EventSeq) (w : World)
  : World * result P0SessionError Subscription :=
  let s := st w in
  if bool_decide (sid <> SessionTypes.session_id (identity i)) then (w, Err (new WrongSession))
  else
  match require_running_worker s with
  | Err e => (w, Err e)
  | Ok _ =>
  let latest := high_water_seq s in
  if value latest <? value after_seq then (w, Err (future_cursor latest))
  else
  let gap :=
    match head (history s) with
    | Some oldest =>
        if value after_seq <? u64_saturating_sub (value (ev_seq oldest)) 1
        then Some (ev_seq oldest) else None
    | None => None
    end in
  match gap with
  | Some oldest => (w, Err (history_gap oldest latest))
  | None =>
  if max_subscribers (config i) <=? len (subscribers s) then (w, Err (new SubscriberLimit))
  else
  let subscriber_id := next_subscriber_id s in
  match u64_checked_add (next_subscriber_id s) 1 with
  | None => (w, Err (new SubscriberLimit))
  | Some next_id =>
      let replay := filter (fun e => value after_seq < value (ev_seq e)) (history s) in
      let snapshot := snapshot_from i s in
      (mkWorld
         (mkState (session_state s) (current_turn s) (high_water_seq s) (history s)
            (key_insert subscriber_id (subscribers s)) next_id (work s) (shutdown_requested s)
            (worker_stopped s))
         (<[subscriber_id := mkChannel [] true true CLOSE_OPEN]> (heap w)) (log w),
       Ok {| sub_replay := replay; sub_snapshot := snapshot; sub_live := subscriber_id |})
  end end end.

Definition close_error (c : Channel) : P0LiveReceiveError :=
  if close_reason c =? CLOSE_LAGGED then LiveLagged
  else if close_reason c =? CLOSE_RUNTIME_STOPPED then LiveRuntimeStopped
  else LiveClosed.

(** [P0LiveReceiver::try_recv]; [recv_timeout] is the same after waiting for the queue or for the
    sender to go away. *)
Definition try_recv (id : Z) (w : World) : World * result P0LiveReceiveError P0SessionEventEnvelope :=
  match heap w !! id with
  | None => (w, Err LiveClosed)
  | Some c =>
      match queue c with
      | e :: rest =>
          (mkWorld (st w)
             (<[id := mkChannel rest (receiver_alive c) (sender_alive c) (close_reason c)]> (heap w))
             (log w), Ok e)
      | [] => (w, Err (if sender_alive c then LiveEmpty else close_error c))
      end
  end.

(** Dropping a [P0LiveReceiver]: its [Drop] unregisters the subscriber, then the receiver goes. *)
Definition drop_live_receiver (id : Z) (w : World) : World :=
  let s := st w in
  if bool_decide (id ∈ subscribers s) then
    let '(subs, h) := remove_subscriber id (subscribers s, alter (store_reason CLOSE_NORMAL) id (heap w)) in
    mkWorld
      (mkState (session_state s) (current_turn s) (high_water_seq s) (history s) subs
         (next_subscriber_id s) (work s) (shutdown_requested s) (worker_stopped s))
      (alter drop_receiver id h) (log w)
  else mkWorld s (alter drop_receiver id (heap w)) (log w).

(** ** Shutdown: the locked region before the worker is joined *)

Definition shutdown_enter (i : Inner) (w : World) : World * result P0SessionError unit :=
  if shutdown_requested (st w) then (w, Ok tt)
  else
  let w := on_st (set_shutdown_requested true) w in
  match current_turn (st w) with
  | Some t =>
      match projection t with
      | Queued =>
          match reserve_events (st w) 1 with
          | Err e => (w, Err e)
          | Ok _ =>
              let w := on_st (set_work None) w in
              let w := on_st (set_session_state SStopped) w in
              let w := on_st (set_worker_stopped true) w in
              let w := on_st (on_turn (with_projection StoppedBeforeCloudStart)) w in
              let w := append_event i (Some (turn_id t)) (EvRuntimeStopped Shutdown) w in
              (close_subscribers CLOSE_RUNTIME_STOPPED w, Ok tt)
          end
      | _ => (w, Ok tt)
      end
  | None => (w, Ok tt)
  end.

(** ** The worker *)

(** One iteration of the loop of [next_worker_action]; [None] waits on the condition variable. *)
Definition next_worker_action (i : Inner) (now : Z) (w : World) : World * option WorkerAction :=
  if shutdown_requested (st w) then (stop_worker i Shutdown w, Some ActStop)
  else
  match
    match current_turn (st w) with
    | Some t =>
        if projection_cancel_requested (projection t) && negb (cancel_in_progress t)
           && negb (cancel_completed t)
           && match projection t with
              | Cloud (Pending _ _) _ | MonitoringDegraded _ _ _ => true
              | _ => false
              end
        then Some (turn_id t) else None
    | None => None
    end
  with
  | Some id =>
      let w := on_st (on_turn (with_cancel_in_progress true)) w in
      (on_st (set_work None) w, Some (ActCancel id))
  | None =>
  match work (st w) with
  | Some (WorkStart id prompt) =>
      let w := on_st (set_work None) w in
      match turn_of (st w) id with
      | Some _ =>
          (on_st (on_turn_of id (fun t => with_admitted false (with_projection (Starting false) t))) w,
           Some (ActStart id prompt))
      | None => (stop_worker i LowerFailure w, Some ActStop)
      end
  | Some (WorkMonitor id due failures) =>
      if now <? due then (w, None)
      else (on_st (set_work None) w, Some (ActMonitor id failures))
  | None => (w, None)
  end end.

Definition admit_start (i : Inner) (turn : TurnId) (w : World) : World * bool :=
  if shutdown_requested (st w) then (stop_worker i Shutdown w, false)
  else
  if match turn_of (st w) turn with
     | Some t => projection_cancel_requested (projection t)
     | None => false
     end
  then
    if is_err (reserve_events (st w) 1) then (stop_after_lower_failure i turn w, false)
    else
    let w := on_st (set_session_state SReady) w in
    let w := on_st (on_turn_of turn (fun t =>
               with_cancel_completed true (with_cancel_in_progress false
                 (with_projection CanceledBeforeCloudStart t)))) w in
    (append_event i (Some turn) TurnCanceledBeforeCloudStart w, false)
  else
  match turn_of (st w) turn with
  | None => (stop_after_lower_failure i turn w, false)
  | Some _ => (on_st (on_turn_of turn (with_admitted true)) w, true)
  end.

(** [handle_start_result] up to the point where it either finishes or releases the lock to call the
    lower cancel ([true]). *)
Definition handle_start_result (i : Inner) (now : Z) (turn : TurnId)
    (lower : result LowerLifecycleError CloudLifecycle) (w : World) : World * bool :=
  match lower with
  | Err _ => (stop_after_lower_failure i turn w, false)
  | Ok lifecycle =>
  let projected := from_cloud lifecycle in
  let w := if is_unknown projected then on_st (set_session_state SRecoveryRequired) w else w in
  if is_err (reserve_events (st w) (if shutdown_requested (st w) then 2 else 1))
  then (stop_after_lower_failure i turn w, false)
  else
  match apply_projected_lifecycle turn projected false (st w) with
  | Err _ => (stop_after_lower_failure i turn w, false)
  | Ok s =>
      let w := on_st (fun _ => s) w in
      let w := append_event i (Some turn) (LifecycleChanged projected) w in
      if shutdown_requested (st w) then
        let w := on_st (set_session_state SStopped) w in
        let w := on_st (set_worker_stopped true) w in
        let w := append_event i (Some turn) (EvRuntimeStopped Shutdown) w in
        (close_subscribers CLOSE_RUNTIME_STOPPED w, false)
      else
      let should_cancel :=
        match current_turn (st w) with
        | Some t => bool_decide (turn_id t = turn) && projection_cancel_requested (projection t)
                    && negb (cancel_in_progress t) && negb (cancel_completed t)
                    && is_pending projected
        | None => false
        end in
      if should_cancel then (on_st (on_turn (with_cancel_in_progress true)) w, true)
      else if is_pending projected then
        (on_st (set_work (Some (WorkMonitor turn (now + poll_interval (config i)) 0))) w, false)
      else (w, false)
  end end.

(** The continuation of [handle_start_result] after that lower cancel returned. *)
Definition handle_start_cancel_result (i : Inner) (turn : TurnId)
    (lower : result LowerLifecycleError CloudLifecycle) (w : World) : World :=
  match lower with
  | Ok lifecycle => (commit_worker_cancel i turn lifecycle w).1
  | Err _ => stop_after_lower_failure i turn w
  end.

(** The [WorkerAction::Cancel] arm of [worker_loop] after the lower cancel returned. *)
Definition handle_cancel_action_result (i : Inner) (turn : TurnId)
    (lower : result LowerLifecycleError CloudLifecycle) (w : World) : World :=
  match lower with
  | Ok lifecycle =>
      let '(w, r) := commit_worker_cancel i turn lifecycle w in
      if is_err r then stop_after_lower_failure i turn w else w
  | Err _ => stop_after_lower_failure i turn w
  end.

Definition handle_monitor_result (i : Inner) (now : Z) (turn : TurnId) (failures : Z)
    (lower : result LowerLifecycleError CloudLifecycle) (w : World) : World :=
  if match current_lifecycle (st w) with Some l => is_terminal l | None => false end
  then on_st (set_work None) w
  else if shutdown_requested (st w) then
    let w :=
      match lower with
      | Ok lifecycle =>
          let projected := from_cloud lifecycle in
          if is_ok (reserve_events (st w) 2) then
            match apply_projected_lifecycle turn projected false (st w) with
            | Ok s => append_event i (Some turn) (LifecycleChanged projected) (on_st (fun _ => s) w)
            | Err _ => w
            end
          else w
      | Err _ => w
      end in
    stop_worker i Shutdown w
  else
  match lower with
  | Ok lifecycle =>
      let projected := from_cloud lifecycle in
      let changed := bool_decide (current_lifecycle (st w) <> Some projected) in
      if changed && is_err (reserve_events (st w) 1) then stop_after_lower_failure i turn w
      else
      match apply_projected_lifecycle turn projected false (st w) with
      | Err _ => stop_after_lower_failure i turn w
      | Ok s =>
          let w := on_st (fun _ => s) w in
          let w := if changed then append_event i (Some turn) (LifecycleChanged projected) w else w in
          if is_pending projected
          then on_st (set_work (Some (WorkMonitor turn (now + poll_interval (config i)) 0))) w
          else w
      end
  | Err e =>
      if bool_decide (lower_category e = EProviderRead) then
        match current_lifecycle (st w) with
        | Some last_known_pending =>
            if is_pending last_known_pending then
              let already_degraded := bool_decide (session_state (st w) = SMonitoringDegraded) in
              if negb already_degraded && is_err (reserve_events (st w) 1)
              then stop_after_lower_failure i turn w
              else
              let cancel_requested :=
                match current_turn (st w) with
                | Some t => projection_cancel_requested (projection t)
                | None => false
                end in
              let w := on_st (set_session_state SMonitoringDegraded) w in
              let w := on_st (on_turn (with_projection
                         (MonitoringDegraded (p0_operation_id last_known_pending)
                            last_known_pending cancel_requested))) w in
              let w := if already_degraded then w
                       else append_event i (Some turn) EvMonitoringDegraded w in
              on_st (set_work (Some (WorkMonitor turn
                (now + backoff (poll_interval (config i)) (u32_add failures 1))
                (u32_saturating_add failures 1)))) w
            else stop_after_lower_failure i turn w
        | None => stop_after_lower_failure i turn w
        end
      else stop_after_lower_failure i turn w
  end.
