(* ===== verification/SessionLog.v ===== *)
(** * The event log, its bounded history and the subscriber channels

    Invariant [LogInv] of the event side of the session runtime (the fields [high_water_seq],
    [history], [subscribers], [next_subscriber_id] of [RuntimeState] and the channels), and that
    every operation of SessionRuntime.v preserves it.  The auxiliary map [d] records, per
    subscriber, the cursor it subscribed with and everything its client was handed so far: the
    replay, then the events it received. *)
From S2P Require Import Prelude DomainValues CloudTypes SessionTypes SessionRuntime.
From stdpp Require Import base numbers list strings gmap list_numbers sorting.
From Stdlib Require Import ZArith Lia.
Import Ids Seqs Config Errors.

Open Scope Z_scope.

Abbreviation Env := P0SessionEventEnvelope.
Abbreviation Deliveries := (gmap Z (Z * list P0SessionEventEnvelope)).

(** ** Loops of [append_event] as pointwise updates *)

Lemma trim_front_lastn {A} (cap : Z) (l : list A) :
  0 <= cap -> trim_front cap l = lastn (Z.to_nat cap) l.
Proof.
  intros Hc. induction l as [|x l IH]; [done|]. cbn [trim_front].
  destruct (Z.ltb_spec cap (len (x :: l))) as [H|H]; unfold len in H; simpl length in H.
  - rewrite IH. unfold lastn. simpl length.
    replace (S (length l) - Z.to_nat cap)%nat with (S (length l - Z.to_nat cap))%nat by lia. done.
  - rewrite lastn_all; [done|]. simpl. lia.
Qed.

(** What one send leaves in a channel, and whether the subscriber stays. *)
Definition after_send (cap : Z) (e : Env) (c : Channel) : Channel :=
  match try_send cap e c with
  | Sent c' => c'
  | Full => store_reason CLOSE_LAGGED c
  | Disconnected => store_reason CLOSE_NORMAL c
  end.
Definition stays (cap : Z) (e : Env) (c : Channel) : bool :=
  match try_send cap e c with Sent _ => true | _ => false end.

Lemma send_all_spec cap e subs h h' rm :
  NoDup subs -> send_all cap e subs h = (h', rm) ->
  (forall id, h' !! id = if decide (id ∈ subs) then after_send cap e <$> h !! id else h !! id) /\
  (forall id, id ∈ rm <-> id ∈ subs /\ exists c, h !! id = Some c /\ stays cap e c = false).
Proof.
  revert h h' rm. induction subs as [|x subs IH]; intros h h' rm Hnd H; simpl in H.
  { simplify_eq. split; intros id; [by case_decide as D; [inversion D|]|set_solver]. }
  apply NoDup_cons in Hnd as [Hx Hnd].
  assert (Hstep : forall (c c' : Channel) h1 rm1 (b : bool),
    h !! x = Some c -> after_send cap e c = c' -> stays cap e c = b ->
    send_all cap e subs (<[x := c']> h) = (h1, rm1) ->
    (forall id, h1 !! id = if decide (id ∈ x :: subs) then after_send cap e <$> h !! id else h !! id) /\
    (forall id, id ∈ (if b then rm1 else x :: rm1) <->
       id ∈ x :: subs /\ exists c, h !! id = Some c /\ stays cap e c = false)).
  { intros c c' h1 rm1 b Hc Ha Hb Hs. destruct (IH _ _ _ Hnd Hs) as [IH1 IH2]. split; intros id.
    - rewrite IH1. destruct (decide (id = x)) as [->|Hne].
      + rewrite decide_False, decide_True, lookup_insert_eq, Hc by (done || left). simpl. congruence.
      + rewrite lookup_insert_ne by done.
        destruct (decide (id ∈ subs)); [rewrite decide_True by (by right)|rewrite decide_False]; try done.
        rewrite elem_of_cons. tauto.
    - assert (Hid : id ∈ rm1 <-> id ∈ subs /\ exists c, h !! id = Some c /\ stays cap e c = false).
      { rewrite IH2. split; intros (Hin & c0 & Hc0 & Hs0); split; try done; exists c0; split; try done.
        - rewrite lookup_insert_ne in Hc0 by (intros ->; done). done.
        - rewrite lookup_insert_ne by (intros ->; done). done. }
      rewrite elem_of_cons. destruct b; rewrite ?elem_of_cons, Hid.
      + split; [tauto|]. intros ([->|?] & c0 & Hc0 & Hs0); [|eauto]. simplify_eq. congruence.
      + split; [|tauto]. intros [->|[? ?]]; [|tauto]. split; [by left|]. eauto. }
  destruct (h !! x) as [c|] eqn:Hc.
  - unfold after_send, stays in Hstep. destruct (try_send cap e c) as [c'| |] eqn:Ht.
    + eapply (Hstep c c' h' rm true); try done; by rewrite Ht.
    + destruct (send_all _ _ _ _) as [h1 rm1] eqn:Hs. simplify_eq.
      eapply (Hstep c _ h' rm1 false); try done; by rewrite Ht.
    + destruct (send_all _ _ _ _) as [h1 rm1] eqn:Hs. simplify_eq.
      eapply (Hstep c _ h' rm1 false); try done; by rewrite Ht.
  - destruct (IH _ _ _ Hnd H) as [IH1 IH2]. split; intros id.
    + rewrite IH1. destruct (decide (id = x)) as [->|Hne].
      * rewrite decide_False, decide_True, Hc by (done || left). done.
      * destruct (decide (id ∈ subs)); [rewrite decide_True by (by right)|rewrite decide_False]; try done.
        rewrite elem_of_cons. tauto.
    + rewrite IH2, elem_of_cons. split; [tauto|]. intros ([->|?] & c0 & Hc0 & Hs0); [congruence|eauto].
Qed.

Lemma remove_all_spec rm subs (h : gmap Z Channel) :
  exists h', foldl (fun acc id => remove_subscriber id acc) (subs, h) rm
             = (filter (fun k => k ∉ rm) subs, h') /\
  forall id, h' !! id = if decide (id ∈ rm) then drop_sender <$> h !! id else h !! id.
Proof.
  revert subs h. induction rm as [|x rm IH]; intros subs h; simpl.
  { exists h. split; [|done].
    f_equal. induction subs as [|y subs IHs]; [done|].
    rewrite filter_cons_True by (apply not_elem_of_nil). by rewrite IHs at 1. }
  unfold remove_subscriber at 2. simpl.
  destruct (IH (filter (fun k => k <> x) subs) (alter drop_sender x h)) as (h' & -> & Hh).
  exists h'. split.
  - f_equal. rewrite list_filter_filter. apply list_filter_iff. intros y. rewrite elem_of_cons. tauto.
  - intros id. rewrite Hh. destruct (decide (id = x)) as [->|Hne].
    + rewrite lookup_alter_eq, (decide_True (P := x ∈ x :: rm)) by left.
      case_decide; [|done]. by destruct (h !! x).
    + rewrite lookup_alter_ne by done.
      destruct (decide (id ∈ rm)); [rewrite decide_True by (by right)|rewrite decide_False]; try done.
      rewrite elem_of_cons. tauto.
Qed.

(** What publishing does to the subscribers and to each channel. *)
Lemma publish_spec cap e subs h :
  NoDup subs -> exists subs' h', publish cap e subs h = (subs', h') /\
  NoDup subs' /\ (forall id, id ∈ subs' -> id ∈ subs) /\ (length subs' <= length subs)%nat /\
  (forall id, is_Some (h' !! id) <-> is_Some (h !! id)) /\
  (forall id c', h' !! id = Some c' -> exists c, h !! id = Some c /\
    ((id ∉ subs /\ id ∉ subs' /\ c' = c) \/
     (id ∈ subs /\ id ∈ subs' /\ stays cap e c = true /\ c' = after_send cap e c) \/
     (id ∈ subs /\ id ∉ subs' /\ stays cap e c = false /\ c' = drop_sender (after_send cap e c)))).
Proof.
  intros Hnd. unfold publish. destruct (send_all cap e subs h) as [h1 rm] eqn:Hs.
  destruct (send_all_spec _ _ _ _ _ _ Hnd Hs) as [Hh1 Hrm].
  destruct (remove_all_spec rm subs h1) as (h' & -> & Hh2).
  exists (filter (fun k => k ∉ rm) subs), h'. split; [done|]. split; [by apply NoDup_filter|].
  split; [by intros id [_ ?]%list_elem_of_filter|]. split; [apply length_filter|]. split.
  - intros id. rewrite Hh2, Hh1. repeat case_decide; rewrite ?fmap_is_Some; done.
  - intros id c' Hc. rewrite Hh2, Hh1 in Hc. setoid_rewrite list_elem_of_filter.
    destruct (h !! id) as [c|] eqn:E; [|by repeat case_decide]. exists c. split; [done|].
    specialize (Hrm id). rewrite E in Hrm.
    destruct (decide (id ∈ subs)) as [Hin|Hout].
    + destruct (stays cap e c) eqn:Est.
      * assert (Hn : id ∉ rm) by (rewrite Hrm; intros (_ & ? & [= <-] & ?); congruence).
        rewrite decide_False in Hc by done. simplify_eq/=. right. left. done.
      * assert (Hy : id ∈ rm) by (rewrite Hrm; eauto).
        rewrite decide_True in Hc by done. simplify_eq/=. right. right. tauto.
    + rewrite decide_False in Hc by (rewrite Hrm; tauto). simplify_eq/=. left. tauto.
Qed.

Lemma alter_all_lookup (f : Channel -> Channel) subs (h : gmap Z Channel) id :
  NoDup subs ->
  foldl (fun h id => alter f id h) h subs !! id =
    if decide (id ∈ subs) then f <$> h !! id else h !! id.
Proof.
  revert h. induction subs as [|x subs IH]; intros h Hnd; simpl.
  { done. }
  apply NoDup_cons in Hnd as [Hx Hnd]. rewrite IH by done.
  destruct (decide (id = x)) as [->|Hne].
  - rewrite decide_False, decide_True, lookup_alter_eq by (done || left). done.
  - rewrite lookup_alter_ne by done.
    destruct (decide (id ∈ subs)); [rewrite decide_True by (by right)|rewrite decide_False]; try done.
    rewrite elem_of_cons. tauto.
Qed.

(** ** The invariant *)

(** A channel of a subscriber with cursor [cur] whose client was handed [got].  What it was handed
    followed by what is queued is a prefix of the events after its cursor; while it is registered,
    it is all of them, and the channel is open.  Once it is not, the sender is gone and the close
    reason is recorded. *)
Definition chan_ok (i : Inner) (lg : list Env) (live : Prop) (cur : Z) (got : list Env) (c : Channel)
  : Prop :=
  0 <= cur <= len lg /\
  len (queue c) <= live_capacity (config i) /\
  (got ++ queue c) `prefix_of` drop (Z.to_nat cur) lg /\
  (live -> got ++ queue c = drop (Z.to_nat cur) lg /\ receiver_alive c = true /\
           sender_alive c = true /\ close_reason c = CLOSE_OPEN) /\
  (~ live -> sender_alive c = false /\ close_reason c <> CLOSE_OPEN).

Record LogInv (i : Inner) (d : Deliveries) (w : World) : Prop := {
  li_high_water : value (high_water_seq (st w)) = len (log w);
  li_bound : len (log w) <= u64_max;
  li_seqs : map (fun e => value (ev_seq e)) (log w) = seqZ 1 (len (log w));
  li_envelopes : Forall (fun e => ev_schema_version e = EVENT_SCHEMA_VERSION /\
                   ev_session_id e = SessionTypes.session_id (identity i)) (log w);
  li_history : history (st w) = lastn (Z.to_nat (history_capacity (config i))) (log w);
  li_nodup : NoDup (subscribers (st w));
  li_limit : len (subscribers (st w)) <= max_subscribers (config i);
  li_next : 1 <= next_subscriber_id (st w);
  li_ids : forall id, id ∈ subscribers (st w) -> is_Some (heap w !! id);
  li_fresh : forall id, is_Some (heap w !! id) -> id < next_subscriber_id (st w);
  li_known : forall id, is_Some (heap w !! id) <-> is_Some (d !! id);
  li_chan : forall id c cur got, heap w !! id = Some c -> d !! id = Some (cur, got) ->
    chan_ok i (log w) (id ∈ subscribers (st w)) cur got c }.

(** An operation that leaves the event side alone keeps the invariant. *)
Lemma LogInv_frame i d w s :
  LogInv i d w ->
  high_water_seq s = high_water_seq (st w) -> history s = history (st w) ->
  subscribers s = subscribers (st w) -> next_subscriber_id s = next_subscriber_id (st w) ->
  LogInv i d (mkWorld s (heap w) (log w)).
Proof. intros [] E1 E2 E3 E4. constructor; simpl; rewrite ?E1, ?E2, ?E3, ?E4; done. Qed.

Lemma LogInv_on_st i d w f :
  LogInv i d w ->
  high_water_seq (f (st w)) = high_water_seq (st w) -> history (f (st w)) = history (st w) ->
  subscribers (f (st w)) = subscribers (st w) ->
  next_subscriber_id (f (st w)) = next_subscriber_id (st w) ->
  LogInv i d (on_st f w).
Proof. intros. by apply LogInv_frame. Qed.

(** *** Publishing an event *)

Lemma chan_ok_send i lg cur got c e :
  0 < live_capacity (config i) ->
  chan_ok i lg True cur got c ->
  let cap := live_capacity (config i) in
  (stays cap e c = true -> chan_ok i (lg ++ [e]) True cur got (after_send cap e c)) /\
  (stays cap e c = false -> chan_ok i (lg ++ [e]) False cur got (drop_sender (after_send cap e c))).
Proof.
  intros Hcap (Hcur & Hq & Hp & Hl & _). destruct (Hl I) as (Hall & Hr & Hs & Hc).
  assert (Hdrop : drop (Z.to_nat cur) (lg ++ [e]) = drop (Z.to_nat cur) lg ++ [e]).
  { apply drop_app_le. unfold len in Hcur. lia. }
  unfold stays, after_send, try_send. rewrite Hr. simpl.
  assert (Hlen : len (lg ++ [e]) = len lg + 1) by (unfold len; rewrite length_app; simpl; lia).
  destruct (Z.leb_spec (live_capacity (config i)) (len (queue c))) as [Hle|Hlt].
  - split; intros; [done|]. unfold chan_ok. simpl. rewrite Hlen, Hdrop.
    repeat split; try lia; try done. rewrite Hall. by apply prefix_app_r.
  - split; intros; [|done]. unfold chan_ok. simpl. rewrite Hlen, Hdrop, app_assoc, Hall.
    unfold len in *. rewrite length_app. simpl. repeat split; try lia; try done; by destruct 1.
Qed.

Lemma chan_ok_extend i lg cur got c e :
  chan_ok i lg False cur got c -> chan_ok i (lg ++ [e]) False cur got c.
Proof.
  intros (Hcur & Hq & Hp & _ & Hd). unfold chan_ok, len in *. rewrite length_app. simpl.
  repeat split; try lia; try (by destruct 1); try (by apply Hd).
  rewrite drop_app_le by lia. by apply prefix_app_r.
Qed.

#[export] Instance chan_ok_proper i lg : Proper (iff ==> eq ==> eq ==> eq ==> iff) (chan_ok i lg).
Proof. intros P Q HPQ ? cur -> ? got -> ? c ->. unfold chan_ok. tauto. Qed.

Lemma append_event_inv i d w turn p :
  valid_config (config i) -> LogInv i d w -> value (high_water_seq (st w)) < u64_max ->
  LogInv i d (append_event i turn p w).
Proof.
  intros (_ & Hh & _ & Hlv) [] Hb. unfold append_event.
  rewrite u64_add_exact by (unfold len in *; lia). set (e := {| ev_seq := _ |}).
  destruct (publish_spec (live_capacity (config i)) e (subscribers (st w)) (heap w) li_nodup0)
    as (subs & h & -> & Hnd & Hsub & Hlen & Hlk & Hch).
  assert (Hlog : len (log w ++ [e]) = len (log w) + 1)
    by (unfold len; rewrite length_app; simpl; lia).
  unfold MIN_HISTORY_CAPACITY in Hh. unfold MIN_LIVE_CAPACITY in Hlv.
  constructor; simpl; rewrite ?Hlog; try done; try lia.
  - rewrite map_app, li_seqs0. simpl. rewrite <- seqZ_snoc by (unfold len; lia).
    do 2 f_equal. lia.
  - apply Forall_app. split; [done|]. by repeat constructor.
  - rewrite trim_front_lastn, li_history0 by lia. apply lastn_snoc. lia.
  - unfold len in *. lia.
  - intros id Hid. apply Hlk. auto.
  - intros id Hid. apply li_fresh0. by apply Hlk.
  - intros id. by rewrite Hlk.
  - intros id c' cur got Hc Hd. destruct (Hch _ _ Hc) as (c & Hc0 & Hcase).
    pose proof (li_chan0 _ _ _ _ Hc0 Hd) as Hok.
    destruct Hcase as [(H1 & H2 & ->)|[(H1 & H2 & Hst & ->)|(H1 & H2 & Hst & ->)]].
    + assert (E1 : id ∈ subs <-> False) by tauto.
      assert (E2 : id ∈ subscribers (st w) <-> False) by tauto.
      rewrite E1. rewrite E2 in Hok. by apply chan_ok_extend.
    + assert (E1 : id ∈ subs <-> True) by tauto.
      assert (E2 : id ∈ subscribers (st w) <-> True) by tauto.
      rewrite E1. rewrite E2 in Hok. apply chan_ok_send; [lia|done|done].
    + assert (E1 : id ∈ subs <-> False) by tauto.
      assert (E2 : id ∈ subscribers (st w) <-> True) by tauto.
      rewrite E1. rewrite E2 in Hok. apply chan_ok_send; [lia|done|done].
Qed.

(** Sequences of what a bounded history retains. *)
Lemma seqs_drop (l : list Env) m k :
  map (fun e => value (ev_seq e)) l = seqZ m (len l) ->
  map (fun e => value (ev_seq e)) (drop k l) = seqZ (m + Z.of_nat (Nat.min k (length l))) (len (drop k l)).
Proof.
  revert m l. induction k as [|k IH]; intros m l H; [by rewrite drop_0, Z.add_0_r|].
  destruct l as [|e l]; simpl drop; [by rewrite Z.add_0_r|].
  unfold len in *. simpl length in H. rewrite Nat2Z.inj_succ, seqZ_cons in H by lia.
  injection H as H1 H2. rewrite Z.pred_succ in H2. rewrite (IH (Z.succ m) l) by done.
  simpl length. f_equal. lia.
Qed.

(** On consecutive sequences, selecting those above a cursor drops a prefix. *)
Lemma filter_above (l : list Env) m cur :
  map (fun e => value (ev_seq e)) l = seqZ m (len l) ->
  filter (fun e => cur < value (ev_seq e)) l = drop (Z.to_nat (cur - m + 1)) l.
Proof.
  revert m. induction l as [|e l IH]; intros m H; [by rewrite drop_nil|].
  unfold len in H. simpl length in H. rewrite Nat2Z.inj_succ, seqZ_cons in H by lia.
  injection H as H1 H2. rewrite Z.pred_succ in H2. specialize (IH (Z.succ m) H2).
  destruct (decide (cur < m)).
  - rewrite filter_cons_True, IH by lia.
    replace (Z.to_nat (cur - Z.succ m + 1)) with 0%nat by lia.
    by replace (Z.to_nat (cur - m + 1)) with 0%nat by lia.
  - rewrite filter_cons_False, IH by lia.
    by replace (Z.to_nat (cur - m + 1)) with (S (Z.to_nat (cur - Z.succ m + 1))) by lia.
Qed.

Lemma close_subscribers_inv i d w reason :
  reason <> CLOSE_OPEN -> LogInv i d w -> LogInv i d (close_subscribers reason w).
Proof.
  intros Hr []. unfold close_subscribers.
  set (h := foldl _ (foldl _ _ _) _).
  assert (Hh : forall id, h !! id = if decide (id ∈ subscribers (st w))
    then (fun c => drop_sender (store_reason reason c)) <$> heap w !! id else heap w !! id).
  { intros id. unfold h. rewrite !alter_all_lookup by done. case_decide; [|done].
    by destruct (heap w !! id). }
  assert (Hlk : forall id, is_Some (h !! id) <-> is_Some (heap w !! id)).
  { intros id. rewrite Hh. case_decide; rewrite ?fmap_is_Some; done. }
  constructor; simpl; try done.
  - apply NoDup_nil_2.
  - unfold len in *. simpl. lia.
  - intros id H. by inversion H.
  - intros id H. apply li_fresh0. by apply Hlk.
  - intros id. by rewrite Hlk.
  - intros id c cur got Hc Hd.
    assert (E1 : id ∈ @nil Z <-> False) by (split; [by inversion 1|done]). rewrite E1.
    rewrite Hh in Hc. destruct (heap w !! id) as [c0|] eqn:Hc0; [|by case_decide].
    pose proof (li_chan0 _ _ _ _ Hc0 Hd) as (H1 & H2 & H3 & _ & H5).
    case_decide; simplify_eq/=; unfold chan_ok; simpl; tauto.
Qed.

Lemma key_insert_elem k keys x : x ∈ key_insert k keys <-> x = k \/ x ∈ keys.
Proof.
  induction keys as [|y keys IH]; simpl; [rewrite list_elem_of_singleton; set_solver|].
  destruct (Z.ltb_spec k y); [by rewrite elem_of_cons|].
  destruct (Z.eqb_spec k y); rewrite ?elem_of_cons, ?IH; [naive_solver|tauto].
Qed.

Lemma key_insert_new k keys :
  k ∉ keys -> NoDup keys -> NoDup (key_insert k keys) /\ length (key_insert k keys) = S (length keys).
Proof.
  induction keys as [|y keys IH]; simpl; intros Hk Hnd.
  { split; [apply NoDup_singleton|done]. }
  apply not_elem_of_cons in Hk as [Hky Hk]. apply NoDup_cons in Hnd as [Hy Hnd].
  destruct (Z.ltb_spec k y); [split; [|done]; apply NoDup_cons; split; [by apply not_elem_of_cons|by apply NoDup_cons]|].
  destruct (Z.eqb_spec k y); [done|]. destruct (IH Hk Hnd) as [IH1 IH2].
  split; [|simpl; by rewrite IH2]. apply NoDup_cons. split; [|done].
  rewrite key_insert_elem. intros [->|?]; done.
Qed.

(** *** Subscribing: the replay is every event after the cursor *)

(** With a cursor the history still covers, the replay filter returns all later events. *)
Lemma replay_complete i d w after :
  valid_config (config i) -> LogInv i d w -> 0 <= after <= len (log w) ->
  match head (history (st w)) with
  | Some oldest => u64_saturating_sub (value (ev_seq oldest)) 1 <= after
  | None => True
  end ->
  filter (fun e => after < value (ev_seq e)) (history (st w)) = drop (Z.to_nat after) (log w).
Proof.
  intros (_ & Hcap & _) [] Ha Hgap. rewrite li_history0 in *.
  set (k := (length (log w) - Z.to_nat (history_capacity (config i)))%nat) in *.
  pose proof (seqs_drop (log w) 1 k li_seqs0) as Hs. unfold lastn in *. fold k in Hgap |- *.
  rewrite (filter_above _ _ _ Hs), drop_drop. f_equal.
  destruct (drop k (log w)) as [|e rest] eqn:Ed.
  - apply (f_equal length) in Ed. rewrite length_drop in Ed. simpl in Ed.
    unfold MIN_HISTORY_CAPACITY, len in *. lia.
  - simpl in Hgap, Hs. unfold len in Hs. simpl length in Hs.
    rewrite Nat2Z.inj_succ, seqZ_cons in Hs by lia. injection Hs as Hs _.
    unfold u64_saturating_sub in Hgap. unfold len in *. lia.
Qed.

Lemma subscribe_inv i d w sid after w' r :
  valid_config (config i) -> LogInv i d w -> 0 <= value after ->
  subscribe i sid after w = (w', r) ->
  match r with
  | Err _ => w' = w
  | Ok s => sub_replay s = drop (Z.to_nat (value after)) (log w) /\
            sub_snapshot s = snapshot_from i (st w) /\ value after <= len (log w) /\
            LogInv i (<[sub_live s := (value after, sub_replay s)]> d) w'
  end.
Proof.
  intros Hv HI Ha. unfold subscribe.
  case_bool_decide; [intros; by simplify_eq|].
  destruct (require_running_worker (st w)); [|intros; by simplify_eq].
  destruct (Z.ltb_spec (value (high_water_seq (st w))) (value after)) as [|Hle];
    [intros; by simplify_eq|].
  destruct (match head (history (st w)) with Some _ => _ | None => _ end) eqn:Hgap;
    [intros; by simplify_eq|].
  destruct (Z.leb_spec (max_subscribers (config i)) (len (subscribers (st w)))) as [|Hmax];
    [intros; by simplify_eq|].
  destruct (u64_checked_add (next_subscriber_id (st w)) 1) eqn:Hnext; [|intros; by simplify_eq].
  intros [= <- <-]. cbn [sub_replay sub_snapshot sub_live].
  rewrite (li_high_water _ _ _ HI) in Hle. apply u64_checked_add_Some in Hnext as [-> _].
  rewrite (replay_complete i d w (value after) Hv HI); [|lia|].
  2:{ destruct (head (history (st w))); [|done]. break_match_hyp; [done|]. by bool_to_prop. }
  split; [done|]. split; [done|]. split; [done|]. destruct HI.
  set (id := next_subscriber_id (st w)) in *.
  assert (Hnew : heap w !! id = None).
  { destruct (heap w !! id) eqn:E; [|done]. specialize (li_fresh0 id ltac:(eauto)). lia. }
  assert (Hout : id ∉ subscribers (st w)).
  { intros Hin. destruct (li_ids0 _ Hin). congruence. }
  destruct (key_insert_new _ _ Hout li_nodup0) as [Hnd Hlen].
  constructor; simpl; try done; try lia.
  - unfold len in *. rewrite Hlen. lia.
  - intros x Hx. apply lookup_insert_is_Some'. apply key_insert_elem in Hx as [->|Hx]; eauto.
  - intros x [->|Hx]%lookup_insert_is_Some'; [lia|]. apply li_fresh0 in Hx. lia.
  - intros x. rewrite !lookup_insert_is_Some'. by rewrite li_known0.
  - intros x c cur got Hc Hd. destruct (decide (x = id)) as [->|Hne].
    + rewrite lookup_insert_eq in Hc. rewrite lookup_insert_eq in Hd. simplify_eq. unfold chan_ok. simpl.
      destruct Hv as (_ & _ & _ & Hlive). unfold MIN_LIVE_CAPACITY in Hlive.
      rewrite app_nil_r, key_insert_elem. change (len (@nil Env)) with 0.
      repeat split; try done; try lia; tauto.
    + rewrite lookup_insert_ne in Hc by done. rewrite lookup_insert_ne in Hd by done.
      assert (E : x ∈ key_insert id (subscribers (st w)) <-> x ∈ subscribers (st w))
        by (rewrite key_insert_elem; tauto).
      rewrite E. eauto.
Qed.

(** *** Receiving and unsubscribing *)
Lemma try_recv_inv i d w id w' r :
  LogInv i d w -> try_recv id w = (w', r) ->
  match r with
  | Err _ => w' = w
  | Ok e => exists cur got, d !! id = Some (cur, got) /\ LogInv i (<[id := (cur, got ++ [e])]> d) w'
  end.
Proof.
  intros HI. unfold try_recv. destruct (heap w !! id) as [c|] eqn:Hc; [|intros; by simplify_eq].
  destruct (queue c) as [|e rest] eqn:Hq; [intros; by simplify_eq|]. intros [= <- <-].
  destruct HI. destruct (proj1 (li_known0 id) ltac:(eauto)) as [[cur got] Hd].
  exists cur, got. split; [done|]. constructor; simpl; try done.
  - intros x Hx. apply lookup_insert_is_Some'. eauto.
  - intros x [->|Hx]%lookup_insert_is_Some'; eauto.
  - intros x. rewrite !lookup_insert_is_Some'. by rewrite li_known0.
  - intros x c' cur' got' Hc' Hd'. destruct (decide (x = id)) as [->|Hne].
    + rewrite lookup_insert_eq in Hc'. rewrite lookup_insert_eq in Hd'. simplify_eq.
      pose proof (li_chan0 _ _ _ _ Hc Hd) as (H1 & H2 & H3 & H4 & H5).
      rewrite Hq in H2, H3, H4. unfold chan_ok. simpl. rewrite <- app_assoc. simpl.
      unfold len in *. simpl in H2. split_and!; try done; lia.
    + rewrite lookup_insert_ne in Hc' by done. rewrite lookup_insert_ne in Hd' by done. eauto.
Qed.

Lemma drop_live_receiver_inv i d w id : LogInv i d w -> LogInv i d (drop_live_receiver id w).
Proof.
  intros []. unfold drop_live_receiver, remove_subscriber. case_bool_decide as Hin; simpl.
  - constructor; simpl; try done.
    + by apply NoDup_filter.
    + pose proof (length_filter (fun k => k <> id) (subscribers (st w))). unfold len in *. lia.
    + intros x [_ Hx]%list_elem_of_filter. rewrite !lookup_alter_is_Some. eauto.
    + intros x. rewrite !lookup_alter_is_Some. eauto.
    + intros x. by rewrite !lookup_alter_is_Some.
    + intros x c cur got Hc Hd. rewrite list_elem_of_filter. destruct (decide (x = id)) as [->|Hne].
      * rewrite !lookup_alter_eq in Hc. destruct (heap w !! id) as [c0|] eqn:E; simplify_eq/=.
        pose proof (li_chan0 _ _ _ _ E Hd) as (H1 & H2 & H3 & H4 & H5).
        unfold chan_ok. simpl. split_and!; try done; tauto.
      * rewrite !lookup_alter_ne in Hc by done.
        assert (E : x <> id /\ x ∈ subscribers (st w) <-> x ∈ subscribers (st w)) by tauto.
        rewrite E. eauto.
  - constructor; simpl; try done.
    + intros x Hx. rewrite lookup_alter_is_Some. eauto.
    + intros x. rewrite lookup_alter_is_Some. eauto.
    + intros x. by rewrite lookup_alter_is_Some.
    + intros x c cur got Hc Hd. destruct (decide (x = id)) as [->|Hne].
      * rewrite lookup_alter_eq in Hc. destruct (heap w !! id) as [c0|] eqn:E; simplify_eq/=.
        pose proof (li_chan0 _ _ _ _ E Hd) as (H1 & H2 & H3 & H4 & H5).
        unfold chan_ok. simpl. tauto.
      * rewrite lookup_alter_ne in Hc by done. eauto.
Qed.

(** *** Operations on the turn side *)

(** Two states with the same event side. *)
Definition same_events (s s' : RuntimeState) : Prop :=
  high_water_seq s' = high_water_seq s /\ history s' = history s /\
  subscribers s' = subscribers s /\ next_subscriber_id s' = next_subscriber_id s.

#[export] Instance same_events_preorder : PreOrder same_events.
Proof.
  split; unfold same_events; [intros s; tauto|].
  intros s1 s2 s3 (? & ? & ? & ?) (? & ? & ? & ?). intuition congruence.
Qed.

Lemma LogInv_same i d w f :
  same_events (st w) (f (st w)) -> LogInv i d w -> LogInv i d (on_st f w).
Proof. intros (E1 & E2 & E3 & E4) HI. by apply LogInv_on_st. Qed.

Lemma on_turn_of_same id f s : same_events s (on_turn_of id f s).
Proof. unfold on_turn_of. by destruct (turn_of s id). Qed.

Lemma apply_projected_same turn p b s s' :
  apply_projected_lifecycle turn p b s = Ok s' -> same_events s s'.
Proof.
  unfold apply_projected_lifecycle. intros H. repeat break_match; simplify_eq; done.
Qed.

Lemma reserve_events_Ok s n u : reserve_events s n = Ok u -> value (high_water_seq s) + n <= u64_max.
Proof.
  unfold reserve_events. destruct (u64_checked_add _ _) eqn:E; [|done].
  by apply u64_checked_add_Some in E as [_ ?].
Qed.

Lemma reserve_events_is_ok s n :
  is_ok (reserve_events s n) = true -> value (high_water_seq s) + n <= u64_max.
Proof. destruct (reserve_events s n) eqn:E; [|done]. intros _. by eapply reserve_events_Ok. Qed.

Lemma append_event_fields i t p w :
  let s' := st (append_event i t p w) in
  session_state s' = session_state (st w) /\ current_turn s' = current_turn (st w) /\
  work s' = work (st w) /\ shutdown_requested s' = shutdown_requested (st w) /\
  worker_stopped s' = worker_stopped (st w) /\
  high_water_seq s' = mkSeq (u64_add (value (high_water_seq (st w))) 1).
Proof. unfold append_event. by destruct (publish _ _ _ _). Qed.

Lemma append_event_hw i t p w :
  value (high_water_seq (st (append_event i t p w))) = u64_add (value (high_water_seq (st w))) 1.
Proof. destruct (append_event_fields i t p w) as (_ & _ & _ & _ & _ & ->). done. Qed.

(** The three things a region other than subscribing and receiving does to the event side:
    nothing, append within the sequence space, close every subscriber. *)
Inductive prim (i : Inner) (ok : P0SessionEvent -> Prop) (w : World) : World -> Prop :=
| prim_set f : same_events (st w) (f (st w)) -> prim i ok w (on_st f w)
| prim_append t p :
    value (high_water_seq (st w)) < u64_max -> ok p -> prim i ok w (append_event i t p w)
| prim_close reason : reason <> CLOSE_OPEN -> prim i ok w (close_subscribers reason w).

(** [evolves i ok w w']: a chain of such effects that appends only payloads satisfying [ok]. *)
Abbreviation evolves i ok := (rtc (prim i ok)).

Lemma prim_LogInv i ok d w w' : valid_config (config i) -> prim i ok w w' -> LogInv i d w -> LogInv i d w'.
Proof.
  intros Hv [f Hs|t p Hb Hp|reason Hr] HI;
    eauto using LogInv_same, append_event_inv, close_subscribers_inv.
Qed.

Lemma evolves_LogInv i ok d w w' :
  valid_config (config i) -> evolves i ok w w' -> LogInv i d w -> LogInv i d w'.
Proof. intros Hv. induction 1; eauto using prim_LogInv. Qed.

Lemma append_event_log i t p w : exists e, ev_turn_id e = t /\ ev_payload e = p /\
  log (append_event i t p w) = log w ++ [e].
Proof. unfold append_event. destruct (publish _ _ _ _). eexists. split_and!; [| |reflexivity]; done. Qed.

(** The log is append-only, and what is appended satisfies [ok]. *)
Lemma evolves_log i ok w w' :
  evolves i ok w w' -> exists es, log w' = log w ++ es /\ Forall (fun e => ok (ev_payload e)) es.
Proof.
  induction 1 as [w|w1 w2 w3 Hp _ (es & -> & Hes)]; [exists []; by rewrite app_nil_r|].
  destruct Hp as [f Hs|t p Hb Hok|reason Hr]; [by exists es| |by exists es].
  destruct (append_event_log i t p w1) as (e & _ & <- & ->).
  exists (e :: es). split; [by rewrite <- app_assoc|by constructor].
Qed.

Lemma evolves_weaken i (ok ok' : P0SessionEvent -> Prop) w w' :
  (forall p, ok p -> ok' p) -> evolves i ok w w' -> evolves i ok' w w'.
Proof.
  intros Hok. apply rtc_congruence with (f := id). intros ? ? []; constructor; auto.
Qed.

Lemma evolves_hw i ok w w' :
  evolves i ok w w' -> 0 <= value (high_water_seq (st w)) -> 0 <= value (high_water_seq (st w')).
Proof.
  induction 1 as [|w1 w2 w3 Hp _ IH]; [done|]. intros Hw. apply IH.
  destruct Hp as [f (E & _)|t p Hb Hok|reason Hr]; [simpl; by rewrite E| |done].
  destruct (append_event_fields i t p w1) as (_ & _ & _ & _ & _ & ->).
  apply Z.mod_pos_bound. lia.
Qed.

Lemma on_turn_same f s s' : same_events s s' -> same_events s (on_turn f s').
Proof. done. Qed.

#[export] Hint Resolve on_turn_of_same on_turn_same apply_projected_same : codebox.
#[export] Hint Extern 2 (same_events _ _) => solve [repeat split] : codebox.

Lemma on_turn_of_hw id f s : high_water_seq (on_turn_of id f s) = high_water_seq s.
Proof. apply on_turn_of_same. Qed.

(** Facts about reservations and sequence bounds. *)
Ltac hw_facts :=
  repeat match goal with
  | H : is_ok (reserve_events _ _) = true |- _ => apply reserve_events_is_ok in H
  | H : is_err (reserve_events _ _) = false |- _ => apply negb_false_iff, reserve_events_is_ok in H
  | H : reserve_events _ _ = Ok _ |- _ => apply reserve_events_Ok in H
  | H : true && _ = false |- _ => cbn [andb] in H
  | H : negb false && _ = false |- _ => cbn [negb] in H
  | H : apply_projected_lifecycle _ _ _ _ = Ok ?s |- _ =>
      lazymatch goal with
      | _ : value (high_water_seq s) = _ |- _ => fail
      | _ => pose proof (f_equal value (proj1 (apply_projected_same _ _ _ _ _ H)))
      end
  end.

Ltac hw_bound :=
  hw_facts; repeat (progress (rewrite ?append_event_hw, ?on_turn_of_hw; cbn in *));
  rewrite ?u64_add_exact by (unfold u64_max in *; lia); try congruence; lia.

(** Build the chain of primitive effects of an operation's final world. *)
Ltac evolve_last :=
  lazymatch goal with
  | |- rtc (prim _ _) ?w ?w => apply rtc_refl
  | |- rtc (prim _ _) _ (append_event _ _ _ _) =>
      eapply rtc_r; [|apply prim_append; [|solve [auto with codebox]]]
  | |- rtc (prim _ _) _ (on_st _ _) => eapply rtc_r; [|apply prim_set]
  | |- rtc (prim _ _) _ (close_subscribers _ _) => eapply rtc_r; [|by apply prim_close]
  end.

(** ** Every operation is a chain of primitive effects *)

(** Payloads other than the two that open and abort a turn. *)
Definition quiet (p : P0SessionEvent) : Prop :=
  match p with TurnAccepted | TurnCanceledBeforeCloudStart => False | _ => True end.
Definition any_event (p : P0SessionEvent) : Prop := True.
#[export] Hint Extern 1 (quiet _) => exact I : codebox.
#[export] Hint Extern 1 (any_event _) => exact I : codebox.

Lemma stop_worker_evolves i (ok : P0SessionEvent -> Prop) reason w :
  0 <= value (high_water_seq (st w)) -> ok (EvRuntimeStopped reason) ->
  evolves i ok w (stop_worker i reason w).
Proof.
  intros Hhw Hok. unfold stop_worker. destruct (worker_stopped _); [done|].
  destruct (_ && _); destruct (is_ok _) eqn:E; cbv zeta; repeat evolve_last; auto with codebox;
    hw_bound.
Qed.

Lemma stop_after_lower_failure_evolves i (ok : P0SessionEvent -> Prop) turn w :
  0 <= value (high_water_seq (st w)) -> ok (EvRuntimeStopped LowerFailure) ->
  evolves i ok w (stop_after_lower_failure i turn w).
Proof.
  intros Hhw Hok. eapply rtc_l; [apply prim_set|apply stop_worker_evolves]; auto with codebox.
  unfold on_turn_of. simpl. by destruct (turn_of _ _).
Qed.

Ltac evolve_stop :=
  lazymatch goal with
  | |- rtc (prim _ _) _ (stop_worker _ _ _) =>
      etransitivity; [|apply stop_worker_evolves; [|solve [auto with codebox]]]
  | |- rtc (prim _ _) _ (stop_after_lower_failure _ _ _) =>
      etransitivity; [|apply stop_after_lower_failure_evolves; [|solve [auto with codebox]]]
  end.

Ltac evolve_op :=
  cbv zeta; repeat (break_match_goal; cbn [fst]); repeat (evolve_last || evolve_stop);
  eauto with codebox; try hw_bound.

Lemma apply_projected_flags turn p b s s' :
  apply_projected_lifecycle turn p b s = Ok s' ->
  shutdown_requested s' = shutdown_requested s /\ worker_stopped s' = worker_stopped s.
Proof. unfold apply_projected_lifecycle. intros H. repeat break_match; simplify_eq; done. Qed.

Section Evolution.
Context (i : Inner) (w : World).
Hypothesis Hhw : 0 <= value (high_water_seq (st w)).

Lemma commit_cancel_result_evolves turn l : evolves i quiet w (commit_cancel_result i turn l w).1.
Proof. unfold commit_cancel_result. evolve_op. Qed.

Lemma commit_worker_cancel_evolves turn l : evolves i quiet w (commit_worker_cancel i turn l w).1.
Proof. unfold commit_worker_cancel. evolve_op. Qed.

Lemma start_turn_evolves fresh prompt : evolves i any_event w (start_turn i fresh prompt w).1.
Proof. unfold start_turn. evolve_op. Qed.

Lemma cancel_turn_active_evolves actor t : evolves i quiet w (cancel_turn_active i actor t w).1.
Proof. unfold cancel_turn_active. evolve_op. Qed.

Lemma cancel_turn_enter_evolves actor : evolves i any_event w (cancel_turn_enter i actor w).1.
Proof.
  unfold cancel_turn_enter. evolve_op.
  all: eapply evolves_weaken; [|apply cancel_turn_active_evolves]; done.
Qed.

Lemma cancel_turn_on_lower_evolves turn b now deadline lower :
  evolves i quiet w (cancel_turn_on_lower i turn b now deadline lower w).1.
Proof.
  unfold cancel_turn_on_lower. destruct lower as [l|e]; [|evolve_op].
  pose proof (commit_cancel_result_evolves turn l). by destruct (commit_cancel_result i turn l w).
Qed.

Lemma reconcile_unknown_commit_evolves actor o lower :
  evolves i quiet w (reconcile_unknown_commit i actor o lower w).1.
Proof. unfold reconcile_unknown_commit. evolve_op. Qed.

Lemma resolve_unknown_commit_evolves actor o dec now lower :
  evolves i quiet w (resolve_unknown_commit i actor o dec now lower w).1.
Proof. unfold resolve_unknown_commit. evolve_op. Qed.

Lemma shutdown_enter_evolves : evolves i quiet w (shutdown_enter i w).1.
Proof. unfold shutdown_enter. evolve_op. Qed.

Lemma next_worker_action_evolves now : evolves i quiet w (next_worker_action i now w).1.
Proof. unfold next_worker_action. evolve_op. Qed.

Lemma admit_start_evolves turn : evolves i any_event w (admit_start i turn w).1.
Proof. unfold admit_start. evolve_op. Qed.

Lemma handle_start_result_evolves now turn lower :
  evolves i quiet w (handle_start_result i now turn lower w).1.
Proof.
  unfold handle_start_result. evolve_op.
  all: match goal with
       | H : apply_projected_lifecycle _ _ _ _ = Ok _, H' : shutdown_requested (st (append_event _ _ _ _)) = _ |- _ =>
           apply apply_projected_flags in H as [? _];
           rewrite (proj1 (proj2 (proj2 (proj2 (append_event_fields _ _ _ _))))) in H'
       end; simpl in *; congruence.
Qed.

Lemma handle_start_cancel_result_evolves turn lower :
  evolves i quiet w (handle_start_cancel_result i turn lower w).
Proof.
  unfold handle_start_cancel_result. destruct lower; [apply commit_worker_cancel_evolves|evolve_op].
Qed.

Lemma handle_cancel_action_result_evolves turn lower :
  evolves i quiet w (handle_cancel_action_result i turn lower w).
Proof.
  unfold handle_cancel_action_result. destruct lower as [l|e]; [|evolve_op].
  pose proof (commit_worker_cancel_evolves turn l) as He.
  destruct (commit_worker_cancel i turn l w) as [w' r]. simpl in He.
  pose proof (evolves_hw _ _ _ _ He Hhw). evolve_op.
Qed.

Lemma handle_monitor_result_evolves now turn failures lower :
  evolves i quiet w (handle_monitor_result i now turn failures lower w).
Proof. unfold handle_monitor_result. evolve_op. Qed.

End Evolution.
