(* ===== verification/SessionSystem.v ===== *)
(** * The session runtime as a concurrent system

    Interleaves the locked regions of SessionRuntime.v the way [runtime.rs] runs them: one worker
    thread in [worker_loop], any number of API callers between the locked regions of [cancel_turn],
    [reconcile_unknown] and [resolve_unknown], and the receivers of live events.  A label of
    [sys_step] is one region together with what it observes from outside: the clock, fresh
    identifiers and the result of the lower Cloud call that returned; lower results are arbitrary
    unless a theorem says otherwise.

    The fields [deliveries], [starts] and [issued] are auxiliary: no region reads them
    (a label that offers a fresh identifier must not repeat an issued one). *)
From S2P Require Import Prelude DomainValues CloudTypes SessionTypes SessionRuntime SessionLog.
From stdpp Require Import base numbers list strings gmap list_numbers relations.
From Stdlib Require Import ZArith Lia.
Import Ids Seqs Config Errors SessionRuntime.

Open Scope Z_scope.

(** Where the worker thread is in [worker_loop]. *)
Inductive WorkerPc :=
| WIdle
| WClaimed (turn : TurnId) (prompt : CloudPrompt)
| WStarting (turn : TurnId)
| WStartCancel (turn : TurnId)
| WMonitoring (turn : TurnId) (failures : Z)
| WCancelling (turn : TurnId)
| WExited.

(** An API call between two of its locked regions. *)
Inductive Caller :=
| CCancel (turn : TurnId) (admission : bool) (deadline : Z)
| CReconcile (actor : P0Actor) (expected : CloudSubmitOperationId)
| CResolve (actor : P0Actor) (op : CloudSubmitOperationId) (decision : UnknownSubmitDecision).

Record Sys := mkSys {
  world : World;
  pc : WorkerPc;
  callers : list Caller;
  deliveries : Deliveries;
  starts : list TurnId;
  issued : list TurnId }.

Inductive Label :=
| StartTurn (fresh : TurnId) (prompt : CloudPrompt)
| CancelEnter (actor : P0Actor) (now : Z)
| CancelLower (k : nat) (now : Z) (lower : result LowerLifecycleError CloudLifecycle)
| ReconcileEnter (actor : P0Actor)
| ReconcileLower (k : nat) (lower : result LowerLifecycleError P0RecoveryCandidates)
| ResolveEnter (actor : P0Actor) (op : CloudSubmitOperationId) (decision : UnknownSubmitDecision)
| ResolveLower (k : nat) (now : Z) (lower : result LowerLifecycleError CloudLifecycle)
| Subscribe (sid : SessionId) (after : EventSeq)
| Receive (id : Z)
| DropReceiver (id : Z)
| ShutdownEnter
| WorkerNext (now : Z)
| WorkerAdmit
| WorkerStartDone (now : Z) (lower : result LowerLifecycleError CloudLifecycle)
| WorkerStartCancelDone (lower : result LowerLifecycleError CloudLifecycle)
| WorkerMonitorDone (now : Z) (lower : result LowerLifecycleError CloudLifecycle)
| WorkerCancelDone (lower : result LowerLifecycleError CloudLifecycle).

Definition on_world (y : Sys) (w : World) : Sys :=
  mkSys w (pc y) (callers y) (deliveries y) (starts y) (issued y).
Definition with_pc (p : WorkerPc) (y : Sys) : Sys :=
  mkSys (world y) p (callers y) (deliveries y) (starts y) (issued y).
Definition with_callers (c : list Caller) (y : Sys) : Sys :=
  mkSys (world y) (pc y) c (deliveries y) (starts y) (issued y).
Definition with_deliveries (d : Deliveries) (y : Sys) : Sys :=
  mkSys (world y) (pc y) (callers y) d (starts y) (issued y).

(** The worker's position after [next_worker_action] returned an action. *)
Definition pc_of_action (a : option WorkerAction) : WorkerPc :=
  match a with
  | None => WIdle
  | Some (ActStart t p) => WClaimed t p
  | Some (ActMonitor t f) => WMonitoring t f
  | Some (ActCancel t) => WCancelling t
  | Some ActStop => WExited
  end.

(** [worker_loop], one region per step. *)
Definition worker_step (i : Inner) (l : Label) (y : Sys) : option Sys :=
  match l, pc y with
  | WorkerNext now, WIdle =>
      let '(w, a) := next_worker_action i now (world y) in
      Some (mkSys w (pc_of_action a) (callers y) (deliveries y) (starts y)
              (issued y))
  | WorkerAdmit, WClaimed t _ =>
      let '(w, admitted) := admit_start i t (world y) in
      Some (mkSys w (if admitted then WStarting t else WIdle) (callers y) (deliveries y)
              (if admitted then t :: starts y else starts y) (issued y))
  | WorkerStartDone now lower, WStarting t =>
      let '(w, cancel) := handle_start_result i now t lower (world y) in
      Some (with_pc (if cancel then WStartCancel t else WIdle) (on_world y w))
  | WorkerStartCancelDone lower, WStartCancel t =>
      Some (with_pc WIdle (on_world y (handle_start_cancel_result i t lower (world y))))
  | WorkerMonitorDone now lower, WMonitoring t failures =>
      Some (with_pc WIdle (on_world y (handle_monitor_result i now t failures lower (world y))))
  | WorkerCancelDone lower, WCancelling t =>
      Some (with_pc WIdle (on_world y (handle_cancel_action_result i t lower (world y))))
  | _, _ => None
  end.

(** The API calls and the receivers. *)
Definition client_step (i : Inner) (l : Label) (y : Sys) : option Sys :=
  match l with
  | StartTurn fresh prompt =>
      if bool_decide (fresh ∈ issued y) then None
      else Some (mkSys (start_turn i fresh prompt (world y)).1 (pc y) (callers y) (deliveries y)
                   (starts y) (fresh :: issued y))
  | CancelEnter actor now =>
      let '(w, e) := cancel_turn_enter i actor (world y) in
      let y := on_world y w in
      Some match e with
           | CancelCall t admission =>
               with_callers (callers y ++ [CCancel t admission (now + CANCEL_ADMISSION_LIMIT)]) y
           | CancelDone _ | CancelResnapshot => y
           end
  | CancelLower k now lower =>
      match callers y !! k with
      | Some (CCancel t admission deadline) =>
          let '(w, r) := cancel_turn_on_lower i t admission now deadline lower (world y) in
          let y := on_world y w in
          Some match r with
               | CancelReturn _ => with_callers (delete k (callers y)) y
               | CancelRetry => y
               end
      | _ => None
      end
  | ReconcileEnter actor =>
      Some match reconcile_unknown_enter (st (world y)) with
           | Ok op => with_callers (callers y ++ [CReconcile actor op]) y
           | Err _ => y
           end
  | ReconcileLower k lower =>
      match callers y !! k with
      | Some (CReconcile actor op) =>
          Some (with_callers (delete k (callers y))
                  (on_world y (reconcile_unknown_commit i actor op lower (world y)).1))
      | _ => None
      end
  | ResolveEnter actor op decision =>
      Some match resolve_unknown_enter op (st (world y)) with
           | Ok _ => with_callers (callers y ++ [CResolve actor op decision]) y
           | Err _ => y
           end
  | ResolveLower k now lower =>
      match callers y !! k with
      | Some (CResolve actor op decision) =>
          Some (with_callers (delete k (callers y))
                  (on_world y (resolve_unknown_commit i actor op decision now lower (world y)).1))
      | _ => None
      end
  | Subscribe sid after =>
      let '(w, r) := subscribe i sid after (world y) in
      Some match r with
           | Ok s => with_deliveries (<[sub_live s := (value after, sub_replay s)]> (deliveries y))
                       (on_world y w)
           | Err _ => y
           end
  | Receive id =>
      let '(w, r) := try_recv id (world y) in
      Some match r with
           | Ok e => with_deliveries (alter (fun '(cur, got) => (cur, got ++ [e])) id (deliveries y))
                       (on_world y w)
           | Err _ => y
           end
  | DropReceiver id => Some (on_world y (drop_live_receiver id (world y)))
  | ShutdownEnter => Some (on_world y (shutdown_enter i (world y)).1)
  | _ => None
  end.

Definition sys_step (i : Inner) (l : Label) (y : Sys) : option Sys :=
  match l with
  | WorkerNext _ | WorkerAdmit | WorkerStartDone _ _ | WorkerStartCancelDone _
  | WorkerMonitorDone _ _ | WorkerCancelDone _ => worker_step i l y
  | _ => client_step i l y
  end.

Definition sys_init (i : Inner) (now : Z) (fresh : TurnId)
    (inspected : result LowerLifecycleError CloudLifecycle) : result P0SessionError Sys :=
  let? w := from_cloud_control i now fresh inspected in
  Ok (mkSys w WIdle [] ∅ [] [fresh]).

Definition sys_run (i : Inner) (ls : list Label) (y : Sys) : option Sys :=
  foldl (fun acc l => acc ≫= sys_step i l) (Some y) ls.

(** A cursor and the sequence numbers it is compared with are [u64]. *)
Definition label_ok (l : Label) : Prop :=
  match l with Subscribe _ after => 0 <= value after | _ => True end.

Inductive reachable (i : Inner) : Sys -> Prop :=
| reach_init now fresh inspected y : sys_init i now fresh inspected = Ok y -> reachable i y
| reach_step y l y' : reachable i y -> label_ok l -> sys_step i l y = Some y' -> reachable i y'.

(** ** The event side of every reachable state *)

Lemma LogInv_hw i d w : LogInv i d w -> 0 <= value (high_water_seq (st w)).
Proof. intros []. unfold len in *. lia. Qed.

Lemma LogInv_init i w : valid_config (config i) ->
  high_water_seq (st w) = initial -> history (st w) = [] -> subscribers (st w) = [] ->
  next_subscriber_id (st w) = 1 -> heap w = ∅ -> log w = [] -> LogInv i ∅ w.
Proof.
  intros Hv E1 E2 E3 E4 E5 E6.
  constructor; rewrite ?E1, ?E2, ?E3, ?E4, ?E5, ?E6; try done.
  - apply NoDup_nil_2.
  - destruct Hv as (_ & _ & Hs & _). unfold MIN_MAX_SUBSCRIBERS in Hs. unfold len. simpl. lia.
  - intros id H. by inversion H.
  - intros id [? H]. by rewrite lookup_empty in H.
  - intros id. rewrite !lookup_empty. by split; intros [? ?].
Qed.

#[export] Hint Resolve LogInv_hw start_turn_evolves cancel_turn_enter_evolves
  cancel_turn_on_lower_evolves reconcile_unknown_commit_evolves resolve_unknown_commit_evolves
  shutdown_enter_evolves next_worker_action_evolves admit_start_evolves handle_start_result_evolves
  handle_start_cancel_result_evolves handle_monitor_result_evolves
  handle_cancel_action_result_evolves : codebox.

(** Take a step equation [H] apart, down to the region it runs: what the region returned is [r0],
    the world it left is its first projection. *)
Ltac break_step H :=
  cbn in H; unfold worker_step in H; cbn in H;
  repeat match type of H with
  | (match ?x with _ => _ end) = Some _ =>
      lazymatch x with
      | pc _ => destruct x eqn:?; try done
      | _ !! _ => destruct x as [[]|] eqn:?; try done
      | bool_decide _ => destruct x eqn:?; bool_to_prop; try done
      | _ => let E := fresh "E" in
             destruct x as [w0 r0] eqn:E; assert (w0 = x.1) by (by rewrite E); subst w0
      end
  end; simplify_eq/=.

(** The world after a step, as a chain of effects, for every label but the three that touch the
    subscriber table from the client side. *)
Definition client_side (l : Label) : bool :=
  match l with Subscribe _ _ | Receive _ | DropReceiver _ => true | _ => false end.

(** The payloads a step may append: only three regions open or abort a turn. *)
Definition step_events (l : Label) : P0SessionEvent -> Prop :=
  match l with
  | StartTurn _ _ | CancelEnter _ _ | WorkerAdmit => any_event
  | _ => quiet
  end.

Lemma sys_step_evolves i l y y' :
  0 <= value (high_water_seq (st (world y))) -> client_side l = false ->
  sys_step i l y = Some y' ->
  evolves i (step_events l) (world y) (world y') /\ deliveries y' = deliveries y.
Proof.
  intros Hhw Hl H.
  destruct l; try done; break_step H; split; try done; repeat case_match; simpl; try done;
    eauto with codebox.
Qed.

Lemma sys_step_LogInv i l y y' :
  valid_config (config i) -> label_ok l -> LogInv i (deliveries y) (world y) ->
  sys_step i l y = Some y' -> LogInv i (deliveries y') (world y').
Proof.
  intros Hv Hl HI H. destruct (client_side l) eqn:Hc.
  2:{ destruct (sys_step_evolves i l y y') as [He ->]; eauto using evolves_LogInv, LogInv_hw. }
  destruct l; try done; simpl in H.
  - destruct (subscribe i sid after (world y)) as [w r] eqn:E.
    pose proof (subscribe_inv _ _ _ _ _ _ _ Hv HI Hl E) as HS. simplify_eq.
    destruct r; [apply HS|done].
  - destruct (try_recv id (world y)) as [w r] eqn:E.
    pose proof (try_recv_inv _ _ _ _ _ _ HI E) as HS. simplify_eq. destruct r as [e|]; [|done].
    destruct HS as (cur & got & Hd & HS). simpl.
    replace (alter _ id (deliveries y)) with (<[id := (cur, got ++ [e])]> (deliveries y)); [done|].
    apply map_eq. intros k. destruct (decide (k = id)) as [->|Hne].
    + by rewrite lookup_insert_eq, lookup_alter_eq, Hd.
    + by rewrite lookup_insert_ne, lookup_alter_ne.
  - simplify_eq. by apply drop_live_receiver_inv.
Qed.

Lemma reachable_LogInv i y :
  valid_config (config i) -> reachable i y -> LogInv i (deliveries y) (world y).
Proof.
  intros Hv. induction 1 as [now fresh inspected y Hi|y l y' Hy IH Hl Hs].
  - unfold sys_init, from_cloud_control in Hi.
    destruct (initial_state _ _ _ _) as [[[? ?] ?]|]; simplify_eq. by apply LogInv_init.
  - eauto using sys_step_LogInv.
Qed.

(** ** Runs *)

Lemma sys_run_step i l ls y y1 : sys_step i l y = Some y1 -> sys_run i (l :: ls) y = sys_run i ls y1.
Proof. intros E. unfold sys_run. simpl. by rewrite E. Qed.

Lemma sys_run_reachable i ls y y' :
  reachable i y -> Forall label_ok ls -> sys_run i ls y = Some y' -> reachable i y'.
Proof.
  unfold sys_run. intros Hr Hls. revert y Hr. induction Hls as [|l ls Hl Hls IH]; simpl; intros y Hr H.
  - by simplify_eq.
  - destruct (sys_step i l y) as [y1|] eqn:E.
    + eapply IH; [|exact H]. by eapply reach_step.
    + exfalso. clear -H. induction ls; simpl in H; auto; done.
Qed.
