(* ===== verification/SessionTurns.v ===== *)
(** * The turn side of the session runtime

    Which turn is current, what the worker has claimed and started, and how the published session
    state and turn projection agree, in every reachable state of SessionSystem.v. *)
From S2P Require Import Prelude DomainValues CloudTypes SessionTypes SessionRuntime SessionLog SessionSystem.
From stdpp Require Import base numbers list strings gmap list_numbers relations.
From Stdlib Require Import ZArith Lia.
Import Ids Seqs Config Errors SessionRuntime.

Open Scope Z_scope.

(** ** The turn side: what every region leaves alone *)

Lemma append_session i t p w : session_state (st (append_event i t p w)) = session_state (st w).
Proof. apply append_event_fields. Qed.
Lemma append_current i t p w : current_turn (st (append_event i t p w)) = current_turn (st w).
Proof. apply append_event_fields. Qed.
Lemma append_work i t p w : work (st (append_event i t p w)) = work (st w).
Proof. apply append_event_fields. Qed.
Lemma append_shutdown i t p w :
  shutdown_requested (st (append_event i t p w)) = shutdown_requested (st w).
Proof. apply append_event_fields. Qed.
Lemma append_stopped i t p w : worker_stopped (st (append_event i t p w)) = worker_stopped (st w).
Proof. apply append_event_fields. Qed.

#[export] Hint Rewrite append_session append_current append_work append_shutdown append_stopped
  : session_fields.

(** [stop_worker] and [stop_after_lower_failure] on the turn side. *)
Definition stopped_turn (reason : P0RuntimeStopReason) (s : RuntimeState) : option TurnRecord :=
  if bool_decide (reason = Shutdown) && start_not_admitted s
  then with_projection StoppedBeforeCloudStart <$> current_turn s else current_turn s.

Lemma stop_worker_fields i reason w :
  let s' := st (stop_worker i reason w) in
  worker_stopped s' = true /\ shutdown_requested s' = shutdown_requested (st w) /\
  (if worker_stopped (st w) then
     session_state s' = session_state (st w) /\ current_turn s' = current_turn (st w) /\
     work s' = work (st w)
   else session_state s' = SStopped /\ current_turn s' = stopped_turn reason (st w) /\ work s' = None).
Proof.
  unfold stop_worker, stopped_turn. destruct (worker_stopped (st w)) eqn:E; [done|].
  cbv zeta. destruct (_ && _); destruct (is_ok _); cbn; autorewrite with session_fields; done.
Qed.

Lemma stop_worker_stopped i reason w : worker_stopped (st (stop_worker i reason w)) = true.
Proof. apply stop_worker_fields. Qed.
Lemma stop_worker_shutdown i reason w :
  shutdown_requested (st (stop_worker i reason w)) = shutdown_requested (st w).
Proof. apply stop_worker_fields. Qed.
Lemma stop_worker_session i reason w :
  session_state (st (stop_worker i reason w)) =
    if worker_stopped (st w) then session_state (st w) else SStopped.
Proof.
  destruct (stop_worker_fields i reason w) as (_ & _ & H).
  by destruct (worker_stopped (st w)); destruct H as (? & ? & ?).
Qed.
Lemma stop_worker_current i reason w :
  current_turn (st (stop_worker i reason w)) =
    if worker_stopped (st w) then current_turn (st w) else stopped_turn reason (st w).
Proof.
  destruct (stop_worker_fields i reason w) as (_ & _ & H).
  by destruct (worker_stopped (st w)); destruct H as (? & ? & ?).
Qed.
Lemma stop_worker_work i reason w :
  work (st (stop_worker i reason w)) = if worker_stopped (st w) then work (st w) else None.
Proof.
  destruct (stop_worker_fields i reason w) as (_ & _ & H).
  by destruct (worker_stopped (st w)); destruct H as (? & ? & ?).
Qed.

#[export] Hint Rewrite stop_worker_stopped stop_worker_shutdown stop_worker_session
  stop_worker_current stop_worker_work : session_fields.

(** A region that accepts no new turn and claims none: pending start work survives only with its
    queued turn, monitoring is scheduled only for turns of [K], and the current turn stays the same
    turn, with the same admission mark, and is queued only if it was. *)
Definition turn_frame (K : TurnId -> Prop) (s s' : RuntimeState) : Prop :=
  (forall id p, work s' = Some (WorkStart id p) -> work s = Some (WorkStart id p) /\
     (projection <$> current_turn s') = (projection <$> current_turn s)) /\
  (forall id due f, work s' = Some (WorkMonitor id due f) ->
     (exists due' f', work s = Some (WorkMonitor id due' f')) \/ K id) /\
  (forall t', current_turn s' = Some t' -> exists t, current_turn s = Some t /\
     turn_id t' = turn_id t /\ lower_start_admitted t' = lower_start_admitted t /\
     (projection t' = Queued -> projection t = Queued)).

Definition work_queued (s : RuntimeState) : Prop :=
  forall id p, work s = Some (WorkStart id p) ->
  exists t, current_turn s = Some t /\ turn_id t = id /\ projection t = Queued.

Definition not_queued (s : RuntimeState) (turn : TurnId) : Prop :=
  forall t, current_turn s = Some t -> turn_id t = turn -> projection t <> Queued.

#[export] Instance turn_frame_preorder K : PreOrder (turn_frame K).
Proof.
  split; [intros s; split_and!; eauto|]. intros s1 s2 s3 (Ha & Hm & Hb) (Ha' & Hm' & Hb'). split_and!.
  - intros id p H. destruct (Ha' _ _ H) as [Hw2 E2]. destruct (Ha _ _ Hw2) as [Hw1 E1].
    split; [done|congruence].
  - intros id due f H. destruct (Hm' _ _ _ H) as [(d & g & E)|]; eauto.
  - intros t3 Ht3. destruct (Hb' _ Ht3) as (t2 & Ht2 & Hi2 & Hl2 & Hq2).
    destruct (Hb _ Ht2) as (t1 & Ht1 & Hi1 & Hl1 & Hq1). exists t1. intuition congruence.
Qed.

Lemma turn_frame_same K s s' :
  current_turn s' = current_turn s -> work s' = work s -> turn_frame K s s'.
Proof. intros E1 E2. unfold turn_frame. rewrite E1, E2. split_and!; eauto. Qed.

(** Prove a frame by computing the final fields of a region. *)
Ltac turn_fields :=
  repeat (progress (autorewrite with session_fields in *; cbn in *)).

Ltac frame_finish :=
  unfold on_turn_of, turn_of, stopped_turn, start_not_admitted in *; turn_fields;
  repeat (break_match; turn_fields; simplify_eq); bool_to_prop; simplify_eq/=;
  naive_solver.

Lemma stop_worker_frame K i reason w : turn_frame K (st w) (st (stop_worker i reason w)).
Proof.
  unfold turn_frame. turn_fields. unfold stopped_turn, start_not_admitted.
  destruct (worker_stopped (st w)); [split_and!; eauto|]. split_and!; [done..|].
  intros t' Ht. destruct (current_turn (st w)) as [t|]; repeat case_match; simplify_eq/=;
    eexists; split_and!; done.
Qed.

Lemma on_turn_of_frame K turn f s :
  not_queued s turn ->
  (forall t, turn_id (f t) = turn_id t /\ lower_start_admitted (f t) = lower_start_admitted t /\
     (projection (f t) = Queued -> projection t = Queued)) ->
  work_queued s -> turn_frame K s (on_turn_of turn f s).
Proof.
  intros Hq Hf Hw. unfold on_turn_of, turn_of. destruct (current_turn s) as [t|] eqn:E; [|done].
  case_bool_decide as Ht; [|done]. split_and!; simpl.
  - intros id p Hp. destruct (Hw _ _ Hp) as (t0 & E0 & _ & Hp0). rewrite E in E0. simplify_eq.
    by destruct (Hq t0 E).
  - eauto.
  - intros t' [= <-]. exists t. split; [done|]. apply Hf.
Qed.

Lemma stop_after_lower_failure_frame K i turn w :
  work_queued (st w) -> not_queued (st w) turn ->
  turn_frame K (st w) (st (stop_after_lower_failure i turn w)).
Proof.
  intros Hw Hq. etrans; [|apply stop_worker_frame]. by apply on_turn_of_frame.
Qed.

Lemma on_turn_flags_frame K f s :
  (forall t, turn_id (f t) = turn_id t /\ lower_start_admitted (f t) = lower_start_admitted t /\
     projection (f t) = projection t) -> turn_frame K s (on_turn f s).
Proof.
  intros Hf. unfold turn_frame. simpl. destruct (current_turn s) as [t|]; simpl; [|split_and!; eauto].
  destruct (Hf t) as (E1 & E2 & E3). split_and!; [intros; by rewrite E3|eauto|].
  intros t' [= <-]. exists t. rewrite E1, E2, E3. done.
Qed.

Lemma on_turn_queued_frame K f s :
  work_queued s ->
  (forall t, turn_id (f t) = turn_id t /\ lower_start_admitted (f t) = lower_start_admitted t /\
     (projection (f t) = Queued <-> projection t = Queued)) -> turn_frame K s (on_turn f s).
Proof.
  intros Hw Hf. split_and!; simpl; [|eauto|].
  - intros id p E. split; [done|]. destruct (Hw _ _ E) as (t & -> & _ & Hp). simpl.
    destruct (Hf t) as (_ & _ & Hq). rewrite Hp. f_equal. tauto.
  - destruct (current_turn s) as [t|]; [|done]. intros t' [= <-]. exists t. split; [done|].
    destruct (Hf t) as (E1 & E2 & Hq). tauto.
Qed.

Lemma set_projection_cancel_requested_queued p :
  set_projection_cancel_requested p = Queued <-> p = Queued.
Proof. by destruct p. Qed.

Lemma set_work_frame K x s :
  match x with Some (WorkStart _ _) => False | Some (WorkMonitor id _ _) => K id | None => True end ->
  turn_frame K s (set_work x s).
Proof. intros Hx. split_and!; simpl; [by intros ? ? ->|intros ? ? ? ->; auto|eauto]. Qed.

Lemma apply_projected_frame K turn p b s s' :
  work_queued s -> not_queued s turn -> apply_projected_lifecycle turn p b s = Ok s' ->
  turn_frame K s s'.
Proof.
  intros Hw Hq H. assert (Hs : exists t, current_turn s = Some t /\ turn_id t = turn).
  { unfold apply_projected_lifecycle, turn_of in H.
    repeat break_match; bool_to_prop; simplify_eq; eauto. }
  destruct Hs as (t & Ht & Hid).
  assert (Hns : forall id pr, work s <> Some (WorkStart id pr)).
  { intros id pr E. destruct (Hw _ _ E) as (t0 & ? & ? & ?). simplify_eq. by eapply Hq. }
  unfold apply_projected_lifecycle, turn_of in H. rewrite Ht in H. unfold turn_frame. rewrite Ht.
  repeat break_match; bool_to_prop; simplify_eq/=; naive_solver.
Qed.

Lemma on_turn_idle_frame K f s :
  (forall id p, work s <> Some (WorkStart id p)) ->
  (forall t, turn_id (f t) = turn_id t /\ lower_start_admitted (f t) = lower_start_admitted t /\
     (projection (f t) = Queued -> projection t = Queued)) -> turn_frame K s (on_turn f s).
Proof.
  intros Hns Hf. split_and!; simpl; [intros id p E; by destruct (Hns id p)|eauto|].
  destruct (current_turn s) as [t|]; [|done]. intros t' [= <-]. exists t. split; [done|apply Hf].
Qed.

Lemma active_no_start s t :
  work_queued s -> current_turn s = Some t -> projection t <> Queued ->
  forall id p, work s <> Some (WorkStart id p).
Proof. intros Hw Ht Hp id p E. destruct (Hw _ _ E) as (t0 & ? & ? & ?). simplify_eq. Qed.

Lemma current_lifecycle_Some s l :
  current_lifecycle s = Some l ->
  exists t, current_turn s = Some t /\ projection_lifecycle (projection t) = Some l.
Proof. unfold current_lifecycle. destruct (current_turn s); naive_solver. Qed.

Lemma current_operation_Some s o :
  current_operation s = Some o -> exists t, current_turn s = Some t /\ projection t <> Queued.
Proof.
  unfold current_operation. destruct (current_turn s) as [t|]; [|done]. simpl.
  intros H. exists t. split; [done|]. intros E. by rewrite E in H.
Qed.

(** Peel the last assignment of a region off a frame goal. *)
Ltac frame_last :=
  lazymatch goal with
  | |- turn_frame _ ?s ?s => reflexivity
  | |- turn_frame _ _ (st (append_event _ _ _ ?w)) =>
      transitivity (st w); [|by apply turn_frame_same; autorewrite with session_fields]
  | |- turn_frame _ _ (st (close_subscribers _ ?w)) =>
      transitivity (st w); [|by apply turn_frame_same]
  | |- turn_frame _ _ (st (stop_worker _ _ ?w)) => transitivity (st w); [|apply stop_worker_frame]
  | |- turn_frame _ _ (st (stop_after_lower_failure _ _ ?w)) =>
      transitivity (st w); [|by apply stop_after_lower_failure_frame]
  | |- turn_frame _ _ (st (on_st (set_work _) ?w)) =>
      transitivity (st w); [|by apply set_work_frame]
  | |- turn_frame ?K ?s0 (st (on_st (fun _ => ?s) _)) => change (turn_frame K s0 s)
  | |- turn_frame _ _ (on_turn _ ?s) => transitivity s; [|by apply on_turn_flags_frame]
  | |- turn_frame _ _ (st (on_st (on_turn_of _ _) ?w)) =>
      transitivity (st w); [|by apply on_turn_of_frame]
  | |- turn_frame _ _ (st (on_st _ ?w)) =>
      transitivity (st w); 
        [|first [ by apply turn_frame_same | by apply on_turn_flags_frame
                | by apply on_turn_idle_frame
                | apply on_turn_queued_frame; [done|]; intros ?; cbn;
                  rewrite set_projection_cancel_requested_queued; done ]]
  | H : apply_projected_lifecycle _ _ _ _ = Ok ?s |- turn_frame _ _ ?s =>
      by eapply apply_projected_frame; [| |exact H]
  end.

Ltac frame_op := cbv zeta; repeat (break_match_goal; cbn [fst]); repeat frame_last.

Section Frames.
Context (i : Inner) (w : World) (K : TurnId -> Prop).
Hypothesis Hw : work_queued (st w).

Lemma commit_cancel_result_frame turn l :
  not_queued (st w) turn -> turn_frame K (st w) (st (commit_cancel_result i turn l w).1).
Proof. intros Hq. unfold commit_cancel_result. frame_op. Qed.

Lemma commit_worker_cancel_frame turn l :
  not_queued (st w) turn -> turn_frame K (st w) (st (commit_worker_cancel i turn l w).1).
Proof. intros Hq. unfold commit_worker_cancel. frame_op. Qed.

Lemma cancel_turn_on_lower_frame turn b now deadline lower :
  not_queued (st w) turn ->
  turn_frame K (st w) (st (cancel_turn_on_lower i turn b now deadline lower w).1).
Proof.
  intros Hq. unfold cancel_turn_on_lower. destruct lower as [l|e]; [|frame_op].
  pose proof (commit_cancel_result_frame turn l Hq). by destruct (commit_cancel_result i turn l w).
Qed.

Lemma reconcile_unknown_commit_frame actor o lower :
  turn_frame K (st w) (st (reconcile_unknown_commit i actor o lower w).1).
Proof. unfold reconcile_unknown_commit. frame_op. Qed.

Lemma handle_start_result_frame now turn lower :
  K turn -> not_queued (st w) turn ->
  turn_frame K (st w) (st (handle_start_result i now turn lower w).1).
Proof. intros HK Hq. unfold handle_start_result. frame_op. Qed.

Lemma handle_start_cancel_result_frame turn lower :
  not_queued (st w) turn -> turn_frame K (st w) (st (handle_start_cancel_result i turn lower w)).
Proof.
  intros Hq. unfold handle_start_cancel_result.
  destruct lower; [by apply commit_worker_cancel_frame|frame_op].
Qed.
Lemma handle_monitor_result_frame now turn failures lower :
  K turn -> not_queued (st w) turn ->
  turn_frame K (st w) (st (handle_monitor_result i now turn failures lower w)).
Proof.
  intros HK Hq. unfold handle_monitor_result. frame_op.
  all: match goal with
       | H : current_lifecycle _ = Some _ |- _ => apply current_lifecycle_Some in H as (t0 & Ht & Hl)
       end.
  all: transitivity (st (on_st (set_session_state SMonitoringDegraded) w)); [frame_last; frame_last|].
  all: apply on_turn_idle_frame; [|by intros ?].
  all: apply (active_no_start (st w) t0); [done..|]; by intros Hpq; rewrite Hpq in Hl.
Qed.

Lemma handle_cancel_action_result_frame turn lower :
  not_queued (st w) turn -> turn_frame K (st w) (st (handle_cancel_action_result i turn lower w)).
Proof.
  intros Hq. unfold handle_cancel_action_result, commit_worker_cancel. frame_op.
Qed.

Lemma resolve_unknown_commit_frame actor o dec now lower :
  (forall t, current_turn (st w) = Some t -> projection t <> Queued -> K (turn_id t)) ->
  turn_frame K (st w) (st (resolve_unknown_commit i actor o dec now lower w).1).
Proof.
  intros HK. unfold resolve_unknown_commit, require_current_operation.
  destruct lower; [|done]. cbv zeta. destruct (bool_decide _); [done|].
  destruct (current_operation (st w)) eqn:Eo; [|done].
  apply current_operation_Some in Eo as (t & Ht & Hp). specialize (HK t Ht Hp).
  assert (Hq : not_queued (st w) (turn_id t)) by (intros t' Ht' _; congruence).
  rewrite Ht. cbn [fmap option_fmap option_map ok_or]. frame_op.
Qed.

Lemma cancel_turn_active_frame actor t : turn_frame K (st w) (st (cancel_turn_active i actor t w).1).
Proof. unfold cancel_turn_active. frame_op. Qed.

Lemma cancel_turn_enter_frame actor : turn_frame K (st w) (st (cancel_turn_enter i actor w).1).
Proof. unfold cancel_turn_enter. frame_op; apply cancel_turn_active_frame. Qed.

Lemma shutdown_enter_frame : turn_frame K (st w) (st (shutdown_enter i w).1).
Proof. unfold shutdown_enter. frame_op. Qed.

End Frames.

(** ** Which turns were started *)

Definition pc_turn (p : WorkerPc) : option TurnId :=
  match p with
  | WIdle | WExited => None
  | WClaimed t _ | WStarting t | WStartCancel t | WMonitoring t _ | WCancelling t => Some t
  end.

(** A turn that exists and has left the queue. *)
Definition left_queue (y : Sys) (id : TurnId) : Prop :=
  id ∈ issued y /\ not_queued (st (world y)) id.

Record TurnInv (y : Sys) : Prop := {
  ti_work : work_queued (st (world y));
  ti_current : forall t, current_turn (st (world y)) = Some t ->
    turn_id t ∈ issued y /\ (projection t = Queued -> lower_start_admitted t = false) /\
    (lower_start_admitted t = false -> turn_id t ∉ starts y);
  ti_monitor : forall id due f, work (st (world y)) = Some (WorkMonitor id due f) -> left_queue y id;
  ti_pc : forall id, pc_turn (pc y) = Some id -> left_queue y id;
  ti_claim : forall id p, pc y = WClaimed id p -> id ∉ starts y;
  ti_callers : forall id a d, CCancel id a d ∈ callers y -> left_queue y id;
  ti_starts : forall id, id ∈ starts y -> id ∈ issued y;
  ti_nodup : NoDup (starts y) }.

Lemma not_queued_frame K s s' id : turn_frame K s s' -> not_queued s id -> not_queued s' id.
Proof.
  intros (_ & _ & Hb) Hq t' Ht' Hid Hp. destruct (Hb _ Ht') as (t & Ht & E & _ & Hpq).
  apply (Hq t Ht); [congruence|auto].
Qed.

Lemma work_queued_frame K s s' : turn_frame K s s' -> work_queued s -> work_queued s'.
Proof.
  intros (Ha & _ & Hb) Hw id p E. destruct (Ha _ _ E) as [E0 Hp]. destruct (Hw _ _ E0) as (t & Ht & Hid & Hq).
  rewrite Ht in Hp. destruct (current_turn s') as [t'|]; [|done]. injection Hp as Hp.
  destruct (Hb _ eq_refl) as (t0 & Ht0 & ? & ? & ?). exists t'. simplify_eq. split_and!; congruence.
Qed.

(** A step that frames the turn side and starts nothing. *)
Definition framed (y y' : Sys) : Prop :=
  exists K, turn_frame K (st (world y)) (st (world y')) /\ (forall id, K id -> left_queue y id) /\
  issued y' = issued y /\ starts y' = starts y /\
  (forall id, pc_turn (pc y') = Some id -> pc_turn (pc y) = Some id \/ left_queue y' id) /\
  (forall id p, pc y' = WClaimed id p -> pc y = WClaimed id p) /\
  (forall id a d, CCancel id a d ∈ callers y' -> CCancel id a d ∈ callers y \/ left_queue y' id).

Lemma framed_TurnInv y y' : TurnInv y -> framed y y' -> TurnInv y'.
Proof.
  intros [] (K & Hf & HK & Ei & Es & Hpc & Hcl & Hca).
  assert (Hleft : forall id, left_queue y id -> left_queue y' id).
  { intros id [? ?]. split; [by rewrite Ei|by eapply not_queued_frame]. }
  constructor; rewrite ?Ei, ?Es; try done.
  - by eapply work_queued_frame.
  - intros t' Ht'. destruct Hf as (_ & _ & Hb). destruct (Hb _ Ht') as (t & Ht & E1 & E2 & Hq).
    destruct (ti_current0 _ Ht) as (H1 & H2 & H3). rewrite E1, E2. auto.
  - intros id due f E. destruct Hf as (_ & Hm & _). destruct (Hm _ _ _ E) as [(? & ? & ?)|]; eauto.
  - intros id Hid. destruct (Hpc _ Hid); auto.
  - eauto.
  - intros id a d Hid. destruct (Hca _ _ _ Hid); eauto.
Qed.

Lemma elem_of_delete {A} (x : A) (k : nat) (l : list A) : x ∈ delete k l -> x ∈ l.
Proof. rewrite !list_elem_of_lookup. intros [j Hj]. rewrite list_lookup_delete in Hj. case_decide; eauto. Qed.

(** What the regions that do start, claim or admit a turn do. *)
Lemma start_turn_cases i fresh prompt w :
  (start_turn i fresh prompt w).1 = w \/
  let s' := st (start_turn i fresh prompt w).1 in
  current_turn s' = Some (mkTurn fresh Queued false false false) /\
  work s' = Some (WorkStart fresh prompt).
Proof.
  unfold start_turn. repeat break_match_goal; cbn [fst]; try (by left). right.
  turn_fields. done.
Qed.

Lemma cancel_turn_enter_call i actor w t b :
  (cancel_turn_enter i actor w).2 = CancelCall t b ->
  exists r, current_turn (st w) = Some r /\ turn_id r = t /\ projection r <> Queued.
Proof.
  unfold cancel_turn_enter, cancel_turn_active. cbv zeta.
  repeat (break_match_goal; cbn [snd]; try done); intros; simplify_eq; eexists; split_and!; try done; congruence.
Qed.

Lemma next_worker_action_cases K i now w :
  let '(w', a) := next_worker_action i now w in
  match a with
  | Some (ActStart id p) =>
      exists t, work (st w) = Some (WorkStart id p) /\ current_turn (st w) = Some t /\
        turn_id t = id /\ work (st w') = None /\
        current_turn (st w') = Some (with_admitted false (with_projection (Starting false) t))
  | _ => work_queued (st w) -> turn_frame K (st w) (st w')
  end.
Proof.
  unfold next_worker_action, on_turn_of, turn_of. cbv zeta.
  destruct (shutdown_requested _); [intros; apply stop_worker_frame|].
  destruct (match current_turn (st w) with Some t => _ | None => _ end); [intros Hw; frame_op|].
  destruct (work (st w)) as [[id p|id due f]|] eqn:E; [| |done].
  - cbn. destruct (current_turn (st w)) as [t|] eqn:Et; [|intros; frame_op].
    case_bool_decide as Ht; [|intros; frame_op].
    exists t. cbn. rewrite Et, bool_decide_true by done. done.
  - destruct (now <? due); [done|]. intros Hw. frame_op.
Qed.

Lemma admit_start_cases K i turn w :
  let '(w', b) := admit_start i turn w in
  if b then exists t, turn_of (st w) turn = Some t /\ work (st w') = work (st w) /\
              current_turn (st w') = Some (with_admitted true t)
  else work_queued (st w) -> not_queued (st w) turn -> turn_frame K (st w) (st w').
Proof.
  unfold admit_start. cbv zeta.
  destruct (shutdown_requested _); [intros; apply stop_worker_frame|].
  destruct (turn_of (st w) turn) as [t|] eqn:Et; [|intros; frame_op].
  destruct (projection_cancel_requested _); [destruct (is_err _); intros; frame_op|].
  exists t. unfold on_turn_of, on_st. cbn [st]. rewrite Et. done.
Qed.

(** The turn a claimed monitor or cancel action is about. *)
Lemma next_worker_action_ids i now w :
  match (next_worker_action i now w).2 with
  | Some (ActMonitor id _) | Some (ActCancel id) =>
      (exists due f, work (st w) = Some (WorkMonitor id due f)) \/
      (exists t, current_turn (st w) = Some t /\ turn_id t = id /\ projection t <> Queued)
  | _ => True
  end.
Proof.
  unfold next_worker_action. cbv zeta. destruct (shutdown_requested _); [done|].
  set (c := match current_turn (st w) with Some t => _ | None => _ end).
  assert (Hc : forall id, c = Some id -> exists t, current_turn (st w) = Some t /\ turn_id t = id /\
                 projection t <> Queued).
  { unfold c. destruct (current_turn (st w)) as [t|]; [|done]. intros id.
    destruct (_ && _) eqn:Ec; [|done]. intros [= <-]. exists t. split_and!; [done..|].
    intros Hp. rewrite Hp in Ec. by rewrite andb_false_r in Ec. }
  destruct c as [id|]; [right; eauto|].
  destruct (work (st w)) as [[]|]; cbn [snd]; [by destruct (turn_of _ _)| |done].
  destruct (now <? due); cbn [snd]; eauto.
Qed.

Lemma StartTurn_TurnInv i fresh prompt y y' :
  TurnInv y -> sys_step i (StartTurn fresh prompt) y = Some y' -> TurnInv y'.
Proof.
  intros HI H. simpl in H. case_bool_decide as Hf; simplify_eq.
  pose proof (start_turn_cases i fresh prompt (world y)) as Hc. destruct HI.
  set (y' := mkSys _ _ _ _ _ _).
  assert (Hold : forall id, left_queue y id -> left_queue y' id).
  { intros id [Hid Hq]. split; simpl; [by right|]. destruct Hc as [->|[Ec _]]; [done|].
    intros t Ht <-. rewrite Ec in Ht. by simplify_eq/=. }
  constructor; simpl; eauto.
  - destruct Hc as [->|[Ec Ew]]; [done|]. intros id p E. rewrite Ew in E. simplify_eq. eauto.
  - destruct Hc as [->|[Ec _]].
    + intros t Ht. destruct (ti_current0 _ Ht) as (? & ? & ?). split_and!; [by right|done..].
    + rewrite Ec. intros t [= <-]. simpl. split_and!; [by left|done|]. intros _ Hs. auto.
  - destruct Hc as [->|[_ Ew]]; [eauto|]. intros id due f E. by rewrite Ew in E.
  - intros id Hid. right. auto.
Qed.

Lemma WorkerNext_TurnInv i now y y' :
  TurnInv y -> sys_step i (WorkerNext now) y = Some y' -> TurnInv y'.
Proof.
  intros HI H. simpl in H. unfold worker_step in H. destruct (pc y) eqn:Epc; try done.
  pose proof (next_worker_action_cases (fun _ => False) i now (world y)) as Hc.
  pose proof (next_worker_action_ids i now (world y)) as Hids.
  destruct (next_worker_action i now (world y)) as [w a] eqn:Ea. simplify_eq. pose proof HI as [].
  assert (Hframe : turn_frame (fun _ => False) (st (world y)) (st w) ->
    (forall id p, pc_of_action a <> WClaimed id p) ->
    (forall id, pc_turn (pc_of_action a) = Some id -> left_queue y id) ->
    TurnInv (mkSys w (pc_of_action a) (callers y) (deliveries y) (starts y) (issued y))).
  { intros Hf Hn Hl. apply (framed_TurnInv y); [done|]. exists (fun _ => False).
    split_and!; simpl; auto.
    - done.
    - intros id Hid. right. destruct (Hl _ Hid) as [? ?]. split; [done|by eapply not_queued_frame].
    - intros id p E. by destruct (Hn id p). }
  assert (Hleft : forall id, ((exists due f, work (st (world y)) = Some (WorkMonitor id due f)) \/
    (exists t, current_turn (st (world y)) = Some t /\ turn_id t = id /\ projection t <> Queued)) ->
    left_queue y id).
  { intros id [(due & f & E)|(t & Et & <- & Hp)]; [eauto|]. split; [by apply ti_current0|].
    intros t' Ht' _. congruence. }
  destruct a as [[id p|id f|id|]|]; simpl in Hids;
    try (apply Hframe; [by apply Hc|done|]; intros x [= <-]; auto; fail).
  destruct Hc as (t & Ew & Et & <- & Ew' & Et').
  destruct (ti_work0 _ _ Ew) as (t0 & ? & _ & Hq). simplify_eq.
  destruct (ti_current0 _ Et) as (Hiss & Hadm & Hst).
  assert (Hnq : forall x, not_queued (st w) x) by (intros x ? E; rewrite Et' in E; by simplify_eq).
  constructor; simpl; try done.
  - intros id p0 E. by rewrite Ew' in E.
  - rewrite Et'. intros ? [= <-]. simpl. auto.
  - intros id due f E. by rewrite Ew' in E.
  - intros id [= <-]. split; [done|apply Hnq].
  - intros id p0 [= <- <-]. auto.
  - intros id a d Hin. split; [by apply (ti_callers0 _ _ _ Hin)|apply Hnq].
Qed.

Lemma WorkerAdmit_TurnInv i y y' :
  TurnInv y -> sys_step i WorkerAdmit y = Some y' -> TurnInv y'.
Proof.
  intros HI H. simpl in H. unfold worker_step in H. destruct (pc y) as [|turn p| | | | |] eqn:Epc; try done.
  pose proof (admit_start_cases (fun _ => False) i turn (world y)) as Hc. pose proof HI as [].
  destruct (ti_pc0 turn) as [Hiss Hnq]; [by rewrite Epc|].
  destruct (admit_start i turn (world y)) as [w b]. simplify_eq. destruct b.
  2:{ apply (framed_TurnInv y); [done|]. exists (fun _ => False). split_and!; simpl; auto; done. }
  destruct Hc as (t & Et & Ew & Et'). unfold turn_of in Et.
  destruct (current_turn (st (world y))) as [t0|] eqn:Ec; [|done]. case_bool_decide; simplify_eq.
  destruct (ti_current0 _ eq_refl) as (Hi & Hadm & Hst).
  specialize (Hnq t Ec eq_refl). specialize (ti_claim0 _ _ Epc).
  assert (Hq : forall x, not_queued (st w) x).
  { intros x t' E. rewrite Et' in E. simplify_eq. done. }
  constructor; simpl; try done.
  - intros id p0 E. rewrite Ew in E. destruct (ti_work0 _ _ E) as (? & ? & ? & ?). congruence.
  - rewrite Et'. intros t' [= <-]. simpl. done.
  - intros id due f E. rewrite Ew in E. split; [by eapply ti_monitor0|apply Hq].
  - intros id [= <-]. split; [done|apply Hq].
  - intros id a d Hin. split; [by apply (ti_callers0 _ _ _ Hin)|apply Hq].
  - intros id [->|?]%elem_of_cons; auto.
  - by apply NoDup_cons.
Qed.

(** A step that frames the turn side and starts nothing, with the worker going idle or staying and
    callers leaving. *)
Lemma framed_step K y w p cs d :
  turn_frame K (st (world y)) (st w) -> (forall id, K id -> left_queue y id) ->
  (p = pc y \/ pc_turn p = None \/ (pc_turn p = pc_turn (pc y) /\ forall t q, p <> WClaimed t q)) ->
  (forall id a dl, CCancel id a dl ∈ cs -> CCancel id a dl ∈ callers y) ->
  framed y (mkSys w p cs d (starts y) (issued y)).
Proof.
  intros Hf HK Hp Hcs. exists K. split_and!; simpl; auto.
  - intros id Hid. left. destruct Hp as [->|[E|[E _]]]; congruence.
  - intros id q ->. destruct Hp as [->|[E|[_ E]]]; [done|done|]. by destruct (E id q).
Qed.

Definition callers_step (l : Label) : bool :=
  match l with
  | CancelEnter _ _ | CancelLower _ _ _ | ReconcileEnter _ | ReconcileLower _ _
  | ResolveEnter _ _ _ | ResolveLower _ _ _ => true
  | _ => false
  end.

Lemma framed_refl y : framed y y.
Proof. by apply (framed_step (fun _ => False) y (world y) (pc y) (callers y) (deliveries y)); auto. Qed.
#[local] Hint Resolve framed_refl : core.

Lemma callers_step_framed i l y y' :
  TurnInv y -> callers_step l = true -> sys_step i l y = Some y' -> framed y y'.
Proof.
  intros HI Hl H. pose proof HI as [].
  pose proof (fun id a d k => elem_of_delete (CCancel id a d) k (callers y)) as Hdel.
  assert (Hnone : forall c id a d, (forall id a d, c <> CCancel id a d) ->
            CCancel id a d ∈ callers y ++ [c] -> CCancel id a d ∈ callers y).
  { intros c id a d Hc [?|E%list_elem_of_singleton]%elem_of_app; [done|]. by destruct (Hc id a d). }
  destruct l; try done; simpl in H.
  - pose proof (cancel_turn_enter_frame i (world y) (fun _ => False) ti_work0 actor) as Hf.
    pose proof (cancel_turn_enter_call i actor (world y)) as Hcall.
    destruct (cancel_turn_enter i actor (world y)) as [w e]. simpl in Hf, Hcall.
    simplify_eq. exists (fun _ => False). destruct e; split_and!; simpl; auto; try done.
    intros id a d [?|E%list_elem_of_singleton]%elem_of_app; [auto|]. simplify_eq. right.
    destruct (Hcall _ _ eq_refl) as (r & Hr & <- & Hp).
    split; simpl; [by apply ti_current0|]. eapply not_queued_frame; [done|].
    intros ? ? _. congruence.
  - destruct (callers y !! k) as [[t adm dl| |]|] eqn:Ek; try done.
    destruct (ti_callers0 _ _ _ (list_elem_of_lookup_2 _ _ _ Ek)) as [_ Hq].
    pose proof (cancel_turn_on_lower_frame i (world y) (fun _ => False) ti_work0 t adm now dl lower Hq).
    destruct (cancel_turn_on_lower _ _ _ _ _ _ _) as [w r].
    simplify_eq. destruct r; eapply (framed_step (fun _ => False) y); eauto; done.
  - simplify_eq. destruct (reconcile_unknown_enter _); [|auto].
    eapply (framed_step (fun _ => False) y); eauto; try done. intros id a' d. by apply Hnone.
  - destruct (callers y !! k) as [[]|]; try done. simplify_eq.
    eapply (framed_step (fun _ => False) y); eauto; [by apply (reconcile_unknown_commit_frame i _ (fun _ => False))|done].
  - simplify_eq. destruct (resolve_unknown_enter _ _); [|auto].
    eapply (framed_step (fun _ => False) y); eauto; try done. intros id a' d. by apply Hnone.
  - destruct (callers y !! k) as [[]|]; try done. simplify_eq.
    eapply (framed_step (left_queue y) y); eauto. apply resolve_unknown_commit_frame; [done|].
    intros t Ht Hp. split; [by apply ti_current0|]. intros ? ? _. congruence.
Qed.

Lemma subscribe_turns i sid after w :
  let s' := st (subscribe i sid after w).1 in
  session_state s' = session_state (st w) /\ current_turn s' = current_turn (st w) /\
  work s' = work (st w) /\ shutdown_requested s' = shutdown_requested (st w) /\
  worker_stopped s' = worker_stopped (st w).
Proof. unfold subscribe. cbv zeta. repeat (break_match_goal; cbn [fst]; try done). Qed.

Lemma try_recv_st id w : st (try_recv id w).1 = st w.
Proof. unfold try_recv. repeat (break_match_goal; cbn [fst]; try done). Qed.

Lemma drop_live_receiver_turns id w :
  let s' := st (drop_live_receiver id w) in
  session_state s' = session_state (st w) /\ current_turn s' = current_turn (st w) /\
  work s' = work (st w) /\ shutdown_requested s' = shutdown_requested (st w) /\
  worker_stopped s' = worker_stopped (st w).
Proof. unfold drop_live_receiver. by case_bool_decide. Qed.

(** The remaining steps: receivers, shutdown, and the worker after a lower call. *)
Lemma other_step_framed i l y y' :
  TurnInv y -> callers_step l = false ->
  match l with StartTurn _ _ | WorkerNext _ | WorkerAdmit => False | _ => True end ->
  sys_step i l y = Some y' -> framed y y'.
Proof.
  intros HI Hcl Hl H. pose proof HI as [].
  destruct l; try done; simpl in H; unfold worker_step in H.
  - destruct (subscribe i sid after (world y)) as [w r] eqn:E. simplify_eq.
    destruct (subscribe_turns i sid after (world y)) as (_ & ? & ? & _). rewrite E in *.
    destruct r; [|auto]. eapply (framed_step (fun _ => False) y); eauto; [|done].
    by apply turn_frame_same.
  - destruct (try_recv id (world y)) as [w r] eqn:E. simplify_eq.
    pose proof (try_recv_st id (world y)) as Est. rewrite E in Est. simpl in Est.
    destruct r; [|auto]. eapply (framed_step (fun _ => False) y); eauto; try done. simpl. by rewrite Est.
  - simplify_eq. destruct (drop_live_receiver_turns id (world y)) as (_ & ? & ? & _).
    eapply (framed_step (fun _ => False) y); eauto; [|done]. by apply turn_frame_same.
  - simplify_eq. eapply (framed_step (fun _ => False) y); eauto; [|done].
    by apply shutdown_enter_frame.
  - destruct (pc y) as [| |t| | | |] eqn:Epc; try done. destruct (ti_pc0 t eq_refl) as [? Hq].
    pose proof (handle_start_result_frame i (world y) (eq t) ti_work0 now t lower eq_refl Hq).
    destruct (handle_start_result _ _ _ _ _) as [w c]. simplify_eq.
    eapply (framed_step (eq t) y); eauto; [by intros ? <-|]. rewrite Epc. destruct c; naive_solver.
  - destruct (pc y) as [| | |t| | |] eqn:Epc; try done. destruct (ti_pc0 t eq_refl) as [? Hq].
    simplify_eq. eapply (framed_step (fun _ => False) y); eauto; [|done].
    by apply handle_start_cancel_result_frame.
  - destruct (pc y) as [| | | |t f| |] eqn:Epc; try done. destruct (ti_pc0 t eq_refl) as [? Hq].
    simplify_eq. eapply (framed_step (eq t) y); eauto; [|by intros ? <-].
    by apply handle_monitor_result_frame.
  - destruct (pc y) as [| | | | |t|] eqn:Epc; try done. destruct (ti_pc0 t eq_refl) as [? Hq].
    simplify_eq. eapply (framed_step (fun _ => False) y); eauto; [|done].
    by apply handle_cancel_action_result_frame.
Qed.

Lemma sys_step_TurnInv i l y y' : TurnInv y -> sys_step i l y = Some y' -> TurnInv y'.
Proof.
  intros HI H. destruct (callers_step l) eqn:Hc; [eauto using callers_step_framed, framed_TurnInv|].
  destruct l; try done; eauto using StartTurn_TurnInv, WorkerNext_TurnInv, WorkerAdmit_TurnInv;
    (eapply framed_TurnInv; [done|eapply other_step_framed; [done| | |exact H]; done]).
Qed.

Lemma reachable_TurnInv i y : reachable i y -> TurnInv y.
Proof.
  induction 1 as [now fresh inspected y Hi|y l y' Hy IH Hl Hs]; [|eauto using sys_step_TurnInv].
  unfold sys_init, from_cloud_control in Hi.
  destruct (initial_state _ _ _ _) as [[[ss t] wk]|] eqn:E; simplify_eq.
  assert (Ht : forall r, t = Some r -> turn_id r = fresh /\ projection r <> Queued).
  { unfold initial_state in E. repeat break_match; simplify_eq; intros; simplify_eq; done. }
  assert (Hw : forall x, wk = Some x -> exists due f, x = WorkMonitor fresh due f).
  { unfold initial_state in E. repeat break_match; simplify_eq; intros; simplify_eq; eauto. }
  constructor; simpl; try done.
  - intros id p Ew. simpl in Ew. by destruct (Hw _ Ew) as (? & ? & ?).
  - intros r Er. destruct (Ht _ Er) as [<- Hq]. split_and!; [by left|done|]. by intros _ ?%not_elem_of_nil.
  - intros id due f Ew. destruct (Hw _ Ew) as (? & ? & [= -> ? ?]). split; simpl; [by left|].
    intros r Er _. by apply Ht.
  - by intros ? ? ? ?%not_elem_of_nil.
  - by intros ? ?%not_elem_of_nil.
  - apply NoDup_nil_2.
Qed.
