(* ===== verification/SessionReports.v ===== *)
(** * What a session tells its clients, and what it starts

    Two facts about single steps of SessionSystem.v that hold whatever the lower calls return: every
    lifecycle a session publishes or shows is one a lower call returned to it, and every prompt it
    hands to the lower [start] is the prompt of the turn it accepted. *)
From S2P Require Import Prelude DomainValues CloudTypes SessionTypes SessionRuntime SessionLog SessionSystem SessionTurns.
From stdpp Require Import base numbers list strings gmap list_numbers relations.
From Stdlib Require Import ZArith Lia.
Import Ids Seqs Config Errors SessionRuntime.

Open Scope Z_scope.

(** ** Events *)

(** Every event in the log satisfies [P], and so would the publication of the lifecycle shown. *)
Definition shown (P : P0SessionEvent -> Prop) (s : RuntimeState) : Prop :=
  forall t l, current_turn s = Some t -> projection_lifecycle (projection t) = Some l -> P (LifecycleChanged l).
Definition told (P : P0SessionEvent -> Prop) (w : World) : Prop :=
  (forall e, e ∈ log w -> P (ev_payload e)) /\ shown P (st w).

(** [P] restricts only the events that carry what a lower call returned. *)
Definition lower_event (e : P0SessionEvent) : bool :=
  match e with LifecycleChanged _ | RecoveryObserved _ _ _ _ => true | _ => false end.
Class Plain (P : P0SessionEvent -> Prop) : Prop := plain : forall e, lower_event e = false -> P e.

Lemma told_mono (P P' : P0SessionEvent -> Prop) w : (forall e, P e -> P' e) -> told P w -> told P' w.
Proof. intros HP [Hl Hs]. split; [intros; apply HP; eauto|intros t l Ht Hl'; apply HP; eauto]. Qed.

Section Told.
Context (P : P0SessionEvent -> Prop) `{!Plain P} (i : Inner).

Lemma told_append t p w :
  P p -> told P w -> told P (append_event i t p w).
Proof.
  intros Hp [Hl Hs]. destruct (append_event_log i t p w) as (e & _ & Hpay & El). split.
  - rewrite El. intros e' [?|Hx%list_elem_of_singleton]%elem_of_app; [eauto|]. by subst e'; rewrite Hpay.
  - unfold shown. by rewrite append_current.
Qed.

Lemma told_same f w : current_turn (f (st w)) = current_turn (st w) -> told P w -> told P (on_st f w).
Proof. intros E [Hl Hs]. split; [done|]. unfold shown. simpl. by rewrite E. Qed.

Lemma told_close r w : told P w -> told P (close_subscribers r w).
Proof. done. Qed.

(** An update of the turn that keeps its lifecycle, drops it, or shows one of [P]. *)
Definition keeps (f : TurnRecord -> TurnRecord) : Prop :=
  forall t l, projection_lifecycle (projection (f t)) = Some l ->
    projection_lifecycle (projection t) = Some l \/ P (LifecycleChanged l).

Lemma shown_on_turn f s : keeps f -> shown P s -> shown P (on_turn f s).
Proof.
  intros Hf Hs t l. simpl. destruct (current_turn s) as [t0|] eqn:E; [|done].
  intros [= <-] Hl. destruct (Hf _ _ Hl); [by eapply Hs|done].
Qed.

Lemma told_on_turn f w : keeps f -> told P w -> told P (on_st (on_turn f) w).
Proof. intros Hf [Hl Hs]. split; [done|]. by apply shown_on_turn. Qed.

Lemma told_on_turn_of id f w : keeps f -> told P w -> told P (on_st (on_turn_of id f) w).
Proof.
  intros Hf [Hl Hs]. split; [done|]. unfold shown, on_turn_of, turn_of, on_st. cbn [st].
  destruct (current_turn (st w)) as [t0|] eqn:E; [|by rewrite E]. case_bool_decide; [|rewrite E; naive_solver].
  intros t l [= <-] Hl0. destruct (Hf _ _ Hl0); [by eapply Hs|done].
Qed.

Lemma told_const s w : shown P s -> told P w -> told P (on_st (fun _ => s) w).
Proof. by intros Hs [Hl _]. Qed.

Lemma shown_apply turn p b s s' : P (LifecycleChanged p) -> apply_projected_lifecycle turn p b s = Ok s' -> shown P s'.
Proof.
  intros Hp H. unfold apply_projected_lifecycle in H. repeat (break_match_hyp; try done); simplify_eq;
    intros t' l' [= <-]; simpl; congruence.
Qed.

Lemma keeps_cancel_requested :
  keeps (fun t => with_projection (set_projection_cancel_requested (projection t)) t).
Proof. intros t l. destruct (projection t); simpl; auto. Qed.

Lemma told_stop reason w : told P w -> told P (stop_worker i reason w).
Proof.
  intros Hw. unfold stop_worker. destruct (worker_stopped _); [done|]. cbv zeta. apply told_close.
  repeat break_match_goal; repeat first [apply told_append; [by apply plain|] | apply told_on_turn; [by intros ?|] |
    apply told_same; [done|]]; done.
Qed.

Lemma told_stop_after turn w : told P w -> told P (stop_after_lower_failure i turn w).
Proof. intros Hw. apply told_stop, told_on_turn_of; [by intros ? ? [=]|done]. Qed.

End Told.

(** Peel the last assignment of a region. *)
Ltac told_last :=
  lazymatch goal with
  | |- told _ (append_event _ _ _ _) => apply told_append; [first [done|by apply plain]|]
  | |- told _ (close_subscribers _ _) => apply told_close
  | |- told _ (stop_worker _ _ _) => apply told_stop
  | |- told _ (stop_after_lower_failure _ _ _) => apply told_stop_after
  | |- told _ (on_st (on_turn_of _ _) _) => apply told_on_turn_of; [intros ? ?; simpl; naive_solver|]
  | |- told _ (on_st (on_turn _) _) =>
      apply told_on_turn; [first [apply keeps_cancel_requested | intros ? ?; simpl; naive_solver]|]
  | |- told _ (on_st _ _) => first [apply told_same; [done|] | apply told_const]
  | |- shown _ (on_turn _ _) => apply shown_on_turn; [intros ? ?; simpl; naive_solver|]
  | H : apply_projected_lifecycle _ _ _ _ = Ok ?s |- shown _ ?s => by eapply shown_apply; [|exact H]
  end.
Ltac told_op := cbv zeta; cbn [fst]; repeat (break_match_goal; cbn [fst]); repeat told_last; try done.

Section Regions.
Context (P : P0SessionEvent -> Prop) `{!Plain P} (i : Inner) (w : World).
Hypothesis Hw : told P w.

Definition lower_told (r : result LowerLifecycleError CloudLifecycle) : Prop :=
  forall lc, r = Ok lc -> P (LifecycleChanged (from_cloud lc)).

Lemma commit_cancel_result_told turn l : P (LifecycleChanged (from_cloud l)) -> told P (commit_cancel_result i turn l w).1.
Proof. intros Hl. unfold commit_cancel_result. told_op. Qed.

Lemma commit_worker_cancel_told turn l : P (LifecycleChanged (from_cloud l)) -> told P (commit_worker_cancel i turn l w).1.
Proof. intros Hl. unfold commit_worker_cancel. told_op. Qed.

Lemma start_turn_told fresh prompt : told P (start_turn i fresh prompt w).1.
Proof. unfold start_turn. told_op. by intros t l [= <-]. Qed.

Lemma cancel_turn_enter_told actor : told P (cancel_turn_enter i actor w).1.
Proof. unfold cancel_turn_enter, cancel_turn_active. told_op. Qed.

Lemma cancel_turn_on_lower_told turn b now deadline r :
  lower_told r -> told P (cancel_turn_on_lower i turn b now deadline r w).1.
Proof.
  intros Hr. unfold cancel_turn_on_lower. destruct r as [l|e]; [|told_op].
  pose proof (commit_cancel_result_told turn l (Hr l eq_refl)). by destruct (commit_cancel_result i turn l w).
Qed.

(** The candidates a lower call returned, as they are published. *)
Definition candidates_told (r : result LowerLifecycleError P0RecoveryCandidates) : Prop :=
  forall c actor, r = Ok c -> P (RecoveryObserved actor (rc_operation_id c) (rc_task_ids c) (rc_complete c)).

Lemma reconcile_unknown_commit_told actor o r :
  candidates_told r -> told P (reconcile_unknown_commit i actor o r w).1.
Proof.
  intros Hr. unfold reconcile_unknown_commit. destruct r as [c|]; [|told_op]. specialize (Hr c actor eq_refl).
  case_bool_decide as Eo; [told_op|]. subst o. told_op.
Qed.

Lemma resolve_unknown_commit_told actor o d now r :
  lower_told r -> told P (resolve_unknown_commit i actor o d now r w).1.
Proof.
  intros Hr. unfold resolve_unknown_commit, require_current_operation. destruct r as [l|]; [|done].
  specialize (Hr l eq_refl). told_op.
Qed.

Lemma shutdown_enter_told : told P (shutdown_enter i w).1.
Proof. unfold shutdown_enter. told_op. Qed.

Lemma next_worker_action_told now : told P (next_worker_action i now w).1.
Proof. unfold next_worker_action. told_op. Qed.

Lemma admit_start_told turn : told P (admit_start i turn w).1.
Proof. unfold admit_start. told_op. Qed.

Lemma handle_start_result_told now turn r : lower_told r -> told P (handle_start_result i now turn r w).1.
Proof.
  intros Hr. unfold handle_start_result. destruct r as [l|]; [|told_op]. specialize (Hr l eq_refl). told_op.
Qed.

Lemma handle_start_cancel_result_told turn r :
  lower_told r -> told P (handle_start_cancel_result i turn r w).
Proof.
  intros Hr. unfold handle_start_cancel_result. destruct r as [l|]; [|told_op].
  by apply commit_worker_cancel_told, Hr.
Qed.

Lemma handle_monitor_result_told now turn failures r :
  lower_told r -> told P (handle_monitor_result i now turn failures r w).
Proof.
  intros Hr. unfold handle_monitor_result.
  assert (Hc : forall l, current_lifecycle (st w) = Some l -> P (LifecycleChanged l)).
  { intros l (t & Ht & Hl)%current_lifecycle_Some. destruct Hw as [_ Hs]. by eapply Hs. }
  destruct r as [l|]; [specialize (Hr l eq_refl)|]; told_op.
Qed.

End Regions.

Lemma handle_cancel_action_result_told P `{!Plain P} i w turn r :
  told P w -> lower_told P r -> told P (handle_cancel_action_result i turn r w).
Proof.
  intros Hw Hr. unfold handle_cancel_action_result. destruct r as [l|]; [|told_op].
  pose proof (commit_worker_cancel_told P i w Hw turn l (Hr l eq_refl)) as H.
  destruct (commit_worker_cancel i turn l w) as [w' b]. told_op.
Qed.

(** The lower results a label carries. *)
Definition label_lower (l : Label) : option (result LowerLifecycleError CloudLifecycle) :=
  match l with
  | CancelLower _ _ r | ResolveLower _ _ r | WorkerStartDone _ r | WorkerStartCancelDone r
  | WorkerMonitorDone _ r | WorkerCancelDone r => Some r
  | _ => None
  end.

Definition label_candidates (l : Label) : option (result LowerLifecycleError P0RecoveryCandidates) :=
  match l with ReconcileLower _ r => Some r | _ => None end.

#[local] Hint Resolve start_turn_told cancel_turn_enter_told cancel_turn_on_lower_told
  reconcile_unknown_commit_told resolve_unknown_commit_told shutdown_enter_told next_worker_action_told
  admit_start_told handle_start_result_told handle_start_cancel_result_told
  handle_monitor_result_told handle_cancel_action_result_told : codebox.

Lemma subscribe_told P i sid after w : told P w -> told P (subscribe i sid after w).1.
Proof. intros Hw. unfold subscribe. cbv zeta. repeat (break_match_goal; cbn [fst]; try done). Qed.

Lemma try_recv_told P id w : told P w -> told P (try_recv id w).1.
Proof. intros Hw. unfold try_recv. repeat (break_match_goal; cbn [fst]; try done). Qed.

Lemma drop_told P id w : told P w -> told P (drop_live_receiver id w).
Proof. intros Hw. unfold drop_live_receiver. by case_bool_decide. Qed.

(** Nothing is published or shown but what was, and what the label's lower call returned. *)
Lemma sys_step_told P `{!Plain P} i l y y' :
  told P (world y) -> (forall r, label_lower l = Some r -> lower_told P r) ->
  (forall r, label_candidates l = Some r -> candidates_told P r) ->
  sys_step i l y = Some y' -> told P (world y').
Proof.
  intros Hw Hl Hk H. destruct l; try specialize (Hl _ eq_refl); try specialize (Hk _ eq_refl); break_step H; repeat case_match; simpl;
    eauto using subscribe_told, drop_told, try_recv_told with codebox.
Qed.

Lemma sys_init_told (P : P0SessionEvent -> Prop) i now fresh inspected y :
  lower_told P inspected -> (forall o, P (LifecycleChanged (OutcomeUnknown o))) ->
  sys_init i now fresh inspected = Ok y -> told P (world y).
Proof.
  intros Hi Hu. unfold sys_init, from_cloud_control.
  destruct (initial_state _ _ _ _) as [[[ss t] wk]|] eqn:E; [|done]. intros [= <-].
  split; [by intros e ?%not_elem_of_nil|]. intros r l Hr Hl. simpl in Hr. subst t.
  unfold initial_state in E. destruct inspected as [lc|e]; [specialize (Hi lc eq_refl)|];
    repeat (break_match_hyp; simplify_eq/=); by rewrite ?Heqp in *.
Qed.

(** ** Prompts *)

(** The session holds this prompt for this turn, queued or claimed by the worker. *)
Definition holds (y : Sys) (t : TurnId) (prompt : CloudPrompt) : Prop :=
  work (st (world y)) = Some (WorkStart t prompt) \/ pc y = WClaimed t prompt.

Lemma framed_holds y y' t prompt : framed y y' -> holds y' t prompt -> holds y t prompt.
Proof.
  intros (K & (Ha & _) & _ & _ & _ & _ & Hc & _) [H|H]; [left; by apply Ha|right; auto].
Qed.

Lemma start_turn_refused i fresh prompt w :
  is_ok (start_turn i fresh prompt w).2 = false -> (start_turn i fresh prompt w).1 = w.
Proof. unfold start_turn. by repeat (break_match_goal; cbn [fst snd]; try done). Qed.

(** What a step does to the turns the session holds, has started and has issued. *)
Inductive turn_step (i : Inner) (l : Label) (y y' : Sys) : Prop :=
| TurnKeeps :
    (forall t p, holds y' t p -> holds y t p) -> starts y' = starts y ->
    (forall t, t ∈ issued y -> t ∈ issued y') ->
    (forall t prompt, l = StartTurn t prompt -> is_ok (start_turn i t prompt (world y)).2 = false) ->
    (forall t prompt t', l = WorkerAdmit -> pc y = WClaimed t prompt -> pc y' <> WStarting t') ->
    turn_step i l y y'
| TurnAccepts t prompt :
    l = StartTurn t prompt -> is_ok (start_turn i t prompt (world y)).2 = true -> t ∉ issued y ->
    (forall t' p', holds y' t' p' -> holds y t' p' \/ (t', p') = (t, prompt)) ->
    starts y' = starts y -> issued y' = t :: issued y -> turn_step i l y y'
| TurnStarts t prompt :
    l = WorkerAdmit -> pc y = WClaimed t prompt -> pc y' = WStarting t ->
    (forall t' p', holds y' t' p' -> holds y t' p') ->
    t ∉ starts y -> starts y' = t :: starts y -> issued y' = issued y -> turn_step i l y y'.

Lemma framed_turn_step i l y y' :
  framed y y' -> match l with StartTurn _ _ | WorkerAdmit => False | _ => True end -> turn_step i l y y'.
Proof.
  intros Hf Hl. apply TurnKeeps.
  - intros t p. by apply framed_holds.
  - by destruct Hf as (K & _ & _ & _ & ? & _).
  - destruct Hf as (K & _ & _ & -> & _). done.
  - by intros ? ? ->.
  - by intros ? ? ? ->.
Qed.

Lemma sys_step_turns i l y y' : TurnInv y -> sys_step i l y = Some y' -> turn_step i l y y'.
Proof.
  intros HI H. destruct (callers_step l) eqn:Hc.
  { apply framed_turn_step; [by eapply callers_step_framed|]. by destruct l. }
  destruct l; try done;
    try (apply framed_turn_step; [eapply other_step_framed; [done| | |exact H]; done|done]; fail).
  - simpl in H. case_bool_decide as Hf; [done|]. injection H as <-.
    destruct (is_ok (start_turn i fresh prompt (world y)).2) eqn:Eok.
    + eapply TurnAccepts; try done. intros t' p' [Hw|Hw]; [|by left; right]. simpl in Hw.
      destruct (start_turn_cases i fresh prompt (world y)) as [E|[_ E]]; [rewrite E in Hw; by left; left|].
      rewrite E in Hw. injection Hw as -> ->. by right.
    + rewrite (start_turn_refused _ _ _ _ Eok). apply TurnKeeps; simpl; try done.
      * intros t Ht. by right.
      * by intros t p [= <- <-].
  - simpl in H. unfold worker_step in H. destruct (pc y) eqn:Epc; try done.
    pose proof (next_worker_action_cases (fun _ => False) i now (world y)) as Hn.
    destruct (next_worker_action i now (world y)) as [w a]. injection H as <-. apply TurnKeeps; try done.
    intros t p [Hw|Hw]; simpl in Hw; destruct a as [[id q| | |]|]; simpl in Hw; simplify_eq.
    all: first [ destruct Hn as (r & E & _ & _ & E' & _); (left; exact E) || congruence
               | destruct (Hn (ti_work _ HI)) as (Ha & _); left; by apply Ha ].
  - simpl in H. unfold worker_step in H. destruct (pc y) as [|turn q| | | | |] eqn:Epc; try done.
    pose proof (admit_start_cases (fun _ => False) i turn (world y)) as Ha.
    destruct (ti_pc _ HI turn) as [_ Hq]; [by rewrite Epc|].
    destruct (admit_start i turn (world y)) as [w b]. injection H as <-. destruct b.
    + destruct Ha as (t & _ & Ew & _). eapply TurnStarts; try done; [|by eapply ti_claim].
      intros t' p' [Hw|Hw]; [|done]. left. simpl in Hw. by rewrite Ew in Hw.
    + destruct (Ha (ti_work _ HI) Hq) as (Hk & _). apply TurnKeeps; try done.
      intros t' p' [Hw|Hw]; [|done]. left. by apply Hk.
Qed.

(** A new session holds no prompt. *)
Lemma sys_init_holds i now fresh inspected y t prompt :
  sys_init i now fresh inspected = Ok y -> ~ holds y t prompt.
Proof.
  unfold sys_init, from_cloud_control.
  destruct (initial_state _ _ _ _) as [[[ss r] wk]|] eqn:E; [|done]. intros [= <-] [Hw|Hw]; [|done].
  simpl in Hw. subst wk. unfold initial_state in E. repeat (break_match_hyp; simplify_eq/=).
Qed.
