(* ===== verification/SessionAudit.v ===== *)
(** * The audit trail of started, aborted and stopped turns

    Relates the event log to what the worker did: a lower start is made at most once per turn, only
    for turns whose acceptance was logged first, and never for a turn logged as cancelled before it
    reached the Cloud. *)
From S2P Require Import Prelude DomainValues CloudTypes SessionTypes SessionRuntime SessionLog SessionSystem SessionTurns.
From stdpp Require Import base numbers list strings gmap list_numbers relations.
From Stdlib Require Import ZArith Lia.
Import Ids Seqs Config Errors SessionRuntime.

Open Scope Z_scope.

Definition logged (id : TurnId) (p : P0SessionEvent) (lg : list Env) : Prop :=
  exists e, e ∈ lg /\ ev_turn_id e = Some id /\ ev_payload e = p.

Lemma logged_app id p l1 l2 : logged id p (l1 ++ l2) <-> logged id p l1 \/ logged id p l2.
Proof. unfold logged. setoid_rewrite elem_of_app. naive_solver. Qed.

Lemma logged_quiet id p es :
  Forall (fun e => quiet (ev_payload e)) es -> logged id p es -> quiet p.
Proof. rewrite Forall_forall. intros Hq (e & Hin & _ & <-). auto. Qed.

Record AuditInv (y : Sys) : Prop := {
  au_accepted : forall id,
    id ∈ starts y \/ (exists p, pc y = WClaimed id p) \/
    (exists p, work (st (world y)) = Some (WorkStart id p)) ->
    logged id TurnAccepted (log (world y));
  au_aborted : forall id,
    logged id TurnCanceledBeforeCloudStart (log (world y)) ->
    id ∈ issued y /\ id ∉ starts y /\ (forall p, pc y <> WClaimed id p) /\
    (forall p, work (st (world y)) <> Some (WorkStart id p)) }.

(** A step that appends no opening or aborting event and starts nothing. *)
Lemma quiet_AuditInv y y' es :
  AuditInv y -> log (world y') = log (world y) ++ es -> Forall (fun e => quiet (ev_payload e)) es ->
  issued y' = issued y -> starts y' = starts y ->
  (forall id p, pc y' = WClaimed id p -> pc y = WClaimed id p \/
     work (st (world y)) = Some (WorkStart id p)) ->
  (forall id p, work (st (world y')) = Some (WorkStart id p) ->
     work (st (world y)) = Some (WorkStart id p)) ->
  AuditInv y'.
Proof.
  intros [Hacc Hab] El Hes Ei Es Hpc Hwk. constructor; rewrite El, ?Ei, ?Es.
  - intros id H. apply logged_app. left. apply Hacc.
    destruct H as [?|[[p E]|[p E]]]; [auto|destruct (Hpc _ _ E)|]; eauto.
  - intros id [H|H]%logged_app; [|by apply logged_quiet in H].
    destruct (Hab _ H) as (? & ? & Hp & Hw). split_and!; [done..| |]; intros p E.
    + destruct (Hpc _ _ E); [by eapply Hp|by eapply Hw].
    + by eapply Hw; apply Hwk.
Qed.

(** What the three other regions append. *)
Lemma start_turn_log i fresh prompt w :
  (start_turn i fresh prompt w).1 = w \/
  exists e, log (start_turn i fresh prompt w).1 = log w ++ [e] /\
            ev_turn_id e = Some fresh /\ ev_payload e = TurnAccepted.
Proof.
  unfold start_turn. cbv zeta. repeat (break_match_goal; cbn [fst]; try by left). right.
  match goal with |- context [append_event ?i ?t ?p ?w] =>
    destruct (append_event_log i t p w) as (e & ? & ? & ->) end. eauto.
Qed.

Lemma cancel_turn_enter_log i actor w :
  exists es, log (cancel_turn_enter i actor w).1 = log w ++ es /\
  (Forall (fun e => quiet (ev_payload e)) es \/
   exists e t, es = [e] /\ current_turn (st w) = Some t /\ projection t = Queued /\
     ev_turn_id e = Some (turn_id t) /\ work (st (cancel_turn_enter i actor w).1) = None).
Proof.
  unfold cancel_turn_enter. cbv zeta.
  assert (Hnil : exists es : list Env, log w = log w ++ es /\ Forall (fun e => quiet (ev_payload e)) es)
    by (exists []; by rewrite app_nil_r).
  destruct Hnil as (es0 & E0 & H0).
  repeat (break_match_goal; cbn [fst]; eauto).
  all: match goal with
       | |- context [cancel_turn_active ?i ?a ?t ?w] =>
           destruct (evolves_log _ _ _ _ (cancel_turn_active_evolves i w a t)) as (es & ? & ?);
           exists es; by auto
       | E : projection ?r = Queued |- context [append_event ?i ?t ?p ?w] =>
           destruct (append_event_log i t p w) as (e & ? & ? & Elog);
           exists [e]; split; [done|right]; exists e, r; by autorewrite with session_fields
       end.
Qed.

Lemma admit_start_log i turn w :
  0 <= value (high_water_seq (st w)) ->
  exists es, log (admit_start i turn w).1 = log w ++ es /\
  (Forall (fun e => quiet (ev_payload e)) es \/
   exists e, es = [e] /\ ev_turn_id e = Some turn /\ (admit_start i turn w).2 = false /\
     work (st (admit_start i turn w).1) = work (st w)).
Proof.
  intros Hw. unfold admit_start. cbv zeta.
  destruct (shutdown_requested _).
  { destruct (evolves_log i quiet w (stop_worker i Shutdown w)) as (es & E & ?);
      [by apply stop_worker_evolves|eauto]. }
  assert (Hstop : exists es, log (stop_after_lower_failure i turn w) = log w ++ es /\
            Forall (fun e => quiet (ev_payload e)) es).
  { apply (evolves_log i quiet). by apply stop_after_lower_failure_evolves. }
  destruct Hstop as (es0 & E0 & H0).
  destruct (turn_of _ _) as [t|]; [|eauto].
  destruct (projection_cancel_requested _); [|exists []; rewrite app_nil_r; auto].
  destruct (is_err _); [eauto|]. cbn [fst snd].
  match goal with |- context [append_event ?i ?t ?p ?w] =>
    destruct (append_event_log i t p w) as (e & Ee & _ & El) end.
  exists [e]. split; [done|right]. exists e. split_and!; [done..|].
  autorewrite with session_fields. cbn. unfold on_turn_of. by destruct (turn_of _ _).
Qed.

(** ** The invariant along every run *)

Lemma step_log_quiet i l y y' :
  0 <= value (high_water_seq (st (world y))) -> sys_step i l y = Some y' ->
  match l with StartTurn _ _ | CancelEnter _ _ | WorkerAdmit => False | _ => True end ->
  exists es, log (world y') = log (world y) ++ es /\ Forall (fun e => quiet (ev_payload e)) es.
Proof.
  intros Hhw H Hl. destruct (client_side l) eqn:Hc.
  2:{ destruct (sys_step_evolves i l y y' Hhw Hc H) as [He _]. apply evolves_log in He.
      by destruct l. }
  exists []. rewrite app_nil_r. split; [|done]. destruct l; try done; simpl in H.
  - assert (E : log (subscribe i sid after (world y)).1 = log (world y)).
    { unfold subscribe. cbv zeta. by repeat (break_match_goal; cbn [fst]; try done). }
    destruct (subscribe _ _ _ _) as [w r]. simplify_eq. by destruct r.
  - assert (E : log (try_recv id (world y)).1 = log (world y)).
    { unfold try_recv. by repeat (break_match_goal; cbn [fst]; try done). }
    destruct (try_recv _ _) as [w r]. simplify_eq. by destruct r.
  - simplify_eq. simpl. unfold drop_live_receiver. by case_bool_decide.
Qed.

Lemma framed_step_AuditInv i l y y' :
  0 <= value (high_water_seq (st (world y))) -> TurnInv y -> AuditInv y ->
  match l with StartTurn _ _ | CancelEnter _ _ | WorkerNext _ | WorkerAdmit => False | _ => True end ->
  sys_step i l y = Some y' -> AuditInv y'.
Proof.
  intros Hhw HT HA Hl H.
  destruct (step_log_quiet i l y y') as (es & El & Hes); [done|done|by destruct l|].
  assert (Hf : framed y y').
  { destruct (callers_step l) eqn:Hc; [by eapply callers_step_framed|].
    eapply other_step_framed; [done..| |done]. by destruct l. }
  destruct Hf as (K & (Hw & _) & _ & Ei & Es & _ & Hcl & _).
  eapply quiet_AuditInv; eauto. intros id p E. by apply Hw.
Qed.

Lemma StartTurn_AuditInv i fresh prompt y y' :
  TurnInv y -> AuditInv y -> sys_step i (StartTurn fresh prompt) y = Some y' -> AuditInv y'.
Proof.
  intros [Hwq Hcur _ _ _ _ _ _] [Hacc Hab] H. simpl in H. case_bool_decide as Hf; simplify_eq.
  destruct (start_turn_cases i fresh prompt (world y)) as [E|[_ Ew]].
  { rewrite E. constructor; simpl; [done|]. intros id Hid.
    destruct (Hab _ Hid) as (? & ? & ? & ?). split_and!; [by right|done..]. }
  destruct (start_turn_log i fresh prompt (world y)) as [E|(e & El & Et & Ep)].
  { rewrite E in Ew. destruct (Hwq _ _ Ew) as (t & Ht & <- & _). by destruct (Hcur _ Ht) as [? _]. }
  constructor; simpl; rewrite El.
  - intros id Hid. apply logged_app. rewrite Ew in Hid.
    destruct Hid as [?|[?|[p [= <- _]]]]; [left; auto..|]. right.
    exists e. by rewrite list_elem_of_singleton.
  - intros id [Hid|(e' & ->%list_elem_of_singleton & ? & ?)]%logged_app; [|congruence].
    destruct (Hab _ Hid) as (? & ? & ? & ?). split_and!; [by right|done..|].
    intros p E. rewrite Ew in E. by simplify_eq.
Qed.

Lemma CancelEnter_AuditInv i actor now y y' :
  TurnInv y -> AuditInv y -> sys_step i (CancelEnter actor now) y = Some y' -> AuditInv y'.
Proof.
  intros [Hwq Hcur _ Hpc _ _ _ _] HA H. simpl in H. pose proof HA as [Hacc Hab].
  destruct (cancel_turn_enter_log i actor (world y)) as (es & El & Hes).
  pose proof (cancel_turn_enter_frame i (world y) (fun _ => False) Hwq actor) as (Hw & _).
  destruct (cancel_turn_enter i actor (world y)) as [w e]. simpl in *.
  assert (Hy : AuditInv (on_world y w)); [|by simplify_eq; destruct e; destruct Hy; constructor].
  destruct Hes as [Hes|(ev & t & -> & Ht & Hq & Eid & Ew)].
  { eapply quiet_AuditInv; simpl; eauto. intros id p E. by apply Hw. }
  destruct (Hcur _ Ht) as (Hi & Hadm & Hns).
  constructor; simpl; rewrite El.
  - intros id Hid. rewrite Ew in Hid. apply logged_app. left. apply Hacc. naive_solver.
  - intros id Hid. rewrite Ew. apply logged_app in Hid as [Hid|(e' & ->%list_elem_of_singleton & E' & _)].
    + destruct (Hab _ Hid) as (? & ? & ? & ?). done.
    + rewrite Eid in E'. simplify_eq. split_and!; [done|auto| |done].
      intros p E. destruct (Hpc (turn_id t)) as [_ Hnq]; [by rewrite E|]. by eapply Hnq.
Qed.

Lemma WorkerNext_AuditInv i now y y' :
  0 <= value (high_water_seq (st (world y))) -> TurnInv y -> AuditInv y ->
  sys_step i (WorkerNext now) y = Some y' -> AuditInv y'.
Proof.
  intros Hhw HT HA H. destruct (step_log_quiet _ _ _ _ Hhw H I) as (es & El & Hes).
  simpl in H. unfold worker_step in H. destruct (pc y) eqn:Epc; try done.
  pose proof (next_worker_action_cases (fun _ => False) i now (world y)) as Hc.
  destruct (next_worker_action i now (world y)) as [w a]. simplify_eq.
  destruct HT as [Hwq _ _ _ _ _ _ _].
  eapply quiet_AuditInv; simpl; eauto.
  - intros id p E. right. destruct a as [[]|]; simplify_eq/=. by destruct Hc as (t & ? & _).
  - intros id p E. simpl in E.
    destruct a as [[]|]; try (by apply (proj1 (Hc Hwq))). destruct Hc as (t & ? & ? & ? & ? & ?). congruence.
Qed.

Lemma WorkerAdmit_AuditInv i y y' :
  0 <= value (high_water_seq (st (world y))) -> TurnInv y -> AuditInv y ->
  sys_step i WorkerAdmit y = Some y' -> AuditInv y'.
Proof.
  intros Hhw [Hwq Hcur _ Hpc Hclaim _ _ _] HA H. simpl in H. unfold worker_step in H.
  destruct (pc y) as [|turn p| | | | |] eqn:Epc; try done. pose proof HA as [Hacc Hab].
  destruct (admit_start_log i turn (world y) Hhw) as (es & El & Hes).
  pose proof (admit_start_cases (fun _ => False) i turn (world y)) as Hc.
  destruct (Hpc turn eq_refl) as [Hi Hq].
  destruct (admit_start i turn (world y)) as [w b]. simpl in *. simplify_eq.
  assert (Hw : forall id q, work (st w) = Some (WorkStart id q) ->
                            work (st (world y)) = Some (WorkStart id q)).
  { intros id q E. destruct b; [destruct Hc as (t & _ & <- & _); done|]. by apply (proj1 (Hc Hwq Hq)). }
  destruct Hes as [Hes|(e & -> & Et & -> & Ew)].
  - constructor; simpl; rewrite El.
    + intros id Hid. apply logged_app. left. apply Hacc. rewrite Epc. destruct b; [|naive_solver].
      rewrite elem_of_cons in Hid. naive_solver.
    + intros id [Hid|Hid]%logged_app; [|by apply logged_quiet in Hid].
      destruct (Hab _ Hid) as (? & ? & Hp & Hw'). split_and!; [done| | |].
      * destruct b; [|done]. rewrite elem_of_cons. intros [->|?]; [by eapply Hp|done].
      * by destruct b.
      * intros q E. by eapply Hw', Hw.
  - constructor; simpl; rewrite El.
    + intros id Hid. apply logged_app. left. apply Hacc. rewrite Epc. naive_solver.
    + intros id [Hid|(e' & ->%list_elem_of_singleton & E' & _)]%logged_app.
      * destruct (Hab _ Hid) as (? & ? & Hp & Hw'). split_and!; [done..|]. intros q E. by eapply Hw', Hw.
      * rewrite Et in E'. simplify_eq. split_and!; [done|by eapply Hclaim|done|].
        intros q E. apply Hw in E. destruct (Hwq _ _ E) as (t & Ht & <- & Hp). by eapply Hq.
Qed.

Lemma reachable_AuditInv i y : valid_config (config i) -> reachable i y -> AuditInv y.
Proof.
  intros Hv. induction 1 as [now fresh inspected y Hi|y l y' Hy IH Hl Hs].
  - unfold sys_init, from_cloud_control in Hi.
    destruct (initial_state _ _ _ _) as [[[ss t] wk]|] eqn:E; simplify_eq.
    constructor; simpl; [|by intros id (e & ?%not_elem_of_nil & _)].
    intros id [?%not_elem_of_nil|[[p Hp]|[p Hw]]]; [done..|].
    unfold initial_state in E. repeat break_match; simplify_eq.
  - pose proof (reachable_TurnInv _ _ Hy) as HT.
    pose proof (LogInv_hw _ _ _ (reachable_LogInv _ _ Hv Hy)) as Hhw.
    destruct l; eauto using StartTurn_AuditInv, CancelEnter_AuditInv, WorkerNext_AuditInv,
      WorkerAdmit_AuditInv; by eapply framed_step_AuditInv; [..|exact Hs].
Qed.
