(* ===== verification/SessionConsistency.v ===== *)
(** * Agreement of the published session state with the turn projection

    A snapshot carries both a session state and the projection of the current turn; while the
    runtime runs they never contradict each other.  Also: a lifecycle once reported for a turn only
    moves along [lifecycle_transition_allowed], stopping is irreversible, and a requested shutdown
    terminates the worker. *)
From S2P Require Import Prelude DomainValues CloudTypes SessionTypes SessionRuntime SessionLog SessionSystem SessionTurns.
From stdpp Require Import base numbers list strings gmap list_numbers relations.
From Stdlib Require Import ZArith Lia.
Import Ids Seqs Config Errors SessionRuntime.

Open Scope Z_scope.

(** What a running session may say about its current turn. *)
Definition agrees (x : P0SessionState) (t : option TurnRecord) : Prop :=
  match projection <$> t with
  | None | Some CanceledBeforeCloudStart => x = SReady
  | Some Queued | Some (Starting _) => x = SRunning
  | Some (Cloud l _) => x = state_for_lifecycle l
  | Some (MonitoringDegraded o l _) =>
      x = SMonitoringDegraded /\ is_pending l = true /\ o = p0_operation_id l
  | Some StoppedBeforeCloudStart | Some StoppedAfterLowerFailure => False
  end.

Definition consistent (s : RuntimeState) : Prop :=
  worker_stopped s = false -> agrees (session_state s) (current_turn s).

Lemma agrees_proj x t t' : projection <$> t' = projection <$> t -> agrees x t -> agrees x t'.
Proof. unfold agrees. by intros ->. Qed.

Lemma consistent_ext s s' :
  session_state s' = session_state s -> projection <$> current_turn s' = projection <$> current_turn s ->
  worker_stopped s' = worker_stopped s -> consistent s -> consistent s'.
Proof. unfold consistent. intros -> E ->. eauto using agrees_proj. Qed.

Lemma consistent_append i t p w : consistent (st w) -> consistent (st (append_event i t p w)).
Proof. unfold consistent. by autorewrite with session_fields. Qed.

Lemma consistent_stop i r w : consistent (st (stop_worker i r w)).
Proof. unfold consistent. by autorewrite with session_fields. Qed.

Lemma consistent_stop_lower i t w : consistent (st (stop_after_lower_failure i t w)).
Proof. apply consistent_stop. Qed.

Lemma consistent_apply turn p b s s' : apply_projected_lifecycle turn p b s = Ok s' -> consistent s'.
Proof. unfold apply_projected_lifecycle. intros H _. repeat break_match; simplify_eq/=; done. Qed.

Lemma projection_on_turn f (t : option TurnRecord) :
  (forall r, projection (f r) = projection r) -> projection <$> (f <$> t) = projection <$> t.
Proof. intros Hf. destruct t; simpl; [by rewrite Hf|done]. Qed.

Lemma consistent_on_turn f s :
  (forall r, projection (f r) = projection r) -> consistent s -> consistent (on_turn f s).
Proof. intros Hf. apply consistent_ext; simpl; [done|by apply projection_on_turn|done]. Qed.

Lemma consistent_request s :
  consistent s ->
  consistent (on_turn (fun t => with_projection (set_projection_cancel_requested (projection t)) t) s).
Proof.
  intros H Hs. specialize (H Hs). unfold agrees in *. simpl.
  destruct (current_turn s) as [t|]; [|done]. simpl in *. by destruct (projection t).
Qed.

Lemma consistent_degrade s p b :
  current_lifecycle s = Some p -> is_pending p = true ->
  consistent (on_turn (with_projection (MonitoringDegraded (p0_operation_id p) p b))
                (set_session_state SMonitoringDegraded s)).
Proof. intros (t & Ht & _)%current_lifecycle_Some Hp Hs. unfold agrees. simpl. by rewrite Ht. Qed.

Lemma consistent_on_turn_of id f s :
  (forall r, projection (f r) = projection r) -> consistent s -> consistent (on_turn_of id f s).
Proof.
  intros Hf. unfold on_turn_of, turn_of. destruct (current_turn s) as [t|] eqn:E; [|done].
  case_bool_decide; [|done]. apply consistent_ext; simpl; [done| |done]. rewrite E. simpl. by rewrite Hf.
Qed.

Ltac consistent_last :=
  lazymatch goal with
  | |- consistent (st (append_event _ _ _ _)) => apply consistent_append
  | |- consistent (st (close_subscribers _ ?w)) => apply (consistent_ext (st w)); [done..|]
  | |- consistent (st (stop_worker _ _ _)) => apply consistent_stop
  | |- consistent (st (stop_after_lower_failure _ _ _)) => apply consistent_stop_lower
  | |- consistent (st (on_st (set_work _) ?w)) => apply (consistent_ext (st w)); [done..|]
  | |- consistent (st (on_st (set_shutdown_requested _) ?w)) => apply (consistent_ext (st w)); [done..|]
  | |- consistent (st (on_st (set_worker_stopped true) _)) => by intros ?
  | |- consistent (st (on_st (fun _ => ?s) _)) => change (consistent s)
  | |- consistent (on_turn _ _) => apply consistent_on_turn; [done|]
  | |- consistent (st (on_st (on_turn _) ?w)) =>
      first [apply (consistent_on_turn _ (st w)); [done|] | apply (consistent_request (st w))]
  | |- consistent (st (on_st (on_turn_of _ _) ?w)) => apply (consistent_on_turn_of _ _ (st w)); [done|]
  | H : apply_projected_lifecycle _ _ _ _ = Ok ?s |- consistent ?s => exact (consistent_apply _ _ _ _ _ H)
  | H : consistent ?s |- consistent ?s => exact H
  end.

Ltac consistent_op := cbv zeta; cbn [fst]; repeat (break_match_goal; cbn [fst]); repeat consistent_last; try done.

Section Consistency.
Context (i : Inner) (w : World).
Hypothesis Hc : consistent (st w).

Lemma commit_cancel_result_consistent turn l : consistent (st (commit_cancel_result i turn l w).1).
Proof. unfold commit_cancel_result. consistent_op. Qed.

Lemma commit_worker_cancel_consistent turn l : consistent (st (commit_worker_cancel i turn l w).1).
Proof. unfold commit_worker_cancel. consistent_op. Qed.

Lemma start_turn_consistent fresh prompt : consistent (st (start_turn i fresh prompt w).1).
Proof. unfold start_turn. consistent_op. Qed.

Lemma cancel_turn_active_consistent actor t : consistent (st (cancel_turn_active i actor t w).1).
Proof. unfold cancel_turn_active. consistent_op. Qed.

Lemma cancel_turn_enter_consistent actor : consistent (st (cancel_turn_enter i actor w).1).
Proof.
  unfold cancel_turn_enter. consistent_op; try apply cancel_turn_active_consistent.
  all: intros Hs; unfold agrees; simpl in *; by match goal with H : current_turn _ = Some _ |- _ => rewrite H end.
Qed.

Lemma cancel_turn_on_lower_consistent turn b now deadline lower :
  consistent (st (cancel_turn_on_lower i turn b now deadline lower w).1).
Proof.
  unfold cancel_turn_on_lower. destruct lower as [l|e]; [|consistent_op].
  pose proof (commit_cancel_result_consistent turn l). by destruct (commit_cancel_result i turn l w).
Qed.

Lemma reconcile_unknown_commit_consistent actor o lower :
  consistent (st (reconcile_unknown_commit i actor o lower w).1).
Proof. unfold reconcile_unknown_commit. consistent_op. Qed.

Lemma resolve_unknown_commit_consistent actor o dec now lower :
  consistent (st (resolve_unknown_commit i actor o dec now lower w).1).
Proof. unfold resolve_unknown_commit. consistent_op. Qed.

Lemma shutdown_enter_consistent : consistent (st (shutdown_enter i w).1).
Proof. unfold shutdown_enter. consistent_op. Qed.

Lemma next_worker_action_consistent now :
  work_queued (st w) -> consistent (st (next_worker_action i now w).1).
Proof.
  intros Hw. unfold next_worker_action. cbv zeta. destruct (shutdown_requested _); [consistent_op|].
  match goal with |- context [match ?c with Some id => (_, Some (ActCancel id)) | None => _ end] =>
    destruct c; [consistent_op|] end.
  destruct (work (st w)) as [[id p|id due f]|] eqn:E; [|consistent_op..].
  destruct (Hw _ _ E) as (t & Ht & <- & Hq).
  assert (Et : turn_of (set_work None (st w)) (turn_id t) = Some t).
  { unfold turn_of. cbn. by rewrite Ht, bool_decide_true. }
  unfold on_turn_of, on_st. cbn [st]. rewrite Et. cbn [fst st].
  intros Hs. specialize (Hc Hs). unfold agrees in *. rewrite Ht in Hc. cbn in *. by rewrite Hq in Hc.
Qed.

Lemma admit_start_consistent turn : consistent (st (admit_start i turn w).1).
Proof.
  unfold admit_start. consistent_op. unfold on_turn_of, on_st. cbn [st].
  by match goal with H : turn_of (st w) turn = Some _ |- _ =>
    change (turn_of (set_session_state SReady (st w)) turn) with (turn_of (st w) turn); rewrite H end.
Qed.

Lemma handle_start_result_consistent now turn lower :
  consistent (st (handle_start_result i now turn lower w).1).
Proof. unfold handle_start_result. consistent_op. Qed.

Lemma handle_start_cancel_result_consistent turn lower :
  consistent (st (handle_start_cancel_result i turn lower w)).
Proof.
  unfold handle_start_cancel_result. destruct lower; [apply commit_worker_cancel_consistent|consistent_op].
Qed.

Lemma handle_cancel_action_result_consistent turn lower :
  consistent (st (handle_cancel_action_result i turn lower w)).
Proof. unfold handle_cancel_action_result, commit_worker_cancel. consistent_op. Qed.

Lemma handle_monitor_result_consistent now turn failures lower :
  consistent (st (handle_monitor_result i now turn failures lower w)).
Proof. unfold handle_monitor_result. consistent_op; by apply (consistent_degrade (st w)). Qed.

End Consistency.

Lemma sys_step_consistent i l y y' :
  TurnInv y -> consistent (st (world y)) -> sys_step i l y = Some y' -> consistent (st (world y')).
Proof.
  intros HT Hc H. destruct (client_side l) eqn:Hl.
  - destruct l; try done; simpl in H.
    + pose proof (subscribe_turns i sid after (world y)) as (E1 & E2 & _ & _ & E3).
      destruct (subscribe i sid after (world y)) as [w r]. simplify_eq. destruct r; [|done].
      apply (consistent_ext (st (world y))); simpl in *; [done|by rewrite E2|done|done].
    + pose proof (try_recv_st id (world y)) as E.
      destruct (try_recv id (world y)) as [w r]. simplify_eq. destruct r; [|done]. simpl in *. by rewrite E.
    + pose proof (drop_live_receiver_turns id (world y)) as (E1 & E2 & _ & _ & E3).
      simplify_eq. apply (consistent_ext (st (world y))); simpl in *; [done|by rewrite E2|done|done].
  - destruct HT. destruct l; try done; break_step H; repeat case_match; simpl; try done;
    auto using start_turn_consistent, cancel_turn_enter_consistent, cancel_turn_on_lower_consistent,
      reconcile_unknown_commit_consistent, resolve_unknown_commit_consistent,
      shutdown_enter_consistent, next_worker_action_consistent, admit_start_consistent,
      handle_start_result_consistent, handle_start_cancel_result_consistent,
      handle_cancel_action_result_consistent, handle_monitor_result_consistent.
Qed.

Lemma reachable_consistent i y : reachable i y -> consistent (st (world y)).
Proof.
  induction 1 as [now fresh inspected y Hi|y l y' Hy IH Hl Hs].
  - unfold sys_init, from_cloud_control, initial_state in Hi. intros _.
    repeat break_match; simplify_eq; done.
  - eauto using sys_step_consistent, reachable_TurnInv.
Qed.

(** ** Reported lifecycles only move forward *)

Definition lifecycle_view (s : RuntimeState) : option (TurnId * P0CloudLifecycle) :=
  match current_turn s with
  | Some t => (fun l => (turn_id t, l)) <$> projection_lifecycle (projection t)
  | None => None
  end.

(** If both states report a lifecycle for the same turn, the operation is the same and the change is
    an allowed transition (or no change). *)
Definition lifecycle_step (s s' : RuntimeState) : Prop :=
  forall id l l', lifecycle_view s = Some (id, l) -> lifecycle_view s' = Some (id, l') ->
  p0_operation_id l' = p0_operation_id l /\ lifecycle_transition_allowed l l' = true.

Lemma lifecycle_allowed_refl l : lifecycle_transition_allowed l l = true.
Proof. unfold lifecycle_transition_allowed. by rewrite bool_decide_true. Qed.

Lemma lifecycle_step_view s s1 s2 :
  lifecycle_view s2 = lifecycle_view s1 \/ lifecycle_view s2 = None ->
  lifecycle_step s s1 -> lifecycle_step s s2.
Proof. unfold lifecycle_step. intros [->| ->]; [done|]. by intros _ id l l' _. Qed.

Lemma lifecycle_step_refl s : lifecycle_step s s.
Proof. intros id l l' H H'. rewrite H in H'. simplify_eq. split; [done|apply lifecycle_allowed_refl]. Qed.

Lemma lifecycle_step_apply turn p b s s' :
  apply_projected_lifecycle turn p b s = Ok s' -> lifecycle_step s s'.
Proof.
  unfold apply_projected_lifecycle, turn_of, lifecycle_step, lifecycle_view. intros H id l l'.
  destruct (current_turn s) as [t|]; [|done]. case_bool_decide as Ht; [|done]. simpl in H.
  destruct (projection_lifecycle (projection t)) as [cur|]; [|done].
  destruct (_ || _) eqn:E; [done|]. bool_to_prop. intros [= <- <-].
  destruct (is_pending p); simplify_eq/=; intros [= <-]; split; try done;
    apply dec_stable; naive_solver.
Qed.

Lemma lifecycle_view_append i t p w : lifecycle_view (st (append_event i t p w)) = lifecycle_view (st w).
Proof. unfold lifecycle_view. by autorewrite with session_fields. Qed.

Lemma lifecycle_view_stop i r w :
  lifecycle_view (st (stop_worker i r w)) = lifecycle_view (st w) \/
  lifecycle_view (st (stop_worker i r w)) = None.
Proof.
  unfold lifecycle_view. rewrite stop_worker_current. unfold stopped_turn, start_not_admitted.
  destruct (worker_stopped _); [auto|].
  destruct (current_turn (st w)) as [t|]; simpl; destruct (bool_decide _); simpl; auto.
  destruct (_ && _); simpl; auto.
Qed.

Lemma lifecycle_view_on_turn_of id f s :
  (forall t, turn_id (f t) = turn_id t /\
     (projection_lifecycle (projection (f t)) = projection_lifecycle (projection t) \/
      projection_lifecycle (projection (f t)) = None)) ->
  lifecycle_view (on_turn_of id f s) = lifecycle_view s \/ lifecycle_view (on_turn_of id f s) = None.
Proof.
  intros Hf. unfold on_turn_of, turn_of. destruct (current_turn s) as [t|] eqn:E; [|auto].
  case_bool_decide; [|auto]. unfold lifecycle_view. simpl. rewrite E.
  destruct (Hf t) as [-> [->| ->]]; auto.
Qed.

Lemma lifecycle_view_on_turn f s :
  (forall t, turn_id (f t) = turn_id t /\
     (projection_lifecycle (projection (f t)) = projection_lifecycle (projection t) \/
      projection_lifecycle (projection (f t)) = None)) ->
  lifecycle_view (on_turn f s) = lifecycle_view s \/ lifecycle_view (on_turn f s) = None.
Proof.
  intros Hf. unfold lifecycle_view. simpl. destruct (current_turn s) as [t|]; [|auto]. simpl.
  destruct (Hf t) as [-> [->| ->]]; auto.
Qed.

Lemma request_lifecycle p : projection_lifecycle (set_projection_cancel_requested p) = projection_lifecycle p.
Proof. by destruct p. Qed.

Lemma lifecycle_view_degrade s p b :
  current_lifecycle s = Some p ->
  lifecycle_view (on_turn (with_projection (MonitoringDegraded (p0_operation_id p) p b))
                    (set_session_state SMonitoringDegraded s)) = lifecycle_view s.
Proof.
  intros (t & Ht & Hl)%current_lifecycle_Some. unfold lifecycle_view. simpl. by rewrite Ht, Hl.
Qed.

Ltac lc_flags := intros ?; split; [done|]; simpl; rewrite ?request_lifecycle; auto.
Ltac lc_last :=
  lazymatch goal with
  | |- lifecycle_step ?s ?s => apply lifecycle_step_refl
  | |- lifecycle_step _ (st (append_event _ _ _ ?w)) =>
      apply (lifecycle_step_view _ (st w)); [left; apply lifecycle_view_append|]
  | |- lifecycle_step _ (st (close_subscribers _ ?w)) => apply (lifecycle_step_view _ (st w)); [by left|]
  | |- lifecycle_step _ (st (stop_worker _ _ ?w)) =>
      apply (lifecycle_step_view _ (st w)); [apply lifecycle_view_stop|]
  | |- lifecycle_step ?s0 (st (on_st (fun _ => ?s) _)) => change (lifecycle_step s0 s)
  | |- lifecycle_step _ (on_turn _ ?s) =>
      apply (lifecycle_step_view _ s); [apply lifecycle_view_on_turn; lc_flags|]
  | |- lifecycle_step _ (st (on_st (on_turn_of _ _) ?w)) =>
      apply (lifecycle_step_view _ (st w)); [apply lifecycle_view_on_turn_of; lc_flags|]
  | |- lifecycle_step _ (st (on_st (on_turn _) ?w)) =>
      apply (lifecycle_step_view _ (st w)); [apply lifecycle_view_on_turn; solve [lc_flags]|]
  | |- lifecycle_step _ (st (on_st _ ?w)) => apply (lifecycle_step_view _ (st w)); [by left|]
  | H : apply_projected_lifecycle _ _ _ _ = Ok ?s |- lifecycle_step _ ?s =>
      exact (lifecycle_step_apply _ _ _ _ _ H)
  end.
Ltac lc_op :=
  unfold stop_after_lower_failure; cbv zeta; cbn [fst]; repeat (break_match_goal; cbn [fst]);
  repeat lc_last.

Section Lifecycles.
Context (i : Inner) (w : World).

Lemma commit_cancel_result_lc turn l : lifecycle_step (st w) (st (commit_cancel_result i turn l w).1).
Proof. unfold commit_cancel_result. lc_op. Qed.

Lemma commit_worker_cancel_lc turn l : lifecycle_step (st w) (st (commit_worker_cancel i turn l w).1).
Proof. unfold commit_worker_cancel. lc_op. Qed.

Lemma start_turn_lc fresh prompt : lifecycle_step (st w) (st (start_turn i fresh prompt w).1).
Proof.
  destruct (start_turn_cases i fresh prompt w) as [->|[E _]]; [apply lifecycle_step_refl|].
  intros id l l' _. unfold lifecycle_view. by rewrite E.
Qed.

Lemma cancel_turn_active_lc actor t : lifecycle_step (st w) (st (cancel_turn_active i actor t w).1).
Proof. unfold cancel_turn_active. lc_op. Qed.

Lemma cancel_turn_enter_lc actor : lifecycle_step (st w) (st (cancel_turn_enter i actor w).1).
Proof. unfold cancel_turn_enter. lc_op; apply cancel_turn_active_lc. Qed.

Lemma cancel_turn_on_lower_lc turn b now deadline lower :
  lifecycle_step (st w) (st (cancel_turn_on_lower i turn b now deadline lower w).1).
Proof.
  unfold cancel_turn_on_lower. destruct lower as [l|e]; [|lc_op].
  pose proof (commit_cancel_result_lc turn l). by destruct (commit_cancel_result i turn l w).
Qed.

Lemma reconcile_unknown_commit_lc actor o lower :
  lifecycle_step (st w) (st (reconcile_unknown_commit i actor o lower w).1).
Proof. unfold reconcile_unknown_commit. lc_op. Qed.

Lemma resolve_unknown_commit_lc actor o dec now lower :
  lifecycle_step (st w) (st (resolve_unknown_commit i actor o dec now lower w).1).
Proof. unfold resolve_unknown_commit. lc_op. Qed.

Lemma shutdown_enter_lc : lifecycle_step (st w) (st (shutdown_enter i w).1).
Proof. unfold shutdown_enter. lc_op. Qed.

Lemma next_worker_action_lc now : lifecycle_step (st w) (st (next_worker_action i now w).1).
Proof. unfold next_worker_action. lc_op. Qed.

Lemma admit_start_lc turn : lifecycle_step (st w) (st (admit_start i turn w).1).
Proof. unfold admit_start. lc_op. Qed.

Lemma handle_start_result_lc now turn lower :
  lifecycle_step (st w) (st (handle_start_result i now turn lower w).1).
Proof. unfold handle_start_result. lc_op. Qed.

Lemma handle_start_cancel_result_lc turn lower :
  lifecycle_step (st w) (st (handle_start_cancel_result i turn lower w)).
Proof. unfold handle_start_cancel_result. destruct lower; [apply commit_worker_cancel_lc|lc_op]. Qed.

Lemma handle_cancel_action_result_lc turn lower :
  lifecycle_step (st w) (st (handle_cancel_action_result i turn lower w)).
Proof. unfold handle_cancel_action_result, commit_worker_cancel. lc_op. Qed.

Lemma handle_monitor_result_lc now turn failures lower :
  lifecycle_step (st w) (st (handle_monitor_result i now turn failures lower w)).
Proof.
  unfold handle_monitor_result. lc_op.
  all: apply (lifecycle_step_view _ (st w)); [left; by apply lifecycle_view_degrade|lc_last].
Qed.

End Lifecycles.

Lemma sys_step_lc i l y y' :
  sys_step i l y = Some y' -> lifecycle_step (st (world y)) (st (world y')).
Proof.
  intros H. destruct (client_side l) eqn:Hl.
  - destruct l; try done; simpl in H.
    + pose proof (subscribe_turns i sid after (world y)) as (_ & E & _).
      destruct (subscribe i sid after (world y)) as [w r]. simplify_eq.
      destruct r; [|apply lifecycle_step_refl]. apply (lifecycle_step_view _ (st (world y))).
      * left. unfold lifecycle_view. simpl in *. by rewrite E.
      * apply lifecycle_step_refl.
    + pose proof (try_recv_st id (world y)) as E.
      destruct (try_recv id (world y)) as [w r]. simplify_eq.
      destruct r; [|apply lifecycle_step_refl]. simpl in *. rewrite E. apply lifecycle_step_refl.
    + pose proof (drop_live_receiver_turns id (world y)) as (_ & E & _). simplify_eq.
      apply (lifecycle_step_view _ (st (world y))); [|apply lifecycle_step_refl].
      left. unfold lifecycle_view. simpl in *. by rewrite E.
  - destruct l; try done; break_step H; repeat case_match; simpl;
    auto using lifecycle_step_refl, start_turn_lc, cancel_turn_enter_lc, cancel_turn_on_lower_lc,
      reconcile_unknown_commit_lc, resolve_unknown_commit_lc, shutdown_enter_lc,
      next_worker_action_lc, admit_start_lc, handle_start_result_lc, handle_start_cancel_result_lc,
      handle_cancel_action_result_lc, handle_monitor_result_lc.
Qed.

(** ** Stopping is irreversible, and a requested shutdown ends the worker *)

Definition flags_kept (s s' : RuntimeState) : Prop :=
  (worker_stopped s = true -> worker_stopped s' = true) /\
  (shutdown_requested s = true -> shutdown_requested s' = true).

#[export] Instance flags_kept_preorder : PreOrder flags_kept.
Proof. split; unfold flags_kept; [done|]. intros s1 s2 s3. tauto. Qed.

Lemma on_turn_of_flags t f s : flags_kept s (on_turn_of t f s).
Proof. unfold on_turn_of. by destruct (turn_of s t). Qed.

Ltac flags_last :=
  lazymatch goal with
  | |- flags_kept ?s ?s => reflexivity
  | |- flags_kept _ (st (append_event _ _ _ ?w)) =>
      transitivity (st w); [|by unfold flags_kept; autorewrite with session_fields]
  | |- flags_kept _ (st (stop_worker _ _ ?w)) =>
      transitivity (st w); [|by unfold flags_kept; autorewrite with session_fields]
  | |- flags_kept ?s0 (st (on_st (fun _ => ?s) _)) => change (flags_kept s0 s)
  | |- flags_kept _ (on_turn _ ?s) => transitivity s; [|done]
  | |- flags_kept _ (st (on_st (on_turn_of ?t ?f) ?w)) =>
      transitivity (st w); [|apply (on_turn_of_flags t f (st w))]
  | |- flags_kept _ (st (close_subscribers _ ?w)) => transitivity (st w); [|done]
  | |- flags_kept _ (st (on_st _ ?w)) => transitivity (st w); [|done]
  | H : apply_projected_lifecycle _ _ _ _ = Ok ?s |- flags_kept _ ?s =>
      apply apply_projected_flags in H as [? ?]; unfold flags_kept; cbn in *; split; congruence
  end.
Ltac flags_op := unfold stop_after_lower_failure; cbv zeta; cbn [fst];
  repeat (break_match_goal; cbn [fst]); repeat flags_last.

Section Flags.
Context (i : Inner) (w : World).

Lemma commit_cancel_result_flags turn l : flags_kept (st w) (st (commit_cancel_result i turn l w).1).
Proof. unfold commit_cancel_result. flags_op. Qed.

Lemma commit_worker_cancel_flags turn l : flags_kept (st w) (st (commit_worker_cancel i turn l w).1).
Proof. unfold commit_worker_cancel. flags_op. Qed.

Lemma start_turn_flags fresh prompt : flags_kept (st w) (st (start_turn i fresh prompt w).1).
Proof. unfold start_turn. flags_op. Qed.

Lemma cancel_turn_active_flags actor t : flags_kept (st w) (st (cancel_turn_active i actor t w).1).
Proof. unfold cancel_turn_active. flags_op. Qed.

Lemma reconcile_unknown_commit_flags actor o lower : flags_kept (st w) (st (reconcile_unknown_commit i actor o lower w).1).
Proof. unfold reconcile_unknown_commit. flags_op. Qed.

Lemma resolve_unknown_commit_flags actor o dec now lower : flags_kept (st w) (st (resolve_unknown_commit i actor o dec now lower w).1).
Proof. unfold resolve_unknown_commit. flags_op. Qed.

Lemma shutdown_enter_flags : flags_kept (st w) (st (shutdown_enter i w).1).
Proof. unfold shutdown_enter. flags_op. Qed.

Lemma next_worker_action_flags now : flags_kept (st w) (st (next_worker_action i now w).1).
Proof. unfold next_worker_action. flags_op. Qed.

Lemma admit_start_flags turn : flags_kept (st w) (st (admit_start i turn w).1).
Proof. unfold admit_start. flags_op. Qed.

Lemma handle_start_result_flags now turn lower : flags_kept (st w) (st (handle_start_result i now turn lower w).1).
Proof. unfold handle_start_result. flags_op. Qed.

Lemma handle_monitor_result_flags now turn failures lower : flags_kept (st w) (st (handle_monitor_result i now turn failures lower w)).
Proof. unfold handle_monitor_result. flags_op. Qed.

Lemma cancel_turn_enter_flags actor : flags_kept (st w) (st (cancel_turn_enter i actor w).1).
Proof. unfold cancel_turn_enter. flags_op; apply cancel_turn_active_flags. Qed.

Lemma cancel_turn_on_lower_flags turn b now deadline lower :
  flags_kept (st w) (st (cancel_turn_on_lower i turn b now deadline lower w).1).
Proof.
  unfold cancel_turn_on_lower. destruct lower as [l|e]; [|flags_op].
  pose proof (commit_cancel_result_flags turn l). by destruct (commit_cancel_result i turn l w).
Qed.

Lemma handle_start_cancel_result_flags turn lower :
  flags_kept (st w) (st (handle_start_cancel_result i turn lower w)).
Proof. unfold handle_start_cancel_result. destruct lower; [apply commit_worker_cancel_flags|flags_op]. Qed.

Lemma handle_cancel_action_result_flags turn lower :
  flags_kept (st w) (st (handle_cancel_action_result i turn lower w)).
Proof. unfold handle_cancel_action_result, commit_worker_cancel. flags_op. Qed.

End Flags.

Lemma sys_step_flags i l y y' :
  sys_step i l y = Some y' -> flags_kept (st (world y)) (st (world y')).
Proof.
  intros H. destruct (client_side l) eqn:Hl.
  - destruct l; try done; simpl in H.
    + pose proof (subscribe_turns i sid after (world y)) as (_ & _ & _ & E1 & E2).
      destruct (subscribe i sid after (world y)) as [w r]. simplify_eq.
      destruct r; [|done]. unfold flags_kept. simpl in *. by rewrite E1, E2.
    + pose proof (try_recv_st id (world y)) as E.
      destruct (try_recv id (world y)) as [w r]. simplify_eq. destruct r; [|done].
      simpl in *. by rewrite E.
    + pose proof (drop_live_receiver_turns id (world y)) as (_ & _ & _ & E1 & E2). simplify_eq.
      unfold flags_kept. simpl in *. by rewrite E1, E2.
  - destruct l; try done; break_step H; repeat case_match; simpl; try done;
    auto using start_turn_flags, cancel_turn_enter_flags, cancel_turn_on_lower_flags,
      reconcile_unknown_commit_flags, resolve_unknown_commit_flags, shutdown_enter_flags,
      next_worker_action_flags, admit_start_flags, handle_start_result_flags,
      handle_start_cancel_result_flags, handle_cancel_action_result_flags, handle_monitor_result_flags.
Qed.
