(* ===== verification/SessionStops.v ===== *)
(** * What a stopped runtime leaves behind

    The worker stops the runtime when a lower result does not fit the turn it belongs to.  This file
    follows the two sides of that through the other steps of the system: a turn whose lifecycle a
    caller settled while its start was still running (the result of the start then cannot be committed),
    and a turn that is still queued when the runtime stops (it is never started).  SessionClaims.v
    states the properties. *)
From S2P Require Import Prelude DomainValues CloudTypes SessionTypes SessionRuntime SessionLog SessionSystem SessionTurns SessionConsistency.
From stdpp Require Import base numbers list strings gmap list_numbers relations.
From Stdlib Require Import ZArith Lia.
Import Ids Seqs Config Errors SessionRuntime.

Open Scope Z_scope.

Definition last_payload (y : Sys) : option P0SessionEvent := ev_payload <$> last (log (world y)).

(** A step of a caller or of a receiver, other than a shutdown. *)
Definition is_caller_label (l : Label) : bool :=
  match l with
  | StartTurn _ _ | CancelEnter _ _ | CancelLower _ _ _ | ReconcileEnter _ | ReconcileLower _ _
  | ResolveEnter _ _ _ | ResolveLower _ _ _ | Subscribe _ _ | Receive _ | DropReceiver _ => true
  | _ => false
  end.

(** ** Runs *)

Lemma sys_run_first i l ls y y' : sys_run i (l :: ls) y = Some y' ->
  exists y1, sys_step i l y = Some y1 /\ sys_run i ls y1 = Some y'.
Proof.
  unfold sys_run. simpl. destruct (sys_step i l y) as [y1|]; [by eexists|]. intros H. exfalso. clear -H.
  induction ls; simpl in H; auto; done.
Qed.

(** What every step keeps, every run keeps. *)
Lemma sys_run_keeps (P : Sys -> Prop) i ls y y' : (forall l y1 y2, sys_step i l y1 = Some y2 -> P y1 -> P y2) ->
  sys_run i ls y = Some y' -> P y -> P y'.
Proof.
  intros HP. revert y. induction ls as [|l ls IH]; intros y H Hy; [by injection H as <-|].
  apply sys_run_first in H as (y1 & E & H). eauto.
Qed.

(** ** Stopping *)

Lemma stop_worker_log i reason w : worker_stopped (st w) = false -> is_ok (reserve_events (st w) 1) = true ->
  ev_payload <$> last (log (stop_worker i reason w)) = Some (EvRuntimeStopped reason).
Proof.
  intros Hs Hr. unfold stop_worker. rewrite Hs. cbv zeta.
  match goal with |- context [if is_ok (reserve_events ?s 1) then _ else _] =>
    assert (E : high_water_seq s = high_water_seq (st w)) by (destruct (_ && _); done) end.
  unfold reserve_events in *. rewrite E. destruct (u64_checked_add _ _); [|done]. simpl.
  match goal with |- context [append_event i ?t ?p ?w0] => destruct (append_event_log i t p w0) as (e & _ & Ep & El) end.
  unfold close_subscribers. cbn [log]. rewrite El, last_snoc. simpl. by rewrite Ep.
Qed.

(** ** A lifecycle that a caller settled *)

Lemma turn_of_Some s id t : turn_of s id = Some t <-> current_turn s = Some t /\ turn_id t = id.
Proof. unfold turn_of. destruct (current_turn s) as [t'|]; [|naive_solver]. case_bool_decide; naive_solver. Qed.

(** What a region of a caller leaves: the worker runs as before, and the current turn is the same one,
    which shows a lifecycle if it did. *)
Definition calls_keep (s s' : RuntimeState) : Prop :=
  worker_stopped s' = worker_stopped s /\
  forall t', current_turn s' = Some t' -> exists t, current_turn s = Some t /\ turn_id t = turn_id t' /\
    (projection_lifecycle (projection t') = None -> projection_lifecycle (projection t) = None).

#[export] Instance calls_keep_preorder : PreOrder calls_keep.
Proof.
  split; [intros s; split; eauto|]. intros s1 s2 s3 [E1 H1] [E2 H2]. split; [congruence|]. intros t3 Ht3.
  destruct (H2 t3 Ht3) as (t2 & Ht2 & <- & Hn2). destruct (H1 t2 Ht2) as (t1 & Ht1 & <- & Hn1). eauto 10.
Qed.

Lemma calls_keep_same s s' : worker_stopped s' = worker_stopped s -> current_turn s' = current_turn s -> calls_keep s s'.
Proof. intros E1 E2. split; [done|]. rewrite E2. eauto. Qed.

Lemma calls_keep_on_turn f s :
  (forall t, turn_id (f t) = turn_id t /\ (projection_lifecycle (projection (f t)) = None -> projection_lifecycle (projection t) = None)) ->
  calls_keep s (on_turn f s).
Proof.
  intros Hf. split; [done|]. simpl. destruct (current_turn s) as [t|]; [|done]. intros t' [= <-].
  exists t. split_and!; [done|by rewrite (proj1 (Hf t))|apply Hf].
Qed.

Lemma calls_keep_on_turn_of id f s :
  (forall t, turn_id (f t) = turn_id t /\ (projection_lifecycle (projection (f t)) = None -> projection_lifecycle (projection t) = None)) ->
  calls_keep s (on_turn_of id f s).
Proof.
  intros Hf. unfold on_turn_of, turn_of. destruct (current_turn s) as [t|] eqn:E; [|done]. case_bool_decide; [|done].
  split; [done|]. simpl. intros t' [= <-]. exists t. split_and!; [done|by rewrite (proj1 (Hf t))|apply Hf].
Qed.

Lemma calls_keep_apply turn p b s s' : apply_projected_lifecycle turn p b s = Ok s' -> calls_keep s s'.
Proof.
  unfold apply_projected_lifecycle. match goal with |- (if ?b then _ else _) = _ -> _ => destruct b; [done|] end.
  destruct (turn_of s turn) as [t|] eqn:Et; [|done]. apply turn_of_Some in Et as [Et <-]. intros [= <-].
  split; [by destruct (negb _)|]. intros t' Ht'. exists t. destruct (negb _); simpl in Ht'; by simplify_eq/=.
Qed.

Ltac keep_flags := intros ?; simpl; rewrite ?request_lifecycle; done.
Ltac keep_last :=
  lazymatch goal with
  | |- calls_keep ?s ?s => reflexivity
  | |- calls_keep _ (st (append_event _ _ _ ?w)) =>
      transitivity (st w); [|by apply calls_keep_same; autorewrite with session_fields]
  | |- calls_keep ?s0 (st (on_st (fun _ => ?s) _)) => change (calls_keep s0 s)
  | |- calls_keep _ (on_turn _ ?s) => transitivity s; [|apply calls_keep_on_turn; keep_flags]
  | |- calls_keep _ (st (on_st (on_turn_of ?id ?f) ?w)) =>
      transitivity (st w); [|apply (calls_keep_on_turn_of id f (st w)); keep_flags]
  | |- calls_keep _ (st (on_st (on_turn ?f) ?w)) =>
      transitivity (st w); [|apply (calls_keep_on_turn f (st w)); keep_flags]
  | |- calls_keep _ (st (on_st _ ?w)) => transitivity (st w); [|by apply calls_keep_same]
  | H : apply_projected_lifecycle _ _ _ _ = Ok ?s |- calls_keep _ ?s => exact (calls_keep_apply _ _ _ _ _ H)
  end.
Ltac keep_op := cbv zeta; cbn [fst]; repeat (break_match_goal; cbn [fst]); repeat keep_last.

Section Callers.
Context (i : Inner) (w : World).

Lemma commit_cancel_result_keep turn l : calls_keep (st w) (st (commit_cancel_result i turn l w).1).
Proof. unfold commit_cancel_result. keep_op. Qed.

Lemma cancel_turn_active_keep actor t : calls_keep (st w) (st (cancel_turn_active i actor t w).1).
Proof. unfold cancel_turn_active. keep_op. Qed.

Lemma cancel_turn_enter_keep actor : calls_keep (st w) (st (cancel_turn_enter i actor w).1).
Proof.
  unfold cancel_turn_enter. destruct (require_running_worker _); [|done].
  destruct (session_state _); try done; (destruct (current_turn (st w)) as [t|] eqn:Et; [|done]);
    (destruct (projection t) eqn:Ep; try apply cancel_turn_active_keep); (destruct (reserve_events _ _); [|done]).
  all: cbv zeta; cbn [fst]; split; autorewrite with session_fields; simpl; [done|]; rewrite Et; simpl.
  all: intros t' [= <-]; exists t; by rewrite Ep.
Qed.

Lemma cancel_turn_on_lower_keep turn b now deadline lower :
  calls_keep (st w) (st (cancel_turn_on_lower i turn b now deadline lower w).1).
Proof.
  unfold cancel_turn_on_lower. destruct lower as [l|e]; [|keep_op].
  pose proof (commit_cancel_result_keep turn l). by destruct (commit_cancel_result i turn l w).
Qed.

Lemma reconcile_unknown_commit_keep actor o lower :
  calls_keep (st w) (st (reconcile_unknown_commit i actor o lower w).1).
Proof. unfold reconcile_unknown_commit. keep_op. Qed.

Lemma resolve_unknown_commit_keep actor o dec now lower :
  calls_keep (st w) (st (resolve_unknown_commit i actor o dec now lower w).1).
Proof. unfold resolve_unknown_commit. keep_op. Qed.
End Callers.

Ltac unchanged := split_and!; [done|done|left; reflexivity].

Lemma caller_step_keep i l y y' : is_caller_label l = true -> sys_step i l y = Some y' ->
  pc y' = pc y /\ (forall id, id ∈ issued y -> id ∈ issued y') /\
  (calls_keep (st (world y)) (st (world y')) \/
   exists fresh, fresh ∉ issued y /\ worker_stopped (st (world y')) = worker_stopped (st (world y)) /\
     turn_id <$> current_turn (st (world y')) = Some fresh).
Proof.
  intros Hl H. destruct (client_side l) eqn:Hc.
  - destruct l; try done; simpl in H.
    + pose proof (subscribe_turns i sid after (world y)) as (_ & E1 & _ & _ & E2).
      destruct (subscribe i sid after (world y)) as [w r]. simplify_eq. destruct r; [|unchanged].
      split_and!; [done|done|]. left. by apply calls_keep_same.
    + pose proof (try_recv_st id (world y)) as E. destruct (try_recv id (world y)) as [w r]. simplify_eq.
      destruct r; [|unchanged]. split_and!; [done|done|]. left. simpl in *. by rewrite E.
    + pose proof (drop_live_receiver_turns id (world y)) as (_ & E1 & _ & _ & E2). simplify_eq.
      split_and!; [done|done|]. left. by apply calls_keep_same.
  - destruct l; try done.
    + simpl in H. case_bool_decide as Hf; [done|]. simplify_eq. simpl. split_and!; [done|by right|].
      unfold start_turn. destruct (require_running_worker _); [|left; reflexivity]. destruct (bool_decide _); [left; reflexivity|].
      destruct (reserve_events _ _); [|left; reflexivity]. right. exists fresh. cbn [fst]. split_and!; [done|by autorewrite with session_fields..].
    + break_step H; repeat case_match; simpl; (split_and!; [done|done|]); left; eauto using cancel_turn_enter_keep.
    + break_step H; repeat case_match; simpl; (split_and!; [done|done|]); left; eauto using cancel_turn_on_lower_keep.
    + break_step H; repeat case_match; simpl; unchanged.
    + break_step H; repeat case_match; simpl; (split_and!; [done|done|]); left; eauto using reconcile_unknown_commit_keep.
    + break_step H; repeat case_match; simpl; unchanged.
    + break_step H; repeat case_match; simpl; (split_and!; [done|done|]); left; eauto using resolve_unknown_commit_keep.
Qed.

(** The worker waits for the start of a turn of which a caller has committed the terminal lifecycle [c]
    meanwhile, if it still is the current one. *)
Record overtaken (turn : TurnId) (c : P0CloudLifecycle) (y : Sys) : Prop := {
  ov_running : worker_stopped (st (world y)) = false;
  ov_pc : pc y = WStarting turn;
  ov_issued : turn ∈ issued y;
  ov_lifecycle : forall t, turn_of (st (world y)) turn = Some t -> projection_lifecycle (projection t) = Some c }.

Lemma terminal_stays c c' : is_terminal c = true -> lifecycle_transition_allowed c c' = true -> c' = c.
Proof. intros Ht Ha. unfold lifecycle_transition_allowed in Ha. case_bool_decide as E; [done|]. by destruct c. Qed.

Lemma overtaken_step i l turn c y y' : is_terminal c = true -> is_caller_label l = true ->
  sys_step i l y = Some y' -> overtaken turn c y -> overtaken turn c y'.
Proof.
  intros Ht Hl H []. destruct (caller_step_keep i l y y' Hl H) as (Ep & Hi & Hk).
  assert (Hr : worker_stopped (st (world y')) = false) by (destruct Hk as [[E _]|(? & _ & E & _)]; congruence).
  constructor; [done|congruence|auto|]. intros t' [Et' <-]%turn_of_Some. destruct Hk as [[_ Hk]|(fresh & Hf & _ & E)].
  - destruct (Hk t' Et') as (t & Et & Eid & Hn).
    assert (Hc : projection_lifecycle (projection t) = Some c) by (apply ov_lifecycle0, turn_of_Some; done).
    destruct (projection_lifecycle (projection t')) as [c'|] eqn:Ec'; [|by rewrite Hn in Hc].
    destruct (sys_step_lc i l y y' H (turn_id t') c c') as [_ Ha]; unfold lifecycle_view; rewrite ?Et, ?Et'; [by rewrite Hc, <- Eid|by rewrite Ec'|].
    by rewrite (terminal_stays _ _ Ht Ha).
  - rewrite Et' in E. simpl in E. injection E as <-. by destruct Hf.
Qed.

Lemma overtaken_run i ls turn c y y' : is_terminal c = true -> Forall (fun l => is_caller_label l = true) ls ->
  sys_run i ls y = Some y' -> overtaken turn c y -> overtaken turn c y'.
Proof.
  intros Ht Hls. revert y. induction Hls as [|l ls Hl _ IH]; intros y H Ho; [by injection H as <-|].
  apply sys_run_first in H as (y1 & E & H). eauto using overtaken_step.
Qed.

(** What remains of a runtime that was stopped for a lower failure of a turn. *)
Record stopped_for (turn : TurnId) (s s' : RuntimeState) : Prop := {
  sf_stopped : worker_stopped s' = true;
  sf_session : session_state s' = SStopped;
  sf_work : work s' = None;
  sf_shutdown : shutdown_requested s' = shutdown_requested s;
  sf_turn : current_turn s' = current_turn (on_turn_of turn (with_projection StoppedAfterLowerFailure) s) }.

Lemma stop_after_lower_failure_spec i turn w : worker_stopped (st w) = false ->
  stopped_for turn (st w) (st (stop_after_lower_failure i turn w)) /\
  (is_ok (reserve_events (st w) 1) = true ->
   ev_payload <$> last (log (stop_after_lower_failure i turn w)) = Some (EvRuntimeStopped LowerFailure)).
Proof.
  intros Hs. unfold stop_after_lower_failure.
  set (w1 := on_st (on_turn_of turn (with_projection StoppedAfterLowerFailure)) w).
  assert (E : worker_stopped (st w1) = false /\ shutdown_requested (st w1) = shutdown_requested (st w) /\
    high_water_seq (st w1) = high_water_seq (st w)).
  { unfold w1, on_turn_of. simpl. by destruct (turn_of _ _). }
  destruct E as (E1 & E2 & E3). split.
  - constructor; autorewrite with session_fields; rewrite ?E1; done.
  - intros Hr. apply stop_worker_log; [done|]. unfold reserve_events in *. by rewrite E3.
Qed.

(** The start of an overtaken turn cannot be committed. *)
Lemma overtaken_start i now turn c lower y : is_terminal c = true -> overtaken turn c y ->
  (forall l, lower = Ok l -> from_cloud l <> c) ->
  exists w, handle_start_result i now turn lower (world y) = (stop_after_lower_failure i turn w, false) /\
    (w = world y \/ w = on_st (set_session_state SRecoveryRequired) (world y)).
Proof.
  intros Ht [Hr _ _ Hl] Hne. unfold handle_start_result. destruct lower as [l|e]; [|eauto]. cbv zeta.
  set (w := if is_unknown _ then _ else _).
  assert (Hw : w = world y \/ w = on_st (set_session_state SRecoveryRequired) (world y))
    by (unfold w; destruct (is_unknown _); auto).
  exists w. split; [|done]. destruct (is_err _); [done|].
  assert (Ef : turn_of (st w) turn = turn_of (st (world y)) turn) by (destruct Hw as [->| ->]; done).
  unfold apply_projected_lifecycle. rewrite Ef. specialize (Hl).
  destruct (turn_of (st (world y)) turn) as [t|] eqn:Et; simpl; [|done]. rewrite (Hl t eq_refl). simpl.
  assert (Ha : lifecycle_transition_allowed c (from_cloud l) = false).
  { destruct (lifecycle_transition_allowed _ _) eqn:Ea; [|done]. by destruct (Hne l eq_refl), (terminal_stays _ _ Ht Ea). }
  by rewrite Ha, orb_true_r.
Qed.

(** A successful commit of a cancel leaves the lifecycle on its turn. *)
Lemma commit_cancel_result_Ok i turn l w w' snap : commit_cancel_result i turn l w = (w', Ok snap) ->
  worker_stopped (st w) = false /\ is_Some (turn_of (st w) turn) /\
  forall t, turn_of (st w') turn = Some t -> projection_lifecycle (projection t) = Some (from_cloud l).
Proof.
  unfold commit_cancel_result. cbv zeta. destruct (worker_stopped (st w)); [done|]. destruct (turn_of (st w) turn) as [t0|] eqn:Et; [|done].
  destruct (match projection_operation _ with Some _ => _ | None => _ end); [done|]. destruct (_ && _); [done|].
  destruct (apply_projected_lifecycle _ _ _ _) as [s|] eqn:Es; [|done]. intros [= <- _]. split_and!; [done|done|].
  assert (Hs : exists t1, current_turn s = Some t1 /\ projection_lifecycle (projection t1) = Some (from_cloud l)).
  { unfold apply_projected_lifecycle in Es. rewrite Et in Es. simpl in Es.
    match type of Es with (if ?b then _ else _) = _ => destruct b; [done|] end. injection Es as <-.
    destruct (negb _); eexists; by split. }
  destruct Hs as (t1 & Et1 & El). intros t [Ht _]%turn_of_Some. destruct (bool_decide _); autorewrite with session_fields in Ht;
    simpl in Ht; rewrite Et1 in Ht; by injection Ht as <-.
Qed.

(** ** A turn that is still queued when the runtime stops *)

(** The runtime is stopped, the worker has nothing to do, and the turn is queued until a shutdown. *)
Record stranded (turn : TurnId) (started : list TurnId) (y : Sys) : Prop := {
  sr_stopped : worker_stopped (st (world y)) = true;
  sr_work : work (st (world y)) = None;
  sr_pc : pc y = WIdle \/ pc y = WExited;
  sr_starts : starts y = started;
  sr_turn : shutdown_requested (st (world y)) = false ->
    (fun t => (turn_id t, projection t)) <$> current_turn (st (world y)) = Some (turn, Queued) }.

(** A region that changes nothing of that. *)
Definition leaves_stopped (s s' : RuntimeState) : Prop :=
  worker_stopped s' = worker_stopped s /\ work s' = work s /\ shutdown_requested s' = shutdown_requested s /\
  (fun t => (turn_id t, projection t)) <$> current_turn s' = (fun t => (turn_id t, projection t)) <$> current_turn s.

Lemma leaves_stopped_refl s : leaves_stopped s s.
Proof. done. Qed.
#[local] Hint Resolve leaves_stopped_refl : core.

Lemma stranded_frame turn started y w p cs d ids : stranded turn started y -> leaves_stopped (st (world y)) (st w) ->
  p = WIdle \/ p = WExited -> stranded turn started (mkSys w p cs d (starts y) ids).
Proof. intros [] (E1 & E2 & E3 & E4) Hp. constructor; simpl; rewrite ?E1, ?E2, ?E3, ?E4; done. Qed.

Section Stopped.
Context (i : Inner) (w : World).
Hypothesis Hs : worker_stopped (st w) = true.

Lemma stopped_refuses : require_running_worker (st w) = Err (new RuntimeStopped).
Proof. unfold require_running_worker. by rewrite Hs. Qed.

Lemma cancel_on_stopped turn b now deadline lower :
  leaves_stopped (st w) (st (cancel_turn_on_lower i turn b now deadline lower w).1).
Proof.
  assert (Hoff : leaves_stopped (st w) (on_turn_of turn (with_cancel_in_progress false) (st w))).
  { unfold on_turn_of. destruct (turn_of (st w) turn) as [t|] eqn:E; [|done]. apply turn_of_Some in E as [E _].
    unfold leaves_stopped. simpl. by rewrite E. }
  unfold cancel_turn_on_lower. destruct lower as [l|e].
  - unfold commit_cancel_result. by rewrite Hs.
  - repeat (break_match_goal; cbn [fst]); done.
Qed.

Lemma reconcile_on_stopped actor o lower : leaves_stopped (st w) (st (reconcile_unknown_commit i actor o lower w).1).
Proof.
  unfold reconcile_unknown_commit, leaves_stopped. repeat (break_match_goal; cbn [fst]); autorewrite with session_fields; done.
Qed.

Lemma resolve_on_stopped actor o dec now lower : (resolve_unknown_commit i actor o dec now lower w).1 = w.
Proof.
  unfold resolve_unknown_commit. destruct lower as [l|]; [|done]. cbv zeta. destruct (bool_decide _); [done|].
  destruct (require_current_operation _ _); [|done]. simpl. by rewrite stopped_refuses.
Qed.
End Stopped.

Lemma stranded_step i l turn started y y' : sys_step i l y = Some y' -> stranded turn started y -> stranded turn started y'.
Proof.
  intros H HS. pose proof HS as []. pose proof (stopped_refuses (world y) sr_stopped0) as Hrun.
  destruct l; simpl in H; unfold worker_step in H.
  - case_bool_decide; [done|]. injection H as <-. unfold start_turn. rewrite Hrun. by apply (stranded_frame turn started y).
  - unfold cancel_turn_enter in H. rewrite Hrun in H. injection H as <-. by apply (stranded_frame turn started y).
  - destruct (callers y !! k) as [[t b dl| |]|]; try done.
    pose proof (cancel_on_stopped i (world y) sr_stopped0 t b now dl lower) as Hf.
    destruct (cancel_turn_on_lower _ _ _ _ _ _ _) as [w r]. injection H as <-. destruct r; by apply (stranded_frame turn started y).
  - unfold reconcile_unknown_enter in H. rewrite Hrun in H. by injection H as <-.
  - destruct (callers y !! k) as [[]|]; try done. injection H as <-. apply (stranded_frame turn started y); [done| |done].
    apply reconcile_on_stopped.
  - unfold resolve_unknown_enter in H. rewrite Hrun in H. by injection H as <-.
  - destruct (callers y !! k) as [[]|]; try done. injection H as <-. apply (stranded_frame turn started y); [done| |done].
    by rewrite resolve_on_stopped.
  - unfold subscribe in H. rewrite Hrun in H. destruct (bool_decide _); by injection H as <-.
  - pose proof (try_recv_st id (world y)) as E. destruct (try_recv id (world y)) as [w r]. simpl in E. injection H as <-.
    destruct r; [|done]. apply (stranded_frame turn started y); [done| |done]. simpl. by rewrite E.
  - pose proof (drop_live_receiver_turns id (world y)) as (_ & E1 & E2 & E3 & E4). injection H as <-.
    apply (stranded_frame turn started y); [done| |done]. unfold leaves_stopped. simpl in *. by rewrite E1, E2, E3, E4.
  - injection H as <-. unfold shutdown_enter. destruct (shutdown_requested (st (world y))) eqn:Esd; [by apply (stranded_frame turn started y)|].
    repeat (break_match_goal; cbn [fst]); constructor; simpl; autorewrite with session_fields; done.
  - destruct (pc y) eqn:Epc; try done. destruct (next_worker_action i now (world y)) as [w a] eqn:Ea. injection H as <-.
    unfold next_worker_action in Ea. cbv zeta in Ea. destruct (shutdown_requested (st (world y))) eqn:Esd.
    + unfold stop_worker in Ea. rewrite sr_stopped0 in Ea. injection Ea as <- <-. apply (stranded_frame turn started y); auto.
    + specialize (sr_turn0 eq_refl). destruct (current_turn (st (world y))) as [t|] eqn:Et; [|done]. injection sr_turn0 as _ Eq.
      rewrite Eq in Ea. simpl in Ea. rewrite sr_work0 in Ea. injection Ea as <- <-. apply (stranded_frame turn started y); auto.
  - destruct sr_pc0 as [E|E]; by rewrite E in H.
  - destruct sr_pc0 as [E|E]; by rewrite E in H.
  - destruct sr_pc0 as [E|E]; by rewrite E in H.
  - destruct sr_pc0 as [E|E]; by rewrite E in H.
  - destruct sr_pc0 as [E|E]; by rewrite E in H.
Qed.
