(* ===== verification/SessionClaims.v ===== *)
(** * What the session runtime guarantees

    The theorems about every reachable state of the concurrent session of SessionSystem.v, each
    with a concrete run at which its hypotheses hold, and the concrete interleavings in which the
    runtime does not do what its documentation says. *)
From S2P Require Import Prelude DomainValues CloudTypes SessionTypes SessionRuntime SessionLog SessionSystem SessionTurns SessionAudit SessionConsistency SessionStops.
From stdpp Require Import base numbers list strings gmap list_numbers relations.
From Stdlib Require Import ZArith Lia.
Import Ids Seqs Config Errors SessionRuntime.

Open Scope Z_scope.

(** ** Concrete sessions *)

Definition demo_inner : Inner :=
  {| config := config_default;
     identity := {| SessionTypes.session_id := mkId 7; instance_id := mkInstance 8 |} |}.
Definition turn1 : TurnId := mkId 101.
Definition turn2 : TurnId := mkId 102.
Definition op1 : CloudSubmitOperationId := mkOp 201.
Definition op0 : CloudSubmitOperationId := mkOp 200.
Definition task1 : CloudTaskId := mkTask "task_1".
Definition task0 : CloudTaskId := mkTask "task_0".
Definition no_operation : result LowerLifecycleError CloudLifecycle :=
  Err (mkLower ENoCurrentOperation None).

(** The state after a run, or the initial state of an empty session when a label is refused. *)
Definition demo_init (inspected : result LowerLifecycleError CloudLifecycle) : option Sys :=
  match sys_init demo_inner 0 (mkId 100) inspected with Ok y => Some y | Err _ => None end.
Definition demo_run (inspected : result LowerLifecycleError CloudLifecycle) (ls : list Label) : option Sys :=
  demo_init inspected ≫= sys_run demo_inner ls.

Lemma demo_reachable inspected ls y :
  Forall label_ok ls -> demo_run inspected ls = Some y -> reachable demo_inner y.
Proof.
  unfold demo_run, demo_init. intros Hls H. destruct (sys_init _ _ _ _) as [y0|] eqn:E; [|done].
  eapply sys_run_reachable; [by eapply reach_init|done|exact H].
Qed.

(** One turn that is accepted, claimed, admitted, started and becomes pending, watched by a
    subscriber that joined before it. *)
Definition demo_turn : list Label :=
  [Subscribe (mkId 7) (mkSeq 0); StartTurn turn1 (mkPrompt "prompt"); WorkerNext 1; WorkerAdmit;
   WorkerStartDone 2 (Ok (LPending op1 task1)); Receive 1].

Definition demo_state : Sys :=
  default (mkSys (mkWorld (mkState SReady None initial [] [] 1 None false false) ∅ []) WIdle [] ∅ [] [])
    (demo_run no_operation demo_turn).

Lemma demo_state_reachable : reachable demo_inner demo_state.
Proof.
  apply (demo_reachable no_operation demo_turn); [by repeat constructor|]. vm_compute. reflexivity.
Qed.

Lemma demo_valid : valid_config (config demo_inner).
Proof. apply config_default_valid. Qed.

(** ** Events and subscriptions *)

(** The event log of every reachable session is gap-free, bounded and within the 64-bit sequence
    space.  Sequences are 1, 2, .., n in order, the high-water is n, every envelope carries schema
    version 1 and the session's own id, the retained history is exactly the last
    [history_capacity] events, and no more than [max_subscribers] subscribers are registered. *)
Theorem session_log_gapless i y (Hv : valid_config (config i)) (Hy : reachable i y) :
  let w := world y in
  map (fun e => value (ev_seq e)) (log w) = seqZ 1 (len (log w)) /\
  value (high_water_seq (st w)) = len (log w) /\ len (log w) <= u64_max /\
  history (st w) = lastn (Z.to_nat (history_capacity (config i))) (log w) /\
  Forall (fun e => ev_schema_version e = EVENT_SCHEMA_VERSION /\
                   ev_session_id e = SessionTypes.session_id (identity i)) (log w) /\
  len (subscribers (st w)) <= max_subscribers (config i).
Proof. by destruct (reachable_LogInv i y Hv Hy). Qed.

Lemma session_log_gapless_witness :
  log (world demo_state) <> [] /\
  value (high_water_seq (st (world demo_state))) = len (log (world demo_state)).
Proof.
  split; [by vm_compute|].
  apply (session_log_gapless demo_inner demo_state demo_valid demo_state_reachable).
Defined.

(** C6: delivery to a subscriber loses, duplicates and reorders nothing.  What a client was handed
    (the replay, then what it received) is always a prefix of the events after its cursor; while it
    is registered, handing it the queued events too makes that all of them; its queue never exceeds
    [live_capacity]; and once it is not registered its channel is closed with a recorded reason. *)
Theorem subscriber_delivery i y id cur got c (Hv : valid_config (config i)) (Hy : reachable i y)
  (Hd : deliveries y !! id = Some (cur, got)) (Hc : heap (world y) !! id = Some c) :
  got `prefix_of` drop (Z.to_nat cur) (log (world y)) /\
  len (queue c) <= live_capacity (config i) /\
  (id ∈ subscribers (st (world y)) -> got ++ queue c = drop (Z.to_nat cur) (log (world y))) /\
  (id ∉ subscribers (st (world y)) -> sender_alive c = false /\ close_reason c <> CLOSE_OPEN).
Proof.
  destruct (reachable_LogInv i y Hv Hy).
  destruct (li_chan _ _ _ _ Hc Hd) as (_ & Hq & Hp & Hl & Hn). split_and!; [|done| |done].
  - etrans; [|exact Hp]. by apply prefix_app_r.
  - intros Hin. by apply Hl.
Qed.

Definition demo_delivery : Z * list Env := default (0, []) (deliveries demo_state !! 1).
Definition demo_channel : Channel := default (mkChannel [] false false 0) (heap (world demo_state) !! 1).

Lemma subscriber_delivery_witness :
  len demo_delivery.2 = 1 /\ len (queue demo_channel) = 1 /\
  demo_delivery.2 ++ queue demo_channel = drop (Z.to_nat demo_delivery.1) (log (world demo_state)).
Proof.
  split; [vm_compute; reflexivity|]. split; [vm_compute; reflexivity|].
  refine (proj1 (proj2 (proj2 (subscriber_delivery demo_inner demo_state 1 demo_delivery.1
            demo_delivery.2 demo_channel demo_valid demo_state_reachable _ _))) _);
    vm_compute; [reflexivity..|left].
Defined.

(** What a bounded history retains, by sequence. *)
Lemma history_head i d w : valid_config (config i) -> LogInv i d w ->
  match head (history (st w)) with
  | Some e => value (ev_seq e) = Z.max 0 (len (log w) - history_capacity (config i)) + 1
  | None => log w = []
  end.
Proof.
  intros (_ & Hcap & _) []. unfold MIN_HISTORY_CAPACITY in Hcap.
  set (k := (length (log w) - Z.to_nat (history_capacity (config i)))%nat) in *.
  pose proof (seqs_drop (log w) 1 k li_seqs) as Hs. rewrite li_history. unfold lastn. fold k.
  destruct (drop k (log w)) as [|e rest] eqn:Ed; simpl.
  - apply (f_equal length) in Ed. rewrite length_drop in Ed. simpl in Ed.
    apply length_zero_iff_nil. lia.
  - simpl in Hs. unfold len in Hs. simpl length in Hs.
    rewrite Nat2Z.inj_succ, seqZ_cons in Hs by lia. injection Hs as Hs _. unfold len. lia.
Qed.

(** The oldest sequence a session with this log retains. *)
Definition oldest_retained (i : Inner) (lg : list Env) : Z :=
  Z.max 0 (len lg - history_capacity (config i)) + 1.

(** What [subscribe] answers, on every branch, in every reachable running session: a cursor
    past the high-water is refused as future, one older than the retained history as a gap that
    names the oldest and latest retained sequence, a full subscriber table (or an exhausted
    subscriber counter) as the subscriber limit; otherwise the replay is exactly every event after
    the cursor, taken with the snapshot of the same instant. *)
Theorem subscribe_decision i y after (Hv : valid_config (config i)) (Hy : reachable i y)
  (Ha : 0 <= value after) (Hrun : require_running_worker (st (world y)) = Ok tt) :
  (subscribe i (SessionTypes.session_id (identity i)) after (world y)).2 =
  if len (log (world y)) <? value after then Err (future_cursor (mkSeq (len (log (world y)))))
  else if value after + 1 <? oldest_retained i (log (world y)) then
    Err (history_gap (mkSeq (oldest_retained i (log (world y)))) (mkSeq (len (log (world y)))))
  else if max_subscribers (config i) <=? len (subscribers (st (world y))) then
    Err (new SubscriberLimit)
  else if u64_max <? next_subscriber_id (st (world y)) + 1 then Err (new SubscriberLimit)
  else Ok {| sub_replay := drop (Z.to_nat (value after)) (log (world y));
             sub_snapshot := snapshot_from i (st (world y));
             sub_live := next_subscriber_id (st (world y)) |}.
Proof.
  unfold oldest_retained. pose proof (reachable_LogInv i y Hv Hy) as HI.
  pose proof (history_head i _ _ Hv HI) as Hh. pose proof (li_high_water _ _ _ HI) as Hhw.
  unfold subscribe. rewrite bool_decide_false, Hrun by tauto. rewrite Hhw.
  destruct (high_water_seq (st (world y))) as [hw]. simpl in Hhw. subst hw.
  destruct (Z.ltb_spec (len (log (world y))) (value after)) as [|Hle]; [done|].
  assert (Hgap : match head (history (st (world y))) with
    | Some o => if value after <? u64_saturating_sub (value (ev_seq o)) 1 then Some (ev_seq o) else None
    | None => None end =
    if value after + 1 <? Z.max 0 (len (log (world y)) - history_capacity (config i)) + 1
    then Some (mkSeq (Z.max 0 (len (log (world y)) - history_capacity (config i)) + 1)) else None).
  { destruct (head (history (st (world y)))) as [[? ? [o] ? ?]|]; simpl in Hh.
    - subst o. unfold u64_saturating_sub. simpl. repeat case_match; bool_to_prop; try done; lia.
    - rewrite Hh. destruct Hv as (_ & Hcap & _). unfold MIN_HISTORY_CAPACITY, len in *. simpl.
      case_match; bool_to_prop; [lia|done]. }
  rewrite Hgap. destruct (value after + 1 <? _) eqn:Eg; [done|]. bool_to_prop.
  destruct (Z.leb_spec (max_subscribers (config i)) (len (subscribers (st (world y))))); [done|].
  unfold u64_checked_add. destruct (Z.leb_spec (next_subscriber_id (st (world y)) + 1) u64_max);
    destruct (Z.ltb_spec u64_max (next_subscriber_id (st (world y)) + 1)); try lia; [|done].
  simpl. rewrite (replay_complete i _ _ (value after) Hv HI); [done|lia|].
  destruct (head (history (st (world y)))) as [o|]; [|done]. unfold u64_saturating_sub. lia.
Qed.

Lemma subscribe_decision_witness :
  require_running_worker (st (world demo_state)) = Ok tt /\
  (subscribe demo_inner (mkId 7) (mkSeq 1) (world demo_state)).2 =
    Ok {| sub_replay := drop 1 (log (world demo_state));
          sub_snapshot := snapshot_from demo_inner (st (world demo_state)); sub_live := 2 |}.
Proof.
  split; [vm_compute; reflexivity|].
  refine (eq_trans (subscribe_decision demo_inner demo_state (mkSeq 1) demo_valid
                      demo_state_reachable _ _) _); [simpl; lia|vm_compute; reflexivity..].
Defined.

(** ** Turns *)

(** The lower Cloud start is called at most once per turn, in every reachable state, only for a
    turn whose [TurnAccepted] event is already in the log, and never for a turn the log reports as
    cancelled before it reached the Cloud. *)
Theorem lower_start_at_most_once i y (Hv : valid_config (config i)) (Hy : reachable i y) :
  NoDup (starts y) /\
  forall id, id ∈ starts y ->
    logged id TurnAccepted (log (world y)) /\ ~ logged id TurnCanceledBeforeCloudStart (log (world y)).
Proof.
  destruct (reachable_TurnInv i y Hy), (reachable_AuditInv i y Hv Hy) as [Hacc Hab].
  split; [done|]. intros id Hid. split; [by apply Hacc; left|].
  intros Hc. by destruct (Hab _ Hc) as (_ & ? & _).
Qed.

Lemma lower_start_at_most_once_witness :
  starts demo_state = [turn1] /\ logged turn1 TurnAccepted (log (world demo_state)).
Proof.
  split; [vm_compute; reflexivity|].
  refine (proj1 (proj2 (lower_start_at_most_once demo_inner demo_state demo_valid
            demo_state_reachable) turn1 _)). vm_compute. left.
Defined.


(** the published state and the published turn agree in every reachable running session: no turn
    or a turn cancelled before the Cloud start goes with [Ready], a queued or starting turn with
    [Running], a turn with a Cloud lifecycle with that lifecycle's state, a degraded turn with
    [MonitoringDegraded] and a last known pending lifecycle of its operation; the two stopped
    projections never occur while the runtime runs. *)
Theorem session_state_agrees_with_turn i y (Hy : reachable i y)
  (Hrun : worker_stopped (st (world y)) = false) :
  agrees (session_state (st (world y))) (current_turn (st (world y))).
Proof. by apply (reachable_consistent i y Hy). Qed.

Lemma session_state_agrees_with_turn_witness :
  session_state (st (world demo_state)) = SRunning /\
  agrees (session_state (st (world demo_state))) (current_turn (st (world demo_state))).
Proof.
  split; [vm_compute; reflexivity|].
  apply (session_state_agrees_with_turn demo_inner demo_state demo_state_reachable).
  vm_compute. reflexivity.
Defined.

(** C16: a lifecycle reported for a turn never changes its operation and only moves along the allowed
    transitions, whatever the lower layer answers and however the steps interleave; in particular
    a terminal lifecycle stays until another turn replaces it. *)
Theorem reported_lifecycle_moves_forward i l y y' id c c' (Hs : sys_step i l y = Some y')
  (Hc : lifecycle_view (st (world y)) = Some (id, c))
  (Hc' : lifecycle_view (st (world y')) = Some (id, c')) :
  p0_operation_id c' = p0_operation_id c /\ lifecycle_transition_allowed c c' = true /\
  (is_terminal c = true -> c' = c).
Proof.
  destruct (sys_step_lc i l y y' Hs id c c' Hc Hc') as [Ho Ht]. split_and!; [done..|].
  intros Hterm. by apply terminal_stays.
Qed.

Definition demo_ready : Sys :=
  default demo_state
    (sys_run demo_inner [WorkerNext 9000000000; WorkerMonitorDone 9000000001 (Ok (LReady op1 task1))]
       demo_state).
Definition demo_polling : Sys :=
  default demo_state (sys_run demo_inner [WorkerNext 9000000000] demo_state).

Lemma reported_lifecycle_moves_forward_witness :
  lifecycle_transition_allowed (Pending op1 (p0_task_from_cloud task1))
    (Ready op1 (p0_task_from_cloud task1)) = true.
Proof.
  refine (proj1 (proj2 (reported_lifecycle_moves_forward demo_inner
    (WorkerMonitorDone 9000000001 (Ok (LReady op1 task1))) demo_polling demo_ready turn1 _ _ _ _ _)));
    vm_compute; reflexivity.
Defined.

(** ** Stopping *)

Definition worker_label_of (p : WorkerPc) (now : Z) (lower : result LowerLifecycleError CloudLifecycle)
  : Label :=
  match p with
  | WIdle | WExited => WorkerNext now
  | WClaimed _ _ => WorkerAdmit
  | WStarting _ => WorkerStartDone now lower
  | WStartCancel _ => WorkerStartCancelDone lower
  | WMonitoring _ _ => WorkerMonitorDone now lower
  | WCancelling _ => WorkerCancelDone lower
  end.

Definition is_worker_label (l : Label) : bool :=
  match l with
  | WorkerNext _ | WorkerAdmit | WorkerStartDone _ _ | WorkerStartCancelDone _
  | WorkerMonitorDone _ _ | WorkerCancelDone _ => true
  | _ => false
  end.

(** Worker regions still to run once shutdown is requested. *)
Definition worker_rank (p : WorkerPc) : nat :=
  match p with WExited => 0 | WIdle => 1 | _ => 2 end.

Lemma handle_start_result_shutdown i now turn lower w :
  shutdown_requested (st w) = true -> (handle_start_result i now turn lower w).2 = false.
Proof.
  intros Hs. unfold handle_start_result. destruct lower as [l|]; [|done]. cbv zeta.
  set (w1 := if is_unknown _ then _ else _).
  assert (Hs1 : shutdown_requested (st w1) = true) by (unfold w1; by destruct (is_unknown _)).
  destruct (is_err _); [done|].
  destruct (apply_projected_lifecycle _ _ _ _) as [s|] eqn:E; [|done].
  apply apply_projected_flags in E as [E _]. autorewrite with session_fields. cbn.
  by rewrite E, Hs1.
Qed.

(** A requested shutdown is never withdrawn and ends the worker: from then on no other step moves
    the worker or clears the request, the worker always has a next region to run once its lower
    call returned, whatever it returned, each region brings it closer to its exit (at most two are
    left), and when it exits the runtime is stopped. *)
Theorem shutdown_terminates_worker i y
  (Hs : shutdown_requested (st (world y)) = true) :
  (forall l y', sys_step i l y = Some y' ->
     shutdown_requested (st (world y')) = true /\
     (if is_worker_label l then (worker_rank (pc y') < worker_rank (pc y))%nat
      else pc y' = pc y) /\
     (pc y' = WExited -> pc y = WExited \/ worker_stopped (st (world y')) = true)) /\
  (pc y <> WExited -> forall now lower, is_Some (sys_step i (worker_label_of (pc y) now lower) y)).
Proof.
  split.
  - intros l y' H. split; [by apply (sys_step_flags i l y y' H)|].
    destruct (is_worker_label l) eqn:Hl.
    + destruct l; try done; simpl in H; unfold worker_step in H; destruct (pc y) eqn:Epc; try done.
      * unfold next_worker_action in H. rewrite Hs in H. simplify_eq. split; [simpl; lia|].
        intros _. right. simpl. by autorewrite with session_fields.
      * unfold admit_start in H. rewrite Hs in H. simplify_eq. split; [simpl; lia|done].
      * pose proof (handle_start_result_shutdown i now turn lower (world y) Hs) as E.
        destruct (handle_start_result _ _ _ _ _) as [w b]. simpl in E. subst b. simplify_eq.
        split; [simpl; lia|done].
      * simplify_eq. split; [simpl; lia|done].
      * simplify_eq. split; [simpl; lia|done].
      * simplify_eq. split; [simpl; lia|done].
    + assert (E : pc y' = pc y); [|by rewrite E; auto].
      destruct l; try done; break_step H; repeat case_match; simpl; done.
  - intros Hp now lower. destruct (pc y) eqn:Epc; try done; simpl; unfold worker_step; rewrite Epc;
      repeat case_match; eauto.
Qed.

Lemma shutdown_terminates_worker_witness :
  exists y, sys_run demo_inner [WorkerNext 9000000000; ShutdownEnter] demo_state = Some y /\
    is_Some (sys_step demo_inner (WorkerMonitorDone 9000000001 (Ok (LReady op1 task1))) y).
Proof.
  destruct (sys_run demo_inner [WorkerNext 9000000000; ShutdownEnter] demo_state) as [y|] eqn:E;
    [|by vm_compute in E].
  exists y. split; [reflexivity|].
  assert (Hpc : pc y = WMonitoring turn1 0) by (vm_compute in E; by injection E as <-).
  pose proof (shutdown_terminates_worker demo_inner y) as [_ H].
  { vm_compute in E. by injection E as <-. }
  rewrite Hpc in H. by apply (H ltac:(done) 9000000001 (Ok (LReady op1 task1))).
Defined.

(** A session that is stopped, or whose shutdown was requested, refuses every command with
    [RuntimeStopped], changes nothing, and stays so whatever step follows. *)
Theorem stopped_session_refuses_commands i y
  (Hs : worker_stopped (st (world y)) = true \/ shutdown_requested (st (world y)) = true) :
  (forall fresh prompt, start_turn i fresh prompt (world y) = (world y, Err (new RuntimeStopped))) /\
  (forall actor, cancel_turn_enter i actor (world y) = (world y, CancelDone (Err (new RuntimeStopped)))) /\
  reconcile_unknown_enter (st (world y)) = Err (new RuntimeStopped) /\
  (forall op, resolve_unknown_enter op (st (world y)) = Err (new RuntimeStopped)) /\
  read_diff_enter (st (world y)) = Err (new RuntimeStopped) /\
  (forall after, subscribe i (SessionTypes.session_id (identity i)) after (world y) =
                 (world y, Err (new RuntimeStopped))) /\
  (forall l y', sys_step i l y = Some y' ->
     worker_stopped (st (world y')) = true \/ shutdown_requested (st (world y')) = true).
Proof.
  assert (Hr : require_running_worker (st (world y)) = Err (new RuntimeStopped)).
  { unfold require_running_worker. by destruct Hs as [->| ->]; rewrite ?orb_true_r. }
  unfold start_turn, cancel_turn_enter, reconcile_unknown_enter, resolve_unknown_enter,
    read_diff_enter, subscribe. rewrite Hr, bool_decide_false by tauto. split_and!; try done.
  intros l y' H. destruct (sys_step_flags i l y y' H) as [H1 H2]. tauto.
Qed.

Lemma stopped_session_refuses_commands_witness :
  exists y, sys_run demo_inner [ShutdownEnter] demo_state = Some y /\
    start_turn demo_inner turn2 (mkPrompt "again") (world y) = (world y, Err (new RuntimeStopped)).
Proof.
  destruct (sys_run demo_inner [ShutdownEnter] demo_state) as [y|] eqn:E; [|by vm_compute in E].
  exists y. split; [reflexivity|]. apply (stopped_session_refuses_commands demo_inner y).
  right. vm_compute in E. by injection E as <-.
Defined.

(** The retry delay after failed status reads.  With a configured poll interval it is the interval
    doubled per failure, at most eight times, and capped at a minute; it is never shorter than the
    interval and never decreases with the number of failures. *)
Theorem backoff_bounds base f g (Hb : MIN_POLL_INTERVAL <= base <= MAX_POLL_INTERVAL)
  (Hf : 0 <= f <= g) :
  backoff base f = Z.min (base * 2 ^ Z.min f 8) MAX_BACKOFF /\
  base <= backoff base f <= MAX_BACKOFF /\ backoff base f <= backoff base g.
Proof.
  assert (Hval : forall k, 0 <= k -> backoff base k = Z.min (base * 2 ^ Z.min k 8) MAX_BACKOFF).
  { intros k Hk. unfold backoff. destruct (Z.ltb_spec (Z.min k 8) 32); [|lia].
    rewrite Z.shiftl_mul_pow2, Z.mul_1_l by lia. unfold duration_checked_mul.
    assert (2 ^ Z.min k 8 <= 2 ^ 8) by (apply Z.pow_le_mono_r; lia).
    assert (0 < 2 ^ Z.min k 8) by (apply Z.pow_pos_nonneg; lia).
    assert (Hsmall : base * 2 ^ Z.min k 8 <= MAX_POLL_INTERVAL * 2 ^ 8).
    { unfold MIN_POLL_INTERVAL, from_millis in Hb. nia. }
    assert (MAX_POLL_INTERVAL * 2 ^ 8 <= DURATION_MAX) by (by vm_compute).
    destruct (Z.leb_spec (base * 2 ^ Z.min k 8) DURATION_MAX); [done|lia]. }
  assert (1 <= 2 ^ Z.min f 8) by (rewrite <- (Z.pow_0_r 2); apply Z.pow_le_mono_r; lia).
  assert (2 ^ Z.min f 8 <= 2 ^ Z.min g 8) by (apply Z.pow_le_mono_r; lia).
  assert (0 < base) by (unfold MIN_POLL_INTERVAL, from_millis in Hb; lia).
  assert (MAX_POLL_INTERVAL = MAX_BACKOFF) by done.
  rewrite !Hval by lia. split_and!; [done|nia|lia|].
  apply Z.min_le_compat_r. nia.
Qed.

Lemma backoff_bounds_witness :
  backoff DEFAULT_POLL_INTERVAL 3 = from_secs 16 /\
  backoff DEFAULT_POLL_INTERVAL 3 <= backoff DEFAULT_POLL_INTERVAL 40.
Proof.
  split; [vm_compute; reflexivity|].
  apply (backoff_bounds DEFAULT_POLL_INTERVAL 3 40); [by vm_compute|lia].
Defined.

(** ** Interleavings the runtime does not survive *)


Definition demo_canceled : CloudLifecycle := LCanceledLocally op1 (Some task1) true.


(** C40: a stale status read stops the runtime and strands the next turn.  Whenever the worker comes
    back from a status read and finds the current turn queued (the turn it read was cancelled and another
    accepted meanwhile), it stops the runtime as a lower failure, whatever the read answered: the queued
    turn, which the read was not about, was accepted and is never started, and until a shutdown it stays
    queued whatever is called. *)
Theorem stale_monitor_strands_next_turn i y old failures t now lower y1 :
  reachable i y -> pc y = WMonitoring old failures ->
  worker_stopped (st (world y)) = false -> shutdown_requested (st (world y)) = false ->
  current_turn (st (world y)) = Some t -> projection t = Queued ->
  sys_step i (WorkerMonitorDone now lower) y = Some y1 ->
  turn_id t <> old /\ session_state (st (world y1)) = SStopped /\
  (is_ok (reserve_events (st (world y)) 1) = true -> last_payload y1 = Some (EvRuntimeStopped LowerFailure)) /\
  forall ls y2, sys_run i ls y1 = Some y2 ->
    worker_stopped (st (world y2)) = true /\ turn_id t ∉ starts y2 /\
    (shutdown_requested (st (world y2)) = false ->
     (fun t => (turn_id t, projection t)) <$> current_turn (st (world y2)) = Some (turn_id t, Queued)).
Proof.
  intros Hr Hpc Hs Hsd Et Hq Hstep. destruct (reachable_TurnInv _ _ Hr) as [_ Hcur _ Hturn _ _ _ _].
  assert (Hne : turn_id t <> old). { intros E. destruct (Hturn old) as [_ Hn]; [by rewrite Hpc|]. by apply (Hn t Et E). }
  assert (Hnot : turn_id t ∉ starts y) by (destruct (Hcur t Et) as (_ & Ha & Hb); auto).
  simpl in Hstep. unfold worker_step in Hstep. rewrite Hpc in Hstep.
  assert (Eh : handle_monitor_result i now old failures lower (world y) = stop_after_lower_failure i old (world y)).
  { unfold handle_monitor_result, current_lifecycle. rewrite Et. simpl. rewrite Hq. simpl. rewrite Hsd.
    destruct lower as [l|e]; [|by destruct (bool_decide _)]. cbv zeta. unfold apply_projected_lifecycle, turn_of. rewrite Et.
    rewrite (bool_decide_false (turn_id t = old)) by done. simpl. by repeat case_match. }
  rewrite Eh in Hstep. injection Hstep as <-. destruct (stop_after_lower_failure_spec i old (world y) Hs) as [[] Hlast].
  assert (Ht1 : current_turn (st (stop_after_lower_failure i old (world y))) = Some t).
  { rewrite sf_turn. unfold on_turn_of, turn_of. by rewrite Et, bool_decide_false by done. }
  split_and!; [done..|]. intros ls y2 Hrun.
  assert (HS : stranded (turn_id t) (starts y) y2).
  { refine (sys_run_keeps (stranded (turn_id t) (starts y)) i ls _ y2 _ Hrun _); [intros ? ? ?; apply stranded_step|].
    constructor; simpl; [done|done|by left|done|]. intros _. rewrite Ht1. simpl. by rewrite Hq. }
  destruct HS. split_and!; [done|congruence|done].
Qed.

(** The status of the first turn is being read; its cancel commits and the next turn is accepted. *)
Definition demo_replaced : list Label :=
  [CancelEnter Operator 9000000000; CancelLower 0 9000000002 (Ok demo_canceled); StartTurn turn2 (mkPrompt "next")].
Definition demo_stale : Sys := default demo_state (sys_run demo_inner demo_replaced demo_polling).
Definition demo_stopped : Sys :=
  default demo_state (sys_step demo_inner (WorkerMonitorDone 9000000003 (Ok (LPending op1 task1))) demo_stale).

Lemma demo_stale_reachable : reachable demo_inner demo_stale.
Proof.
  refine (sys_run_reachable demo_inner (WorkerNext 9000000000 :: demo_replaced) demo_state demo_stale demo_state_reachable _ _);
    [by repeat constructor|vm_compute; reflexivity].
Qed.

Lemma stale_monitor_strands_next_turn_witness :
  last_payload demo_stopped = Some (EvRuntimeStopped LowerFailure) /\ turn2 ∉ starts demo_stopped /\
  (fun t => (turn_id t, projection t)) <$> current_turn (st (world demo_stopped)) = Some (turn2, Queued).
Proof.
  destruct (stale_monitor_strands_next_turn demo_inner demo_stale turn1 0 (mkTurn turn2 Queued false false false) 9000000003
    (Ok (LPending op1 task1)) demo_stopped demo_stale_reachable) as (_ & _ & Hlast & Hrun); try (vm_compute; reflexivity).
  split; [apply Hlast; vm_compute; reflexivity|]. destruct (Hrun [] demo_stopped eq_refl) as (_ & Hs & Hq).
  split; [exact Hs|]. apply Hq. vm_compute. reflexivity.
Defined.

(** cancelling a claimed turn can publish the previous turn's result for it.  The lower cancel
    answers with the terminal lifecycle of the previous operation, since the new submit is not
    recorded yet; the caller commits it to the new turn, which was never submitted. *)
Theorem cancel_publishes_previous_operation :
  exists y, demo_run (Ok (LReady op0 task0))
    [StartTurn turn1 (mkPrompt "prompt"); WorkerNext 1; CancelEnter Operator 2;
     CancelLower 0 3 (Ok (LReady op0 task0))] = Some y /\
  starts y = [] /\ session_state (st (world y)) = SReady /\
  last_payload y = Some (LifecycleChanged (Ready op0 (p0_task_from_cloud task0))) /\
  lifecycle_view (st (world y)) = Some (turn1, Ready op0 (p0_task_from_cloud task0)).
Proof. eexists. split; [vm_compute; reflexivity|]. vm_compute. done. Qed.

(** The event [RuntimeStopped] is not always the last one: a reconciliation that entered before
    the shutdown appends [RecoveryObserved] after it, since its second region does not check that
    the worker still runs. *)
Theorem recovery_observed_after_stop :
  exists y, demo_run (Err (mkLower EOutcomeUnknown (Some op0)))
    [ReconcileEnter Operator; ShutdownEnter; WorkerNext 1;
     ReconcileLower 0 (Ok {| rc_operation_id := op0; rc_task_ids := []; rc_complete := true |})] = Some y /\
  worker_stopped (st (world y)) = true /\ pc y = WExited /\
  map ev_payload (log (world y)) = [EvRuntimeStopped Shutdown; RecoveryObserved Operator op0 [] true].
Proof. eexists. split; [vm_compute; reflexivity|]. vm_compute. done. Qed.

(** A stopped runtime can leave the published state [Stopped]: the result of a start whose turn was
    replaced meanwhile writes [RecoveryRequired] before it is found to be stale. *)
Theorem stopped_state_overwritten :
  exists y, demo_run (Ok (LReady op0 task0))
    [StartTurn turn1 (mkPrompt "prompt"); WorkerNext 1; WorkerAdmit; CancelEnter Operator 2;
     CancelLower 0 3 (Ok (LReady op0 task0)); StartTurn turn2 (mkPrompt "next"); ShutdownEnter;
     WorkerStartDone 4 (Ok (LOutcomeUnknown op1))] = Some y /\
  worker_stopped (st (world y)) = true /\ session_state (st (world y)) = SRecoveryRequired.
Proof. eexists. split; [vm_compute; reflexivity|]. vm_compute. done. Qed.
