(* ===== verification/LifecycleLedger.v ===== *)
(** * The durable local lifecycle record

    Models the value part of [crates/codebox-agent-codex/src/cloud_lifecycle_ledger.rs]: the phases,
    the ledger, every recording operation and the validator run before each write and after each
    read.  A recording operation takes [&mut self]: it returns the new ledger; every failing
    branch leaves the ledger as it was.  Files and JSON are modelled in the clients. *)
From S2P Require Import Prelude DomainValues CloudTypes SessionTypes SessionRuntime.
From stdpp Require Import base numbers list strings.
From Stdlib Require Import ZArith Lia.
Import Ids.

Open Scope Z_scope.

Definition CLOUD_LIFECYCLE_SCHEMA_VERSION : Z := 1.
Definition MAX_LIFECYCLE_HISTORY : Z := 32.
Definition MAX_RECONCILIATION_CANDIDATES : Z := 100.

Module Life.

Inductive CloudLifecyclePhase :=
| Submitting | FailedBeforeSubmit | OutcomeUnknown | Pending | Ready | Applied | ProviderError
| CanceledLocally (provider_may_continue : bool)
| AbandonedUnknown.

#[export] Instance CloudLifecyclePhase_eq_dec : EqDecision CloudLifecyclePhase.
Proof. solve_decision. Defined.

Definition is_terminal (p : CloudLifecyclePhase) : bool :=
  match p with
  | FailedBeforeSubmit | Ready | Applied | ProviderError | CanceledLocally _ | AbandonedUnknown => true
  | _ => false
  end.

Record CloudLifecycleLedger := mkLedger {
  schema_version : Z;
  operation_id : CloudSubmitOperationId;
  phase : CloudLifecyclePhase;
  task_id : option string;
  reconciliation_generation : Z;
  candidate_task_ids : list string;
  reconciliation_complete : option bool;
  history : list CloudLifecyclePhase }.

Definition invalid_ledger : CloudLifecycleError := life_err ELedgerInvalid.
Definition unavailable_ledger : CloudLifecycleError := life_err ELedgerUnavailable.

Definition submitting (op : CloudSubmitOperationId) : CloudLifecycleLedger :=
  mkLedger CLOUD_LIFECYCLE_SCHEMA_VERSION op Submitting None 0 [] None [Submitting].

Definition valid_transition (from to : CloudLifecyclePhase) : bool :=
  match from with
  | Submitting =>
      match to with
      | FailedBeforeSubmit | Pending | OutcomeUnknown | CanceledLocally false => true
      | _ => false
      end
  | Pending =>
      match to with
      | Pending | Ready | Applied | ProviderError | CanceledLocally true => true
      | _ => false
      end
  | OutcomeUnknown =>
      match to with
      | OutcomeUnknown | Pending | Ready | Applied | ProviderError | AbandonedUnknown => true
      | _ => false
      end
  | FailedBeforeSubmit | Ready | Applied | ProviderError | CanceledLocally _ | AbandonedUnknown =>
      false
  end.

Definition phase_for_status (s : CloudTaskStatus) : CloudLifecyclePhase :=
  match s with TPending => Pending | TReady => Ready | TApplied => Applied | TError => ProviderError end.

(** [fn task_id]. *)
Definition get_task_id (l : CloudLifecycleLedger) : result CloudLifecycleError (option CloudTaskId) :=
  map_err (fun _ => invalid_ledger) (transpose (CloudTaskId_try_new <$> task_id l)).

Definition lifecycle (l : CloudLifecycleLedger) : result CloudLifecycleError CloudLifecycle :=
  let op := operation_id l in
  let? t := get_task_id l in
  match phase l with
  | Submitting => Ok (LSubmitting op)
  | FailedBeforeSubmit => Ok (LFailedBeforeSubmit op)
  | OutcomeUnknown => Ok (LOutcomeUnknown op)
  | Pending => let? t := ok_or t invalid_ledger in Ok (LPending op t)
  | Ready => let? t := ok_or t invalid_ledger in Ok (LReady op t)
  | Applied => let? t := ok_or t invalid_ledger in Ok (LApplied op t)
  | ProviderError => let? t := ok_or t invalid_ledger in Ok (LProviderError op t)
  | CanceledLocally m => Ok (LCanceledLocally op t m)
  | AbandonedUnknown => Ok (LAbandonedUnknown op)
  end.

(** ** Recording *)

Definition append (p : CloudLifecyclePhase) (l : CloudLifecycleLedger)
  : result CloudLifecycleError CloudLifecycleLedger :=
  if (MAX_LIFECYCLE_HISTORY <=? len (history l)) || negb (valid_transition (phase l) p) then
    Err invalid_ledger
  else Ok (mkLedger (schema_version l) (operation_id l) p (task_id l) (reconciliation_generation l)
             (candidate_task_ids l) (reconciliation_complete l) (history l ++ [p])).

Definition record_failed_before_submit := append FailedBeforeSubmit.
Definition record_outcome_unknown := append OutcomeUnknown.
Definition record_abandoned_unknown := append AbandonedUnknown.

Definition record_status (t : CloudTaskId) (s : CloudTaskStatus) (l : CloudLifecycleLedger)
  : result CloudLifecycleError CloudLifecycleLedger :=
  if match task_id l with Some current => bool_decide (current <> task_str t) | None => false end then
    Err invalid_ledger
  else
  let p := phase_for_status s in
  if bool_decide (phase l = Pending) && bool_decide (p = Pending)
     && bool_decide (task_id l = Some (task_str t))
  then Ok l
  else
  let? l := append p l in
  Ok (mkLedger (schema_version l) (operation_id l) (phase l) (Some (task_str t))
        (reconciliation_generation l) (candidate_task_ids l) (reconciliation_complete l) (history l)).

Definition record_canceled_without_task (l : CloudLifecycleLedger)
  : result CloudLifecycleError CloudLifecycleLedger :=
  match task_id l with Some _ => Err invalid_ledger | None => append (CanceledLocally false) l end.

Definition record_canceled_with_task (l : CloudLifecycleLedger)
  : result CloudLifecycleError CloudLifecycleLedger :=
  match task_id l with None => Err invalid_ledger | Some _ => append (CanceledLocally true) l end.

Definition record_reconciliation (ts : list CloudTaskId) (complete : bool) (l : CloudLifecycleLedger)
  : result CloudLifecycleError CloudLifecycleLedger :=
  if bool_decide (phase l <> OutcomeUnknown) || (MAX_RECONCILIATION_CANDIDATES <? len ts) then
    Err invalid_ledger
  else if has_duplicate [] (map task_str ts) then Err invalid_ledger
  else
  let? g := ok_or (u64_checked_add (reconciliation_generation l) 1) invalid_ledger in
  Ok (mkLedger (schema_version l) (operation_id l) (phase l) (task_id l) g (map task_str ts)
        (Some complete) (history l)).

Definition has_candidate (t : CloudTaskId) (l : CloudLifecycleLedger) : bool :=
  existsb (fun c => bool_decide (c = task_str t)) (candidate_task_ids l).

(** ** Validation *)

Definition requires_task (p : CloudLifecyclePhase) : bool :=
  match p with Pending | Ready | Applied | ProviderError | CanceledLocally true => true | _ => false end.

Definition validate (l : CloudLifecycleLedger) : result CloudLifecycleError unit :=
  if bool_decide (schema_version l <> CLOUD_LIFECYCLE_SCHEMA_VERSION)
     || is_nil (op_uuid (operation_id l))
     || bool_decide (history l = [])
     || (MAX_LIFECYCLE_HISTORY <? len (history l))
     || bool_decide (head (history l) <> Some Submitting)
     || bool_decide (last (history l) <> Some (phase l))
     || negb (chain valid_transition (history l))
  then Err invalid_ledger
  else
  let? t := get_task_id l in
  if bool_decide (requires_task (phase l) <> bool_decide (is_Some t))
     || bool_decide (phase l = CanceledLocally false) && bool_decide (is_Some t)
  then Err invalid_ledger
  else if MAX_RECONCILIATION_CANDIDATES <? len (candidate_task_ids l) then Err invalid_ledger
  else
  let? _ := check_candidates invalid_ledger [] (candidate_task_ids l) in
  if reconciliation_generation l =? 0 then
    if bool_decide (is_Some (reconciliation_complete l)) || negb (bool_decide (candidate_task_ids l = []))
    then Err invalid_ledger else Ok tt
  else if bool_decide (reconciliation_complete l = None)
          || negb (bool_decide (OutcomeUnknown ∈ history l))
  then Err invalid_ledger
  else Ok tt.

(** ** What the validator accepts *)

Record WF (l : CloudLifecycleLedger) : Prop := {
  wf_schema : schema_version l = CLOUD_LIFECYCLE_SCHEMA_VERSION;
  wf_op : is_nil (op_uuid (operation_id l)) = false;
  wf_len : len (history l) <= MAX_LIFECYCLE_HISTORY;
  wf_head : head (history l) = Some Submitting;
  wf_last : last (history l) = Some (phase l);
  wf_chain : chain valid_transition (history l) = true;
  wf_task : match task_id l with
            | Some s => requires_task (phase l) = true /\ valid_task (mkTask s)
            | None => requires_task (phase l) = false
            end;
  wf_candidates : len (candidate_task_ids l) <= MAX_RECONCILIATION_CANDIDATES;
  wf_candidates_valid : Forall (fun c => valid_task (mkTask c)) (candidate_task_ids l);
  wf_candidates_nodup : NoDup (candidate_task_ids l);
  wf_generation : if reconciliation_generation l =? 0
    then reconciliation_complete l = None /\ candidate_task_ids l = []
    else is_Some (reconciliation_complete l) /\ OutcomeUnknown ∈ history l }.

Lemma get_task_id_Ok l t :
  get_task_id l = Ok t <->
  match task_id l with Some s => t = Some (mkTask s) /\ valid_task (mkTask s) | None => t = None end.
Proof.
  unfold get_task_id. destruct (task_id l) as [s|]; simpl; [|naive_solver].
  destruct (CloudTaskId_try_new s) as [t'|] eqn:E; simpl.
  - destruct (CloudTaskId_try_new_Ok _ _ E) as [-> ?]. naive_solver.
  - split; [done|]. intros [_ Hv]. unfold valid_task in Hv. simpl in Hv. congruence.
Qed.

Lemma validate_iff l : validate l = Ok tt <-> WF l.
Proof.
  assert (Hreq : forall t, get_task_id l = Ok t ->
    (bool_decide (requires_task (phase l) <> bool_decide (is_Some t))
     || bool_decide (phase l = CanceledLocally false) && bool_decide (is_Some t) = false <->
     match task_id l with
     | Some s => requires_task (phase l) = true /\ valid_task (mkTask s)
     | None => requires_task (phase l) = false
     end)).
  { intros t Et%get_task_id_Ok. destruct (task_id l) as [s|]; [destruct Et as [-> Hv]|subst t];
      destruct (phase l) as [| | | | | | |[]|]; vm_compute; naive_solver. }
  assert (Hgen : forall g : bool, (if g then
      if bool_decide (is_Some (reconciliation_complete l)) || negb (bool_decide (candidate_task_ids l = []))
      then Err invalid_ledger else Ok tt
    else if bool_decide (reconciliation_complete l = None)
            || negb (bool_decide (OutcomeUnknown ∈ history l)) then Err invalid_ledger else Ok tt) = Ok tt <->
    if g then reconciliation_complete l = None /\ candidate_task_ids l = []
    else is_Some (reconciliation_complete l) /\ OutcomeUnknown ∈ history l).
  { intros []; destruct (reconciliation_complete l); repeat case_bool_decide; simpl; naive_solver. }
  unfold validate. split.
  - destruct (bool_decide (schema_version l <> _) || _ || _ || _ || _ || _ || _) eqn:E1; [done|].
    destruct (get_task_id l) as [t|] eqn:Et; [|done].
    destruct (bool_decide (requires_task _ <> _) || _) eqn:E2; [done|]. apply (Hreq t eq_refl) in E2.
    destruct (_ <? len (candidate_task_ids l)) eqn:E3; [done|].
    destruct (check_candidates _ _ _) as [[]|] eqn:E4; [|done]. apply check_candidates_Ok in E4 as (? & ? & _).
    rewrite Hgen. intros E5. bool_to_prop. constructor; try done; by apply dec_stable.
  - intros []. rewrite wf_schema0, wf_op0, wf_head0, wf_last0, wf_chain0.
    assert (Ht : exists t, get_task_id l = Ok t).
    { destruct (task_id l) as [s|] eqn:Es; eexists; apply get_task_id_Ok; rewrite Es; [|done].
      split; [done|]. by destruct wf_task0. }
    destruct Ht as [t Et]. rewrite Et, (proj2 (Hreq t Et) wf_task0).
    rewrite (proj2 (Z.ltb_ge _ _) wf_len0), (proj2 (Z.ltb_ge _ _) wf_candidates0).
    rewrite (proj2 (check_candidates_Ok _ _ [])) by (split_and!; [done..|by intros ? ? ?%not_elem_of_nil]).
    destruct (bool_decide (history l = [])) eqn:Eh; [bool_to_prop; by rewrite Eh in wf_head0|].
    rewrite !(bool_decide_false (_ <> _)) by tauto. simpl. by apply Hgen.
Qed.

(** ** Every recording keeps the record valid *)

Lemma append_Ok p l l' :
  append p l = Ok l' <->
  len (history l) < MAX_LIFECYCLE_HISTORY /\ valid_transition (phase l) p = true /\
  l' = mkLedger (schema_version l) (operation_id l) p (task_id l) (reconciliation_generation l)
         (candidate_task_ids l) (reconciliation_complete l) (history l ++ [p]).
Proof.
  unfold append. destruct (Z.leb_spec MAX_LIFECYCLE_HISTORY (len (history l))); simpl.
  - split; [done|]. lia.
  - destruct (valid_transition _ _); simpl; naive_solver.
Qed.

(** Appending a phase, with the task the new phase asks for. *)
Lemma append_WF p t l :
  WF l -> len (history l) < MAX_LIFECYCLE_HISTORY -> valid_transition (phase l) p = true ->
  match t with
  | Some s => requires_task p = true /\ valid_task (mkTask s)
  | None => requires_task p = false
  end ->
  WF (mkLedger (schema_version l) (operation_id l) p t (reconciliation_generation l)
        (candidate_task_ids l) (reconciliation_complete l) (history l ++ [p])).
Proof.
  intros [] Hl Hv Ht. constructor; simpl; try done.
  - unfold len in *. rewrite length_app. simpl. lia.
  - by destruct (history l).
  - by rewrite last_snoc.
  - by rewrite (chain_snoc _ _ (phase l)), wf_chain0, Hv.
  - destruct (_ =? 0); [done|]. rewrite elem_of_app. tauto.
Qed.

Lemma submitting_WF op : is_nil (op_uuid op) = false -> WF (submitting op).
Proof. intros. constructor; simpl; try done. apply NoDup_nil_2. Qed.

(** The recording operations, as data. *)
Inductive LedgerOp :=
| RecordFailedBeforeSubmit | RecordOutcomeUnknown
| RecordStatus (t : CloudTaskId) (s : CloudTaskStatus)
| RecordCanceledWithoutTask | RecordCanceledWithTask | RecordAbandonedUnknown
| RecordReconciliation (ts : list CloudTaskId) (complete : bool).

Definition apply_op (o : LedgerOp) (l : CloudLifecycleLedger)
  : result CloudLifecycleError CloudLifecycleLedger :=
  match o with
  | RecordFailedBeforeSubmit => record_failed_before_submit l
  | RecordOutcomeUnknown => record_outcome_unknown l
  | RecordStatus t s => record_status t s l
  | RecordCanceledWithoutTask => record_canceled_without_task l
  | RecordCanceledWithTask => record_canceled_with_task l
  | RecordAbandonedUnknown => record_abandoned_unknown l
  | RecordReconciliation ts c => record_reconciliation ts c l
  end.

(** The task identities an operation is given come from their validating constructor. *)
Definition op_valid (o : LedgerOp) : Prop :=
  match o with
  | RecordStatus t _ => valid_task t
  | RecordReconciliation ts _ => Forall valid_task ts
  | _ => True
  end.

Lemma requires_task_status s : requires_task (phase_for_status s) = true.
Proof. by destruct s. Qed.

Lemma record_status_WF t s l l' :
  valid_task t -> WF l -> record_status t s l = Ok l' ->
  WF l' /\ operation_id l' = operation_id l /\ task_id l' = Some (task_str t) /\
  phase l' = phase_for_status s /\ (phase l' = phase l \/ valid_transition (phase l) (phase l') = true) /\
  (forall x, task_id l = Some x -> x = task_str t).
Proof.
  intros Hv HW. unfold record_status. destruct (match task_id l with Some _ => _ | None => _ end) eqn:E1; [done|].
  assert (Hsame : forall x, task_id l = Some x -> x = task_str t).
  { intros x Ex. rewrite Ex in E1. bool_to_prop. by apply dec_stable. }
  destruct (_ && _) eqn:E2.
  - bool_to_prop. intros [= <-]. split_and!; try done; [congruence|by left].
  - destruct (append _ l) as [l1|] eqn:Ea; [|done]. apply append_Ok in Ea as (Hl & Ht & ->).
    intros [= <-]. simpl. split_and!; try done; [|by right].
    apply append_WF; [done..|]. split; [apply requires_task_status|by destruct t].
Qed.

Lemma record_reconciliation_WF ts c l l' :
  Forall valid_task ts -> WF l -> 0 <= reconciliation_generation l ->
  record_reconciliation ts c l = Ok l' ->
  WF l' /\ operation_id l' = operation_id l /\ phase l = OutcomeUnknown /\ phase l' = OutcomeUnknown /\
  task_id l' = task_id l /\ reconciliation_generation l' = reconciliation_generation l + 1 /\
  candidate_task_ids l' = map task_str ts /\ reconciliation_complete l' = Some c.
Proof.
  intros Hts [] Hg. unfold record_reconciliation. destruct (_ || _) eqn:E1; [done|].
  destruct (has_duplicate _ _) eqn:E2; [done|]. apply has_duplicate_spec in E2 as [Hnd _].
  destruct (u64_checked_add _ _) as [g|] eqn:E3; [|done]. apply u64_checked_add_Some in E3 as [-> _].
  intros [= <-]. bool_to_prop. assert (Hp : phase l = OutcomeUnknown) by (by apply dec_stable).
  simpl. split_and!; try done. constructor; simpl; try done.
  - unfold len in *. by rewrite length_map.
  - by apply map_task_str_valid.
  - rewrite (proj2 (Z.eqb_neq _ _)) by lia. split; [done|]. rewrite Hp in wf_last0.
    by apply last_Some_elem_of.
Qed.

(** What one recording does: it keeps the record well-formed, never changes its operation, and the
    phase stays or takes a valid transition (reconciliation stays). *)
Lemma apply_op_WF o l l' :
  op_valid o -> WF l -> 0 <= reconciliation_generation l -> apply_op o l = Ok l' ->
  WF l' /\ operation_id l' = operation_id l /\
  ((phase l' = phase l /\ task_id l' = task_id l) \/
   (valid_transition (phase l) (phase l') = true /\
    match task_id l with Some x => task_id l' = Some x | None => True end)).
Proof.
  intros Ho HW Hg H. pose proof HW as [].
  assert (Happ : forall p, requires_task p = match task_id l with Some _ => true | None => false end ->
    append p l = Ok l' -> WF l' /\ operation_id l' = operation_id l /\
    ((phase l' = phase l /\ task_id l' = task_id l) \/ valid_transition (phase l) (phase l') = true /\
    match task_id l with Some x => task_id l' = Some x | None => True end)).
  { intros p Hp (Hl & Ht & ->)%append_Ok. simpl. split_and!; [|done|right; by destruct (task_id l)].
    apply append_WF; [done..|]. destruct (task_id l); [|done]. by destruct wf_task0. }
  assert (Hno : forall p, requires_task p = false -> append p l = Ok l' -> task_id l = None).
  { intros p Hp (Hl & Ht & ->)%append_Ok. destruct (task_id l); [|done]. destruct wf_task0 as [Hr _].
    by destruct (phase l) as [| | | | | | |[]|], p as [| | | | | | |[]|]. }
  destruct o; simpl in *.
  - apply (Happ FailedBeforeSubmit); [|done]. by rewrite (Hno FailedBeforeSubmit eq_refl H).
  - apply (Happ OutcomeUnknown); [|done]. by rewrite (Hno OutcomeUnknown eq_refl H).
  - destruct (record_status_WF _ _ _ _ Ho HW H) as (HW' & Hop & Ht & Hph & Htr & Hsame).
    split_and!; [done..|]. destruct Htr as [E|Htr].
    + destruct (task_id l) as [x|] eqn:Ex.
      * left. split; [done|]. by rewrite Ht, (Hsame x).
      * exfalso. rewrite <- E, Hph, requires_task_status in wf_task0. done.
    + right. split; [done|]. destruct (task_id l) as [x|]; [|done]. by rewrite Ht, (Hsame x).
  - unfold record_canceled_without_task in H. destruct (task_id l) eqn:Et; [done|]. by apply (Happ (CanceledLocally false)).
  - unfold record_canceled_with_task in H. destruct (task_id l) eqn:Et; [|done]. by apply (Happ (CanceledLocally true)).
  - apply (Happ AbandonedUnknown); [|done]. by rewrite (Hno AbandonedUnknown eq_refl H).
  - destruct (record_reconciliation_WF _ _ _ _ Ho HW Hg H) as (? & ? & E & E' & ? & _).
    split_and!; [done..|]. left. by rewrite E, E'.
Qed.

(** The published lifecycle of a well-formed record exists, and carries its operation and task. *)
Lemma lifecycle_total l :
  WF l -> exists c, lifecycle l = Ok c /\ lifecycle_operation_id c = operation_id l /\
    lifecycle_task_id c = mkTask <$> task_id l /\
    SessionTypes.is_terminal (from_cloud c) = is_terminal (phase l) /\
    SessionTypes.is_pending (from_cloud c) = bool_decide (phase l = Pending).
Proof.
  intros []. unfold lifecycle.
  assert (Et : get_task_id l = Ok (mkTask <$> task_id l)).
  { apply get_task_id_Ok. destruct (task_id l); [|done]. split; [done|]. by destruct wf_task0. }
  rewrite Et. destruct (phase l) as [| | | | | | |m|] eqn:Ep; destruct (task_id l) as [x|] eqn:Ex;
    simpl in *; try done; try (by destruct wf_task0); eexists; (split; [reflexivity|]); done.
Qed.

Definition sample_op : CloudSubmitOperationId := mkOp 201.
Definition sample_task : CloudTaskId := mkTask "task_1".
Definition sample_ledger : CloudLifecycleLedger := submitting sample_op.

(** Whatever is recorded keeps the durable record valid: from a record the validator accepts, any
    recording that succeeds yields one it accepts again (so what is written can be read back),
    for the same operation. *)
Theorem lifecycle_recording_stays_valid o l l' (Ho : op_valid o)
  (Hg : 0 <= reconciliation_generation l) (Hl : validate l = Ok tt) (H : apply_op o l = Ok l') :
  validate l' = Ok tt /\ operation_id l' = operation_id l.
Proof.
  apply validate_iff in Hl. destruct (apply_op_WF o l l' Ho Hl Hg H) as (HW & Hop & _).
  split; [by apply validate_iff|done].
Qed.

Lemma lifecycle_recording_stays_valid_witness :
  exists l', apply_op (RecordStatus sample_task TPending) sample_ledger = Ok l' /\ validate l' = Ok tt.
Proof.
  destruct (apply_op (RecordStatus sample_task TPending) sample_ledger) as [l'|] eqn:E;
    [|by vm_compute in E].
  exists l'. split; [reflexivity|].
  by refine (proj1 (lifecycle_recording_stays_valid (RecordStatus sample_task TPending)
                      sample_ledger l' _ _ _ E)).
Defined.

(** The layers agree on what may follow what.  Once the submission is over, every recording on a
    valid durable record changes the published lifecycle, read through the session's projection,
    only along a transition the session runtime allows. *)
Theorem ledger_transitions_are_session_transitions o l l' c c' (Ho : op_valid o)
  (Hg : 0 <= reconciliation_generation l) (Hl : validate l = Ok tt) (H : apply_op o l = Ok l')
  (Hs : phase l <> Submitting) (Hc : lifecycle l = Ok c) (Hc' : lifecycle l' = Ok c') :
  p0_operation_id (from_cloud c') = p0_operation_id (from_cloud c) /\
  lifecycle_transition_allowed (from_cloud c) (from_cloud c') = true.
Proof.
  apply validate_iff in Hl. destruct (apply_op_WF o l l' Ho Hl Hg H) as (HW & Hop & Hph).
  rewrite !from_cloud_operation. unfold lifecycle in Hc, Hc'.
  destruct (get_task_id l) as [t|] eqn:Et; [|done]. destruct (get_task_id l') as [t'|] eqn:Et'; [|done].
  apply get_task_id_Ok in Et, Et'. rewrite Hop in Hc'.
  destruct Hph as [[Ep Eid]|[Htr Eid]].
  - rewrite Ep in Hc'. rewrite Eid in Et'. assert (t' = t) as -> by (destruct (task_id l); naive_solver).
    assert (c' = c) as -> by congruence. split; [done|].
    unfold lifecycle_transition_allowed. by rewrite bool_decide_true.
  - assert (Htt : forall x, t = Some x -> t' = Some x).
    { intros x ->. destruct (task_id l) as [s|]; [|done]. rewrite Eid in Et'. naive_solver. }
    destruct t as [x|]; [rewrite (Htt x eq_refl) in Hc'|destruct t' as [x|]];
      destruct (phase l) as [| | | | | | |[]|], (phase l') as [| | | | | | |[]|]; try done;
      simpl in Hc, Hc'; simplify_eq; (split; [done|]); unfold lifecycle_transition_allowed; simpl;
      try case_bool_decide; try done; by rewrite bool_decide_true.
Qed.

Definition sample_pending : CloudLifecycleLedger :=
  unwrap_or (record_status sample_task TPending sample_ledger) sample_ledger.
Definition sample_canceled : CloudLifecycleLedger :=
  unwrap_or (record_canceled_with_task sample_pending) sample_ledger.

Lemma ledger_transitions_are_session_transitions_witness :
  lifecycle_transition_allowed
    (from_cloud (LPending sample_op sample_task))
    (from_cloud (LCanceledLocally sample_op (Some sample_task) true)) = true.
Proof.
  refine (proj2 (ledger_transitions_are_session_transitions RecordCanceledWithTask sample_pending
    sample_canceled _ _ I _ _ _ _ _ _)); vm_compute; done.
Defined.

End Life.
