(* ===== verification/CloudAdapter.v ===== *)
(** * The pinned Cloud CLI contract: validated values, argv policy, decoders

    Models [crates/codebox-agent-codex/src/cloud.rs].  A [str] or a captured stream is its bytes.
    [serde_json] is not part of the sources: decoding a task list takes the raw page it parsed, as
    the deserialized struct [RawTaskListPage] whose untyped fields are [Value]s. *)
From S2P Require Import Prelude DomainValues CloudTypes.
From stdpp Require Import base numbers list strings sets.
From Stdlib Require Import ZArith Lia.
Import Ids Str.

Open Scope Z_scope.

Definition MAX_STANDARD_CAPTURE_BYTES : Z := 64 * 1024.
Definition MAX_DIFF_BYTES : Z := 2 * 1024 * 1024.
Definition MAX_ENVIRONMENT_BYTES : Z := 256.
Definition MAX_BRANCH_BYTES : Z := 255.
Definition MAX_PROMPT_BYTES : Z := 65536.
Definition MAX_CURSOR_BYTES : Z := 2048.
Definition MAX_TITLE_BYTES : Z := 4096.
Definition MAX_TASKS : Z := 20.
Definition MAX_FILES_CHANGED : Z := 1000000.
Definition MAX_CHANGED_LINES : Z := 1000000000.
Definition TASK_URL_PREFIX : string := "https://chatgpt.com/codex/tasks/".
(** [PINNED_CODEX_VERSION_STDOUT] (parser.rs). *)
Definition lf : string := String (Ascii.ascii_of_nat 10) "".
Definition PINNED_CODEX_VERSION_STDOUT : string := "codex-cli 0.145.0" +:+ lf.

(** ** Text: what the source uses of [str] *)

Definition ch (n : nat) : Ascii.ascii := Ascii.ascii_of_nat n.

Fixpoint strip_prefix (p s : string) : option string :=
  match p, s with
  | EmptyString, _ => Some s
  | String a p', String b s' => if Ascii.eqb a b then strip_prefix p' s' else None
  | String _ _, EmptyString => None
  end.

Fixpoint srev (s acc : string) : string :=
  match s with EmptyString => acc | String c rest => srev rest (String c acc) end.
Definition rev_string (s : string) : string := srev s "".

(** [str::strip_suffix('\n')]. *)
Definition strip_lf (s : string) : option string :=
  match rev_string s with
  | String c rest => if Ascii.eqb c (ch 10) then Some (rev_string rest) else None
  | EmptyString => None
  end.

(** [str::split_once(sep)] at the first occurrence. *)
Fixpoint split_once (sep s : string) : option (string * string) :=
  match strip_prefix sep s with
  | Some rest => Some ("", rest)
  | None =>
      match s with
      | EmptyString => None
      | String c rest =>
          match split_once sep rest with
          | Some (a, b) => Some (String c a, b)
          | None => None
          end
      end
  end.

Definition contains_str (sep s : string) : bool :=
  match split_once sep s with Some _ => true | None => false end.

(** [replace("\r\n", "\n")]. *)
Fixpoint replace_crlf (s : string) : string :=
  match s with
  | EmptyString => EmptyString
  | String c rest =>
      match rest with
      | String d rest' =>
          if Ascii.eqb c (ch 13) && Ascii.eqb d (ch 10)
          then String d (replace_crlf rest') else String c (replace_crlf rest)
      | EmptyString => String c EmptyString
      end
  end.

(** The UTF-8 encodings of the characters with the White_Space property. *)
Definition whitespace_encodings : list string :=
  map (fun n => String (ch n) "") [9; 10; 11; 12; 13; 32]%nat ++
  map (fun bs => fold_right (fun b acc => String (ch b) acc) "" bs)
    ([[194; 133]; [194; 160]; [225; 154; 128]; [226; 128; 168]; [226; 128; 169]; [226; 128; 175];
      [226; 129; 159]; [227; 128; 128]]%nat
     ++ map (fun n => [226; 128; n]%nat)
          [128; 129; 130; 131; 132; 133; 134; 135; 136; 137; 138]%nat).

Definition strip_any (encodings : list string) (s : string) : option string :=
  foldl (fun acc e => match acc with Some _ => acc | None => strip_prefix e s end) None encodings.

(** Drop leading characters of the given encodings; [fuel] bounds their number, which the length of
    the text does too. *)
Fixpoint strip_leading (encodings : list string) (fuel : nat) (s : string) : string :=
  match fuel with
  | O => s
  | S fuel =>
      match strip_any encodings s with Some rest => strip_leading encodings fuel rest | None => s end
  end.

Definition trim_start (s : string) : string := strip_leading whitespace_encodings (String.length s) s.
Definition trim_end (s : string) : string :=
  rev_string (strip_leading (map rev_string whitespace_encodings) (String.length s) (rev_string s)).
(** [str::trim]. *)
Definition trim (s : string) : string := trim_end (trim_start s).

(** [chars().any(char::is_control)], but for line feeds when [allow_lf]. *)
Fixpoint has_control (allow_lf : bool) (s : string) : bool :=
  match s with
  | EmptyString => false
  | String c rest =>
      (is_ascii_control c && negb (allow_lf && Ascii.eqb c (ch 10)))
      || match rest with
         | String d _ => (byte c =? 194) && in_range 128 159 (byte d)
         | EmptyString => false
         end
      || has_control allow_lf rest
  end.

(** Whether bytes are UTF-8 (Unicode table 3-7). *)
Definition cont (c : Ascii.ascii) : bool := in_range 128 191 (byte c).
Fixpoint utf8_valid (s : string) : bool :=
  match s with
  | EmptyString => true
  | String a s1 =>
      let n := byte a in
      if n <? 128 then utf8_valid s1
      else if in_range 194 223 n then
        match s1 with String b s2 => cont b && utf8_valid s2 | _ => false end
      else if in_range 224 239 n then
        match s1 with
        | String b (String c s3) =>
            (if n =? 224 then in_range 160 191 (byte b)
             else if n =? 237 then in_range 128 159 (byte b) else cont b)
            && cont c && utf8_valid s3
        | _ => false
        end
      else if in_range 240 244 n then
        match s1 with
        | String b (String c (String d s4)) =>
            (if n =? 240 then in_range 144 191 (byte b)
             else if n =? 244 then in_range 128 143 (byte b) else cont b)
            && cont c && cont d && utf8_valid s4
        | _ => false
        end
      else false
  end.

(** ** Validated values *)

Definition adapter_error := mkAdapterError.
Definition provider_drift (f : CloudField) : CloudAdapterError := mkAdapterError f CProviderDrift.

Definition validate_bounded_plain (value : string) (field : CloudField) (max_bytes : Z)
    (reject_leading_hyphen : bool) : result CloudAdapterError unit :=
  if bool_decide (value = "") then Err (mkAdapterError field CEmpty)
  else if max_bytes <? slen value then Err (mkAdapterError field CTooLong)
  else if reject_leading_hyphen && starts_with_char (ch 45) value then
    Err (mkAdapterError field CLeadingHyphen)
  else if any_byte is_ascii_control value then Err (mkAdapterError field CControlCharacter)
  else Ok tt.

Record CloudEnvironmentId := mkEnvironment { env_str : string }.
Record CloudBranch := mkBranch { branch_str : string }.
Record CloudCursor := mkCursor { cursor_str : string }.
Record CloudTaskUrl := mkUrl { url_str : string; url_task_id : CloudTaskId }.
Record CloudDiff := mkDiff { diff_str : string }.

#[export] Instance CloudEnvironmentId_eq_dec : EqDecision CloudEnvironmentId.
Proof. solve_decision. Defined.
#[export] Instance CloudBranch_eq_dec : EqDecision CloudBranch.
Proof. solve_decision. Defined.
#[export] Instance CloudCursor_eq_dec : EqDecision CloudCursor.
Proof. solve_decision. Defined.

Definition CloudEnvironmentId_try_new (value : string) : result CloudAdapterError CloudEnvironmentId :=
  let value := trim value in
  let? _ := validate_bounded_plain value FEnvironment MAX_ENVIRONMENT_BYTES true in
  Ok (mkEnvironment value).

Definition CloudBranch_try_new (value : string) : result CloudAdapterError CloudBranch :=
  let value := trim value in
  let? _ := validate_bounded_plain value FBranch MAX_BRANCH_BYTES true in
  Ok (mkBranch value).

Definition allowed_control (c : Ascii.ascii) : bool := Ascii.eqb c (ch 10) || Ascii.eqb c (ch 9).

Definition CloudPrompt_try_new (value : string) : result CloudAdapterError CloudPrompt :=
  if bool_decide (value = "") || bool_decide (trim_start value = "") then
    Err (mkAdapterError FPrompt CEmpty)
  else if MAX_PROMPT_BYTES <? slen value then Err (mkAdapterError FPrompt CTooLong)
  else if bool_decide (value = "-") then Err (mkAdapterError FPrompt CReservedValue)
  else if any_byte (fun c => is_ascii_control c && negb (allowed_control c)) value then
    Err (mkAdapterError FPrompt CControlCharacter)
  else Ok (mkPrompt value).

Definition CloudTaskUrl_try_new (value : string) : result CloudAdapterError CloudTaskUrl :=
  let? task := ok_or (strip_prefix TASK_URL_PREFIX value) (mkAdapterError FTaskUrl CInvalidFormat) in
  let? task := map_err (fun _ => mkAdapterError FTaskUrl CInvalidFormat) (CloudTaskId_try_new task) in
  Ok (mkUrl value task).

Definition CloudCursor_try_new (value : string) : result CloudAdapterError CloudCursor :=
  let? _ := validate_bounded_plain value FCursor MAX_CURSOR_BYTES false in
  Ok (mkCursor value).

(** ** Captures and the argv policy *)

Record CloudCapture := mkCapture {
  stdout : string;
  stderr : string;
  stdout_overflow : bool;
  stderr_overflow : bool;
  exit_code : option Z }.

Inductive CloudInvocationKind := KVersion | KExec | KStatus | KList | KDiff.
Record CloudInvocation := mkInvocation { inv_kind : CloudInvocationKind; inv_args : list string }.

Definition inv_version : CloudInvocation := mkInvocation KVersion ["--version"].

Definition inv_exec (e : CloudEnvironmentId) (b : CloudBranch) (p : CloudPrompt) : CloudInvocation :=
  mkInvocation KExec
    ["cloud"; "exec"; "--env=" +:+ env_str e; "--attempts=1"; "--branch=" +:+ branch_str b; "--";
     prompt_str p].

Definition inv_status (t : CloudTaskId) : CloudInvocation :=
  mkInvocation KStatus ["cloud"; "status"; task_str t].

Definition inv_list (e : CloudEnvironmentId) (cursor : option CloudCursor) : CloudInvocation :=
  let args := ["cloud"; "list"; "--env=" +:+ env_str e; "--limit=20"; "--json"] in
  mkInvocation KList
    match cursor with Some c => args ++ ["--cursor=" +:+ cursor_str c] | None => args end.

Definition inv_diff (t : CloudTaskId) : CloudInvocation :=
  mkInvocation KDiff ["cloud"; "diff"; "--attempt=1"; task_str t].

(** ** Decoders *)

Definition validate_capture (c : CloudCapture) (max_stdout : Z) : result CloudAdapterError unit :=
  if stdout_overflow c then Err (mkAdapterError FStdout COverflow)
  else if stderr_overflow c then Err (mkAdapterError FStderr COverflow)
  else if max_stdout <? slen (stdout c) then Err (mkAdapterError FStdout CTooLong)
  else if MAX_STANDARD_CAPTURE_BYTES <? slen (stderr c) then Err (mkAdapterError FStderr CTooLong)
  else if bool_decide (exit_code c = None) then Err (mkAdapterError FExitStatus CMissing)
  else if negb (bool_decide (stderr c = "")) then Err (mkAdapterError FStderr CUnexpected)
  else Ok tt.

Definition validate_standard_capture (c : CloudCapture) : result CloudAdapterError unit :=
  validate_capture c MAX_STANDARD_CAPTURE_BYTES.

Definition require_exit (c : CloudCapture) (expected : Z) : result CloudAdapterError unit :=
  if bool_decide (exit_code c = Some expected) then Ok tt
  else Err (mkAdapterError FExitStatus CUnexpected).

Definition capture_stdout (c : CloudCapture) : result CloudAdapterError string :=
  if utf8_valid (stdout c) then Ok (stdout c) else Err (mkAdapterError FStdout CInvalidUtf8).

Definition decode_cloud_version (c : CloudCapture) : result CloudAdapterError unit :=
  let? _ := validate_standard_capture c in
  let? _ := require_exit c 0 in
  if bool_decide (stdout c = PINNED_CODEX_VERSION_STDOUT) then Ok tt else Err (provider_drift FVersion).

Definition decode_cloud_exec (c : CloudCapture) : result CloudAdapterError CloudTaskUrl :=
  let? _ := validate_standard_capture c in
  let? _ := require_exit c 0 in
  let? out := capture_stdout c in
  let? url := ok_or (strip_lf out) (provider_drift FStdout) in
  if bool_decide (url = "") || contains (ch 13) url || contains (ch 10) url then
    Err (provider_drift FStdout)
  else CloudTaskUrl_try_new url.

Definition normalize_status_output (value : string) : result CloudAdapterError string :=
  let normalized := replace_crlf value in
  if contains (ch 13) normalized || has_control true normalized then
    Err (mkAdapterError FStatus CControlCharacter)
  else Ok normalized.

Definition parse_status_label (line : string) : result CloudAdapterError (CloudTaskStatus * string) :=
  match strip_prefix "[PENDING] " line with
  | Some d => Ok (TPending, d)
  | None =>
  match strip_prefix "[READY] " line with
  | Some d => Ok (TReady, d)
  | None =>
  match strip_prefix "[APPLIED] " line with
  | Some d => Ok (TApplied, d)
  | None =>
  match strip_prefix "[ERROR] " line with
  | Some d => Ok (TError, d)
  | None => Err (provider_drift FStatus)
  end end end end.

Definition validate_display_field (value : string) (field : CloudField) (max_bytes : Z)
  : result CloudAdapterError unit :=
  if bool_decide (value = "") || (max_bytes <? slen value) then Err (provider_drift field) else Ok tt.

(** The separator of the second status line: two spaces, a bullet, two spaces. *)
Definition bullet_sep : string :=
  "  " +:+ String (ch 226) (String (ch 128) (String (ch 162) "  ")).

Definition decode_cloud_status (c : CloudCapture) : result CloudAdapterError CloudTaskStatus :=
  let? _ := validate_standard_capture c in
  let? code := ok_or (exit_code c) (mkAdapterError FExitStatus CMissing) in
  let? out := capture_stdout c in
  let? out := normalize_status_output out in
  let? body := ok_or (strip_lf out) (provider_drift FStatus) in
  match split (ch 10) body with
  | [l0; l1; l2] =>
      if bool_decide (l0 = "") || bool_decide (l1 = "") || bool_decide (l2 = "") then
        Err (provider_drift FStatus)
      else
      let? (status, title) := parse_status_label l0 in
      let? _ := validate_display_field title FTitle MAX_TITLE_BYTES in
      let? (environment, age) := ok_or (split_once bullet_sep l1) (provider_drift FStatus) in
      if contains_str bullet_sep age then Err (provider_drift FStatus)
      else
      let? _ := validate_display_field environment FEnvironmentLabel MAX_ENVIRONMENT_BYTES in
      let? _ := validate_display_field age FStatus MAX_ENVIRONMENT_BYTES in
      let? _ := validate_display_field l2 FStatus MAX_ENVIRONMENT_BYTES in
      let expected := if bool_decide (status = TReady) then 0 else 1 in
      if bool_decide (code <> expected) then Err (provider_drift FExitStatus) else Ok status
  | _ => Err (provider_drift FStatus)
  end.

Definition decode_cloud_diff (c : CloudCapture) : result CloudAdapterError CloudDiff :=
  let? _ := validate_capture c MAX_DIFF_BYTES in
  let? _ := require_exit c 0 in
  if negb (utf8_valid (stdout c)) then Err (mkAdapterError FDiff CInvalidUtf8)
  else if any_byte (fun c => is_ascii_control c && negb (allowed_control c)) (stdout c) then
    Err (mkAdapterError FDiff CControlCharacter)
  else Ok (mkDiff (stdout c)).

(** ** Timestamps *)

Definition byte_at (n : nat) (s : string) : option Z := byte <$> String.get n s.
Definition is_digit_byte (b : Z) : bool := in_range 48 57 b.

(** [parse_digits(bytes, start, len)]: [None] outside the text or at a non-digit. *)
Fixpoint parse_digits (s : string) (start len : nat) (acc : Z) : option Z :=
  match len with
  | O => Some acc
  | S len =>
      match byte_at start s with
      | Some b => if is_digit_byte b then parse_digits s (S start) len (acc * 10 + (b - 48)) else None
      | None => None
      end
  end.

Definition digit_pair (a b : Z) : option Z :=
  if is_digit_byte a && is_digit_byte b then Some ((a - 48) * 10 + (b - 48)) else None.

Definition is_leap_year (year : Z) : bool :=
  (year mod 400 =? 0) || ((year mod 4 =? 0) && negb (year mod 100 =? 0)).

Definition days_in_month (year month : Z) : Z :=
  if bool_decide (month ∈ [1; 3; 5; 7; 8; 10; 12]) then 31
  else if bool_decide (month ∈ [4; 6; 9; 11]) then 30
  else if month =? 2 then if is_leap_year year then 29 else 28
  else 0.

(** The [while] loop over the fraction digits from [pos]; the text bounds it. *)
Fixpoint skip_digits (s : string) (fuel pos : nat) : nat :=
  match fuel with
  | O => pos
  | S fuel =>
      match byte_at pos s with
      | Some b => if is_digit_byte b then skip_digits s fuel (S pos) else pos
      | None => pos
      end
  end.

Fixpoint bytes_from (s : string) (pos : nat) : list Z :=
  match s with
  | EmptyString => []
  | String c rest => match pos with O => byte c :: bytes_from rest O | S pos => bytes_from rest pos end
  end.

(** The slice pattern on the rest of the text: [Z], or a signed [hh:mm] offset. *)
Definition valid_offset (bs : list Z) : bool :=
  match bs with
  | [z] => (z =? 90) || (z =? 122)
  | [sign; ha; hb; c; ma; mb] =>
      ((sign =? 43) || (sign =? 45)) && (c =? 58) &&
      match digit_pair ha hb, digit_pair ma mb with
      | Some hour, Some minute => (hour <=? 23) && (minute <=? 59)
      | _, _ => false
      end
  | _ => false
  end.

Definition valid_rfc3339 (s : string) : bool :=
  if (slen s <? 20)
     || bool_decide (byte_at 4 s <> Some 45) || bool_decide (byte_at 7 s <> Some 45)
     || negb (bool_decide (byte_at 10 s = Some 84) || bool_decide (byte_at 10 s = Some 116))
     || bool_decide (byte_at 13 s <> Some 58) || bool_decide (byte_at 16 s <> Some 58)
  then false
  else
  match parse_digits s 0 4 0, parse_digits s 5 2 0, parse_digits s 8 2 0,
        parse_digits s 11 2 0, parse_digits s 14 2 0, parse_digits s 17 2 0 with
  | Some year, Some month, Some day, Some hour, Some minute, Some second =>
      if negb (in_range 1 12 month) || (day =? 0) || (days_in_month year month <? day)
         || (23 <? hour) || (59 <? minute) || (60 <? second)
      then false
      else if bool_decide (byte_at 19 s = Some 46) then
        let stop := skip_digits s (String.length s) 20 in
        if Nat.eqb stop 20 then false else valid_offset (bytes_from s stop)
      else valid_offset (bytes_from s 19)
  | _, _, _, _, _, _ => false
  end.


(** ** The task list *)

(** What the decoder inspects of a [serde_json::Value]: a number is what its [as_u64] returns. *)
Inductive Value := VNull | VBool (b : bool) | VNumber (as_u64 : option Z) | VString (s : string)
                 | VArray | VObject.

Record RawDiffSummary := mkRawDiff { raw_files_changed : Z; raw_lines_added : Z; raw_lines_removed : Z }.
Record RawTaskSummary := mkRawTask {
  raw_attempt_total : Value;
  raw_environment_id : Value;
  raw_environment_label : Value;
  raw_id : string;
  raw_is_review : bool;
  raw_status : string;
  raw_summary : RawDiffSummary;
  raw_title : string;
  raw_updated_at : string;
  raw_url : string }.
Record RawTaskListPage := mkRawPage { raw_cursor : Value; raw_tasks : list RawTaskSummary }.

Record CloudTaskSummary := mkSummary {
  sum_id : CloudTaskId;
  sum_url : CloudTaskUrl;
  sum_status : CloudTaskStatus;
  sum_title : string;
  sum_updated_at : string;
  sum_environment_id : option string;
  sum_environment_label : option string;
  sum_files_changed : Z;
  sum_lines_added : Z;
  sum_lines_removed : Z;
  sum_is_review : bool;
  sum_attempts : option Z }.
Record CloudTaskListPage := mkPage { page_tasks : list CloudTaskSummary; page_cursor : option CloudCursor }.

Definition validate_list_text (value : string) (field : CloudField) (max_bytes : Z)
  : result CloudAdapterError unit :=
  if max_bytes <? slen value then Err (mkAdapterError field CTooLong)
  else if has_control false value then Err (mkAdapterError field CControlCharacter)
  else Ok tt.

Definition validate_optional_list_text (value : option string) (field : CloudField) (max_bytes : Z)
  : result CloudAdapterError (option string) :=
  match value with
  | Some value => let? _ := validate_list_text value field max_bytes in Ok (Some value)
  | None => Ok None
  end.

Definition required_optional_string (value : Value) (field : CloudField)
  : result CloudAdapterError (option string) :=
  match value with
  | VNull => Ok None
  | VString s => Ok (Some s)
  | _ => Err (provider_drift field)
  end.

Definition required_optional_u8 (value : Value) (field : CloudField)
  : result CloudAdapterError (option Z) :=
  match value with
  | VNull => Ok None
  | VNumber as_u64 =>
      match as_u64 with
      | Some n => if n <=? u8_max then Ok (Some n) else Err (provider_drift field)
      | None => Err (provider_drift field)
      end
  | _ => Err (provider_drift field)
  end.

Definition validate_numeric_limit (value limit : Z) (field : CloudField)
  : result CloudAdapterError unit :=
  if value <=? limit then Ok tt else Err (mkAdapterError field CLimitExceeded).

Definition parse_list_status (value : string) : result CloudAdapterError CloudTaskStatus :=
  if bool_decide (value = "pending") then Ok TPending
  else if bool_decide (value = "ready") then Ok TReady
  else if bool_decide (value = "applied") then Ok TApplied
  else if bool_decide (value = "error") then Ok TError
  else Err (provider_drift FStatus).

(** One turn of the [for row in raw.tasks] loop: [ids] is the set of identities seen so far. *)
Definition decode_row (ids : list CloudTaskId) (row : RawTaskSummary)
  : result CloudAdapterError CloudTaskSummary :=
  let? id := CloudTaskId_try_new (raw_id row) in
  if bool_decide (id ∈ ids) then Err (mkAdapterError FTaskId CDuplicate)
  else
  let? url := CloudTaskUrl_try_new (raw_url row) in
  if bool_decide (url_task_id url <> id) then Err (provider_drift FTaskUrl)
  else
  let? status := parse_list_status (raw_status row) in
  let? _ := validate_list_text (raw_title row) FTitle MAX_TITLE_BYTES in
  if negb (valid_rfc3339 (raw_updated_at row)) then Err (mkAdapterError FUpdatedAt CInvalidFormat)
  else
  let? environment_id := required_optional_string (raw_environment_id row) FEnvironmentId in
  let? environment_id := validate_optional_list_text environment_id FEnvironmentId MAX_ENVIRONMENT_BYTES in
  let? environment_label := required_optional_string (raw_environment_label row) FEnvironmentLabel in
  let? environment_label :=
    validate_optional_list_text environment_label FEnvironmentLabel MAX_ENVIRONMENT_BYTES in
  let? _ := validate_numeric_limit (raw_files_changed (raw_summary row)) MAX_FILES_CHANGED FFilesChanged in
  let? _ := validate_numeric_limit (raw_lines_added (raw_summary row)) MAX_CHANGED_LINES FLinesAdded in
  let? _ := validate_numeric_limit (raw_lines_removed (raw_summary row)) MAX_CHANGED_LINES FLinesRemoved in
  let? attempts := required_optional_u8 (raw_attempt_total row) FAttempts in
  if match attempts with Some n => negb (in_range 1 4 n) | None => false end then
    Err (mkAdapterError FAttempts CLimitExceeded)
  else
  Ok (mkSummary id url status (raw_title row) (raw_updated_at row) environment_id environment_label
        (raw_files_changed (raw_summary row)) (raw_lines_added (raw_summary row))
        (raw_lines_removed (raw_summary row)) (raw_is_review row) attempts).

Fixpoint decode_rows (ids : list CloudTaskId) (rows : list RawTaskSummary)
  : result CloudAdapterError (list CloudTaskSummary) :=
  match rows with
  | [] => Ok []
  | row :: rows =>
      let? summary := decode_row ids row in
      let? rest := decode_rows (sum_id summary :: ids) rows in
      Ok (summary :: rest)
  end.

(** [from_slice] is [serde_json::from_slice] at [RawTaskListPage], [None] where it fails. *)
Definition decode_cloud_list (from_slice : string -> option RawTaskListPage) (c : CloudCapture)
  : result CloudAdapterError CloudTaskListPage :=
  let? _ := validate_standard_capture c in
  let? _ := require_exit c 0 in
  let? raw := ok_or (from_slice (stdout c)) (provider_drift FList) in
  if MAX_TASKS <? len (raw_tasks raw) then Err (mkAdapterError FList CLimitExceeded)
  else
  let? cursor := required_optional_string (raw_cursor raw) FCursor in
  let? cursor := transpose (CloudCursor_try_new <$> cursor) in
  let? tasks := decode_rows [] (raw_tasks raw) in
  Ok (mkPage tasks cursor).

(** ** Facts on text *)

Lemma append_nil s : s +:+ "" = s.
Proof. induction s as [|a s IH]; [done|]. change (String a (s +:+ "") = String a s). by rewrite IH. Qed.

Lemma append_assoc a b c : (a +:+ b) +:+ c = a +:+ (b +:+ c).
Proof.
  induction a as [|x a IH]; [done|].
  change (String x ((a +:+ b) +:+ c) = String x (a +:+ (b +:+ c))). by rewrite IH.
Qed.

Lemma strip_prefix_Some p s r : strip_prefix p s = Some r <-> s = p +:+ r.
Proof.
  revert s. induction p as [|a p IH]; intros s; simpl.
  - change ("" +:+ r) with r. split; congruence.
  - change (String a p +:+ r) with (String a (p +:+ r)). destruct s as [|b s]; [split; done|].
    destruct (Ascii.eqb_spec a b) as [->|Hn].
    + rewrite IH. split; [by intros ->|by intros [= ->]].
    + split; [done|intros [= ]; congruence].
Qed.

Lemma srev_app s acc : srev s acc = rev_string s +:+ acc.
Proof.
  unfold rev_string. revert acc. induction s as [|c s IH]; intros acc; simpl; [done|].
  rewrite IH, (IH (String c "")), append_assoc. done.
Qed.

Lemma rev_string_app a b : rev_string (a +:+ b) = rev_string b +:+ rev_string a.
Proof.
  induction a as [|c a IH].
  - unfold rev_string at 3. simpl. by rewrite append_nil.
  - change (rev_string (String c a +:+ b)) with (srev (a +:+ b) (String c "")).
    change (rev_string (String c a)) with (srev a (String c "")).
    by rewrite !srev_app, IH, append_assoc.
Qed.

Lemma rev_string_involutive s : rev_string (rev_string s) = s.
Proof.
  induction s as [|c s IH]; [done|].
  change (rev_string (String c s)) with (srev s (String c "")).
  rewrite srev_app, rev_string_app, IH. done.
Qed.

Lemma strip_lf_Some s r : strip_lf s = Some r <-> s = r +:+ lf.
Proof.
  unfold strip_lf. split.
  - destruct (rev_string s) as [|c t] eqn:E; [done|].
    destruct (Ascii.eqb_spec c (ch 10)) as [->|]; [|done]. intros [= <-].
    rewrite <- (rev_string_involutive s), E.
    change (rev_string (String (ch 10) t)) with (srev t lf). apply srev_app.
  - intros ->. rewrite rev_string_app. change (rev_string lf) with lf.
    change (lf +:+ rev_string r) with (String (ch 10) (rev_string r)).
    cbv beta iota. change (Ascii.eqb (ch 10) (ch 10)) with true. cbv iota.
    f_equal. apply rev_string_involutive.
Qed.

Lemma all_bytes_app f a b : all_bytes f (a +:+ b) = all_bytes f a && all_bytes f b.
Proof.
  induction a as [|c a IH]; [done|].
  change (String c a +:+ b) with (String c (a +:+ b)). simpl. by rewrite IH, andb_assoc.
Qed.

Lemma all_bytes_impl (f g : Ascii.ascii -> bool) s :
  (forall c, f c = true -> g c = true) -> all_bytes f s = true -> all_bytes g s = true.
Proof.
  intros Hfg. induction s as [|c s IH]; simpl; [done|]. rewrite !andb_true_iff. naive_solver.
Qed.

Lemma contains_all_bytes c s : all_bytes (fun d => negb (Ascii.eqb d c)) s = true -> contains c s = false.
Proof.
  induction s as [|d s IH]; simpl; [done|]. rewrite andb_true_iff, negb_true_iff.
  intros [-> H]. by apply IH.
Qed.

Definition ascii_byte (c : Ascii.ascii) : bool := byte c <? 128.

Lemma utf8_valid_ascii s : all_bytes ascii_byte s = true -> utf8_valid s = true.
Proof.
  induction s as [|c s IH]; simpl; [done|]. unfold ascii_byte at 1. rewrite andb_true_iff.
  intros [-> H]. by apply IH.
Qed.

Lemma task_id_byte_plain c :
  task_id_byte c = true ->
  ascii_byte c = true /\ Ascii.eqb c (ch 13) = false /\ Ascii.eqb c (ch 10) = false.
Proof. destruct c as [[] [] [] [] [] [] [] []]; vm_compute; intros H; (done || discriminate H). Qed.

Lemma valid_task_facts t :
  valid_task t ->
  task_str t <> "" /\ slen (task_str t) <= MAX_TASK_ID_BYTES /\
  all_bytes task_id_byte (task_str t) = true.
Proof.
  unfold valid_task, CloudTaskId_try_new. intros H.
  repeat break_match; simplify_eq; bool_to_prop. done.
Qed.

Lemma validate_capture_Ok c m :
  validate_capture c m = Ok tt <->
  stdout_overflow c = false /\ stderr_overflow c = false /\ slen (stdout c) <= m /\
  exit_code c <> None /\ stderr c = "".
Proof.
  unfold validate_capture. split.
  - intros H. repeat break_match; simplify_eq; bool_to_prop; done.
  - intros (-> & -> & Hm & Hx & ->). rewrite (proj2 (Z.ltb_ge _ _) Hm). simpl.
    by rewrite bool_decide_eq_false_2 by done.
Qed.

(** ** What a successful [cloud exec] printed *)

Definition task_url (t : CloudTaskId) : CloudTaskUrl := mkUrl (TASK_URL_PREFIX +:+ task_str t) t.

Lemma CloudTaskUrl_try_new_Ok s u :
  CloudTaskUrl_try_new s = Ok u <-> exists t, valid_task t /\ u = task_url t /\ s = url_str u.
Proof.
  unfold CloudTaskUrl_try_new. split.
  - destruct (strip_prefix _ s) as [r|] eqn:Er; simpl; [|done].
    apply strip_prefix_Some in Er as ->.
    destruct (CloudTaskId_try_new r) as [t|] eqn:Et; simpl; [|done].
    apply CloudTaskId_try_new_Ok in Et as [-> Hv]. intros [= <-]. by exists (mkTask r).
  - intros (t & Hv & -> & ->). cbn [url_str task_url].
    rewrite (proj2 (strip_prefix_Some _ _ _) eq_refl). cbn [ok_or map_err]. by rewrite Hv.
Qed.

Definition exec_capture (t : CloudTaskId) : CloudCapture :=
  mkCapture (url_str (task_url t) +:+ lf) "" false false (Some 0).

Lemma exec_line_plain t (f : Ascii.ascii -> bool) :
  valid_task t -> all_bytes f TASK_URL_PREFIX = true ->
  (forall c, task_id_byte c = true -> f c = true) -> all_bytes f (url_str (task_url t)) = true.
Proof.
  intros (_ & _ & Hb)%valid_task_facts Hp Hf. cbn [url_str task_url].
  rewrite all_bytes_app, Hp. cbn [andb].
  by eapply all_bytes_impl.
Qed.

(** a Cloud submission is accepted exactly when the command exited 0, printed nothing on
    standard error, and printed one line: the task URL prefix, a valid task identity, and a line
    feed.  The decoded value is that URL with that identity; nothing else is ever decoded. *)
Theorem exec_decodes_exactly_one_task_url c u :
  decode_cloud_exec c = Ok u <->
  exists t, valid_task t /\ u = task_url t /\ c = exec_capture t.
Proof.
  unfold decode_cloud_exec, validate_standard_capture, require_exit, capture_stdout. split.
  - destruct (validate_capture c _) as [[]|] eqn:Ev; [|done].
    apply validate_capture_Ok in Ev as (Ho & He & _ & _ & Hse).
    case_bool_decide as Hx; [|done]. destruct (utf8_valid _); [|done].
    destruct (strip_lf (stdout c)) as [r|] eqn:Er; [|done]. apply strip_lf_Some in Er.
    cbn [ok_or]. destruct (_ || _); [done|]. intros (t & Hv & -> & ->)%CloudTaskUrl_try_new_Ok.
    exists t. split; [done|]. split; [done|].
    destruct c as [so se o1 o2 x]. simpl in *. by subst.
  - intros (t & Hv & -> & ->).
    assert (Hlen : slen (url_str (task_url t) +:+ lf) <= MAX_STANDARD_CAPTURE_BYTES).
    { destruct (valid_task_facts _ Hv) as (_ & Hl & _). cbn [url_str task_url].
      rewrite !slen_app.
      unfold MAX_STANDARD_CAPTURE_BYTES, MAX_TASK_ID_BYTES in *.
      change (slen TASK_URL_PREFIX) with 32. change (slen lf) with 1. lia. }
    rewrite (proj2 (validate_capture_Ok (exec_capture t) _)) by done.
    rewrite bool_decide_eq_true_2 by done. cbn [exec_capture stdout].
    rewrite utf8_valid_ascii.
    2:{ rewrite all_bytes_app, exec_line_plain; [done|done|done|]. by intros c []%task_id_byte_plain. }
    rewrite (proj2 (strip_lf_Some _ _) eq_refl). cbn [ok_or].
    rewrite !contains_all_bytes; cycle 1.
    { apply exec_line_plain; [done|done|]. intros c (_ & _ & ->)%task_id_byte_plain. done. }
    { apply exec_line_plain; [done|done|]. intros c (_ & -> & _)%task_id_byte_plain. done. }
    rewrite bool_decide_eq_false_2 by done. simpl.
    apply CloudTaskUrl_try_new_Ok. by exists t.
Qed.

(** ** What a decoded task list guarantees *)

Definition bounded_text (max_bytes : Z) (s : string) : Prop :=
  slen s <= max_bytes /\ has_control false s = false.

Record summary_ok (s : CloudTaskSummary) : Prop := {
  so_id : valid_task (sum_id s);
  so_url : sum_url s = task_url (sum_id s);
  so_title : bounded_text MAX_TITLE_BYTES (sum_title s);
  so_updated : valid_rfc3339 (sum_updated_at s) = true;
  so_env : forall e, sum_environment_id s = Some e -> bounded_text MAX_ENVIRONMENT_BYTES e;
  so_label : forall e, sum_environment_label s = Some e -> bounded_text MAX_ENVIRONMENT_BYTES e;
  so_files : sum_files_changed s <= MAX_FILES_CHANGED;
  so_added : sum_lines_added s <= MAX_CHANGED_LINES;
  so_removed : sum_lines_removed s <= MAX_CHANGED_LINES;
  so_attempts : forall n, sum_attempts s = Some n -> 1 <= n <= 4 }.

Lemma validate_list_text_Ok s f m : validate_list_text s f m = Ok tt -> bounded_text m s.
Proof. unfold validate_list_text, bounded_text. intros H. repeat break_match; simplify_eq. by bool_to_prop. Qed.

Lemma validate_optional_list_text_Ok o f m o' :
  validate_optional_list_text o f m = Ok o' -> forall e, o' = Some e -> bounded_text m e.
Proof.
  unfold validate_optional_list_text. intros H e ->. repeat break_match; simplify_eq.
  destruct a. by eapply validate_list_text_Ok.
Qed.

Lemma validate_numeric_limit_Ok v l f : validate_numeric_limit v l f = Ok tt -> v <= l.
Proof. unfold validate_numeric_limit. intros H. repeat break_match; simplify_eq. by bool_to_prop. Qed.

Lemma decode_row_ok ids row s :
  decode_row ids row = Ok s -> summary_ok s /\ sum_id s ∉ ids /\ task_str (sum_id s) = raw_id row.
Proof.
  unfold decode_row. intros H.
  repeat (break_match_hyp; simplify_eq; []); bool_to_prop; simplify_eq.
  repeat match goal with u : unit |- _ => destruct u end.
  match goal with H : CloudTaskId_try_new _ = Ok _ |- _ => apply CloudTaskId_try_new_Ok in H as [-> Hv] end.
  match goal with H : CloudTaskUrl_try_new _ = Ok _ |- _ =>
    apply CloudTaskUrl_try_new_Ok in H as (t & Ht & -> & Hu) end.
  match goal with H : ¬ _ <> _ |- _ => apply dec_stable in H; cbn in H end. subst t.
  match goal with H : (if ?b then _ else _) = Ok _ |- _ => destruct b eqn:Ea; [done|]; simplify_eq end.
  split; [|split; [assumption|reflexivity]].
  constructor; simpl; eauto using validate_list_text_Ok, validate_optional_list_text_Ok,
    validate_numeric_limit_Ok.
  intros n ->. simpl in Ea. unfold in_range in Ea. bool_to_prop. lia.
Qed.

Lemma decode_rows_ok ids rows ss :
  decode_rows ids rows = Ok ss ->
  Forall summary_ok ss /\ NoDup (sum_id <$> ss) /\ (forall s, s ∈ ss -> sum_id s ∉ ids) /\
  task_str <$> (sum_id <$> ss) = raw_id <$> rows.
Proof.
  revert ids ss. induction rows as [|row rows IH]; simpl; intros ids ss H.
  { simplify_eq. split_and!; [done|constructor| |done]. by intros s ?%not_elem_of_nil. }
  destruct (decode_row ids row) as [s|] eqn:Es; [|done].
  destruct (decode_rows _ rows) as [rest|] eqn:Er; [|done]. simplify_eq.
  apply decode_row_ok in Es as (Hs & Hn & He). apply IH in Er as (Hf & Hd & Hids & Hm).
  split_and!.
  - by constructor.
  - simpl. constructor; [|done]. intros (s' & Heq & Hin)%list_elem_of_fmap.
    apply (Hids s' Hin). rewrite <- Heq. set_solver.
  - intros s' [->|Hin]%elem_of_cons; [done|]. specialize (Hids s' Hin). set_solver.
  - rewrite !fmap_cons. by rewrite He, Hm.
Qed.

Lemma decode_cloud_list_Ok from_slice c page :
  decode_cloud_list from_slice c = Ok page ->
  len (page_tasks page) <= MAX_TASKS /\ NoDup (sum_id <$> page_tasks page) /\
  Forall summary_ok (page_tasks page) /\
  (forall k, page_cursor page = Some k -> cursor_str k <> "" /\ slen (cursor_str k) <= MAX_CURSOR_BYTES) /\
  (exists raw, from_slice (stdout c) = Some raw /\
    task_str <$> (sum_id <$> page_tasks page) = raw_id <$> raw_tasks raw).
Proof.
  unfold decode_cloud_list. intros H.
  destruct (validate_standard_capture c), (require_exit c 0); try done.
  destruct (from_slice (stdout c)) as [raw|] eqn:Eraw; [|done]. cbn [ok_or] in H.
  destruct (MAX_TASKS <? _) eqn:El; [done|]. bool_to_prop.
  destruct (required_optional_string _ _) as [cursor|]; [|done].
  destruct (transpose _) as [k|] eqn:Ek; [|done].
  destruct (decode_rows _ _) as [ss|] eqn:Er; [|done]. simplify_eq. cbn [page_tasks page_cursor].
  apply decode_rows_ok in Er as (Hf & Hd & _ & Hm).
  assert (Hlen : length ss = length (raw_tasks raw)).
  { apply (f_equal length) in Hm. by rewrite !length_fmap in Hm. }
  split_and!; [|done|done| |by exists raw].
  - unfold len in *. by rewrite Hlen.
  - intros k' ->. destruct cursor as [s|]; simpl in Ek; [|done].
    unfold CloudCursor_try_new, validate_bounded_plain in Ek.
    repeat break_match; simplify_eq; bool_to_prop. done.
Qed.

(** Whatever the JSON parser returns, a decoded task page holds at most twenty tasks with
    pairwise distinct, valid identities, in the order of the response; each URL is the one of its
    identity; every text field is within its byte bound and free of control characters, the
    timestamp is an RFC 3339 date that exists, the counters are within their limits and an attempt
    count is between 1 and 4. *)
Theorem list_page_is_bounded_and_unambiguous from_slice c page :
  decode_cloud_list from_slice c = Ok page ->
  len (page_tasks page) <= MAX_TASKS /\ NoDup (sum_id <$> page_tasks page) /\
  Forall summary_ok (page_tasks page) /\
  (forall k, page_cursor page = Some k -> cursor_str k <> "" /\ slen (cursor_str k) <= MAX_CURSOR_BYTES) /\
  (exists raw, from_slice (stdout c) = Some raw /\
    task_str <$> (sum_id <$> page_tasks page) = raw_id <$> raw_tasks raw).
Proof.
  apply decode_cloud_list_Ok.
Qed.

Definition demo_row (id : string) : RawTaskSummary :=
  mkRawTask (VNumber (Some 1)) VNull (VString "main") id false "ready" (mkRawDiff 2 10 3) "title"
    "2024-02-29T23:59:60Z" (TASK_URL_PREFIX +:+ id).
Definition demo_from_slice (s : string) : option RawTaskListPage :=
  if bool_decide (s = "page") then Some (mkRawPage (VString "next") [demo_row "task_a"; demo_row "task_b"])
  else None.
Definition demo_list_capture : CloudCapture := mkCapture "page" "" false false (Some 0).
Definition demo_page : CloudTaskListPage :=
  match decode_cloud_list demo_from_slice demo_list_capture with Ok p => p | Err _ => mkPage [] None end.

Lemma list_page_is_bounded_and_unambiguous_witness :
  sum_id <$> page_tasks demo_page = [mkTask "task_a"; mkTask "task_b"] /\
  NoDup (sum_id <$> page_tasks demo_page) /\ Forall summary_ok (page_tasks demo_page).
Proof.
  split; [vm_compute; reflexivity|].
  destruct (list_page_is_bounded_and_unambiguous demo_from_slice demo_list_capture demo_page) as (_ & H1 & H2 & _);
    [vm_compute; reflexivity|]. exact (conj H1 H2).
Defined.

(** ** Trimming *)

Lemma strip_any_acc encs s r :
  foldl (fun acc e => match acc with Some _ => acc | None => strip_prefix e s end) (Some r) encs = Some r.
Proof. by induction encs. Qed.

Lemma strip_any_Some encs s r : strip_any encs s = Some r -> exists e, e ∈ encs /\ s = e +:+ r.
Proof.
  unfold strip_any. induction encs as [|e encs IH]; simpl; [done|].
  destruct (strip_prefix e s) as [r'|] eqn:E.
  - rewrite strip_any_acc. intros [= ->]. apply strip_prefix_Some in E as ->.
    exists e. split; [left|done].
  - intros (e' & He & ->)%IH. exists e'. split; [by right|done].
Qed.

Lemma strip_any_None encs s : strip_any encs s = None <-> Forall (fun e => strip_prefix e s = None) encs.
Proof.
  unfold strip_any. induction encs as [|e encs IH]; simpl; [by split|].
  rewrite Forall_cons, <- IH. destruct (strip_prefix e s); [rewrite strip_any_acc|]; naive_solver.
Qed.

Lemma strip_any_prefix encs s t : strip_any encs (s +:+ t) = None -> strip_any encs s = None.
Proof.
  rewrite !strip_any_None. intros HF. eapply Forall_impl; [exact HF|]. intros e H. simpl in *.
  destruct (strip_prefix e s) as [r|] eqn:E; [|done].
  apply strip_prefix_Some in E as ->. rewrite append_assoc in H.
  by rewrite (proj2 (strip_prefix_Some _ _ _) eq_refl) in H.
Qed.

Lemma strip_leading_none encs n s : strip_any encs s = None -> strip_leading encs n s = s.
Proof. intros H. destruct n; simpl; [done|]. by rewrite H. Qed.

(** Fuel of the length of the text is enough: what is left starts with none of the encodings. *)
Lemma strip_leading_spec encs n s :
  Forall (fun e => e <> "") encs -> (String.length s <= n)%nat ->
  strip_any encs (strip_leading encs n s) = None /\ exists p, s = p +:+ strip_leading encs n s.
Proof.
  intros He. revert s. induction n as [|n IH]; intros s Hn; simpl.
  - destruct s; [|simpl in Hn; lia]. split; [|by exists ""].
    apply strip_any_None. eapply Forall_impl; [exact He|]. by intros [].
  - destruct (strip_any encs s) as [r|] eqn:E; [|split; [done|by exists ""]].
    apply strip_any_Some in E as (e & Hin & ->).
    assert (e <> "") by (rewrite Forall_forall in He; by apply He).
    destruct (IH r) as (H1 & p & H2).
    { destruct e as [|c e]; [done|]. change (String c e +:+ r) with (String c (e +:+ r)) in Hn.
      simpl in Hn. pose proof (slen_app e r). unfold slen in *. lia. }
    split; [done|]. exists (e +:+ p). rewrite append_assoc. by f_equal.
Qed.

Lemma whitespace_encodings_nonempty :
  Forall (fun e => e <> "") whitespace_encodings /\
  Forall (fun e => e <> "") (map rev_string whitespace_encodings).
Proof. split; by repeat constructor. Qed.

(** Trimming a trimmed text changes nothing, and only removes text at both ends. *)
Lemma trim_spec s : trim (trim s) = trim s /\ exists a b, s = a +:+ trim s +:+ b.
Proof.
  destruct whitespace_encodings_nonempty as [Hw Hr].
  unfold trim. set (t1 := trim_start s).
  destruct (strip_leading_spec whitespace_encodings (String.length s) s Hw) as (H1 & a & Ha); [lia|].
  fold (trim_start s) in H1, Ha. fold t1 in H1, Ha.
  assert (Hlen : (String.length (rev_string t1) <= String.length t1)%nat).
  { clear. enough (forall u, slen (rev_string u) = slen u) as He by (specialize (He t1); unfold slen in He; lia).
    induction u as [|c u IH]; [done|]. change (rev_string (String c u)) with (srev u (String c "")).
    rewrite srev_app, slen_app, IH. unfold slen. simpl. lia. }
  destruct (strip_leading_spec (map rev_string whitespace_encodings) (String.length t1) (rev_string t1) Hr Hlen)
    as (H2 & b & Hb).
  set (u := strip_leading _ _ (rev_string t1)) in *.
  assert (Ht : trim_end t1 = rev_string u) by done. rewrite Ht.
  assert (Hcut : t1 = rev_string u +:+ rev_string b).
  { by rewrite <- rev_string_app, <- Hb, rev_string_involutive. }
  split.
  - assert (trim_start (rev_string u) = rev_string u) as ->.
    { apply strip_leading_none. eapply strip_any_prefix. by rewrite <- Hcut. }
    unfold trim_end. rewrite rev_string_involutive. by rewrite strip_leading_none.
  - exists a, (rev_string b). by rewrite <- Hcut.
Qed.

(** The environment and the branch a submission names survive a second validation unchanged, so
    a persisted value is the value that was validated; they are the given text less white space at
    both ends, never empty, within their byte bounds, and cannot be read as an option. *)
Theorem validated_names_are_stable s e s' b :
  CloudEnvironmentId_try_new s = Ok e -> CloudBranch_try_new s' = Ok b ->
  CloudEnvironmentId_try_new (env_str e) = Ok e /\ CloudBranch_try_new (branch_str b) = Ok b /\
  (exists x y, s = x +:+ env_str e +:+ y) /\ (exists x y, s' = x +:+ branch_str b +:+ y) /\
  0 < slen (env_str e) <= MAX_ENVIRONMENT_BYTES /\ 0 < slen (branch_str b) <= MAX_BRANCH_BYTES /\
  starts_with_char (ch 45) (env_str e) = false /\ starts_with_char (ch 45) (branch_str b) = false.
Proof.
  unfold CloudEnvironmentId_try_new, CloudBranch_try_new. intros He Hb.
  destruct (trim_spec s) as [Ht Hx], (trim_spec s') as [Ht' Hx'].
  destruct (validate_bounded_plain (trim s) _ _ _) as [[]|] eqn:Ev; [|done].
  destruct (validate_bounded_plain (trim s') _ _ _) as [[]|] eqn:Ev'; [|done].
  simplify_eq. cbn [env_str branch_str]. rewrite Ht, Ht', Ev, Ev'. split_and!; try done.
  all: unfold validate_bounded_plain in *; repeat break_match; simplify_eq; bool_to_prop;
    repeat match goal with H : _ && _ = false |- _ => simpl in H end; try done.
  all: match goal with H : ?t <> "" |- 0 < slen ?t => destruct t; [done|unfold slen; simpl; lia] end.
Qed.

Lemma validated_names_are_stable_witness :
  CloudEnvironmentId_try_new (env_str (mkEnvironment "prod env")) = Ok (mkEnvironment "prod env").
Proof.
  refine (proj1 (validated_names_are_stable "  prod env " (mkEnvironment "prod env") "main" (mkBranch "main") _ _));
    vm_compute; reflexivity.
Defined.
