(* ===== verification/Effects.v ===== *)
(** * Effects: a state monad with process death

    The Cloud runner and the orchestrator act on durable files and start processes.  A call is a
    function of the host's state that either returns, or leaves the state it had reached when the
    process died.  [spec] is the weakest precondition of such a call, with one postcondition for the
    return and one for a death. *)
From S2P Require Import Prelude.
From stdpp Require Import base tactics.

Inductive Run (S A : Type) : Type :=
| Done (a : A) (s : S)
| Crashed (s : S).
Arguments Done {S A} _ _.
Arguments Crashed {S A} _.

Definition M (S A : Type) : Type := S -> Run S A.

Section Monad.
Context {S : Type}.

Definition ret {A} (a : A) : M S A := fun s => Done a s.
Definition bind {A B} (m : M S A) (k : A -> M S B) : M S B :=
  fun s => match m s with Done a s' => k a s' | Crashed s' => Crashed s' end.
Definition get : M S S := fun s => Done s s.

(** [?] on an effectful expression. *)
Definition bind_result {E A B} (m : M S (result E A)) (k : A -> M S (result E B)) : M S (result E B) :=
  bind m (fun r => match r with Ok a => k a | Err e => ret (Err e) end).

Definition outcome_state {A} (r : Run S A) : S := match r with Done _ s => s | Crashed s => s end.

Definition spec {A} (m : M S A) (s : S) (Q : A -> S -> Prop) (C : S -> Prop) : Prop :=
  match m s with Done a s' => Q a s' | Crashed s' => C s' end.

Lemma spec_ret {A} (a : A) s (Q : A -> S -> Prop) C : Q a s -> spec (ret a) s Q C.
Proof. done. Qed.

Lemma spec_bind {A B} (m : M S A) (k : A -> M S B) s Q C :
  spec m s (fun a s' => spec (k a) s' Q C) C -> spec (bind m k) s Q C.
Proof. unfold spec, bind. by destruct (m s). Qed.

Lemma spec_bind_result {E A B} (m : M S (result E A)) (k : A -> M S (result E B)) s
    (Q : result E B -> S -> Prop) C :
  spec m s (fun r s' => match r with Ok a => spec (k a) s' Q C | Err e => Q (Err e) s' end) C ->
  spec (bind_result m k) s Q C.
Proof. unfold spec, bind_result, bind, ret. destruct (m s) as [[]|]; done. Qed.

Lemma spec_mono {A} (m : M S A) s (Q Q' : A -> S -> Prop) (C C' : S -> Prop) :
  spec m s Q C -> (forall a s', Q a s' -> Q' a s') -> (forall s', C s' -> C' s') -> spec m s Q' C'.
Proof. unfold spec. destruct (m s); auto. Qed.

Lemma spec_elim {A} (m : M S A) s Q C r :
  spec m s Q C -> m s = r -> match r with Done a s' => Q a s' | Crashed s' => C s' end.
Proof. by intros H <-. Qed.
End Monad.

Declare Scope io_scope.
Delimit Scope io_scope with io.
Open Scope io_scope.

Notation "'let!' x ':=' m 'in' k" := (bind m (fun x => k))
  (at level 10, x pattern, m at level 100, k at level 200) : io_scope.
Notation "'try!' x ':=' m 'in' k" := (bind_result m (fun x => k))
  (at level 10, x pattern, m at level 100, k at level 200) : io_scope.

(** Walk through a call: one rule per binder, case analysis on the answers it got. *)
Ltac spec_step :=
  lazymatch goal with
  | |- spec (bind _ _) _ _ _ => apply spec_bind
  | |- spec (bind_result _ _) _ _ _ => apply spec_bind_result
  | |- spec (ret _) _ _ _ => apply spec_ret
  end.
