(* ===== verification/LoginTypes.v ===== *)
(** * Errors of the credential scope and of the login broker

    Models the error enumerations of [crates/codebox-agent-codex/src/error.rs] and [login_error.rs],
    the values of [login_types.rs] and the phases of [ledger.rs].  The [io::Error] carried by some variants is only displayed, and
    is left out. *)
From S2P Require Import Prelude DomainValues.
From stdpp Require Import base strings.
From Stdlib Require Import ZArith.
Import Ids.

Open Scope Z_scope.

Inductive CredentialDirectory := DirCodexHome | DirState | DirWorking.
Inductive CredentialPath := PathExecutable | PathCodexHome | PathState | PathWorking.
Inductive DirectoryViolation :=
| DVNotAbsolute | DVNotCanonical | DVSymlink | DVNotDirectory | DVWrongOwner | DVPermissions.
Inductive ExecutableViolation :=
| EVNotAbsolute | EVNotCanonical | EVSymlink | EVNotRegularFile | EVWrongOwner | EVPermissions.
Inductive LeaseViolation :=
| LVSymlink | LVNotRegularFile | LVWrongOwner | LVPermissions | LVMultipleLinks.

Inductive CredentialScopeError :=
| SEUnsupportedPlatform
| SEDirectoryUnsafe (directory : CredentialDirectory) (violation : DirectoryViolation)
| SEDirectoryUnavailable (directory : CredentialDirectory)
| SEExecutableUnsafe (violation : ExecutableViolation)
| SEExecutableUnavailable
| SEDirectoryOverlap
| SERepositoryPathRejected (path : CredentialPath)
| SERepositoryInspectionUnavailable (path : CredentialPath)
| SELeaseUnsafe (violation : LeaseViolation)
| SELeaseUnavailable
| SELoginAlreadyRunning.

Inductive LoginBrokerError :=
| LBCredentialScope (error : CredentialScopeError)
| LBVersionMismatch | LBLoginAlreadyRunning | LBAlreadyLoggedIn | LBProviderOutputInvalid
| LBOutputLimitExceeded | LBStatusUnavailable | LBLoginFailed | LBOutcomeUnknown | LBProcess
| LBLedgerUnavailable | LBLedgerInvalid.

(** [From<CredentialScopeError>]. *)
Definition LoginBrokerError_from (e : CredentialScopeError) : LoginBrokerError :=
  match e with SELoginAlreadyRunning => LBLoginAlreadyRunning | e => LBCredentialScope e end.

Inductive LedgerPhase :=
| LPIntent | LPStarted | LPDeviceInstructions | LPLoggedIn | LPLoggedOut | LPFailed | LPOutcomeUnknown.

Definition is_uncertain (p : LedgerPhase) : bool :=
  match p with LPIntent | LPStarted | LPDeviceInstructions | LPOutcomeUnknown => true | _ => false end.

Inductive PinnedStatus := LoggedIn | LoggedOut.

(** ** Login values (login_types.rs) *)

Record LoginOperationId := mkLoginOp { login_uuid : Uuid }.
#[export] Instance LoginOperationId_eq_dec : EqDecision LoginOperationId.
Proof. solve_decision. Defined.

(** [VerificationUrl::as_str]. *)
Definition VERIFICATION_URL : string := "https://auth.openai.com/codex/device".

(** A code that [parser.rs] validated. *)
Record VerificationCode := mkCode { code_str : string }.

Record LoginInteraction := mkInteraction {
  li_operation_id : LoginOperationId;
  li_verification_code : VerificationCode;
  li_expires_in_seconds : Z }.

(** [LoginInteraction::new]. *)
Definition LoginInteraction_new (op : LoginOperationId) (code : VerificationCode) : LoginInteraction :=
  mkInteraction op code 900.

Inductive LoginStatus :=
| LSLoggedOut
| LSDeviceLoginPending (operation_id : LoginOperationId)
| LSLoggedIn
| LSOutcomeUnknown (operation_id : LoginOperationId).
#[export] Instance LoginStatus_eq_dec : EqDecision LoginStatus.
Proof. solve_decision. Defined.
