(* ===== verification/SubmitLedger.v ===== *)
(** * The durable submit record

    Models the value part of [crates/codebox-agent-codex/src/cloud_submit_ledger.rs]: the phases, the
    ledger, every recording operation and the validator.  A recording operation takes [&mut self];
    where it fails the callers drop the ledger, so the model returns the new ledger or the error.
    Files and their failures are modelled with the runner. *)
From S2P Require Import Prelude DomainValues CloudTypes CloudAdapter.
From stdpp Require Import base numbers list strings sets.
From Stdlib Require Import ZArith Lia.
Import Ids.

Open Scope Z_scope.

Module Sub.

Definition CLOUD_LEDGER_SCHEMA_VERSION : Z := 1.
Definition MAX_CLOUD_HISTORY_ENTRIES : Z := 32.
Definition MAX_RECONCILIATION_CANDIDATES : Z := 100.

(** [ProcessIdentity] (ledger.rs). *)
Record ProcessIdentity := mkProcess { pid : Z; start_time_ticks : Z }.

Inductive CloudLedgerPhase :=
| Intent | Authorized | Started | TaskRecorded | FailedBeforeSpawn | OutcomeUnknown
| ReconciliationObserved | TaskAdopted | ExplicitlyAbandoned.

#[export] Instance ProcessIdentity_eq_dec : EqDecision ProcessIdentity.
Proof. solve_decision. Defined.
#[export] Instance CloudLedgerPhase_eq_dec : EqDecision CloudLedgerPhase.
Proof. solve_decision. Defined.

Definition is_unknown (p : CloudLedgerPhase) : bool :=
  match p with OutcomeUnknown | ReconciliationObserved => true | _ => false end.

Definition permits_new_operation (p : CloudLedgerPhase) : bool :=
  match p with
  | TaskRecorded | FailedBeforeSpawn | TaskAdopted | ExplicitlyAbandoned => true
  | _ => false
  end.

Record CloudSubmitLedger := mkLedger {
  schema_version : Z;
  operation_id : CloudSubmitOperationId;
  environment : string;
  branch : string;
  process : option ProcessIdentity;
  task_id : option string;
  candidate_task_ids : list string;
  reconciliation_complete : option bool;
  history : list CloudLedgerPhase }.

Definition invalid : CloudRunnerError := run_err RunLedgerInvalid.

Definition new (op : CloudSubmitOperationId) (e : CloudEnvironmentId) (b : CloudBranch)
  : CloudSubmitLedger :=
  mkLedger CLOUD_LEDGER_SCHEMA_VERSION op (env_str e) (branch_str b) None None [] None [Intent].

Definition matches_config (e : CloudEnvironmentId) (b : CloudBranch) (l : CloudSubmitLedger) : bool :=
  bool_decide (environment l = env_str e) && bool_decide (branch l = branch_str b).

Definition latest (l : CloudSubmitLedger) : CloudLedgerPhase :=
  match last (history l) with Some p => p | None => OutcomeUnknown end.

Definition recorded_task (l : CloudSubmitLedger) : result CloudRunnerError (option CloudTaskId) :=
  map_err (fun _ => invalid) (transpose (CloudTaskId_try_new <$> task_id l)).

Definition valid_transition (from to : CloudLedgerPhase) : bool :=
  match from with
  | Intent => match to with Authorized | FailedBeforeSpawn => true | _ => false end
  | Authorized =>
      match to with Started | FailedBeforeSpawn | OutcomeUnknown => true | _ => false end
  | Started => match to with TaskRecorded | OutcomeUnknown => true | _ => false end
  | OutcomeUnknown => bool_decide (to = ReconciliationObserved)
  | ReconciliationObserved =>
      match to with ReconciliationObserved | TaskAdopted | ExplicitlyAbandoned => true | _ => false end
  | TaskRecorded | FailedBeforeSpawn | TaskAdopted | ExplicitlyAbandoned => false
  end.

(** ** Recording *)

Definition with_history (h : list CloudLedgerPhase) (l : CloudSubmitLedger) : CloudSubmitLedger :=
  mkLedger (schema_version l) (operation_id l) (environment l) (branch l) (process l) (task_id l)
    (candidate_task_ids l) (reconciliation_complete l) h.
Definition with_process (p : option ProcessIdentity) (l : CloudSubmitLedger) : CloudSubmitLedger :=
  mkLedger (schema_version l) (operation_id l) (environment l) (branch l) p (task_id l)
    (candidate_task_ids l) (reconciliation_complete l) (history l).
Definition with_task (t : option string) (l : CloudSubmitLedger) : CloudSubmitLedger :=
  mkLedger (schema_version l) (operation_id l) (environment l) (branch l) (process l) t
    (candidate_task_ids l) (reconciliation_complete l) (history l).
Definition with_candidates (cs : list string) (complete : option bool) (l : CloudSubmitLedger)
  : CloudSubmitLedger :=
  mkLedger (schema_version l) (operation_id l) (environment l) (branch l) (process l) (task_id l)
    cs complete (history l).

Definition append (p : CloudLedgerPhase) (l : CloudSubmitLedger)
  : result CloudRunnerError CloudSubmitLedger :=
  if (MAX_CLOUD_HISTORY_ENTRIES <=? len (history l)) || negb (valid_transition (latest l) p)
  then Err invalid
  else Ok (with_history (history l ++ [p]) l).

Definition record_started (p : ProcessIdentity) (l : CloudSubmitLedger)
  : result CloudRunnerError CloudSubmitLedger :=
  match process l with
  | Some _ => Err invalid
  | None => append Started (with_process (Some p) l)
  end.

Definition record_task (t : CloudTaskId) (l : CloudSubmitLedger)
  : result CloudRunnerError CloudSubmitLedger :=
  match task_id l with
  | Some _ => Err invalid
  | None => append TaskRecorded (with_task (Some (task_str t)) l)
  end.

Definition record_reconciliation (ts : list CloudTaskId) (complete : bool) (l : CloudSubmitLedger)
  : result CloudRunnerError CloudSubmitLedger :=
  if MAX_RECONCILIATION_CANDIDATES <? len ts then Err invalid
  else if has_duplicate [] (map task_str ts) then Err invalid
  else append ReconciliationObserved (with_candidates (map task_str ts) (Some complete) l).

Definition record_adopted_task (t : CloudTaskId) (l : CloudSubmitLedger)
  : result CloudRunnerError CloudSubmitLedger :=
  if bool_decide (latest l <> ReconciliationObserved) then Err (run_err RunResolutionUnavailable)
  else if bool_decide (task_id l <> None) then Err invalid
  else if negb (existsb (fun c => bool_decide (c = task_str t)) (candidate_task_ids l)) then
    Err (run_err RunCandidateNotRecorded)
  else
  let? l := append TaskAdopted l in
  Ok (with_task (Some (task_str t)) l).

Definition record_explicitly_abandoned (l : CloudSubmitLedger)
  : result CloudRunnerError CloudSubmitLedger :=
  if bool_decide (latest l <> ReconciliationObserved) || bool_decide (task_id l <> None) then
    Err (run_err RunResolutionUnavailable)
  else append ExplicitlyAbandoned l.

(** ** Validation *)

Definition contains_phase (p : CloudLedgerPhase) (l : CloudSubmitLedger) : bool :=
  bool_decide (p ∈ history l).

Definition validate (l : CloudSubmitLedger) : result CloudRunnerError unit :=
  if bool_decide (schema_version l <> CLOUD_LEDGER_SCHEMA_VERSION)
     || is_nil (op_uuid (operation_id l))
     || bool_decide (history l = [])
     || (MAX_CLOUD_HISTORY_ENTRIES <? len (history l))
     || bool_decide (head (history l) <> Some Intent)
     || is_err (CloudEnvironmentId_try_new (environment l))
     || is_err (CloudBranch_try_new (branch l))
  then Err invalid
  else if negb (chain valid_transition (history l)) then Err invalid
  else if negb (eqb (contains_phase Started l) (bool_decide (is_Some (process l)))) then Err invalid
  else if negb (eqb (contains_phase TaskRecorded l || contains_phase TaskAdopted l)
                  (bool_decide (is_Some (task_id l))))
          || is_err (recorded_task l)
  then Err invalid
  else if negb (eqb (contains_phase ReconciliationObserved l)
                  (bool_decide (is_Some (reconciliation_complete l))))
          || (MAX_RECONCILIATION_CANDIDATES <? len (candidate_task_ids l))
  then Err invalid
  else
  let? _ := check_candidates invalid [] (candidate_task_ids l) in
  if contains_phase TaskAdopted l
     && match task_id l with
        | None => true
        | Some t => negb (existsb (fun c => bool_decide (c = t)) (candidate_task_ids l))
        end
  then Err invalid
  else Ok tt.

(** ** What the validator accepts *)

Record WF (l : CloudSubmitLedger) : Prop := {
  wf_schema : schema_version l = CLOUD_LEDGER_SCHEMA_VERSION;
  wf_op : is_nil (op_uuid (operation_id l)) = false;
  wf_len : len (history l) <= MAX_CLOUD_HISTORY_ENTRIES;
  wf_head : head (history l) = Some Intent;
  wf_env : is_err (CloudEnvironmentId_try_new (environment l)) = false;
  wf_branch : is_err (CloudBranch_try_new (branch l)) = false;
  wf_chain : chain valid_transition (history l) = true;
  wf_started : Started ∈ history l <-> is_Some (process l);
  wf_recorded : TaskRecorded ∈ history l \/ TaskAdopted ∈ history l <-> is_Some (task_id l);
  wf_task : forall s, task_id l = Some s -> valid_task (mkTask s);
  wf_reconciled : ReconciliationObserved ∈ history l <-> is_Some (reconciliation_complete l);
  wf_candidates : len (candidate_task_ids l) <= MAX_RECONCILIATION_CANDIDATES;
  wf_candidates_valid : Forall (fun c => valid_task (mkTask c)) (candidate_task_ids l);
  wf_candidates_nodup : NoDup (candidate_task_ids l);
  wf_adopted : TaskAdopted ∈ history l -> exists t, task_id l = Some t /\ t ∈ candidate_task_ids l }.

Lemma recorded_task_Ok l t :
  recorded_task l = Ok t <->
  match task_id l with Some s => t = Some (mkTask s) /\ valid_task (mkTask s) | None => t = None end.
Proof.
  unfold recorded_task. destruct (task_id l) as [s|]; simpl; [|naive_solver].
  destruct (CloudTaskId_try_new s) as [t'|] eqn:E; simpl.
  - destruct (CloudTaskId_try_new_Ok _ _ E) as [-> ?]. naive_solver.
  - split; [done|]. intros [_ Hv]. unfold valid_task in Hv. simpl in Hv. congruence.
Qed.

Lemma recorded_task_is_err l :
  is_err (recorded_task l) = false <-> forall s, task_id l = Some s -> valid_task (mkTask s).
Proof.
  destruct (recorded_task l) as [t|e] eqn:E; unfold is_err; simpl.
  - apply recorded_task_Ok in E. split; [|done]. intros _ s Hs. rewrite Hs in E. by destruct E.
  - split; [done|]. intros H. destruct (task_id l) as [s|] eqn:Et.
    + assert (recorded_task l = Ok (Some (mkTask s))); [|congruence].
      apply recorded_task_Ok. rewrite Et. auto.
    + assert (recorded_task l = Ok None); [|congruence]. apply recorded_task_Ok. by rewrite Et.
Qed.

Lemma existsb_elem (t : string) cs : existsb (fun c => bool_decide (c = t)) cs = true <-> t ∈ cs.
Proof.
  induction cs as [|c cs IH]; simpl; [split; [done|by intros ?%not_elem_of_nil]|].
  rewrite orb_true_iff, IH, elem_of_cons, bool_decide_eq_true. naive_solver.
Qed.

Lemma negb_eqb_false (P Q : Prop) `{Decision P, Decision Q} :
  negb (eqb (bool_decide P) (bool_decide Q)) = false <-> (P <-> Q).
Proof. repeat case_bool_decide; simpl; naive_solver. Qed.

Lemma submit_validate_iff l : validate l = Ok tt <-> WF l.
Proof.
  assert (Hrec : contains_phase TaskRecorded l || contains_phase TaskAdopted l =
                 bool_decide (TaskRecorded ∈ history l \/ TaskAdopted ∈ history l)).
  { unfold contains_phase. repeat case_bool_decide; naive_solver. }
  assert (Hadopt : (contains_phase TaskAdopted l && match task_id l with None => true
      | Some t => negb (existsb (fun c => bool_decide (c = t)) (candidate_task_ids l)) end = false) <->
      (TaskAdopted ∈ history l -> exists t, task_id l = Some t /\ t ∈ candidate_task_ids l)).
  { unfold contains_phase. destruct (bool_decide_reflect (TaskAdopted ∈ history l)) as [Hin|Hin]; simpl;
      [|by split; [intros _ ?|]].
    destruct (task_id l) as [t|]; [|split; [done|intros Hx; by destruct (Hx Hin) as (? & ? & _)]].
    rewrite negb_false_iff, existsb_elem. split; [by intros ? _; exists t|].
    intros Hx. by destruct (Hx Hin) as (? & [= <-] & ?). }
  unfold validate. rewrite Hrec. unfold contains_phase at 1 2. split.
  - destruct (bool_decide (schema_version l <> _) || _ || _ || _ || _ || _ || _) eqn:E1; [done|].
    destruct (negb (chain _ _)) eqn:E2; [done|]. destruct (negb (eqb _ _)) eqn:E3; [done|].
    destruct (negb (eqb _ _) || is_err _) eqn:E4; [done|].
    destruct (negb (eqb _ _) || (_ <? _)) eqn:E5; [done|].
    destruct (check_candidates _ _ _) as [[]|] eqn:E6; [|done]. apply check_candidates_Ok in E6 as (? & ? & _).
    destruct (contains_phase TaskAdopted l && _) eqn:E7; [done|]. intros _.
    apply orb_false_iff in E4 as [E4 E4']. apply orb_false_iff in E5 as [E5 E5'].
    apply negb_eqb_false in E3, E4, E5.
    pose proof (proj1 (recorded_task_is_err l) E4') as Hvt. pose proof (proj1 Hadopt eq_refl) as Had.
    bool_to_prop. constructor; try done; by apply dec_stable.
  - intros []. rewrite wf_schema0, wf_op0, wf_head0, wf_env0, wf_branch0, wf_chain0.
    rewrite (proj2 (Z.ltb_ge _ _) wf_len0), (proj2 (Z.ltb_ge _ _) wf_candidates0).
    rewrite (proj2 (negb_eqb_false _ _) wf_started0), (proj2 (negb_eqb_false _ _) wf_recorded0),
      (proj2 (negb_eqb_false _ _) wf_reconciled0), (proj2 (recorded_task_is_err l) wf_task0).
    rewrite (proj2 (check_candidates_Ok _ _ [])) by (split_and!; [done..|by intros ? ? ?%not_elem_of_nil]).
    rewrite (proj2 Hadopt wf_adopted0).
    destruct (bool_decide (history l = [])) eqn:Eh; [bool_to_prop; by rewrite Eh in wf_head0|].
    rewrite !(bool_decide_false (_ <> _)) by tauto. done.
Qed.

Lemma WF_latest l : WF l -> last (history l) = Some (latest l).
Proof. intros []. unfold latest. destruct (last (history l)) eqn:E; [done|]. apply last_None in E. by rewrite E in *. Qed.

Lemma WF_new op e b :
  is_nil (op_uuid op) = false -> is_ok (CloudEnvironmentId_try_new (env_str e)) = true ->
  is_ok (CloudBranch_try_new (branch_str b)) = true -> WF (new op e b).
Proof.
  intros Ho He Hb. constructor; simpl; try done; try (by rewrite is_Some_alt); try apply NoDup_nil_2.
  all: try (unfold is_err; by rewrite ?He, ?Hb).
  all: rewrite ?list_elem_of_singleton; try (split; [naive_solver|intros [? [=]]]); try done.
Qed.

(** ** Every recording keeps the record valid *)

Inductive SubmitOp :=
| AppendFailedBeforeSpawn | AppendAuthorized | AppendOutcomeUnknown
| RecordStarted (p : ProcessIdentity)
| RecordTask (t : CloudTaskId)
| RecordReconciliation (ts : list CloudTaskId) (complete : bool)
| RecordAdoptedTask (t : CloudTaskId)
| RecordExplicitlyAbandoned.

Definition apply_op (o : SubmitOp) (l : CloudSubmitLedger) : result CloudRunnerError CloudSubmitLedger :=
  match o with
  | AppendFailedBeforeSpawn => append FailedBeforeSpawn l
  | AppendAuthorized => append Authorized l
  | AppendOutcomeUnknown => append OutcomeUnknown l
  | RecordStarted p => record_started p l
  | RecordTask t => record_task t l
  | RecordReconciliation ts c => record_reconciliation ts c l
  | RecordAdoptedTask t => record_adopted_task t l
  | RecordExplicitlyAbandoned => record_explicitly_abandoned l
  end.

Definition op_valid (o : SubmitOp) : Prop :=
  match o with
  | RecordTask t | RecordAdoptedTask t => valid_task t
  | RecordReconciliation ts _ => Forall valid_task ts
  | _ => True
  end.

(** The phase an operation appends. *)
Definition op_phase (o : SubmitOp) : CloudLedgerPhase :=
  match o with
  | AppendFailedBeforeSpawn => FailedBeforeSpawn | AppendAuthorized => Authorized
  | AppendOutcomeUnknown => OutcomeUnknown | RecordStarted _ => Started | RecordTask _ => TaskRecorded
  | RecordReconciliation _ _ => ReconciliationObserved | RecordAdoptedTask _ => TaskAdopted
  | RecordExplicitlyAbandoned => ExplicitlyAbandoned
  end.

Lemma submit_append_Ok p l l' :
  append p l = Ok l' <->
  len (history l) < MAX_CLOUD_HISTORY_ENTRIES /\ valid_transition (latest l) p = true /\
  l' = with_history (history l ++ [p]) l.
Proof.
  unfold append. destruct (Z.leb_spec MAX_CLOUD_HISTORY_ENTRIES (len (history l))); simpl.
  - split; [done|]. lia.
  - destruct (valid_transition _ _); simpl; naive_solver.
Qed.

(** What every recording does to the history and to the identity of the record. *)
Lemma apply_op_history o l l' :
  apply_op o l = Ok l' ->
  history l' = history l ++ [op_phase o] /\ valid_transition (latest l) (op_phase o) = true /\
  len (history l) < MAX_CLOUD_HISTORY_ENTRIES /\ operation_id l' = operation_id l /\
  environment l' = environment l /\ branch l' = branch l.
Proof.
  destruct o; simpl; unfold record_started, record_task, record_reconciliation, record_adopted_task,
    record_explicitly_abandoned; intros H;
    repeat (break_match_hyp; simplify_eq; try done);
    match goal with H : append _ _ = Ok _ |- _ => apply submit_append_Ok in H as (? & ? & ->) end;
    by cbn in *.
Qed.

Lemma latest_snoc l p : latest (with_history (history l ++ [p]) l) = p.
Proof. unfold latest. simpl. by rewrite last_snoc. Qed.

Lemma apply_op_latest o l l' : apply_op o l = Ok l' -> latest l' = op_phase o.
Proof. intros (Hh & _)%apply_op_history. unfold latest. by rewrite Hh, last_snoc. Qed.

(** Appending a phase together with the fields it brings. *)
Lemma extend_WF p l pr t cs c :
  WF l -> len (history l) < MAX_CLOUD_HISTORY_ENTRIES -> valid_transition (latest l) p = true ->
  (Started ∈ history l \/ Started = p <-> is_Some pr) ->
  ((TaskRecorded ∈ history l \/ TaskAdopted ∈ history l) \/ TaskRecorded = p \/ TaskAdopted = p <-> is_Some t) ->
  (forall s, t = Some s -> valid_task (mkTask s)) ->
  (ReconciliationObserved ∈ history l \/ ReconciliationObserved = p <-> is_Some c) ->
  len cs <= MAX_RECONCILIATION_CANDIDATES -> Forall (fun c => valid_task (mkTask c)) cs -> NoDup cs ->
  (TaskAdopted ∈ history l \/ TaskAdopted = p -> exists x, t = Some x /\ x ∈ cs) ->
  WF (mkLedger (schema_version l) (operation_id l) (environment l) (branch l) pr t cs c (history l ++ [p])).
Proof.
  intros HW Hlen Hv H1 H2 H3 H4 H5 H6 H7 H8. pose proof (WF_latest _ HW) as Hlast. destruct HW.
  constructor; simpl; try done; rewrite ?elem_of_app, ?list_elem_of_singleton; try done.
  - unfold len in *. rewrite length_app. simpl. lia.
  - by destruct (history l).
  - by rewrite (chain_snoc _ _ (latest l)), wf_chain0, Hv.
  - rewrite <- H2. tauto.
Qed.

Lemma existsb_false_elem (t : string) cs :
  negb (existsb (fun c => bool_decide (c = t)) cs) = false -> t ∈ cs.
Proof. rewrite negb_false_iff. apply existsb_elem. Qed.

Lemma not_adopted l : WF l -> latest l <> TaskAdopted -> ¬ TaskAdopted ∈ history l.
Proof.
  intros HW Hn Hin. pose proof (WF_latest _ HW) as Hl. destruct HW.
  pose proof (chain_terminal _ _ TaskAdopted wf_chain0 (fun _ => eq_refl) Hin). congruence.
Qed.

Ltac side :=
  simpl;
  first [ assumption
        | apply gain_iff; first [reflexivity | left; reflexivity | right; reflexivity]
        | apply keep_iff; [first [discriminate | intros [|]; discriminate]|assumption]
        | intros [?|?]; [contradiction|discriminate] ].

Lemma submit_apply_op_WF o l l' : WF l -> op_valid o -> apply_op o l = Ok l' -> WF l'.
Proof.
  intros HW Ho H. pose proof (apply_op_history _ _ _ H) as (_ & Hv & Hlen & _).
  assert (Hna : latest l <> TaskAdopted) by (intros E; by rewrite E in Hv).
  pose proof (not_adopted l HW Hna) as Hno. pose proof HW as [].
  assert (Happ : forall p q, append p q = Ok l' -> l' = with_history (history q ++ [p]) q)
    by (by intros p q (_ & _ & ->)%submit_append_Ok).
  destruct o as [| | |pr|t|ts c|t|]; simpl in Ho, H, Hv.
  - rewrite (Happ _ _ H). apply (extend_WF FailedBeforeSpawn l); side.
  - rewrite (Happ _ _ H). apply (extend_WF Authorized l); side.
  - rewrite (Happ _ _ H). apply (extend_WF OutcomeUnknown l); side.
  - unfold record_started in H. destruct (process l); [done|]. rewrite (Happ _ _ H).
    apply (extend_WF Started l); side.
  - unfold record_task in H. destruct (task_id l) eqn:Et; [done|]. rewrite (Happ _ _ H).
    apply (extend_WF TaskRecorded l); try side. intros s [= <-]. by destruct t.
  - unfold record_reconciliation in H. destruct (_ <? _) eqn:El; [done|].
    destruct (has_duplicate _ _) eqn:Ed; [done|]. apply has_duplicate_spec in Ed as [Hnd _].
    bool_to_prop. rewrite (Happ _ _ H). apply (extend_WF ReconciliationObserved l); try side.
    + simpl. unfold len in *. by rewrite length_map.
    + by apply map_task_str_valid.
  - unfold record_adopted_task in H. destruct (bool_decide (latest l <> _)); [done|].
    destruct (bool_decide (task_id l <> None)) eqn:Et; [done|].
    destruct (negb _) eqn:Ec; [done|]. apply existsb_false_elem in Ec.
    destruct (append _ _) as [l1|] eqn:Ea; [|done]. apply submit_append_Ok in Ea as (_ & _ & ->).
    simplify_eq. apply (extend_WF TaskAdopted l); try side.
    + intros s [= <-]. by destruct t.
    + intros _. by eexists.
  - unfold record_explicitly_abandoned in H. destruct (_ || _); [done|]. rewrite (Happ _ _ H).
    apply (extend_WF ExplicitlyAbandoned l); side.
Qed.

Lemma record_reconciliation_fields ts c l l' :
  record_reconciliation ts c l = Ok l' ->
  candidate_task_ids l' = map task_str ts /\ reconciliation_complete l' = Some c.
Proof.
  unfold record_reconciliation. destruct (_ <? _); [done|]. destruct (has_duplicate [] (map task_str ts)); [done|].
  by intros (_ & _ & ->)%submit_append_Ok.
Qed.

(** A record whose history is full takes no recording any more. *)
Lemma apply_op_full o l : MAX_CLOUD_HISTORY_ENTRIES <= len (history l) -> is_err (apply_op o l) = true.
Proof.
  intros Hf. destruct (apply_op o l) as [l'|] eqn:E; [|done].
  apply apply_op_history in E as (_ & _ & Hlen & _). lia.
Qed.

Definition sample_op : CloudSubmitOperationId := mkOp 301.
Definition sample_env : CloudEnvironmentId := mkEnvironment "prod".
Definition sample_branch : CloudBranch := mkBranch "main".
Definition sample_new : CloudSubmitLedger := new sample_op sample_env sample_branch.
Definition sample_authorized : CloudSubmitLedger := unwrap_or (append Authorized sample_new) sample_new.

(** whatever the runner records keeps the durable submit record valid: from a record the
    validator accepts, any recording that succeeds yields one it accepts again, so what is written
    can always be read back; the record keeps its operation and configuration, and its phase moved
    along the transition table. *)
Theorem submit_recording_stays_valid o l l' (Ho : op_valid o) (Hl : validate l = Ok tt)
  (H : apply_op o l = Ok l') :
  validate l' = Ok tt /\ operation_id l' = operation_id l /\ environment l' = environment l /\
  branch l' = branch l /\ valid_transition (latest l) (latest l') = true.
Proof.
  apply submit_validate_iff in Hl. pose proof (apply_op_history _ _ _ H) as (_ & Hv & _ & Hop & He & Hb).
  rewrite (apply_op_latest _ _ _ H). split_and!; try done.
  apply submit_validate_iff. by eapply submit_apply_op_WF.
Qed.

Lemma submit_recording_stays_valid_witness :
  validate (unwrap_or (apply_op (RecordStarted (mkProcess 7 99)) sample_authorized) sample_new) = Ok tt.
Proof.
  refine (proj1 (submit_recording_stays_valid (RecordStarted (mkProcess 7 99)) sample_authorized _ I _ _));
    vm_compute; reflexivity.
Defined.

End Sub.
