(* ===== verification/CloudRunner.v ===== *)
(** * The Cloud runner: one durable submit at a time

    Models [crates/codebox-agent-codex/src/cloud_runner.rs] and the file operations of
    [cloud_submit_ledger.rs].  The host is the submit and the lifecycle file, as the values they
    decode to, with a ghost log of the [cloud exec] commands that may have run.  Every write takes its
    outcome from [writes]: it succeeds, fails before the rename (the file is as it was), or fails
    after it, when the directory could not be synced (the file is the new one, the caller sees an
    error).  [fuel] counts the effects left before the process dies.  What the operating system and
    the CLI answer during a call is its [Answers].  JSON encodes and decodes a ledger to itself. *)
From S2P Require Import Prelude Effects DomainValues CloudTypes CloudAdapter SubmitLedger LifecycleLedger LoginTypes.
From stdpp Require Import base numbers list strings sets.
From Stdlib Require Import ZArith Lia.
Import Ids.

Open Scope Z_scope.

Definition MAX_RECONCILIATION_PAGES : nat := 5.
Definition MAX_RECONCILIATION_TASKS : Z := 100.

Module Runner.

(** ** The host *)

Inductive WriteOutcome := WOk | WFailBefore (category : CloudRunnerErrorCategory) | WFailAfter.

Record Host := mkHost {
  submit_file : option Sub.CloudSubmitLedger;
  lifecycle_file : option Life.CloudLifecycleLedger;
  execs : list (CloudSubmitOperationId * CloudInvocation);
  writes : list WriteOutcome;
  fuel : nat }.

Definition with_submit (l : option Sub.CloudSubmitLedger) (h : Host) : Host :=
  mkHost l (lifecycle_file h) (execs h) (writes h) (fuel h).
Definition with_execs (x : list (CloudSubmitOperationId * CloudInvocation)) (h : Host) : Host :=
  mkHost (submit_file h) (lifecycle_file h) x (writes h) (fuel h).

(** Spend one unit of life. *)
Definition effect : M Host unit :=
  fun h => match fuel h with
  | O => Crashed h
  | S n => Done tt (mkHost (submit_file h) (lifecycle_file h) (execs h) (writes h) n)
  end.

(** The outcome of the next write; writes beyond the listed ones succeed. *)
Definition next_write : M Host WriteOutcome :=
  fun h => match writes h with
  | [] => Done WOk h
  | w :: ws => Done w (mkHost (submit_file h) (lifecycle_file h) (execs h) ws (fuel h))
  end.

Definition put_submit (l : Sub.CloudSubmitLedger) : M Host unit := fun h => Done tt (with_submit (Some l) h).

(** [persist_cloud_ledger]: validate, write the temporary file, rename it, sync the directory. *)
Definition persist_cloud_ledger (l : Sub.CloudSubmitLedger) : M Host (result CloudRunnerError unit) :=
  match Sub.validate l with
  | Err e => ret (Err e)
  | Ok _ =>
      let! _ := effect in
      let! w := next_write in
      match w with
      | WOk => let! _ := put_submit l in ret (Ok tt)
      | WFailBefore c => ret (Err (run_err c))
      | WFailAfter => let! _ := put_submit l in ret (Err (run_err RunLedgerUnavailable))
      end
  end.

(** ** What the system answers during a call *)

Record Metadata := mkMeta { is_dir : bool; uid : Z; mode : Z }.
Inductive Lookup := Found | NotFound | LookupError.
Inductive Create := Created | AlreadyExists | CreateError.

Record SentinelOs := mkSentinelOs {
  os_lookup : Lookup; os_create : Create; os_chmod_ok : bool; os_open : option (option Metadata) }.

Inductive CloudCommandEnd := Exited | Canceled | TimedOut.
#[export] Instance CloudCommandEnd_eq_dec : EqDecision CloudCommandEnd.
Proof. solve_decision. Defined.
Record CloudCommandCompletion := mkCompletion { end_ : CloudCommandEnd; capture : CloudCapture }.
Record CloudStartFailure := mkStartFailure { sf_error : CloudRunnerError; may_have_started : bool }.

(** What a started command does: [wait], and [cancel_and_wait]. *)
Record Supervisor := mkSupervisor {
  process_identity : Sub.ProcessIdentity; wait : result CloudRunnerError CloudCommandCompletion }.

(** One turn of the page loop: the sentinel, and the list command. *)
Record PageAnswer := mkPageAnswer {
  pa_sentinel : SentinelOs; pa_start : result CloudStartFailure Supervisor }.

Record Answers := mkAnswers {
  a_scope : result CredentialScopeError unit;
  a_load_error : option CloudRunnerErrorCategory;
  a_lifecycle_load_error : option CloudLifecycleErrorCategory;
  a_version : result CloudRunnerError unit;
  a_login_ledger : result LoginBrokerError (option LedgerPhase);
  a_login_status : result CloudRunnerError PinnedStatus;
  a_sentinel : SentinelOs;
  a_sentinel_late : SentinelOs;
  a_cancelled : bool;
  a_cancelled_late : bool;
  a_start : result CloudStartFailure Supervisor;
  a_elapsed : nat -> bool;
  a_pages : nat -> CloudInvocation -> PageAnswer }.

Record Config := mkConfig { cfg_environment : CloudEnvironmentId; cfg_branch : CloudBranch; cfg_uid : Z }.

(** ** Errors of the other layers *)

Definition with_operation (e : CloudRunnerError) (op : CloudSubmitOperationId) : CloudRunnerError :=
  run_err_for (re_category e) op.

Definition map_scope_error (e : CredentialScopeError) : CloudRunnerError :=
  run_err match e with SELoginAlreadyRunning => RunBusy | _ => RunScope end.

Definition map_login_ledger_error (e : LoginBrokerError) : CloudRunnerError :=
  run_err match e with LBLedgerInvalid | LBOutcomeUnknown => RunLoginOutcomeUnknown | _ => RunProcess end.

Definition map_runtime_error (e : LoginBrokerError) : CloudRunnerError :=
  match e with
  | LBVersionMismatch => run_err RunVersion
  | LBStatusUnavailable => run_err RunNotAuthenticated
  | LBProviderOutputInvalid | LBOutputLimitExceeded => run_err RunProviderOutput
  | LBCredentialScope e => map_scope_error e
  | LBLoginAlreadyRunning => run_err RunBusy
  | LBLedgerInvalid | LBLedgerUnavailable | LBOutcomeUnknown => run_err RunLoginOutcomeUnknown
  | LBAlreadyLoggedIn | LBLoginFailed | LBProcess => run_err RunProcess
  end.

Definition map_diff_scope_error (e : CredentialScopeError) : CloudDiffReadErrorCategory :=
  match e with SELoginAlreadyRunning => DBusy | _ => DScope end.

Definition map_diff_runner_error (e : CloudRunnerError) : CloudDiffReadErrorCategory :=
  match re_category e with
  | RunScope => DScope
  | RunBusy => DBusy
  | RunVersion => DVersion
  | RunDiagnosticBoundary => DDiagnosticBoundary
  | RunTimeout => DTimeout
  | _ => DProcess
  end.

Definition map_diff_adapter_error (e : CloudAdapterError) : CloudDiffReadErrorCategory :=
  match ae_field e, ae_category e with
  | (FStdout | FStderr), (COverflow | CTooLong | CLimitExceeded) => DOutputLimit
  | FDiff, (CInvalidUtf8 | CControlCharacter) => DInvalidDiff
  | _, _ => DProviderDrift
  end.

(** ** The diagnostic sentinel directory *)

Definition boundary : CloudRunnerError := run_err RunDiagnosticBoundary.

(** [metadata.mode() & 0o7777 != 0o700], in decimal. *)
Definition validate_diagnostic_sentinel (m : option Metadata) (runner_uid : Z)
  : result CloudRunnerError unit :=
  match m with
  | None => Err boundary
  | Some m =>
      if negb (is_dir m) || bool_decide (uid m <> runner_uid)
         || bool_decide (Z.land (mode m) 4095 <> 448)
      then Err boundary else Ok tt
  end.

Definition open_and_validate_diagnostic_sentinel (os : SentinelOs) (runner_uid : Z)
  : result CloudRunnerError unit :=
  match os_open os with
  | None => Err boundary
  | Some m => validate_diagnostic_sentinel m runner_uid
  end.

Definition ensure_diagnostic_sentinel (os : SentinelOs) (runner_uid : Z) : result CloudRunnerError unit :=
  let? _ := match os_lookup os with
            | Found => Ok tt
            | NotFound =>
                match os_create os with
                | Created => if os_chmod_ok os then Ok tt else Err boundary
                | AlreadyExists => Ok tt
                | CreateError => Err boundary
                end
            | LookupError => Err boundary
            end in
  open_and_validate_diagnostic_sentinel os runner_uid.

Definition validate_existing_diagnostic_sentinel (os : SentinelOs) (runner_uid : Z)
  : result CloudDiffReadErrorCategory unit :=
  map_err (fun _ => DDiagnosticBoundary) (open_and_validate_diagnostic_sentinel os runner_uid).

(** ** Reading and recovering the durable record *)

Definition load_cloud_ledger (a : Answers) : M Host (result CloudRunnerError (option Sub.CloudSubmitLedger)) :=
  let! h := get in
  match a_load_error a with
  | Some c => ret (Err (run_err c))
  | None =>
      match submit_file h with
      | None => ret (Ok None)
      | Some l => match Sub.validate l with Ok _ => ret (Ok (Some l)) | Err e => ret (Err e) end
      end
  end.

Definition acquire_scope (a : Answers) : result CloudRunnerError unit := map_err map_scope_error (a_scope a).

Definition require_matching_config (cfg : Config) (l : Sub.CloudSubmitLedger) : result CloudRunnerError unit :=
  if Sub.matches_config (cfg_environment cfg) (cfg_branch cfg) l then Ok tt
  else Err (run_err RunLedgerInvalid).

(** Lift an answer that needs no state. *)
Definition pure {E A} (r : result E A) : M Host (result E A) := ret r.

Definition recover_current_ledger (cfg : Config) (a : Answers)
  : M Host (result CloudRunnerError (option Sub.CloudSubmitLedger)) :=
  try! loaded := load_cloud_ledger a in
  match loaded with
  | None => ret (Ok None)
  | Some l =>
      try! _ := pure (require_matching_config cfg l) in
      match Sub.latest l with
      | Sub.Intent =>
          try! l := pure (Sub.append Sub.FailedBeforeSpawn l) in
          try! _ := persist_cloud_ledger l in
          ret (Ok (Some l))
      | Sub.Authorized | Sub.Started =>
          try! l := pure (Sub.append Sub.OutcomeUnknown l) in
          try! _ := persist_cloud_ledger l in
          ret (Ok (Some l))
      | _ => ret (Ok (Some l))
      end
  end.

Definition recorded_or_invalid (l : Sub.CloudSubmitLedger) : result CloudRunnerError CloudTaskId :=
  let? t := Sub.recorded_task l in ok_or t (run_err RunLedgerInvalid).

(** [None]: nothing durable stands in the way of the requested operation. *)
Definition dispatch_existing (requested : CloudSubmitOperationId) (ledger : option Sub.CloudSubmitLedger)
  : option (result CloudRunnerError CloudSubmission) :=
  match ledger with
  | None => None
  | Some l =>
      if Sub.is_unknown (Sub.latest l) then Some (Err (run_err_for RunOutcomeUnknown (Sub.operation_id l)))
      else if bool_decide (Sub.operation_id l <> requested) then
        if Sub.permits_new_operation (Sub.latest l) then None
        else Some (Err (run_err_for RunOutcomeUnknown (Sub.operation_id l)))
      else
      match Sub.latest l with
      | Sub.TaskRecorded | Sub.TaskAdopted =>
          Some (let? t := recorded_or_invalid l in Ok (mkSubmission requested t))
      | Sub.FailedBeforeSpawn => Some (Err (run_err_for RunPriorFailedBeforeSpawn requested))
      | Sub.ExplicitlyAbandoned => Some (Err (run_err_for RunPriorExplicitlyAbandoned requested))
      | Sub.Intent | Sub.Authorized | Sub.Started | Sub.OutcomeUnknown | Sub.ReconciliationObserved =>
          Some (Err (run_err_for RunOutcomeUnknown requested))
      end
  end.

Definition classify_observation (requested : CloudSubmitOperationId) (ledger : option Sub.CloudSubmitLedger)
  : result CloudRunnerError CloudSubmitObservation :=
  match ledger with
  | None => Ok OAbsent
  | Some l =>
      if bool_decide (Sub.operation_id l <> requested) then
        if Sub.permits_new_operation (Sub.latest l) then Ok OAbsent
        else Err (run_err_for RunOperationConflict (Sub.operation_id l))
      else
      match Sub.latest l with
      | Sub.FailedBeforeSpawn => Ok OFailedBeforeSpawn
      | Sub.OutcomeUnknown | Sub.ReconciliationObserved => Ok OOutcomeUnknown
      | Sub.TaskRecorded | Sub.TaskAdopted =>
          let? t := recorded_or_invalid l in Ok (OTaskRecorded (mkSubmission requested t))
      | Sub.ExplicitlyAbandoned => Ok OExplicitlyAbandoned
      | Sub.Intent | Sub.Authorized | Sub.Started => Err (run_err RunLedgerInvalid)
      end
  end.

Definition persist_unknown (l : Sub.CloudSubmitLedger) : M Host (result CloudRunnerError unit) :=
  try! l := pure (if negb (Sub.is_unknown (Sub.latest l)) then Sub.append Sub.OutcomeUnknown l else Ok l) in
  let! r := persist_cloud_ledger l in
  ret (map_err (fun _ => run_err_for RunRecoveryRequired (Sub.operation_id l)) r).

(** ** Submitting *)

Definition authorize_login (a : Answers) : result CloudRunnerError unit :=
  let? login := map_err map_login_ledger_error (a_login_ledger a) in
  if match login with Some p => is_uncertain p | None => false end then
    Err (run_err RunLoginOutcomeUnknown)
  else
  let? status := a_login_status a in
  match status with LoggedIn => Ok tt | LoggedOut => Err (run_err RunNotAuthenticated) end.

(** [runtime.start] of the submission: the command may have run unless the runtime says it has not. *)
Definition start_exec (op : CloudSubmitOperationId) (i : CloudInvocation) (a : Answers)
  : M Host (result CloudStartFailure Supervisor) :=
  let! _ := effect in
  let ran := match a_start a with Ok _ => true | Err f => may_have_started f end in
  fun h => Done (a_start a) (if ran then with_execs (execs h ++ [(op, i)]) h else h).

(** Record a failure before the command, and report [e]. *)
Definition fail_before_spawn {A} (l : Sub.CloudSubmitLedger) (e : CloudRunnerError)
  : M Host (result CloudRunnerError A) :=
  try! l := pure (Sub.append Sub.FailedBeforeSpawn l) in
  try! _ := persist_cloud_ledger l in
  ret (Err e).

Definition unknown_outcome {A} (l : Sub.CloudSubmitLedger) (op : CloudSubmitOperationId)
  : M Host (result CloudRunnerError A) :=
  try! _ := persist_unknown l in
  ret (Err (run_err_for RunOutcomeUnknown op)).

(** From the started command to its recorded task. *)
Definition finish_submit (op : CloudSubmitOperationId) (l : Sub.CloudSubmitLedger) (s : Supervisor)
  : M Host (result CloudRunnerError CloudSubmission) :=
  try! l := pure (Sub.record_started (process_identity s) l) in
  let! r := persist_cloud_ledger l in
  if is_err r then ret (Err (run_err_for RunRecoveryRequired op))
  else
  match wait s with
  | Err _ => unknown_outcome l op
  | Ok completion =>
      if bool_decide (end_ completion <> Exited) then unknown_outcome l op
      else
      match decode_cloud_exec (capture completion) with
      | Err _ => unknown_outcome l op
      | Ok url =>
          let t := url_task_id url in
          try! recorded := pure (Sub.record_task t l) in
          let! r := persist_cloud_ledger recorded in
          if is_err r then
            let! _ := persist_unknown l in
            ret (Err (run_err_for RunRecoveryRequired op))
          else ret (Ok (mkSubmission op t))
      end
  end.

(** From the durable authorization to the command. *)
Definition authorized_submit (op : CloudSubmitOperationId) (i : CloudInvocation)
    (l : Sub.CloudSubmitLedger) (a : Answers)
  : M Host (result CloudRunnerError CloudSubmission) :=
  try! l := pure (Sub.append Sub.Authorized l) in
  try! _ := persist_cloud_ledger l in
  if a_cancelled_late a then unknown_outcome l op
  else
  let! started := start_exec op i a in
  match started with
  | Err f => if may_have_started f then unknown_outcome l op
             else fail_before_spawn l (with_operation (sf_error f) op)
  | Ok s => finish_submit op l s
  end.

Definition submit (cfg : Config) (a : Answers) (op : CloudSubmitOperationId) (prompt : CloudPrompt)
  : M Host (result CloudRunnerError CloudSubmission) :=
  try! _ := pure (acquire_scope a) in
  try! existing := recover_current_ledger cfg a in
  match dispatch_existing op existing with
  | Some result => ret result
  | None =>
      try! _ := pure (a_version a) in
      let l := Sub.new op (cfg_environment cfg) (cfg_branch cfg) in
      try! _ := persist_cloud_ledger l in
      if a_cancelled a then fail_before_spawn l (run_err_for RunCanceledBeforeStart op)
      else
      match authorize_login a with
      | Err e => fail_before_spawn l (with_operation e op)
      | Ok _ =>
          match ensure_diagnostic_sentinel (a_sentinel a) (cfg_uid cfg) with
          | Err e => fail_before_spawn l (with_operation e op)
          | Ok _ =>
              authorized_submit op (inv_exec (cfg_environment cfg) (cfg_branch cfg) prompt) l a
          end
      end
  end.

(** ** Reading from the provider *)

Definition run_read (start : result CloudStartFailure Supervisor)
  : result CloudRunnerError CloudCommandCompletion :=
  let? s := map_err sf_error start in
  let? completion := wait s in
  match end_ completion with
  | Exited => Ok completion
  | TimedOut => Err (run_err RunTimeout)
  | Canceled => Err (run_err RunProcess)
  end.

Definition status (cfg : Config) (a : Answers) (t : CloudTaskId) : result CloudRunnerError CloudTaskStatus :=
  let? _ := acquire_scope a in
  let? _ := a_version a in
  let? _ := ensure_diagnostic_sentinel (a_sentinel a) (cfg_uid cfg) in
  let? completion := run_read (a_start a) in
  map_err (fun _ => run_err RunProviderOutput) (decode_cloud_status (capture completion)).

Record DiffEligibleCloudTask := mkEligible { el_operation_id : CloudSubmitOperationId; el_task_id : CloudTaskId }.

Definition load_lifecycle_ledger (a : Answers)
  : M Host (result CloudLifecycleError (option Life.CloudLifecycleLedger)) :=
  let! h := get in
  match a_lifecycle_load_error a with
  | Some c => ret (Err (life_err c))
  | None =>
      match lifecycle_file h with
      | None => ret (Ok None)
      | Some l => match Life.validate l with Ok _ => ret (Ok (Some l)) | Err e => ret (Err e) end
      end
  end.

Definition mismatch {E A} (r : result E A) : result CloudDiffReadErrorCategory A :=
  map_err (fun _ => DAuthorityMismatch) r.

(** The [match lifecycle] of [validate_diff_authority]. *)
Definition lifecycle_authority (l : CloudLifecycle) (task : DiffEligibleCloudTask)
  : result CloudDiffReadErrorCategory unit :=
  match l with
  | LReady op t | LApplied op t =>
      if bool_decide (op = el_operation_id task) && bool_decide (t = el_task_id task) then Ok tt
      else Err DAuthorityMismatch
  | _ => Err DIneligibleLifecycle
  end.

Definition recorded_phase (p : Sub.CloudLedgerPhase) : bool :=
  match p with Sub.TaskRecorded | Sub.TaskAdopted => true | _ => false end.

Definition validate_diff_authority (cfg : Config) (a : Answers) (task : DiffEligibleCloudTask)
  : M Host (result CloudDiffReadErrorCategory unit) :=
  let! loaded := load_lifecycle_ledger a in
  try! loaded := pure (mismatch loaded) in
  try! ledger := pure (ok_or loaded DIneligibleLifecycle) in
  try! lifecycle := pure (mismatch (Life.lifecycle ledger)) in
  try! _ := pure (lifecycle_authority lifecycle task) in
  let! loaded := load_cloud_ledger a in
  try! loaded := pure (mismatch loaded) in
  try! submit := pure (ok_or loaded DAuthorityMismatch) in
  try! recorded := pure (mismatch (Sub.recorded_task submit)) in
  if bool_decide (Sub.operation_id submit <> el_operation_id task)
     || negb (Sub.matches_config (cfg_environment cfg) (cfg_branch cfg) submit)
     || negb (recorded_phase (Sub.latest submit))
     || bool_decide (recorded <> Some (el_task_id task))
  then ret (Err DAuthorityMismatch)
  else ret (Ok tt).

Definition retrieve_diff (cfg : Config) (a : Answers) (task : DiffEligibleCloudTask)
  : M Host (result CloudDiffReadErrorCategory CloudDiff) :=
  if a_cancelled a then ret (Err DCanceled)
  else
  try! _ := pure (map_err map_diff_scope_error (a_scope a)) in
  try! _ := validate_diff_authority cfg a task in
  try! _ := pure (validate_existing_diagnostic_sentinel (a_sentinel a) (cfg_uid cfg)) in
  try! _ := pure (map_err map_diff_runner_error (a_version a)) in
  if a_cancelled_late a then ret (Err DCanceled)
  else
  try! _ := pure (validate_existing_diagnostic_sentinel (a_sentinel_late a) (cfg_uid cfg)) in
  try! s := pure (map_err (fun f => map_diff_runner_error (sf_error f)) (a_start a)) in
  try! completion := pure (map_err map_diff_runner_error (wait s)) in
  match end_ completion with
  | Exited => ret (map_err map_diff_adapter_error (decode_cloud_diff (capture completion)))
  | TimedOut => ret (Err DTimeout)
  | Canceled => ret (Err DCanceled)
  end.

(** ** Reconciliation *)

Record CloudReconciliation := mkReconciliation {
  rec_operation_id : CloudSubmitOperationId; rec_tasks : list CloudTaskSummary; rec_complete : bool }.

(** The loop over the tasks of a page: [None] when one was seen before. *)
Fixpoint add_tasks (seen : list CloudTaskId) (acc page : list CloudTaskSummary)
  : option (list CloudTaskId * list CloudTaskSummary) :=
  match page with
  | [] => Some (seen, acc)
  | t :: page =>
      if bool_decide (sum_id t ∈ seen) then None
      else add_tasks (sum_id t :: seen) (acc ++ [t]) page
  end.

(** The page loop from [page_index] on, [todo] turns left.  [list_page index cursor] is
    the decoded page the list command with that cursor returned. *)
Fixpoint list_pages (elapsed : nat -> bool)
    (list_page : nat -> option CloudCursor -> result CloudRunnerError CloudTaskListPage)
    (todo page_index : nat) (cursor : option CloudCursor) (seen_cursors : list string)
    (seen : list CloudTaskId) (tasks : list CloudTaskSummary)
  : result CloudRunnerError (list CloudTaskSummary * bool) :=
  match todo with
  | O => Ok (tasks, false)
  | S todo =>
      if elapsed page_index then Ok (tasks, false)
      else
      let? page := list_page page_index cursor in
      match add_tasks seen tasks (page_tasks page) with
      | None => Err (run_err RunReconciliationCycle)
      | Some (seen, tasks) =>
          match page_cursor page with
          | None => Ok (tasks, true)
          | Some next =>
              if bool_decide (cursor_str next ∈ seen_cursors) then Err (run_err RunReconciliationCycle)
              else if Nat.eqb (page_index + 1) MAX_RECONCILIATION_PAGES
                      || (MAX_RECONCILIATION_TASKS <=? len tasks)
              then Ok (tasks, false)
              else list_pages elapsed list_page todo (S page_index) (Some next)
                     (cursor_str next :: seen_cursors) seen tasks
          end
      end
  end.

(** One page: the sentinel, the list command with the cursor, its decoded output. *)
Definition read_page (from_slice : string -> option RawTaskListPage) (cfg : Config)
    (answer : CloudInvocation -> PageAnswer) (cursor : option CloudCursor)
  : result CloudRunnerError CloudTaskListPage :=
  let p := answer (inv_list (cfg_environment cfg) cursor) in
  let? _ := ensure_diagnostic_sentinel (pa_sentinel p) (cfg_uid cfg) in
  let? completion := run_read (pa_start p) in
  map_err (fun _ => run_err RunProviderOutput) (decode_cloud_list from_slice (capture completion)).

Definition reconcile_unknown (from_slice : string -> option RawTaskListPage) (cfg : Config) (a : Answers)
  : M Host (result CloudRunnerError CloudReconciliation) :=
  try! _ := pure (acquire_scope a) in
  try! recovered := recover_current_ledger cfg a in
  try! l := pure (ok_or recovered (run_err RunNoUnknownOperation)) in
  if negb (Sub.is_unknown (Sub.latest l)) then ret (Err (run_err RunNoUnknownOperation))
  else
  try! _ := pure (require_matching_config cfg l) in
  try! _ := pure (a_version a) in
  try! (tasks, complete) :=
    pure (list_pages (a_elapsed a) (fun n => read_page from_slice cfg (a_pages a n)) MAX_RECONCILIATION_PAGES 0 None [] [] []) in
  try! l := pure (Sub.record_reconciliation (map sum_id tasks) complete l) in
  try! _ := persist_cloud_ledger l in
  ret (Ok (mkReconciliation (Sub.operation_id l) tasks complete)).

(** ** Observing and resolving *)

Definition observe_submit (cfg : Config) (a : Answers) (op : CloudSubmitOperationId)
  : M Host (result CloudRunnerError CloudSubmitObservation) :=
  try! _ := pure (acquire_scope a) in
  try! l := recover_current_ledger cfg a in
  ret (classify_observation op l).

Definition resolve_unknown (cfg : Config) (a : Answers) (op : CloudSubmitOperationId)
    (resolution : CloudUnknownResolution) : M Host (result CloudRunnerError CloudSubmitObservation) :=
  try! _ := pure (acquire_scope a) in
  try! recovered := recover_current_ledger cfg a in
  try! l := pure (ok_or recovered (run_err RunResolutionUnavailable)) in
  if bool_decide (Sub.operation_id l <> op) then
    ret (Err (run_err_for RunOperationConflict (Sub.operation_id l)))
  else
  match Sub.latest l with
  | Sub.TaskAdopted =>
      try! recorded := pure (recorded_or_invalid l) in
      match resolution with
      | RAdoptListedTask t =>
          if bool_decide (t = recorded) then ret (Ok (OTaskRecorded (mkSubmission op recorded)))
          else ret (Err (run_err_for RunResolutionConflict op))
      | RExplicitlyAbandon => ret (Err (run_err_for RunResolutionConflict op))
      end
  | Sub.ExplicitlyAbandoned =>
      match resolution with
      | RExplicitlyAbandon => ret (Ok OExplicitlyAbandoned)
      | RAdoptListedTask _ => ret (Err (run_err_for RunResolutionConflict op))
      end
  | Sub.ReconciliationObserved =>
      try! l := pure (match resolution with
                      | RAdoptListedTask t => Sub.record_adopted_task t l
                      | RExplicitlyAbandon => Sub.record_explicitly_abandoned l
                      end) in
      try! _ := persist_cloud_ledger l in
      ret (classify_observation op (Some l))
  | _ => ret (Err (run_err_for RunResolutionUnavailable op))
  end.

End Runner.
