(* ===== verification/RunnerSafety.v ===== *)
(** * The runner executes a submission at most once

    Weakest-precondition lemmas for the runner's building blocks ([CloudRunner]), and the theorems
    they give about [submit], [observe_submit], [reconcile_unknown] and [resolve_unknown] under every
    answer of the system, every write failure and a process death at any effect. *)
From S2P Require Import Prelude Effects DomainValues CloudTypes CloudAdapter SubmitLedger LifecycleLedger LoginTypes CloudRunner.
From stdpp Require Import base numbers list strings sets.
From Stdlib Require Import ZArith Lia.
Import Ids Runner.

Open Scope Z_scope.

(** ** States *)

Definition cfg_ok (cfg : Config) : Prop :=
  is_ok (CloudEnvironmentId_try_new (env_str (cfg_environment cfg))) = true /\
  is_ok (CloudBranch_try_new (branch_str (cfg_branch cfg))) = true.

Definition file_ok (h : Host) : Prop := forall l, submit_file h = Some l -> Sub.WF l.

(** What a call that does not start a command leaves alone. *)
Definition frame (h h' : Host) : Prop := execs h' = execs h /\ lifecycle_file h' = lifecycle_file h.

Lemma frame_refl h : frame h h.
Proof. done. Qed.
Lemma frame_trans h1 h2 h3 : frame h1 h2 -> frame h2 h3 -> frame h1 h3.
Proof. unfold frame. intros [] []. split; congruence. Qed.
#[export] Hint Resolve frame_refl : codebox.

(** ** Short histories *)

Definition early (p : Sub.CloudLedgerPhase) (h : list Sub.CloudLedgerPhase) : Prop :=
  match p with
  | Sub.Intent => h = [Sub.Intent]
  | Sub.Authorized => h = [Sub.Intent; Sub.Authorized]
  | Sub.Started => h = [Sub.Intent; Sub.Authorized; Sub.Started]
  | _ => True
  end.

Lemma early_history h p :
  chain Sub.valid_transition h = true -> head h = Some Sub.Intent -> last h = Some p -> early p h.
Proof.
  revert p. induction h as [|x h IH] using rev_ind; [done|]. intros p Hc Hh Hl.
  rewrite last_snoc in Hl. injection Hl as ->. destruct (last h) as [q|] eqn:Eq.
  - rewrite (chain_snoc _ _ q) in Hc by done. apply andb_true_iff in Hc as [Hc Hv].
    assert (Hh' : head h = Some Sub.Intent) by (destruct h; [done|done]).
    specialize (IH q Hc Hh' eq_refl). destruct p, q; simpl in *; try done; by rewrite IH.
  - apply last_None in Eq. subst h. simpl in *. by destruct p.
Qed.

Lemma WF_early l : Sub.WF l -> early (Sub.latest l) (Sub.history l).
Proof. intros HW. pose proof (Sub.WF_latest _ HW). destruct HW. by apply early_history. Qed.

(** On a well-formed record every transition to [FailedBeforeSpawn], [Authorized],
    [OutcomeUnknown], [Started] or [TaskRecorded] has room. *)
Lemma early_room l :
  Sub.WF l -> match Sub.latest l with Sub.Intent | Sub.Authorized | Sub.Started => True | _ => False end ->
  len (Sub.history l) <= 3.
Proof.
  intros HW Hp. pose proof (WF_early l HW) as He.
  destruct (Sub.latest l); simpl in He; try done; rewrite He; vm_compute; done.
Qed.

Lemma append_early p l :
  Sub.WF l -> match Sub.latest l with Sub.Intent | Sub.Authorized | Sub.Started => True | _ => False end ->
  Sub.valid_transition (Sub.latest l) p = true ->
  Sub.append p l = Ok (Sub.with_history (Sub.history l ++ [p]) l).
Proof.
  intros HW Hp Hv. apply Sub.submit_append_Ok. split_and!; try done.
  pose proof (early_room l HW Hp). unfold Sub.MAX_CLOUD_HISTORY_ENTRIES. lia.
Qed.

Lemma record_started_early p l :
  Sub.WF l -> Sub.latest l = Sub.Authorized -> exists l', Sub.record_started p l = Ok l'.
Proof.
  intros HW Hp. pose proof (WF_early l HW) as He. rewrite Hp in He. simpl in He.
  unfold Sub.record_started, Sub.append, Sub.latest. destruct (Sub.process l) eqn:Ep.
  - assert (Sub.Started ∈ Sub.history l) as Hin by (apply (Sub.wf_started _ HW); rewrite Ep; by eexists).
    rewrite He in Hin. set_solver.
  - simpl. rewrite He. by eexists.
Qed.

Lemma record_task_early t l :
  Sub.WF l -> Sub.latest l = Sub.Started ->
  exists l', Sub.record_task t l = Ok l' /\ Sub.task_id l' = Some (task_str t).
Proof.
  intros HW Hp. pose proof (WF_early l HW) as He. rewrite Hp in He. simpl in He.
  unfold Sub.record_task, Sub.append, Sub.latest. destruct (Sub.task_id l) eqn:Et.
  - assert (Sub.TaskRecorded ∈ Sub.history l \/ Sub.TaskAdopted ∈ Sub.history l) as Hin
      by (apply (Sub.wf_recorded _ HW); rewrite Et; by eexists).
    rewrite He in Hin. set_solver.
  - simpl. rewrite He. by eexists.
Qed.

(** What recovery makes of a record. *)
Definition recovered (l : Sub.CloudSubmitLedger) : Sub.CloudSubmitLedger :=
  match Sub.latest l with
  | Sub.Intent => Sub.with_history (Sub.history l ++ [Sub.FailedBeforeSpawn]) l
  | Sub.Authorized | Sub.Started => Sub.with_history (Sub.history l ++ [Sub.OutcomeUnknown]) l
  | _ => l
  end.

Definition recovered_phase (p : Sub.CloudLedgerPhase) : Sub.CloudLedgerPhase :=
  match p with
  | Sub.Intent => Sub.FailedBeforeSpawn
  | Sub.Authorized | Sub.Started => Sub.OutcomeUnknown
  | p => p
  end.

Lemma recovered_latest l : Sub.latest (recovered l) = recovered_phase (Sub.latest l).
Proof. unfold recovered. destruct (Sub.latest l) eqn:E; rewrite ?Sub.latest_snoc; done. Qed.

Lemma recovered_op l : Sub.operation_id (recovered l) = Sub.operation_id l.
Proof. unfold recovered. by destruct (Sub.latest l). Qed.

Lemma recovered_task l : Sub.task_id (recovered l) = Sub.task_id l.
Proof. unfold recovered. by destruct (Sub.latest l). Qed.

Lemma recovered_WF l : Sub.WF l -> Sub.WF (recovered l).
Proof.
  intros HW. unfold recovered. destruct (Sub.latest l) eqn:E; try done.
  - apply (Sub.submit_apply_op_WF Sub.AppendFailedBeforeSpawn l); [done..|]. simpl. apply append_early; by rewrite ?E.
  - apply (Sub.submit_apply_op_WF Sub.AppendOutcomeUnknown l); [done..|]. simpl. apply append_early; by rewrite ?E.
  - apply (Sub.submit_apply_op_WF Sub.AppendOutcomeUnknown l); [done..|]. simpl. apply append_early; by rewrite ?E.
Qed.

(** ** Building blocks *)

Lemma spec_effect h (Q : unit -> Host -> Prop) C :
  C h -> (forall h', frame h h' -> submit_file h' = submit_file h -> Q tt h') -> spec effect h Q C.
Proof. intros HC HQ. unfold spec, effect. destruct (fuel h); [done|]. by apply HQ. Qed.

Lemma spec_pure {E A} (r : result E A) h (Q : result E A -> Host -> Prop) C : Q r h -> spec (pure r) h Q C.
Proof. done. Qed.

(** A write: the process dies before it, it succeeds, or it fails with either file in place. *)
Lemma spec_persist l h (Q : result CloudRunnerError unit -> Host -> Prop) C :
  Sub.WF l -> C h ->
  (forall h', frame h h' -> submit_file h' = Some l -> Q (Ok tt) h') ->
  (forall e h', frame h h' -> submit_file h' = submit_file h \/ submit_file h' = Some l -> Q (Err e) h') ->
  spec (persist_cloud_ledger l) h Q C.
Proof.
  intros HW HC HOk HErr. unfold persist_cloud_ledger. rewrite (proj2 (Sub.submit_validate_iff l) HW).
  spec_step. apply spec_effect; [done|]. intros h1 Hf Hs. spec_step.
  unfold spec at 1, next_write. destruct (writes h1) as [|[| |] ws];
    repeat spec_step; unfold spec, put_submit, bind; simpl;
    first [apply HOk; [by destruct Hf|done] | apply HErr; [by destruct Hf|by left] | apply HErr; [by destruct Hf|by right]].
Qed.

Lemma spec_load a h (Q : result CloudRunnerError (option Sub.CloudSubmitLedger) -> Host -> Prop) C :
  file_ok h -> (forall e, Q (Err e) h) -> Q (Ok (submit_file h)) h -> spec (load_cloud_ledger a) h Q C.
Proof.
  intros HF HErr HOk. unfold load_cloud_ledger. spec_step. unfold spec at 1, get.
  destruct (a_load_error a); [apply HErr|]. destruct (submit_file h) as [l|] eqn:El; [|done].
  by rewrite (proj2 (Sub.submit_validate_iff l) (HF l El)).
Qed.

(** Recovery leaves the record it found or the recovered one; where it returns, the latter. *)
Lemma spec_recover cfg a h (Q : result CloudRunnerError (option Sub.CloudSubmitLedger) -> Host -> Prop) C :
  file_ok h ->
  (forall h', frame h h' -> submit_file h' = submit_file h \/ submit_file h' = recovered <$> submit_file h -> C h') ->
  (forall h', frame h h' -> submit_file h' = recovered <$> submit_file h ->
     (forall l, submit_file h = Some l -> Sub.matches_config (cfg_environment cfg) (cfg_branch cfg) l = true) ->
     Q (Ok (recovered <$> submit_file h)) h') ->
  (forall e h', frame h h' ->
     submit_file h' = submit_file h \/ submit_file h' = recovered <$> submit_file h -> Q (Err e) h') ->
  spec (recover_current_ledger cfg a) h Q C.
Proof.
  intros HF HC HOk HErr. unfold recover_current_ledger. spec_step.
  apply spec_load; [done|intros e; apply HErr; eauto with codebox|].
  destruct (submit_file h) as [l|] eqn:El; [|by apply HOk]. pose proof (HF l El) as HW.
  spec_step. apply spec_pure. unfold require_matching_config.
  destruct (Sub.matches_config _ _ l) eqn:Em; [|apply HErr; eauto with codebox].
  assert (Hok : forall h', frame h h' -> submit_file h' = Some (recovered l) -> Q (Ok (Some (recovered l))) h').
  { intros h' Hf Hs. apply (HOk h'); [done..|]. by intros ? [= <-]. }
  assert (Hrun : forall p, Sub.append p l = Ok (recovered l) ->
    spec (try! l := pure (Sub.append p l) in try! _ := persist_cloud_ledger l in ret (Ok (Some l))) h Q C).
  { intros p Hp. spec_step. apply spec_pure. rewrite Hp. spec_step.
    apply spec_persist; [by apply recovered_WF|apply HC; eauto with codebox| |].
    - intros h' Hf Hs. apply spec_ret. by apply Hok.
    - intros e h' Hf Hs. apply HErr; [done|]. by rewrite El in Hs. }
  unfold recovered in *. destruct (Sub.latest l) eqn:E;
    first [apply Hrun; apply append_early; by rewrite ?E | apply spec_ret; by apply Hok].
Qed.

(** ** Submitting *)

(** The record may be replaced by one of operation [op]: it is another operation's, and its outcome
    is settled. *)
Definition clear_to_submit (op : CloudSubmitOperationId) (file : option Sub.CloudSubmitLedger) : Prop :=
  forall l, file = Some l ->
    Sub.operation_id l <> op /\ Sub.permits_new_operation (recovered_phase (Sub.latest l)) = true.

(** A record that says the command may have run. *)
Definition committed (p : Sub.CloudLedgerPhase) : bool :=
  match p with Sub.Authorized | Sub.Started | Sub.OutcomeUnknown | Sub.TaskRecorded => true | _ => false end.

(** What a submission of [op] with command [i] leaves, however it ended. *)
Inductive submit_safe (h h' : Host) (op : CloudSubmitOperationId) (i : CloudInvocation) : Prop :=
| SafeUntouched :
    frame h h' -> submit_file h' = submit_file h \/ submit_file h' = recovered <$> submit_file h ->
    submit_safe h h' op i
| SafeNotRun l :
    frame h h' -> clear_to_submit op (submit_file h) ->
    submit_file h' = Some l -> Sub.WF l -> Sub.operation_id l = op -> submit_safe h h' op i
| SafeRun l :
    execs h' = execs h ++ [(op, i)] -> lifecycle_file h' = lifecycle_file h ->
    clear_to_submit op (submit_file h) ->
    submit_file h' = Some l -> Sub.WF l -> Sub.operation_id l = op -> committed (Sub.latest l) = true ->
    submit_safe h h' op i.

(** What it reports. *)
Definition submit_reports (h h' : Host) (op : CloudSubmitOperationId)
    (r : result CloudRunnerError CloudSubmission) : Prop :=
  match r with
  | Ok s => exists l, sub_operation_id s = op /\ submit_file h' = Some l /\ Sub.WF l /\
      Sub.operation_id l = op /\ recorded_phase (Sub.latest l) = true /\
      Sub.task_id l = Some (task_str (sub_task_id s))
  | Err e => execs h' = execs h \/
      (re_category e = RunOutcomeUnknown \/ re_category e = RunRecoveryRequired) /\ re_operation_id e = Some op
  end.

Definition submit_post h op i r h' : Prop := submit_safe h h' op i /\ submit_reports h h' op r.

Section Submit.
Context (h0 : Host) (op : CloudSubmitOperationId) (i : CloudInvocation).
Context (Hclear : clear_to_submit op (submit_file h0)).

(** Between the [Intent] write and the command: the record is the operation's own. *)
Definition not_run (h : Host) : Prop :=
  frame h0 h /\ (submit_file h = submit_file h0 \/ submit_file h = recovered <$> submit_file h0 \/
    exists l, submit_file h = Some l /\ Sub.WF l /\ Sub.operation_id l = op).

(** From the command on. *)
Definition has_run (h : Host) : Prop :=
  execs h = execs h0 ++ [(op, i)] /\ lifecycle_file h = lifecycle_file h0 /\
  exists l, submit_file h = Some l /\ Sub.WF l /\ Sub.operation_id l = op /\ committed (Sub.latest l) = true.

Lemma not_run_safe h : not_run h -> submit_safe h0 h op i.
Proof.
  intros [Hf [Hs|[Hs|(l & Hs & HW & Ho)]]]; [by apply SafeUntouched; auto..|by eapply SafeNotRun].
Qed.

Lemma has_run_safe h : has_run h -> submit_safe h0 h op i.
Proof. intros (? & ? & l & ? & ? & ? & ?). by eapply SafeRun. Qed.

Lemma not_run_frame h h' l :
  not_run h -> frame h h' -> Sub.WF l -> Sub.operation_id l = op ->
  submit_file h' = submit_file h \/ submit_file h' = Some l -> not_run h'.
Proof.
  intros [Hf Hs] Hf' HW Ho H'. split; [by eapply frame_trans|].
  destruct H' as [->| ->]; [done|]. right. right. by exists l.
Qed.

Lemma has_run_frame h h' l :
  has_run h -> frame h h' -> Sub.WF l -> Sub.operation_id l = op -> committed (Sub.latest l) = true ->
  submit_file h' = submit_file h \/ submit_file h' = Some l -> has_run h'.
Proof.
  intros (He & Hl & H) [Hf1 Hf2] HW Ho Hc H'. unfold has_run. rewrite Hf1, Hf2.
  split_and!; [done..|]. destruct H' as [->| ->]; [done|]. by exists l.
Qed.

Lemma append_step o l l' :
  Sub.WF l -> Sub.operation_id l = op -> Sub.op_valid o -> Sub.apply_op o l = Ok l' ->
  Sub.WF l' /\ Sub.operation_id l' = op /\ Sub.latest l' = Sub.op_phase o.
Proof.
  intros HW Ho Hv H. pose proof (Sub.apply_op_history _ _ _ H) as (_ & _ & _ & Hop & _).
  split_and!; [by eapply Sub.submit_apply_op_WF|congruence|by eapply Sub.apply_op_latest].
Qed.

(** Failing before the command. *)
Lemma spec_fail_before_spawn {A} l e h (Q : result CloudRunnerError A -> Host -> Prop) C :
  Sub.WF l -> Sub.operation_id l = op -> Sub.latest l = Sub.Intent \/ Sub.latest l = Sub.Authorized ->
  not_run h -> C h -> (forall e h', not_run h' -> Q (Err e) h') ->
  spec (fail_before_spawn l e) h Q C.
Proof.
  intros HW Ho Hp Hn HC HQ. unfold fail_before_spawn.
  assert (He : Sub.append Sub.FailedBeforeSpawn l =
    Ok (Sub.with_history (Sub.history l ++ [Sub.FailedBeforeSpawn]) l)).
  { apply append_early; [done|destruct Hp as [-> | ->]; done..]. }
  destruct (append_step Sub.AppendFailedBeforeSpawn l _ HW Ho I He) as (HW' & Ho' & _).
  spec_step. apply spec_pure. rewrite He. spec_step. apply spec_persist; [done..| |].
  - intros h' Hf Hs. apply spec_ret. apply HQ. eapply not_run_frame; eauto.
  - intros e' h' Hf Hs. apply HQ. eapply not_run_frame; eauto.
Qed.

Definition uncertain (e : CloudRunnerError) : Prop :=
  (re_category e = RunOutcomeUnknown \/ re_category e = RunRecoveryRequired) /\ re_operation_id e = Some op.

(** Recording an unknown outcome, before or after the command ran. *)
Lemma spec_persist_unknown (J : Host -> Prop) l h (Q : result CloudRunnerError unit -> Host -> Prop) C :
  Sub.WF l -> Sub.operation_id l = op -> Sub.latest l = Sub.Authorized \/ Sub.latest l = Sub.Started ->
  (forall h' l', frame h h' -> Sub.WF l' -> Sub.operation_id l' = op -> committed (Sub.latest l') = true ->
     submit_file h' = submit_file h \/ submit_file h' = Some l' -> J h') ->
  C h -> (forall h', J h' -> Q (Ok tt) h') -> (forall e h', J h' -> uncertain e -> Q (Err e) h') ->
  spec (persist_unknown l) h Q C.
Proof.
  intros HW Ho Hp HJ HC HOk HErr. unfold persist_unknown.
  assert (He : Sub.append Sub.OutcomeUnknown l = Ok (Sub.with_history (Sub.history l ++ [Sub.OutcomeUnknown]) l)).
  { apply append_early; [done|destruct Hp as [-> | ->]; done..]. }
  destruct (append_step Sub.AppendOutcomeUnknown l _ HW Ho I He) as (HW' & Ho' & Hl').
  assert (Hc : committed (Sub.latest (Sub.with_history (Sub.history l ++ [Sub.OutcomeUnknown]) l)) = true)
    by (by rewrite Hl').
  spec_step. apply spec_pure.
  replace (negb (Sub.is_unknown (Sub.latest l))) with true by (destruct Hp as [-> | ->]; done).
  rewrite He. spec_step. apply spec_persist; [done..| |].
  - intros h' Hf Hs. apply spec_ret. apply HOk. eapply HJ; eauto.
  - intros e h' Hf Hs. apply spec_ret. simpl. apply HErr; [eapply HJ; eauto|].
    split; [by right|]. simpl. by rewrite Ho.
Qed.

Lemma spec_unknown_outcome {A} (J : Host -> Prop) l h (Q : result CloudRunnerError A -> Host -> Prop) C :
  Sub.WF l -> Sub.operation_id l = op -> Sub.latest l = Sub.Authorized \/ Sub.latest l = Sub.Started ->
  (forall h' l', frame h h' -> Sub.WF l' -> Sub.operation_id l' = op -> committed (Sub.latest l') = true ->
     submit_file h' = submit_file h \/ submit_file h' = Some l' -> J h') ->
  C h -> (forall e h', J h' -> uncertain e -> Q (Err e) h') ->
  spec (unknown_outcome l op) h Q C.
Proof.
  intros HW Ho Hp HJ HC HErr. unfold unknown_outcome. spec_step.
  apply (spec_persist_unknown J); try done. intros h' HJ'. apply spec_ret. apply HErr; [done|].
  split; [by left|done].
Qed.

Lemma has_run_keep h : has_run h ->
  forall h' l', frame h h' -> Sub.WF l' -> Sub.operation_id l' = op -> committed (Sub.latest l') = true ->
    submit_file h' = submit_file h \/ submit_file h' = Some l' -> has_run h'.
Proof. intros. eapply has_run_frame; eauto. Qed.

Lemma not_run_keep h : not_run h ->
  forall h' l', frame h h' -> Sub.WF l' -> Sub.operation_id l' = op -> committed (Sub.latest l') = true ->
    submit_file h' = submit_file h \/ submit_file h' = Some l' -> not_run h'.
Proof. intros. eapply not_run_frame; eauto. Qed.

(** The postcondition of everything after the [Intent] write. *)
Definition Post (r : result CloudRunnerError CloudSubmission) (h' : Host) : Prop :=
  submit_post h0 op i r h'.
Definition Dead (h' : Host) : Prop := submit_safe h0 h' op i.

Lemma Post_not_run e h : not_run h -> Post (Err e) h.
Proof. intros H. split; [by apply not_run_safe|]. left. by destruct H as [[]]. Qed.

Lemma Post_has_run e h : has_run h -> uncertain e -> Post (Err e) h.
Proof. intros H He. split; [by apply has_run_safe|by right]. Qed.

Lemma decode_cloud_exec_valid c u : decode_cloud_exec c = Ok u -> valid_task (url_task_id u).
Proof.
  unfold decode_cloud_exec. intros H. repeat (break_match_hyp; simplify_eq; try done).
  apply CloudTaskUrl_try_new_Ok in H as (t & Hv & -> & _). done.
Qed.

Lemma spec_finish_submit l s h :
  Sub.WF l -> Sub.operation_id l = op -> Sub.latest l = Sub.Authorized -> has_run h ->
  spec (finish_submit op l s) h Post Dead.
Proof.
  intros HW Ho Hp Hr. unfold finish_submit. spec_step. apply spec_pure.
  destruct (record_started_early (process_identity s) l HW Hp) as [l1 E1]. rewrite E1.
  destruct (append_step (Sub.RecordStarted (process_identity s)) l l1 HW Ho I E1) as (HW1 & Ho1 & Hl1).
  simpl in Hl1.
  spec_step. apply spec_persist; [done|by apply has_run_safe| |].
  2:{ intros e h' Hf Hs. apply Post_has_run; [|split; [by right|done]].
      eapply has_run_frame; eauto. by rewrite Hl1. }
  intros h1 Hf1 Hs1. simpl.
  assert (Hr1 : has_run h1) by (eapply has_run_frame; eauto; by rewrite Hl1).
  assert (Hunk : spec (unknown_outcome l1 op) h1 Post Dead).
  { apply (spec_unknown_outcome has_run); eauto using has_run_keep, has_run_safe, Post_has_run.
    by apply has_run_safe. }
  destruct (wait s) as [completion|]; [|done]. case_bool_decide; [done|].
  destruct (decode_cloud_exec (capture completion)) as [url|] eqn:Eu; [|done].
  pose proof (decode_cloud_exec_valid _ _ Eu) as Hvt. spec_step. apply spec_pure.
  destruct (record_task_early (url_task_id url) l1 HW1 Hl1) as (l2 & E2 & Ht2). rewrite E2.
  destruct (append_step (Sub.RecordTask (url_task_id url)) l1 l2 HW1 Ho1 Hvt E2) as (HW2 & Ho2 & Hl2).
  simpl in Hl2.
  spec_step. apply spec_persist; [done|by apply has_run_safe| |].
  - intros h2 Hf2 Hs2. simpl. apply spec_ret. split.
    + apply has_run_safe. eapply has_run_frame; eauto. by rewrite Hl2.
    + exists l2. split_and!; try done. by rewrite Hl2.
  - intros e h2 Hf2 Hs2. simpl.
    assert (Hr2 : has_run h2) by (eapply has_run_frame; eauto; by rewrite Hl2).
    spec_step. apply (spec_persist_unknown has_run); eauto using has_run_keep; [by apply has_run_safe| |].
    + intros h3 Hr3. apply spec_ret. apply Post_has_run; [done|]. split; [by right|done].
    + intros e3 h3 Hr3 _. apply spec_ret. apply Post_has_run; [done|]. split; [by right|done].
Qed.

Lemma spec_start_exec a h (Q : result CloudStartFailure Supervisor -> Host -> Prop) C :
  C h ->
  (forall h', frame h h' -> submit_file h' = submit_file h ->
     (match a_start a with Ok _ => true | Err f => may_have_started f end) = false -> Q (a_start a) h') ->
  (forall h', execs h' = execs h ++ [(op, i)] -> lifecycle_file h' = lifecycle_file h ->
     submit_file h' = submit_file h ->
     (match a_start a with Ok _ => true | Err f => may_have_started f end) = true -> Q (a_start a) h') ->
  spec (start_exec op i a) h Q C.
Proof.
  intros HC Hno Hyes. unfold start_exec. spec_step. apply spec_effect; [done|].
  intros h1 [Hf1 Hf2] Hs. unfold spec.
  destruct (match a_start a with Ok _ => true | Err f => may_have_started f end) eqn:E.
  - apply Hyes; simpl; congruence.
  - by apply Hno.
Qed.

Lemma spec_authorized_submit l a h :
  Sub.WF l -> Sub.operation_id l = op -> Sub.latest l = Sub.Intent -> not_run h ->
  spec (authorized_submit op i l a) h Post Dead.
Proof.
  intros HW Ho Hp Hn. unfold authorized_submit. spec_step. apply spec_pure.
  assert (He : Sub.append Sub.Authorized l = Ok (Sub.with_history (Sub.history l ++ [Sub.Authorized]) l))
    by (apply append_early; by rewrite ?Hp).
  destruct (append_step Sub.AppendAuthorized l _ HW Ho I He) as (HW1 & Ho1 & Hl1). simpl in Hl1.
  rewrite He. set (l1 := Sub.with_history _ l) in *. clearbody l1.
  spec_step. apply spec_persist; [done|by apply not_run_safe| |].
  2:{ intros e h' Hf Hs. apply Post_not_run. eapply not_run_frame; eauto. }
  intros h1 Hf1 Hs1. assert (Hn1 : not_run h1) by (eapply not_run_frame; eauto).
  destruct (a_cancelled_late a).
  { apply (spec_unknown_outcome not_run); eauto using not_run_keep, Post_not_run. by apply not_run_safe. }
  spec_step. apply spec_start_exec; [by apply not_run_safe| |].
  - intros h2 Hf2 Hs2 E. assert (Hn2 : not_run h2).
    { eapply not_run_frame; [exact Hn1|done|exact HW1|done|]. by left. }
    destruct (a_start a) as [s|f]; [done|]. rewrite E.
    apply spec_fail_before_spawn; eauto using Post_not_run. by apply not_run_safe.
  - intros h2 Hx2 Hl2 Hs2 E.
    assert (Hr2 : has_run h2).
    { destruct Hn1 as [[Hx Hl] _]. split_and!; [congruence|congruence|].
      exists l1. rewrite Hs2, Hs1, Hl1. done. }
    destruct (a_start a) as [s|f]; [by apply spec_finish_submit|]. rewrite E.
    apply (spec_unknown_outcome has_run); eauto using has_run_keep, Post_has_run. by apply has_run_safe.
Qed.

End Submit.

(** A file that may be replaced after recovery could be before. *)
Lemma dispatch_clear op file :
  dispatch_existing op (recovered <$> file) = None -> clear_to_submit op file.
Proof.
  intros H l ->. simpl in H. rewrite recovered_latest, recovered_op in H.
  destruct (Sub.is_unknown _) eqn:Eu; [done|].
  case_bool_decide as Hd; [|by destruct (recovered_phase _)].
  destruct (Sub.permits_new_operation _); done.
Qed.

Lemma dispatch_reports op file h' r :
  (forall l, file = Some l -> Sub.WF l) -> submit_file h' = recovered <$> file ->
  dispatch_existing op (recovered <$> file) = Some (Ok r) ->
  submit_reports h' h' op (Ok r).
Proof.
  intros HF Hs. destruct file as [l|]; [|done]. simpl in *. pose proof (recovered_WF l (HF l eq_refl)) as HW.
  destruct (Sub.is_unknown _) eqn:Eu; [done|]. case_bool_decide as Hd; [by destruct (Sub.permits_new_operation _)|].
  intros H. exists (recovered l).
  assert (Hrec : recorded_phase (Sub.latest (recovered l)) = true /\
    (let? t := recorded_or_invalid (recovered l) in Ok (mkSubmission op t)) = Ok r)
    by (destruct (Sub.latest (recovered l)); simplify_eq; done).
  destruct Hrec as [Hrp Hr]. unfold recorded_or_invalid in Hr.
  destruct (Sub.recorded_task (recovered l)) as [t|] eqn:Et; [|done]. apply Sub.recorded_task_Ok in Et.
  destruct t as [t|]; [|done]. simpl in Hr. simplify_eq. simpl.
  split_and!; try done. destruct (Sub.task_id (recovered l)); [|done]. by destruct Et as [[= ->] _].
Qed.

Lemma spec_submit cfg a op prompt h :
  cfg_ok cfg -> file_ok h -> is_nil (op_uuid op) = false ->
  spec (submit cfg a op prompt) h
    (submit_post h op (inv_exec (cfg_environment cfg) (cfg_branch cfg) prompt))
    (fun h' => submit_safe h h' op (inv_exec (cfg_environment cfg) (cfg_branch cfg) prompt)).
Proof.
  intros [He Hb] HF Hop. set (i := inv_exec _ _ _). unfold submit.
  assert (Herr : forall e h', frame h h' ->
    submit_file h' = submit_file h \/ submit_file h' = recovered <$> submit_file h -> submit_post h op i (Err e) h').
  { intros e h' Hf Hs. split; [by apply SafeUntouched|]. left. by destruct Hf. }
  spec_step. apply spec_pure. destruct (acquire_scope a); [|apply Herr; eauto with codebox].
  spec_step. apply spec_recover; [done|intros; by apply SafeUntouched| |done].
  intros h1 Hf1 Hs1 _. destruct (dispatch_existing op _) as [[r|e]|] eqn:Ed.
  { apply spec_ret. split; [apply SafeUntouched; auto|].
    by destruct (dispatch_reports op (submit_file h) h1 r HF Hs1 Ed) as (l & ?); exists l. }
  { apply spec_ret. apply Herr; auto. }
  apply dispatch_clear in Ed. spec_step. apply spec_pure. destruct (a_version a); [|apply Herr; auto].
  pose proof (Sub.WF_new op (cfg_environment cfg) (cfg_branch cfg) Hop He Hb) as HW.
  assert (Hn1 : not_run h op h1) by (split; [done|auto]).
  set (l := Sub.new op _ _) in *. assert (Hl : Sub.latest l = Sub.Intent) by done.
  assert (Ho : Sub.operation_id l = op) by done. clearbody l.
  spec_step. apply spec_persist; [done|by apply not_run_safe| |].
  2:{ intros e h' Hf Hs. apply (Post_not_run h op i Ed). eapply not_run_frame; eauto. }
  intros h2 Hf2 Hs2. assert (Hn2 : not_run h op h2) by (eapply not_run_frame; eauto).
  assert (Hfail : forall e, spec (fail_before_spawn l e) h2 (submit_post h op i) (fun h' => submit_safe h h' op i)).
  { intros e. eapply (spec_fail_before_spawn h op); eauto using not_run_safe.
    intros e' h' Hn'. by apply (Post_not_run h op i Ed). }
  destruct (a_cancelled a); [done|]. destruct (authorize_login a); [|done].
  destruct (ensure_diagnostic_sentinel _ _); [|done].
  by apply (spec_authorized_submit h op i Ed).
Qed.

(** ** Reconciliation: what the page loop returns *)

Lemma add_tasks_spec seen acc page seen' acc' :
  add_tasks seen acc page = Some (seen', acc') ->
  acc' = acc ++ page /\ NoDup (sum_id <$> page) /\ (forall t, t ∈ page -> sum_id t ∉ seen) /\
  (forall x, x ∈ seen' <-> x ∈ seen \/ x ∈ sum_id <$> page).
Proof.
  revert seen acc. induction page as [|t page IH]; simpl; intros seen acc H.
  { simplify_eq. rewrite app_nil_r. split_and!; [done|constructor| |]; set_solver. }
  case_bool_decide as Hin; [done|]. apply IH in H as (-> & Hnd & Hd & Hs).
  rewrite <- app_assoc. split_and!; [done| | |].
  - constructor; [|done]. intros (t' & He & Ht')%list_elem_of_fmap. apply (Hd t' Ht'). rewrite <- He. left.
  - intros t' [->|Ht']%elem_of_cons; [done|]. specialize (Hd t' Ht'). set_solver.
  - intros x. rewrite Hs. set_solver.
Qed.

Section Pages.
Context (elapsed : nat -> bool).
Context (list_page : nat -> option CloudCursor -> result CloudRunnerError CloudTaskListPage).
(** What the decoder guarantees of every page. *)
Context (Hpage : forall n c page, list_page n c = Ok page ->
  len (page_tasks page) <= MAX_TASKS /\ Forall (fun t => valid_task (sum_id t)) (page_tasks page)).

(** The loop never collects a task twice and stays within one hundred. *)
Lemma list_pages_spec todo n cursor cursors seen tasks ts complete :
  (todo + n = MAX_RECONCILIATION_PAGES)%nat ->
  (forall x, x ∈ seen <-> x ∈ sum_id <$> tasks) -> NoDup (sum_id <$> tasks) ->
  Forall (fun t => valid_task (sum_id t)) tasks -> len tasks <= Z.of_nat n * MAX_TASKS ->
  list_pages elapsed list_page todo n cursor cursors seen tasks = Ok (ts, complete) ->
  NoDup (sum_id <$> ts) /\ Forall (fun t => valid_task (sum_id t)) ts /\ len ts <= MAX_RECONCILIATION_TASKS.
Proof.
  revert n cursor cursors seen tasks. induction todo as [|todo IH]; intros n cursor cursors seen tasks Hn Hseen Hnd HF Hlen; simpl.
  { intros [= <- <-]. unfold MAX_RECONCILIATION_PAGES, MAX_RECONCILIATION_TASKS, MAX_TASKS in *.
    split_and!; [done..|lia]. }
  assert (Hbound : forall k, (k <= MAX_RECONCILIATION_PAGES)%nat -> Z.of_nat k * MAX_TASKS <= MAX_RECONCILIATION_TASKS)
    by (unfold MAX_RECONCILIATION_PAGES, MAX_RECONCILIATION_TASKS, MAX_TASKS; intros; lia).
  destruct (elapsed n).
  { intros [= <- <-]. split_and!; [done..|]. etrans; [done|]. apply Hbound. lia. }
  destruct (list_page n cursor) as [page|] eqn:Ep; [|done]. apply Hpage in Ep as [Hpl Hpv].
  destruct (add_tasks seen tasks (page_tasks page)) as [[seen1 tasks1]|] eqn:Ea; [|done].
  apply add_tasks_spec in Ea as (-> & Hnd1 & Hd & Hs1).
  assert (Hnd' : NoDup (sum_id <$> tasks ++ page_tasks page)).
  { rewrite fmap_app. apply NoDup_app. split_and!; [done| |done]. intros x Hx (t & -> & Ht)%list_elem_of_fmap.
    apply (Hd t Ht). by apply Hseen. }
  assert (HF' : Forall (fun t => valid_task (sum_id t)) (tasks ++ page_tasks page)) by (by apply Forall_app).
  assert (Hlen' : len (tasks ++ page_tasks page) <= Z.of_nat (S n) * MAX_TASKS)
    by (unfold len in *; rewrite length_app; lia).
  assert (Hdone : len (tasks ++ page_tasks page) <= MAX_RECONCILIATION_TASKS)
    by (etrans; [done|]; apply Hbound; lia).
  destruct (page_cursor page) as [next|]; [|intros [= <- <-]; done].
  case_bool_decide; [done|]. destruct (_ || _); [intros [= <- <-]; done|].
  apply IH; try done; [lia|]. intros x. rewrite Hs1, Hseen, fmap_app. set_solver.
Qed.
End Pages.

Lemma read_page_ok from_slice cfg answer cursor page :
  read_page from_slice cfg answer cursor = Ok page ->
  len (page_tasks page) <= MAX_TASKS /\ Forall (fun t => valid_task (sum_id t)) (page_tasks page).
Proof.
  unfold read_page. intros H. repeat (break_match_hyp; simplify_eq; try done).
  destruct (decode_cloud_list _ _) as [p|] eqn:Ed; simplify_eq/=.
  apply decode_cloud_list_Ok in Ed as (Hlen & _ & HF & _). split; [done|].
  eapply Forall_impl; [exact HF|]. by intros t [].
Qed.

(** ** Every call on one record *)

(** The record a call may leave when it does not submit: the one it found, recovered, and then
    possibly reconciled or resolved. *)
Inductive record_step (l l' : Sub.CloudSubmitLedger) : Prop :=
| StepKeep : l' = l -> record_step l l'
| StepRecover : l' = recovered l -> record_step l l'
| StepRecord o :
    Sub.op_valid o ->
    match Sub.op_phase o with
    | Sub.ReconciliationObserved | Sub.TaskAdopted | Sub.ExplicitlyAbandoned => True
    | _ => False
    end ->
    Sub.apply_op o (recovered l) = Ok l' -> record_step l l'.

Definition file_step (h h' : Host) : Prop :=
  match submit_file h with
  | None => submit_file h' = None
  | Some l => exists l', submit_file h' = Some l' /\ record_step l l'
  end.

Lemma file_step_untouched h h' :
  submit_file h' = submit_file h \/ submit_file h' = recovered <$> submit_file h -> file_step h h'.
Proof.
  unfold file_step. destruct (submit_file h) as [l|]; simpl; [|tauto].
  intros [->| ->]; eexists; (split; [done|]); [by apply StepKeep|by apply StepRecover].
Qed.

Lemma spec_reconcile fs cfg a h :
  file_ok h ->
  spec (reconcile_unknown fs cfg a) h
    (fun r h' => frame h h' /\ file_step h h' /\
       match r with
       | Ok rec => exists l, submit_file h' = Some l /\ rec_operation_id rec = Sub.operation_id l /\
           Sub.latest l = Sub.ReconciliationObserved /\
           Sub.candidate_task_ids l = map task_str (sum_id <$> rec_tasks rec) /\
           Sub.reconciliation_complete l = Some (rec_complete rec) /\
           NoDup (sum_id <$> rec_tasks rec) /\ len (rec_tasks rec) <= MAX_RECONCILIATION_TASKS /\
           (forall l0, submit_file h = Some l0 ->
              Sub.history l = Sub.history (recovered l0) ++ [Sub.ReconciliationObserved])
       | Err _ => True
       end)
    (fun h' => frame h h' /\ file_step h h').
Proof.
  intros HF. unfold reconcile_unknown. spec_step. apply spec_pure.
  destruct (acquire_scope a); [|split_and!; auto using file_step_untouched with codebox].
  spec_step. apply spec_recover; [done|auto using file_step_untouched| |auto using file_step_untouched].
  intros h1 Hf1 Hs1 _.
  assert (Hst1 : file_step h h1) by (apply file_step_untouched; auto).
  spec_step. apply spec_pure. destruct (submit_file h) as [l0|] eqn:El; cbn [ok_or fmap option_fmap option_map]; [|done].
  destruct (negb _); [done|]. spec_step. apply spec_pure. destruct (require_matching_config _ _); [|done].
  spec_step. apply spec_pure. destruct (a_version a); [|done]. spec_step. apply spec_pure.
  destruct (list_pages _ _ _ _ _ _ _ _) as [[ts complete]|] eqn:Ep; [|done].
  apply (list_pages_spec _ _ (fun n c page => read_page_ok fs cfg (a_pages a n) c page)) in Ep
    as (Hnd & HFv & Hlen); [|done|set_solver|constructor|done|done].
  pose proof (recovered_WF l0 (HF l0 El)) as HW. spec_step. apply spec_pure.
  destruct (Sub.record_reconciliation _ _ _) as [l|] eqn:Er; [|done].
  assert (Hval : Sub.op_valid (Sub.RecordReconciliation (map sum_id ts) complete)) by (simpl; by apply Forall_map).
  pose proof (Sub.submit_apply_op_WF (Sub.RecordReconciliation (map sum_id ts) complete) _ _ HW Hval Er) as HWl.
  pose proof (Sub.apply_op_latest (Sub.RecordReconciliation (map sum_id ts) complete) _ _ Er) as Hlat.
  assert (Hstep : record_step l0 l) by (by apply (StepRecord _ _ (Sub.RecordReconciliation (map sum_id ts) complete))).
  spec_step. apply spec_persist; [done|done| |].
  - intros h2 Hf2 Hs2. apply spec_ret. split_and!; [by eapply frame_trans|unfold file_step; rewrite El; eauto|].
    destruct (Sub.record_reconciliation_fields _ _ _ _ Er) as [Hc Hco]. exists l. split_and!; try done.
    intros l1 [= <-]. apply (Sub.apply_op_history (Sub.RecordReconciliation (map sum_id ts) complete) _ _ Er).
  - intros e h2 Hf2 [Hs2|Hs2]; (split_and!; [by eapply frame_trans| |done]); unfold file_step; rewrite El.
    + rewrite Hs2, Hs1. eexists. split; [done|by apply StepRecover].
    + eauto.
Qed.

Lemma spec_observe cfg a op h :
  file_ok h ->
  spec (observe_submit cfg a op) h
    (fun r h' => frame h h' /\ file_step h h' /\
       forall obs, r = Ok obs -> classify_observation op (recovered <$> submit_file h) = Ok obs)
    (fun h' => frame h h' /\ file_step h h').
Proof.
  intros HF. unfold observe_submit. spec_step. apply spec_pure.
  destruct (acquire_scope a); [|split_and!; auto using file_step_untouched with codebox; done].
  spec_step. apply spec_recover; [done|auto using file_step_untouched| |].
  - intros h1 Hf1 Hs1 _. apply spec_ret. split_and!; auto using file_step_untouched.
  - intros e h1 Hf1 Hs1. split_and!; auto using file_step_untouched. done.
Qed.

Lemma record_adopted_valid t l l' : Sub.WF l -> Sub.record_adopted_task t l = Ok l' -> valid_task t.
Proof.
  intros HW. unfold Sub.record_adopted_task. destruct (bool_decide (Sub.latest l <> _)); [done|].
  destruct (bool_decide (Sub.task_id l <> None)); [done|]. destruct (negb _) eqn:Ec; [done|]. intros _.
  apply Sub.existsb_false_elem in Ec. pose proof (Sub.wf_candidates_valid _ HW) as HF.
  rewrite Forall_forall in HF. specialize (HF _ Ec). by destruct t.
Qed.

Lemma spec_resolve cfg a op r h :
  file_ok h ->
  spec (resolve_unknown cfg a op r) h (fun _ h' => frame h h' /\ file_step h h')
    (fun h' => frame h h' /\ file_step h h').
Proof.
  intros HF. unfold resolve_unknown. spec_step. apply spec_pure.
  destruct (acquire_scope a); [|auto using file_step_untouched with codebox].
  spec_step. apply spec_recover; [done|auto using file_step_untouched| |auto using file_step_untouched].
  intros h1 Hf1 Hs1 _. assert (Hst1 : file_step h h1) by (apply file_step_untouched; auto).
  spec_step. apply spec_pure. destruct (submit_file h) as [l0|] eqn:El; simpl; [|done].
  case_bool_decide; [done|]. pose proof (recovered_WF l0 (HF l0 El)) as HW.
  destruct (Sub.latest (recovered l0)) eqn:Elat; try done.
  - spec_step. apply spec_pure.
    set (o := match r with RAdoptListedTask t => Sub.RecordAdoptedTask t | RExplicitlyAbandon => Sub.RecordExplicitlyAbandoned end).
    replace (match r with RAdoptListedTask t => _ | RExplicitlyAbandon => _ end) with (Sub.apply_op o (recovered l0))
      by (by destruct r).
    destruct (Sub.apply_op o (recovered l0)) as [l|] eqn:Eo; [|done].
    assert (Hval : Sub.op_valid o) by (destruct r; [by eapply record_adopted_valid|done]).
    pose proof (Sub.submit_apply_op_WF o _ _ HW Hval Eo) as HWl.
    assert (Hstep : record_step l0 l) by (apply (StepRecord _ _ o); [done|by destruct r|done]).
    spec_step. apply spec_persist; [done|done| |].
    + intros h2 Hf2 Hs2. apply spec_ret. split; [by eapply frame_trans|]. unfold file_step. rewrite El. eauto.
    + intros e h2 Hf2 [Hs2|Hs2]; (split; [by eapply frame_trans|]); unfold file_step; rewrite El; [|eauto].
      rewrite Hs2, Hs1. eexists. split; [done|by apply StepRecover].
  - spec_step. apply spec_pure. destruct (recorded_or_invalid _); [|done]. destruct r; [|done].
    by case_bool_decide.
  - by destruct r.
Qed.

(** ** Sequences of calls *)

Inductive Call :=
| CSubmit (a : Answers) (op : CloudSubmitOperationId) (prompt : CloudPrompt)
| CObserve (a : Answers) (op : CloudSubmitOperationId)
| CReconcile (a : Answers)
| CResolve (a : Answers) (op : CloudSubmitOperationId) (r : CloudUnknownResolution).

(** A call in a process of its own: how many effects it lives, and how its writes end. *)
Record Attempt := mkAttempt { at_call : Call; at_writes : list WriteOutcome; at_fuel : nat }.

Definition boot (ws : list WriteOutcome) (n : nat) (h : Host) : Host :=
  mkHost (submit_file h) (lifecycle_file h) (execs h) ws n.

Definition attempt (fs : string -> option RawTaskListPage) (cfg : Config) (t : Attempt) (h : Host) : Host :=
  let h := boot (at_writes t) (at_fuel t) h in
  match at_call t with
  | CSubmit a op p => outcome_state (submit cfg a op p h)
  | CObserve a op => outcome_state (observe_submit cfg a op h)
  | CReconcile a => outcome_state (reconcile_unknown fs cfg a h)
  | CResolve a op r => outcome_state (resolve_unknown cfg a op r h)
  end.

(** Operation identifiers are never nil (their constructor draws until they are not). *)
Definition call_ok (t : Attempt) : Prop :=
  match at_call t with CSubmit _ op _ => is_nil (op_uuid op) = false | _ => True end.

Definition attempts fs cfg (ts : list Attempt) (h : Host) : Host := foldl (fun h t => attempt fs cfg t h) h ts.

Lemma spec_outcome {A} (m : M Host A) h (J : Host -> Prop) :
  spec m h (fun _ h' => J h') J -> J (outcome_state (m h)).
Proof. unfold spec. by destruct (m h). Qed.

Lemma submit_safe_boot ws n h h' op i : submit_safe (boot ws n h) h' op i -> submit_safe h h' op i.
Proof. intros [? ?|l ? ? ? ? ?|l ? ? ? ? ? ? ?]; [by apply SafeUntouched|by eapply SafeNotRun|by eapply SafeRun]. Qed.

(** What one attempt does: a submission is safe, everything else steps the record. *)
Lemma attempt_cases fs cfg t h :
  cfg_ok cfg -> file_ok h -> call_ok t ->
  (exists op i, submit_safe h (attempt fs cfg t h) op i) \/
  (frame h (attempt fs cfg t h) /\ file_step h (attempt fs cfg t h)).
Proof.
  intros Hc HF Hk. unfold attempt. set (h1 := boot _ _ h). assert (HF1 : file_ok h1) by exact HF.
  destruct (at_call t) as [a op p|a op|a|a op r] eqn:Et.
  - left. exists op, (inv_exec (cfg_environment cfg) (cfg_branch cfg) p).
    assert (is_nil (op_uuid op) = false) as Hop by (unfold call_ok in Hk; by rewrite Et in Hk).
    apply (submit_safe_boot (at_writes t) (at_fuel t)). apply (spec_outcome _ _ (fun h' => submit_safe h1 h' op _)). eapply spec_mono; [by apply spec_submit| |done].
    by intros r h' [].
  - right. apply (spec_outcome _ h1 (fun h' => frame h1 h' /\ file_step h1 h')).
    eapply spec_mono; [by apply spec_observe| |done]. by intros ? ? (? & ? & _).
  - right. apply (spec_outcome _ h1 (fun h' => frame h1 h' /\ file_step h1 h')).
    eapply spec_mono; [by apply spec_reconcile| |done]. by intros ? ? (? & ? & _).
  - right. apply (spec_outcome _ h1 (fun h' => frame h1 h' /\ file_step h1 h')).
    by apply spec_resolve.
Qed.

Lemma record_step_WF l l' : Sub.WF l -> record_step l l' -> Sub.WF l'.
Proof.
  intros HW [->| ->|o Hv _ H]; [done|by apply recovered_WF|].
  by apply (Sub.submit_apply_op_WF o (recovered l)); [apply recovered_WF| |].
Qed.

Lemma record_step_op l l' : record_step l l' -> Sub.operation_id l' = Sub.operation_id l.
Proof.
  intros [->| ->|o _ _ H]; [done|apply recovered_op|].
  apply Sub.apply_op_history in H as (_ & _ & _ & -> & _). apply recovered_op.
Qed.

Lemma attempt_file_ok fs cfg t h :
  cfg_ok cfg -> file_ok h -> call_ok t -> file_ok (attempt fs cfg t h).
Proof.
  intros Hc HF Hk l Hl. destruct (attempt_cases fs cfg t h Hc HF Hk) as [(op & i & [Hf [Hs|Hs]|l1 _ _ Hs HW _|l1 _ _ _ Hs HW _ _])|[Hf Hs]].
  - apply HF. congruence.
  - rewrite Hs in Hl. destruct (submit_file h) as [l0|] eqn:El; simplify_eq/=. by apply recovered_WF, HF.
  - congruence.
  - congruence.
  - unfold file_step in Hs. destruct (submit_file h) as [l0|] eqn:El; [|congruence].
    destruct Hs as (l' & Hl' & Hst). simplify_eq. eapply record_step_WF; [by apply HF|congruence].
Qed.
