(* ===== verification/RunnerClaims.v ===== *)
(** * What the runner guarantees

    The properties of [CloudRunner]'s operations, with the concrete host their witnesses run on. *)
From S2P Require Import Prelude Effects DomainValues CloudTypes CloudAdapter SubmitLedger LifecycleLedger LoginTypes CloudRunner RunnerSafety.
From stdpp Require Import base numbers list strings sets.
From Stdlib Require Import ZArith Lia.
Import Ids Str Runner.

Open Scope Z_scope.

(** ** A concrete host *)

Definition demo_cfg : Config := mkConfig (mkEnvironment "prod") (mkBranch "main") 1000.
Definition demo_op : CloudSubmitOperationId := mkOp 401.
Definition demo_op2 : CloudSubmitOperationId := mkOp 402.
Definition demo_prompt : CloudPrompt := mkPrompt "fix the build".
Definition demo_task : CloudTaskId := mkTask "task_demo".
Definition demo_exec : CloudInvocation := inv_exec (cfg_environment demo_cfg) (cfg_branch demo_cfg) demo_prompt.
Definition demo_sentinel : SentinelOs := mkSentinelOs Found Created true (Some (Some (mkMeta true 1000 448))).
Definition demo_supervisor (c : CloudCapture) : Supervisor :=
  mkSupervisor (Sub.mkProcess 77 1234) (Ok (mkCompletion Exited c)).
Definition demo_empty_slice (s : string) : option RawTaskListPage := Some (mkRawPage VNull []).
Definition demo_answers : Answers :=
  mkAnswers (Ok tt) None None (Ok tt) (Ok None) (Ok LoggedIn) demo_sentinel demo_sentinel false false
    (Ok (demo_supervisor (exec_capture demo_task))) (fun _ => false)
    (fun _ _ => mkPageAnswer demo_sentinel (Ok (demo_supervisor demo_list_capture))).
Definition demo_host : Host := mkHost None None [] [] 10.

(** The submission that dies while the command runs, and the one that succeeds. *)
Definition demo_dead : Host := outcome_state (submit demo_cfg demo_answers demo_op demo_prompt (boot [] 4 demo_host)).
Definition demo_done : Host := outcome_state (submit demo_cfg demo_answers demo_op demo_prompt demo_host).

Lemma demo_cfg_ok : cfg_ok demo_cfg.
Proof. split; vm_compute; reflexivity. Defined.
Lemma demo_host_ok : file_ok demo_host.
Proof. intros l H. discriminate H. Defined.

(** ** Submitting *)

(** C4: a submission starts its command at most once, under every answer of the system, every write
    failure and a process death at any effect.  Where it did start, the command was the fixed
    [cloud exec] argv, the record it replaced belonged to another operation with a settled outcome,
    and the durable record now says the operation may have run: it was authorized on disk first. *)
Theorem submit_runs_at_most_once cfg a op prompt h
  (Hcfg : cfg_ok cfg) (Hh : file_ok h) (Hop : is_nil (op_uuid op) = false) :
  execs (outcome_state (submit cfg a op prompt h)) = execs h \/
  (execs (outcome_state (submit cfg a op prompt h)) =
     execs h ++ [(op, inv_exec (cfg_environment cfg) (cfg_branch cfg) prompt)] /\
   clear_to_submit op (submit_file h) /\
   exists l, submit_file (outcome_state (submit cfg a op prompt h)) = Some l /\
     Sub.validate l = Ok tt /\ Sub.operation_id l = op /\ committed (Sub.latest l) = true).
Proof.
  assert (H : submit_safe h (outcome_state (submit cfg a op prompt h)) op
                (inv_exec (cfg_environment cfg) (cfg_branch cfg) prompt)).
  { apply (spec_outcome _ _ (fun h' => submit_safe h h' op _)). eapply spec_mono; [by apply spec_submit| |done].
    by intros r h' []. }
  destruct H as [[] _|l [] _ _ _ _|l Hx _ Hc Hs HW Ho Hp]; [by left..|].
  right. split_and!; [done..|]. exists l. by rewrite Sub.submit_validate_iff.
Qed.

Lemma submit_runs_at_most_once_witness : execs demo_dead = [(demo_op, demo_exec)] /\
  exists l, submit_file demo_dead = Some l /\ committed (Sub.latest l) = true.
Proof.
  destruct (submit_runs_at_most_once demo_cfg demo_answers demo_op demo_prompt (boot [] 4 demo_host)
              demo_cfg_ok demo_host_ok eq_refl) as [H|(H & _ & l & Hl & _ & _ & Hc)].
  - exfalso. vm_compute in H. discriminate H.
  - split; [exact H|]. exists l. exact (conj Hl Hc).
Defined.

(** a submission that reports success has the task durably recorded for exactly the requested
    operation. *)
Theorem submit_success_is_durable cfg a op prompt h s h'
  (Hcfg : cfg_ok cfg) (Hh : file_ok h) (Hop : is_nil (op_uuid op) = false)
  (Hrun : submit cfg a op prompt h = Done (Ok s) h') :
  exists l, submit_file h' = Some l /\ Sub.validate l = Ok tt /\ Sub.operation_id l = op /\
    sub_operation_id s = op /\ recorded_phase (Sub.latest l) = true /\
    Sub.recorded_task l = Ok (Some (sub_task_id s)).
Proof.
  pose proof (spec_submit cfg a op prompt h Hcfg Hh Hop) as H. unfold spec in H. rewrite Hrun in H.
  destruct H as [_ (l & Hs & Hf & HW & Ho & Hp & Ht)]. exists l. rewrite Sub.submit_validate_iff.
  split_and!; try done. apply Sub.recorded_task_Ok. rewrite Ht. split; [by destruct (sub_task_id s)|].
  by apply (Sub.wf_task _ HW).
Qed.

Lemma submit_success_is_durable_witness :
  exists l, submit_file demo_done = Some l /\ Sub.recorded_task l = Ok (Some demo_task).
Proof.
  destruct (submit_success_is_durable demo_cfg demo_answers demo_op demo_prompt demo_host
    (mkSubmission demo_op demo_task) demo_done demo_cfg_ok demo_host_ok eq_refl) as (l & Hl & _ & _ & _ & _ & Ht).
  - vm_compute. reflexivity.
  - exists l. exact (conj Hl Ht).
Defined.

(** a submission that fails after its command may have run never looks like a plain failure: the
    error is [OutcomeUnknown] or [RecoveryRequired] and names the operation.  Every other category
    means that no command was started. *)
Theorem submit_failure_after_command_is_uncertain cfg a op prompt h e h'
  (Hcfg : cfg_ok cfg) (Hh : file_ok h) (Hop : is_nil (op_uuid op) = false)
  (Hrun : submit cfg a op prompt h = Done (Err e) h') (Hx : execs h' <> execs h) :
  (re_category e = RunOutcomeUnknown \/ re_category e = RunRecoveryRequired) /\ re_operation_id e = Some op.
Proof.
  pose proof (spec_submit cfg a op prompt h Hcfg Hh Hop) as H. unfold spec in H. rewrite Hrun in H.
  by destruct H as [_ [H|H]].
Qed.

(** The write of the started record fails before its rename. *)
Definition demo_torn : Host := boot [WOk; WOk; WFailBefore RunLedgerUnavailable] 10 demo_host.
Definition demo_torn_after : Host :=
  outcome_state (submit demo_cfg demo_answers demo_op demo_prompt demo_torn).

Lemma submit_failure_after_command_is_uncertain_witness :
  exists e, submit demo_cfg demo_answers demo_op demo_prompt demo_torn = Done (Err e) demo_torn_after /\
    re_operation_id e = Some demo_op.
Proof.
  exists (run_err_for RunRecoveryRequired demo_op).
  assert (H : submit demo_cfg demo_answers demo_op demo_prompt demo_torn =
    Done (Err (run_err_for RunRecoveryRequired demo_op)) demo_torn_after) by (vm_compute; reflexivity).
  split; [exact H|].
  refine (proj2 (submit_failure_after_command_is_uncertain demo_cfg demo_answers demo_op demo_prompt
    demo_torn _ demo_torn_after demo_cfg_ok demo_host_ok eq_refl H _)).
  vm_compute. discriminate.
Defined.

(** Recovery never forgets a command.  After a submission whose command may have run, ended in
    any way including the death of the process, an observation of that operation reports an unknown
    outcome or the recorded task: never absence, never a failure before the command. *)
Theorem ran_submission_is_never_reported_absent cfg a op prompt h a' ws n obs h'
  (Hcfg : cfg_ok cfg) (Hh : file_ok h) (Hop : is_nil (op_uuid op) = false)
  (Hx : execs (outcome_state (submit cfg a op prompt h)) <> execs h)
  (Hobs : observe_submit cfg a' op (boot ws n (outcome_state (submit cfg a op prompt h))) = Done (Ok obs) h') :
  obs = OOutcomeUnknown \/ exists t, obs = OTaskRecorded (mkSubmission op t).
Proof.
  assert (H : submit_safe h (outcome_state (submit cfg a op prompt h)) op
                (inv_exec (cfg_environment cfg) (cfg_branch cfg) prompt)).
  { apply (spec_outcome _ _ (fun h' => submit_safe h h' op _)). eapply spec_mono; [by apply spec_submit| |done].
    by intros r h'' []. }
  set (h1 := outcome_state _) in *. destruct H as [[] _|l [] _ _ _ _|l _ _ _ Hs HW Ho Hp]; [done..|].
  assert (HF1 : file_ok (boot ws n h1)) by (intros l' Hl'; simpl in Hl'; congruence).
  pose proof (spec_observe cfg a' op _ HF1) as Ho'. unfold spec in Ho'. rewrite Hobs in Ho'.
  destruct Ho' as (_ & _ & Hc). specialize (Hc obs eq_refl). simpl in Hc. rewrite Hs in Hc. simpl in Hc.
  rewrite recovered_op, Ho, bool_decide_false, recovered_latest in Hc by (by intros []).
  destruct (Sub.latest l); try done; simpl in Hc; simplify_eq; try (by left).
  right. destruct (recorded_or_invalid _) as [t|]; [|done]. simplify_eq. by exists t.
Qed.

Definition demo_dead_observed : Host := outcome_state (observe_submit demo_cfg demo_answers demo_op (boot [] 5 demo_dead)).

Lemma ran_submission_is_never_reported_absent_witness :
  observe_submit demo_cfg demo_answers demo_op (boot [] 5 demo_dead) = Done (Ok OOutcomeUnknown) demo_dead_observed /\
  (OOutcomeUnknown = OOutcomeUnknown \/ exists t, OOutcomeUnknown = OTaskRecorded (mkSubmission demo_op t)).
Proof.
  assert (H : observe_submit demo_cfg demo_answers demo_op (boot [] 5 demo_dead) =
    Done (Ok OOutcomeUnknown) demo_dead_observed) by (vm_compute; reflexivity).
  split; [exact H|].
  refine (ran_submission_is_never_reported_absent demo_cfg demo_answers demo_op demo_prompt (boot [] 4 demo_host)
    demo_answers [] 5 OOutcomeUnknown demo_dead_observed demo_cfg_ok demo_host_ok eq_refl _ H).
  vm_compute. discriminate.
Defined.

(** ** Uncertainty blocks *)

(** The command may have run and nobody has settled what became of it. *)
Definition unsettled (p : Sub.CloudLedgerPhase) : bool :=
  match p with
  | Sub.Authorized | Sub.Started | Sub.OutcomeUnknown | Sub.ReconciliationObserved => true
  | _ => false
  end.
(** The task is known, or the operator gave the operation up. *)
Definition settled (p : Sub.CloudLedgerPhase) : bool :=
  match p with Sub.TaskRecorded | Sub.TaskAdopted | Sub.ExplicitlyAbandoned => true | _ => false end.

Lemma unsettled_not_clear op l :
  unsettled (Sub.latest l) = true -> ¬ clear_to_submit op (Some l).
Proof. intros Hu Hc. destruct (Hc l eq_refl) as [_ Hp]. by destruct (Sub.latest l). Qed.

Lemma record_step_unsettled l l' :
  unsettled (Sub.latest l) = true -> record_step l l' ->
  unsettled (Sub.latest l') = true \/ settled (Sub.latest l') = true.
Proof.
  intros Hu [->| ->|o _ Ho H]; [by left| |].
  - rewrite recovered_latest. left. by destruct (Sub.latest l).
  - rewrite (Sub.apply_op_latest _ _ _ H). destruct (Sub.op_phase o); auto.
Qed.

Lemma attempt_unsettled fs cfg t h l :
  cfg_ok cfg -> file_ok h -> call_ok t -> submit_file h = Some l -> unsettled (Sub.latest l) = true ->
  execs (attempt fs cfg t h) = execs h /\
  exists l', submit_file (attempt fs cfg t h) = Some l' /\ record_step l l' /\
    (unsettled (Sub.latest l') = true \/ settled (Sub.latest l') = true).
Proof.
  intros Hc HF Hk Hl Hu.
  assert (Hstep : frame h (attempt fs cfg t h) /\ file_step h (attempt fs cfg t h)).
  { destruct (attempt_cases fs cfg t h Hc HF Hk) as [(op & i & [Hf Hs|l1 _ Hcl _ _ _|l1 _ _ Hcl _ _ _ _])|H]; [|..|done].
    - split; [done|by apply file_step_untouched].
    - rewrite Hl in Hcl. by apply unsettled_not_clear in Hcl.
    - rewrite Hl in Hcl. by apply unsettled_not_clear in Hcl. }
  destruct Hstep as [[Hx _] Hst]. split; [done|]. unfold file_step in Hst. rewrite Hl in Hst.
  destruct Hst as (l' & Hl' & Hst). exists l'. eauto using record_step_unsettled.
Qed.

(** C5: while the outcome of an operation is uncertain, nothing starts another command: over any
    sequence of submissions, observations, reconciliations and resolutions, each in a process that
    may die anywhere and whose writes may fail, the commands that ran are the same, or the operation
    was settled on disk in between (its task recorded or adopted, or the operation abandoned). *)
Theorem uncertain_submission_blocks_commands fs cfg ts h l
  (Hcfg : cfg_ok cfg) (Hh : file_ok h) (Hts : Forall call_ok ts)
  (Hl : submit_file h = Some l) (Hu : unsettled (Sub.latest l) = true) :
  execs (attempts fs cfg ts h) = execs h \/
  exists ts1 ts2 l1, ts = ts1 ++ ts2 /\ submit_file (attempts fs cfg ts1 h) = Some l1 /\
    Sub.operation_id l1 = Sub.operation_id l /\ settled (Sub.latest l1) = true.
Proof.
  revert h l Hh Hl Hu. induction Hts as [|t ts Ht _ IH]; intros h l Hh Hl Hu; [by left|].
  destruct (attempt_unsettled fs cfg t h l Hcfg Hh Ht Hl Hu) as [Hx (l' & Hl' & Hst & Hu')].
  pose proof (record_step_op _ _ Hst) as Hop. destruct Hu' as [Hu'|Hs'].
  - destruct (IH (attempt fs cfg t h) l') as [Hsame|(ts1 & ts2 & l1 & -> & H1 & H2 & H3)];
      [by apply attempt_file_ok|done|done| |].
    + left. by rewrite <- Hx.
    + right. exists (t :: ts1), ts2, l1. split_and!; [done|done|congruence|done].
  - right. exists [t], ts, l'. split_and!; done.
Qed.

Definition demo_dead_ledger : Sub.CloudSubmitLedger :=
  match submit_file demo_dead with Some l => l | None => Sub.sample_new end.
Definition demo_again : list Attempt :=
  [mkAttempt (CSubmit demo_answers demo_op demo_prompt) [] 10;
   mkAttempt (CSubmit demo_answers demo_op2 demo_prompt) [WFailAfter] 10].

Lemma demo_dead_ok : file_ok demo_dead.
Proof.
  intros l Hl. apply Sub.submit_validate_iff.
  assert (E : l = demo_dead_ledger) by (unfold demo_dead_ledger; rewrite Hl; reflexivity).
  rewrite E. vm_compute. reflexivity.
Defined.

Lemma uncertain_submission_blocks_commands_witness :
  execs (attempts demo_empty_slice demo_cfg demo_again demo_dead) = execs demo_dead \/
  exists ts1 ts2 l1, demo_again = ts1 ++ ts2 /\
    submit_file (attempts demo_empty_slice demo_cfg ts1 demo_dead) = Some l1 /\
    Sub.operation_id l1 = Sub.operation_id demo_dead_ledger /\ settled (Sub.latest l1) = true.
Proof.
  refine (uncertain_submission_blocks_commands demo_empty_slice demo_cfg demo_again demo_dead demo_dead_ledger
    demo_cfg_ok demo_dead_ok _ _ _); [repeat constructor|vm_compute; reflexivity|vm_compute; reflexivity].
Defined.

(** ** Reconciling and resolving *)

(** A reconciliation that returns has recorded, for the operation it names, exactly the tasks it
    returns and whether the listing was complete; the tasks are pairwise distinct and at most one
    hundred, and no command was started. *)
Theorem reconciliation_is_recorded fs cfg a h rec h'
  (Hh : file_ok h) (Hrun : reconcile_unknown fs cfg a h = Done (Ok rec) h') :
  exists l, submit_file h' = Some l /\ Sub.operation_id l = rec_operation_id rec /\
    Sub.latest l = Sub.ReconciliationObserved /\
    Sub.candidate_task_ids l = map task_str (sum_id <$> rec_tasks rec) /\
    Sub.reconciliation_complete l = Some (rec_complete rec) /\
    NoDup (sum_id <$> rec_tasks rec) /\ len (rec_tasks rec) <= MAX_RECONCILIATION_TASKS /\
    execs h' = execs h.
Proof.
  pose proof (spec_reconcile fs cfg a h Hh) as H. unfold spec in H. rewrite Hrun in H.
  destruct H as ([Hx _] & _ & l & Hs & Ho & Hp & Hc & Hco & Hnd & Hlen & _). exists l. by split_and!.
Qed.

Definition demo_last_slice (s : string) : option RawTaskListPage :=
  Some (mkRawPage VNull [demo_row "task_a"; demo_row "task_b"]).
Definition demo_listed : Host :=
  outcome_state (reconcile_unknown demo_last_slice demo_cfg demo_answers (boot [] 5 demo_dead)).

Lemma reconciliation_is_recorded_witness :
  exists l, submit_file demo_listed = Some l /\ Sub.candidate_task_ids l = ["task_a"; "task_b"].
Proof.
  destruct (reconciliation_is_recorded demo_last_slice demo_cfg demo_answers (boot [] 5 demo_dead)
    (mkReconciliation demo_op (page_tasks demo_page) true) demo_listed demo_dead_ok)
    as (l & Hl & _ & _ & Hc & _).
  - vm_compute. reflexivity.
  - exists l. split; [exact Hl|]. rewrite Hc. vm_compute. reflexivity.
Defined.

(** What a record says once resolution [r] of operation [op] is in place. *)
Definition resolved_as (cfg : Config) (op : CloudSubmitOperationId) (r : CloudUnknownResolution)
    (obs : CloudSubmitObservation) (l : Sub.CloudSubmitLedger) : Prop :=
  Sub.WF l /\ Sub.operation_id l = op /\
  Sub.matches_config (cfg_environment cfg) (cfg_branch cfg) l = true /\
  match r with
  | RAdoptListedTask t => Sub.latest l = Sub.TaskAdopted /\ Sub.task_id l = Some (task_str t) /\
      obs = OTaskRecorded (mkSubmission op t)
  | RExplicitlyAbandon => Sub.latest l = Sub.ExplicitlyAbandoned /\ obs = OExplicitlyAbandoned
  end.

Lemma recorded_or_invalid_Ok l t :
  Sub.WF l -> Sub.task_id l = Some (task_str t) -> recorded_or_invalid l = Ok t.
Proof.
  intros HW Ht. unfold recorded_or_invalid.
  rewrite (proj2 (Sub.recorded_task_Ok l (Some t))); [done|]. rewrite Ht. destruct t.
  split; [done|]. by apply (Sub.wf_task _ HW).
Qed.

Lemma recorded_or_invalid_inv l t : recorded_or_invalid l = Ok t -> Sub.task_id l = Some (task_str t).
Proof.
  unfold recorded_or_invalid. destruct (Sub.recorded_task l) as [o|] eqn:E; [|done].
  apply Sub.recorded_task_Ok in E. destruct o as [t'|]; [|done]. simpl. intros [= <-].
  destruct (Sub.task_id l); [|done]. by destruct E as [[= ->] _].
Qed.

Lemma apply_resolution_fields r o l l' :
  o = match r with RAdoptListedTask t => Sub.RecordAdoptedTask t | RExplicitlyAbandon => Sub.RecordExplicitlyAbandoned end ->
  Sub.apply_op o l = Ok l' ->
  match r with RAdoptListedTask t => Sub.task_id l' = Some (task_str t) | RExplicitlyAbandon => True end.
Proof.
  intros -> H. destruct r as [t|]; [|done]. simpl in H. unfold Sub.record_adopted_task in H.
  destruct (bool_decide (Sub.latest l <> _)); [done|]. destruct (bool_decide (Sub.task_id l <> None)); [done|].
  destruct (negb _); [done|]. destruct (Sub.append _ _); [|done]. by simplify_eq.
Qed.

Lemma spec_resolve_ok cfg a op r h :
  file_ok h ->
  spec (resolve_unknown cfg a op r) h
    (fun x h' => forall obs, x = Ok obs -> exists l, submit_file h' = Some l /\ resolved_as cfg op r obs l)
    (fun _ => True).
Proof.
  intros HF. unfold resolve_unknown. spec_step. apply spec_pure. destruct (acquire_scope a); [|done].
  spec_step. apply spec_recover; [done|done| |done]. intros h1 Hf1 Hs1 Hm. spec_step. apply spec_pure.
  destruct (submit_file h) as [l0|] eqn:El; simpl in *; [|done]. case_bool_decide as Hop; [done|].
  pose proof (recovered_WF l0 (HF l0 El)) as HW. specialize (Hm l0 eq_refl).
  assert (Hm' : Sub.matches_config (cfg_environment cfg) (cfg_branch cfg) (recovered l0) = true)
    by (unfold recovered; by destruct (Sub.latest l0)).
  destruct (Sub.latest (recovered l0)) eqn:Elat; try done.
  - spec_step. apply spec_pure.
    set (o := match r with RAdoptListedTask t => Sub.RecordAdoptedTask t | RExplicitlyAbandon => Sub.RecordExplicitlyAbandoned end).
    replace (match r with RAdoptListedTask t => _ | RExplicitlyAbandon => _ end) with (Sub.apply_op o (recovered l0))
      by (by destruct r).
    destruct (Sub.apply_op o (recovered l0)) as [l|] eqn:Eo; [|done].
    assert (Hval : Sub.op_valid o) by (destruct r; [by eapply record_adopted_valid|done]).
    pose proof (Sub.submit_apply_op_WF o _ _ HW Hval Eo) as HWl. pose proof (Sub.apply_op_latest _ _ _ Eo) as Hlat.
    pose proof (apply_resolution_fields r o _ _ eq_refl Eo) as Hfield.
    pose proof (Sub.apply_op_history _ _ _ Eo) as (_ & _ & _ & Ho & He & Hb).
    spec_step. apply spec_persist; [done|done| |done]. intros h2 Hf2 Hs2. apply spec_ret. intros obs Hobs.
    exists l. split; [done|]. unfold resolved_as, Sub.matches_config in *. rewrite Ho, He, Hb.
    split_and!; [done..|]. simpl in Hobs. rewrite Ho, bool_decide_false, Hlat in Hobs by tauto.
    destruct r as [t|]; simpl in *; [|by simplify_eq].
    rewrite (recorded_or_invalid_Ok l t) in Hobs by done. by simplify_eq.
  - spec_step. apply spec_pure. destruct (recorded_or_invalid (recovered l0)) as [t0|] eqn:Er; [|done].
    destruct r as [t|]; [|done]. case_bool_decide; [|done]. subst t0. apply spec_ret. intros obs [= <-].
    exists (recovered l0). unfold resolved_as. split_and!; try done. by apply recorded_or_invalid_inv.
  - destruct r as [t|]; [done|]. apply spec_ret. intros obs [= <-]. exists (recovered l0). by split_and!.
Qed.

(** A resolved record answers every later resolution by itself. *)
Lemma resolve_resolved cfg a op r obs r' l h :
  resolved_as cfg op r obs l -> submit_file h = Some l -> a_scope a = Ok tt -> a_load_error a = None ->
  resolve_unknown cfg a op r' h =
    Done (if bool_decide (r' = r) then Ok obs else Err (run_err_for RunResolutionConflict op)) h.
Proof.
  intros (HW & Ho & Hm & Hr) Hs Ha Hl. unfold resolve_unknown, acquire_scope, pure. rewrite Ha. simpl.
  unfold bind_result, bind at 1. simpl. unfold recover_current_ledger, load_cloud_ledger, bind_result, bind, get, ret, pure.
  rewrite Hl, Hs, (proj2 (Sub.submit_validate_iff l) HW). unfold require_matching_config. rewrite Hm.
  assert (Hlat : Sub.latest l = match r with RAdoptListedTask _ => Sub.TaskAdopted | RExplicitlyAbandon => Sub.ExplicitlyAbandoned end)
    by (destruct r; tauto).
  destruct r as [t|].
  - destruct Hr as (_ & Ht & ->). rewrite Hlat. simpl. rewrite Ho, bool_decide_false, Hlat by tauto.
    rewrite (recorded_or_invalid_Ok l t) by done.
    destruct r' as [t'|]; repeat case_bool_decide; simplify_eq; done.
  - destruct Hr as (_ & ->). rewrite Hlat. simpl. rewrite Ho, bool_decide_false, Hlat by tauto.
    by destruct r'; repeat case_bool_decide.
Qed.

(** a resolution is final.  Once resolving an unknown operation succeeded, the same resolution
    asked again returns the same observation without another write, and any other resolution is a
    conflict: a task is never adopted after an abandonment, nor replaced by another task. *)
Theorem resolution_is_final cfg a op r h obs h' a' ws n r'
  (Hh : file_ok h) (Hrun : resolve_unknown cfg a op r h = Done (Ok obs) h')
  (Hscope : a_scope a' = Ok tt) (Hload : a_load_error a' = None) :
  resolve_unknown cfg a' op r' (boot ws n h') =
    Done (if bool_decide (r' = r) then Ok obs else Err (run_err_for RunResolutionConflict op)) (boot ws n h').
Proof.
  pose proof (spec_resolve_ok cfg a op r h Hh) as H. unfold spec in H. rewrite Hrun in H.
  destruct (H obs eq_refl) as (l & Hl & Hres). by apply (resolve_resolved cfg a' op r obs r' l).
Qed.

Definition demo_adopted : Host :=
  outcome_state (resolve_unknown demo_cfg demo_answers demo_op (RAdoptListedTask (mkTask "task_a")) (boot [] 5 demo_listed)).

Definition demo_listed_ledger : Sub.CloudSubmitLedger :=
  match submit_file demo_listed with Some l => l | None => Sub.sample_new end.

Lemma demo_listed_ok : file_ok (boot [] 5 demo_listed).
Proof.
  intros l Hl. apply Sub.submit_validate_iff. change (submit_file demo_listed = Some l) in Hl.
  assert (E : l = demo_listed_ledger) by (unfold demo_listed_ledger; rewrite Hl; reflexivity).
  rewrite E. vm_compute. reflexivity.
Defined.

Lemma resolution_is_final_witness :
  resolve_unknown demo_cfg demo_answers demo_op RExplicitlyAbandon (boot [] 5 demo_adopted) =
    Done (Err (run_err_for RunResolutionConflict demo_op)) (boot [] 5 demo_adopted).
Proof.
  refine (resolution_is_final demo_cfg demo_answers demo_op (RAdoptListedTask (mkTask "task_a")) (boot [] 5 demo_listed)
    (OTaskRecorded (mkSubmission demo_op (mkTask "task_a"))) demo_adopted demo_answers [] 5 RExplicitlyAbandon
    demo_listed_ok _ eq_refl eq_refl). vm_compute. reflexivity.
Defined.

(** ** Diffs *)

Lemma validate_diff_authority_Ok cfg a task h r h' :
  validate_diff_authority cfg a task h = Done r h' ->
  h' = h /\ (r = Ok tt -> exists ll c sl,
    lifecycle_file h = Some ll /\ Life.validate ll = Ok tt /\ Life.lifecycle ll = Ok c /\
    (c = LReady (el_operation_id task) (el_task_id task) \/ c = LApplied (el_operation_id task) (el_task_id task)) /\
    submit_file h = Some sl /\ Sub.validate sl = Ok tt /\ Sub.operation_id sl = el_operation_id task /\
    Sub.matches_config (cfg_environment cfg) (cfg_branch cfg) sl = true /\
    recorded_phase (Sub.latest sl) = true /\ Sub.recorded_task sl = Ok (Some (el_task_id task))).
Proof.
  unfold validate_diff_authority, load_lifecycle_ledger, load_cloud_ledger, bind_result, bind, get, ret, pure, mismatch.
  destruct (a_lifecycle_load_error a); [naive_solver|].
  destruct (lifecycle_file h) as [ll|] eqn:Ell; [|naive_solver].
  destruct (Life.validate ll) as [[]|] eqn:Evl; [|naive_solver]. simpl.
  destruct (Life.lifecycle ll) as [c|] eqn:Ec; simpl; [|naive_solver].
  destruct (lifecycle_authority c task) as [[]|] eqn:Ea; [|naive_solver].
  destruct (a_load_error a); [naive_solver|]. destruct (submit_file h) as [sl|] eqn:Es; [|naive_solver].
  destruct (Sub.validate sl) as [[]|] eqn:Evs; [|naive_solver]. simpl.
  destruct (Sub.recorded_task sl) as [t|] eqn:Et; simpl; [|naive_solver].
  destruct (_ || _) eqn:Eb; [naive_solver|]. intros [= <- <-]. split; [done|]. intros _. bool_to_prop.
  exists ll, c, sl. split_and!; try done; try (by apply dec_stable).
  - unfold lifecycle_authority in Ea. destruct c; try done; case_bool_decide; try done; case_bool_decide; try done; subst; auto.
  - rewrite Et. f_equal. by apply dec_stable.
Qed.

(** A diff is returned only under matching durable authority: the lifecycle record says the task
    is ready or applied, and the submit record, for the same operation and configuration, recorded or
    adopted that very task.  The diff is bounded UTF-8 text, and retrieving it changes no record. *)
Theorem diff_requires_matching_records cfg a task h d h'
  (Hrun : retrieve_diff cfg a task h = Done (Ok d) h') :
  h' = h /\ slen (diff_str d) <= MAX_DIFF_BYTES /\ utf8_valid (diff_str d) = true /\
  exists ll c sl, lifecycle_file h = Some ll /\ Life.lifecycle ll = Ok c /\
    (c = LReady (el_operation_id task) (el_task_id task) \/ c = LApplied (el_operation_id task) (el_task_id task)) /\
    submit_file h = Some sl /\ Sub.operation_id sl = el_operation_id task /\
    Sub.matches_config (cfg_environment cfg) (cfg_branch cfg) sl = true /\
    recorded_phase (Sub.latest sl) = true /\ Sub.recorded_task sl = Ok (Some (el_task_id task)).
Proof.
  unfold retrieve_diff in Hrun. destruct (a_cancelled a); [done|].
  unfold bind_result, bind, pure, ret in Hrun. destruct (map_err map_diff_scope_error _); [|done].
  destruct (validate_diff_authority cfg a task h) as [r h1|] eqn:Ev; [|done].
  apply validate_diff_authority_Ok in Ev as [-> Ha]. destruct r as [[]|]; [|done].
  destruct (validate_existing_diagnostic_sentinel (a_sentinel a) _); [|done].
  destruct (map_err map_diff_runner_error (a_version a)); [|done]. destruct (a_cancelled_late a); [done|].
  destruct (validate_existing_diagnostic_sentinel (a_sentinel_late a) _); [|done].
  destruct (map_err _ (a_start a)) as [s|]; [|done].
  destruct (map_err map_diff_runner_error (wait s)) as [c|]; [|done]. destruct (end_ c); try done.
  destruct (decode_cloud_diff (capture c)) as [d'|] eqn:Ed; [|done]. simpl in Hrun. simplify_eq.
  destruct (Ha eq_refl) as (ll & lc & sl & ? & ? & ? & ? & ? & ? & ? & ? & ? & ?).
  unfold decode_cloud_diff in Ed. destruct (validate_capture _ _) as [[]|] eqn:Evc; [|done].
  apply validate_capture_Ok in Evc as (_ & _ & Hlen & _). destruct (require_exit _ _); [|done].
  destruct (negb _) eqn:Eu; [done|]. destruct (any_byte _ _); [done|]. simplify_eq. bool_to_prop.
  split_and!; try done. by exists ll, lc, sl.
Qed.

Definition demo_ready_ledger : Life.CloudLifecycleLedger :=
  unwrap_or (Life.record_status demo_task TReady
    (unwrap_or (Life.record_status demo_task TPending (Life.submitting demo_op)) (Life.submitting demo_op)))
    (Life.submitting demo_op).
Definition demo_ready : Host := mkHost (submit_file demo_done) (Some demo_ready_ledger) (execs demo_done) [] 5.
Definition demo_diff_answers : Answers :=
  mkAnswers (Ok tt) None None (Ok tt) (Ok None) (Ok LoggedIn) demo_sentinel demo_sentinel false false
    (Ok (demo_supervisor (mkCapture "diff --git a b" "" false false (Some 0)))) (fun _ => false)
    (fun _ _ => mkPageAnswer demo_sentinel (Ok (demo_supervisor demo_list_capture))).

Lemma diff_requires_matching_records_witness :
  retrieve_diff demo_cfg demo_diff_answers (mkEligible demo_op demo_task) demo_ready =
    Done (Ok (mkDiff "diff --git a b")) demo_ready /\
  slen (diff_str (mkDiff "diff --git a b")) <= MAX_DIFF_BYTES.
Proof.
  assert (H : retrieve_diff demo_cfg demo_diff_answers (mkEligible demo_op demo_task) demo_ready =
    Done (Ok (mkDiff "diff --git a b")) demo_ready) by (vm_compute; reflexivity).
  split; [exact H|].
  exact (proj1 (proj2 (diff_requires_matching_records demo_cfg demo_diff_answers (mkEligible demo_op demo_task)
    demo_ready _ demo_ready H))).
Defined.

(** ** The history bound *)

Lemma exhausted_attempt fs cfg t h l :
  cfg_ok cfg -> file_ok h -> call_ok t -> submit_file h = Some l ->
  Sub.is_unknown (Sub.latest l) = true -> Sub.MAX_CLOUD_HISTORY_ENTRIES <= len (Sub.history l) ->
  submit_file (attempt fs cfg t h) = Some l /\ execs (attempt fs cfg t h) = execs h.
Proof.
  intros Hc HF Hk Hl Hu Hfull. assert (Hrec : recovered l = l) by (unfold recovered; by destruct (Sub.latest l)).
  assert (Huns : unsettled (Sub.latest l) = true) by (by destruct (Sub.latest l)).
  destruct (attempt_unsettled fs cfg t h l Hc HF Hk Hl Huns) as [Hx (l' & Hl' & Hst & _)].
  split; [|done]. rewrite Hl'. f_equal. destruct Hst as [->| ->|o _ _ H]; [done|done|].
  rewrite Hrec in H. pose proof (Sub.apply_op_full o l Hfull) as He. by rewrite H in He.
Qed.

Lemma exhausted_forever fs cfg ts h l :
  cfg_ok cfg -> file_ok h -> Forall call_ok ts -> submit_file h = Some l ->
  Sub.is_unknown (Sub.latest l) = true -> Sub.MAX_CLOUD_HISTORY_ENTRIES <= len (Sub.history l) ->
  submit_file (attempts fs cfg ts h) = Some l /\ execs (attempts fs cfg ts h) = execs h.
Proof.
  intros Hc HF Hts Hl Hu Hfull. revert h HF Hl. induction Hts as [|t ts Ht _ IH]; intros h HF Hl; [done|].
  destruct (exhausted_attempt fs cfg t h l Hc HF Ht Hl Hu Hfull) as [H1 H2].
  destruct (IH (attempt fs cfg t h)) as [H3 H4]; [by apply attempt_file_ok|done|].
  split; [done|]. by rewrite <- H2.
Qed.

(** A full record of an unknown outcome answers neither a reconciliation nor a resolution. *)
Lemma exhausted_answers fs cfg a op r h l :
  file_ok h -> submit_file h = Some l ->
  Sub.is_unknown (Sub.latest l) = true -> Sub.MAX_CLOUD_HISTORY_ENTRIES <= len (Sub.history l) ->
  (forall rec h', reconcile_unknown fs cfg a h <> Done (Ok rec) h') /\
  (forall obs h', resolve_unknown cfg a op r h <> Done (Ok obs) h').
Proof.
  intros HF Hl Hu Hfull. assert (Hrec : recovered l = l) by (unfold recovered; by destruct (Sub.latest l)).
  assert (Hstuck : forall h' l', file_step h h' -> submit_file h' = Some l' -> l' = l).
  { intros h' l' Hst Hl'. unfold file_step in Hst. rewrite Hl in Hst. destruct Hst as (l1 & Hl1 & Hst).
    assert (l1 = l') as -> by congruence. destruct Hst as [->| ->|o _ _ H]; [done|done|].
    rewrite Hrec in H. pose proof (Sub.apply_op_full o l Hfull) as He. by rewrite H in He. }
  split.
  - intros rec h' E. pose proof (spec_reconcile fs cfg a h HF) as H. unfold spec in H. rewrite E in H.
    destruct H as (_ & Hst & l' & Hl' & _ & _ & _ & _ & _ & _ & Hh). rewrite (Hstuck _ _ Hst Hl') in Hh.
    specialize (Hh l Hl). rewrite Hrec in Hh. apply (f_equal length) in Hh. rewrite length_app in Hh. simpl in Hh. lia.
  - intros obs h' E. pose proof (spec_resolve_ok cfg a op r h HF) as Hok. unfold spec in Hok. rewrite E in Hok.
    destruct (Hok obs eq_refl) as (l' & Hl' & _ & _ & _ & Hr).
    assert (Hst : file_step h h').
    { pose proof (spec_outcome _ h (fun h' => frame h h' /\ file_step h h') (spec_resolve cfg a op r h HF)) as [_ Hst].
      by rewrite E in Hst. }
    rewrite (Hstuck _ _ Hst Hl') in Hr. destruct r as [t|]; destruct Hr as [Hr _]; by rewrite Hr in Hu.
Qed.

(** Every one of the attempts, in turn, is a reconciliation that returns its tasks. *)
Fixpoint all_reconcile (fs : string -> option RawTaskListPage) (cfg : Config) (rs : list Attempt) (h : Host) : bool :=
  match rs with
  | [] => true
  | t :: rs =>
      match at_call t with
      | CReconcile a =>
          match reconcile_unknown fs cfg a (boot (at_writes t) (at_fuel t) h) with Done (Ok _) _ => true | _ => false end
      | _ => false
      end && all_reconcile fs cfg rs (attempt fs cfg t h)
  end.

(** Each of them takes one entry of the history. *)
Lemma all_reconcile_history fs cfg rs h l :
  file_ok h -> submit_file h = Some l -> Sub.is_unknown (Sub.latest l) = true -> all_reconcile fs cfg rs h = true ->
  file_ok (attempts fs cfg rs h) /\ exists l', submit_file (attempts fs cfg rs h) = Some l' /\
    Sub.operation_id l' = Sub.operation_id l /\ Sub.is_unknown (Sub.latest l') = true /\
    len (Sub.history l') = len (Sub.history l) + len rs.
Proof.
  revert h l. induction rs as [|t rs IH]; intros h l HF Hl Hu Hrs.
  { split; [done|]. exists l. split_and!; try done. unfold len. simpl. lia. }
  simpl in Hrs. apply andb_true_iff in Hrs as [Ht Hrs]. destruct (at_call t) as [| |a|] eqn:Ec; try done.
  set (hb := boot (at_writes t) (at_fuel t) h) in *. assert (HFb : file_ok hb) by (intros l' Hl'; by apply HF).
  assert (Ea : attempt fs cfg t h = outcome_state (reconcile_unknown fs cfg a hb)) by (unfold attempt; by rewrite Ec).
  pose proof (spec_reconcile fs cfg a hb HFb) as H. unfold spec in H.
  destruct (reconcile_unknown fs cfg a hb) as [[rec|]|] eqn:E; try done. simpl in Ea.
  destruct H as ([Hx _] & Hst & l1 & Hl1 & _ & Hlat & _ & _ & _ & _ & Hh). specialize (Hh l Hl).
  assert (Hrec : recovered l = l) by (unfold recovered; by destruct (Sub.latest l)). rewrite Hrec in Hh.
  unfold file_step in Hst. change (submit_file hb) with (submit_file h) in Hst. rewrite Hl in Hst.
  destruct Hst as (l1' & Hl1' & Hst). assert (l1' = l1) as -> by congruence.
  destruct (IH (attempt fs cfg t h) l1) as (HF' & l' & Hl' & Ho & Hu' & Hlen); [|by rewrite Ea|by rewrite Hlat|done|].
  { rewrite Ea. intros l2 Hl2. assert (l2 = l1) as -> by congruence. eapply record_step_WF; [by apply HF|done]. }
  split; [done|]. exists l'. split_and!; [done| |done|].
  - rewrite Ho. by apply record_step_op.
  - rewrite Hlen, Hh. unfold len. rewrite length_app. simpl. lia.
Qed.

(** C35: the history bound strands an unknown submission.  Each reconciliation that
    succeeds takes one entry of the history, which has thirty-two.  Once as many have succeeded as a
    record of an unknown outcome had entries left, the operation can never be settled and no other one can start: whatever is
    called afterwards, in whatever process, the record stays as it is, no command runs, and no
    reconciliation, adoption or abandonment succeeds.  (After a command whose start was
    recorded these are twenty-eight; after one that was cancelled before, twenty-nine.) *)
Theorem reconciliation_budget_strands_submission fs cfg h l rs :
  cfg_ok cfg -> file_ok h -> submit_file h = Some l -> Sub.is_unknown (Sub.latest l) = true ->
  all_reconcile fs cfg rs h = true -> Sub.MAX_CLOUD_HISTORY_ENTRIES <= len (Sub.history l) + len rs ->
  let h' := attempts fs cfg rs h in
  exists l', submit_file h' = Some l' /\ Sub.operation_id l' = Sub.operation_id l /\ Sub.is_unknown (Sub.latest l') = true /\
    len rs = Sub.MAX_CLOUD_HISTORY_ENTRIES - len (Sub.history l) /\
    forall fs' ts, Forall call_ok ts ->
      submit_file (attempts fs' cfg ts h') = Some l' /\ execs (attempts fs' cfg ts h') = execs h' /\
      forall a op r ws n,
        (forall rec h2, reconcile_unknown fs' cfg a (boot ws n (attempts fs' cfg ts h')) <> Done (Ok rec) h2) /\
        (forall obs h2, resolve_unknown cfg a op r (boot ws n (attempts fs' cfg ts h')) <> Done (Ok obs) h2).
Proof.
  intros Hc HF Hl Hu Hrs Hn h'. destruct (all_reconcile_history fs cfg rs h l HF Hl Hu Hrs) as (HF' & l' & Hl' & Ho & Hu' & Hlen).
  exists l'. split_and!; try done.
  { pose proof (Sub.wf_len _ (HF' l' Hl')). lia. }
  intros fs' ts Hts. destruct (exhausted_forever fs' cfg ts h' l') as [Hf Hx]; try done; [lia|]. split_and!; [done..|].
  intros a op r ws n. apply (exhausted_answers fs' cfg a op r _ l'); try done; [|lia].
  intros l2 Hl2. change (submit_file (attempts fs' cfg ts h') = Some l2) in Hl2. assert (l2 = l') as -> by congruence. by apply HF'.
Qed.

(** A submission whose process died, an observation of it, then twenty-eight reconciliations in good
    order. *)
Definition demo_worn : list Attempt := replicate 28 (mkAttempt (CReconcile demo_answers) [] 10).
Definition demo_observed_ledger : Sub.CloudSubmitLedger :=
  match submit_file demo_dead_observed with Some l => l | None => Sub.sample_new end.

Lemma reconciliation_budget_strands_submission_witness :
  exists l', submit_file (attempts demo_empty_slice demo_cfg demo_worn demo_dead_observed) = Some l' /\
    Sub.operation_id l' = demo_op /\
    submit_file (attempts demo_empty_slice demo_cfg demo_again (attempts demo_empty_slice demo_cfg demo_worn demo_dead_observed)) = Some l'.
Proof.
  destruct (reconciliation_budget_strands_submission demo_empty_slice demo_cfg demo_dead_observed demo_observed_ledger demo_worn
    demo_cfg_ok) as (l' & Hl' & Ho & _ & _ & Hts);
    [|vm_compute; reflexivity|vm_compute; reflexivity|vm_compute; reflexivity|vm_compute; discriminate|].
  - intros l Hl. apply Sub.submit_validate_iff.
    assert (E : l = demo_observed_ledger) by (unfold demo_observed_ledger; rewrite Hl; reflexivity).
    rewrite E. vm_compute. reflexivity.
  - exists l'. split; [exact Hl'|]. split; [exact Ho|]. apply Hts. repeat constructor.
Defined.
