(* ===== verification/Orchestrator.v ===== *)
(** * The Cloud task orchestrator

    Models [crates/codebox-agent-codex/src/cloud_lifecycle.rs] over the interface it is written
    against: the class [LifecycleCloudRunner] has the trait's methods and the three file operations on
    the lifecycle record ([cloud_lifecycle_ledger.rs]) the orchestrator runs under its lease.  The
    instance [host_runner] is the runner of [CloudRunner] on a host.  The mutex region of every method
    is one function of the orchestrator's state; [start] releases the lock during the submission, so
    it is two regions around it.  Poisoned locks are not modelled. *)
From S2P Require Import Prelude Effects DomainValues CloudTypes CloudAdapter SubmitLedger LifecycleLedger LoginTypes CloudRunner.
From stdpp Require Import base numbers list strings.
From Stdlib Require Import ZArith Lia.
Import Ids.

Open Scope Z_scope.

Abbreviation LLedger := Life.CloudLifecycleLedger.
#[export] Existing Instance Life.CloudLifecyclePhase_eq_dec.

(** ** The interface of the runner *)

Class LifecycleCloudRunner (S : Type) := {
  lr_acquire_scope : M S (result CloudRunnerError unit);
  lr_observe_submit : CloudSubmitOperationId -> M S (result CloudRunnerError CloudSubmitObservation);
  lr_submit : CloudSubmitOperationId -> CloudPrompt -> M S (result CloudRunnerError CloudSubmission);
  lr_status : CloudTaskId -> M S (result CloudRunnerError CloudTaskStatus);
  lr_reconcile_unknown : M S (result CloudRunnerError Runner.CloudReconciliation);
  lr_resolve_unknown : CloudSubmitOperationId -> CloudUnknownResolution ->
    M S (result CloudRunnerError CloudSubmitObservation);
  lr_load_lifecycle_ledger : M S (result CloudLifecycleError (option LLedger));
  lr_persist_lifecycle_ledger : LLedger -> M S (result CloudLifecycleError unit);
  lr_remove_lifecycle_ledger : M S (result CloudLifecycleError unit) }.

Module Orch.

(** The cancellation token is present while a submission runs; the flag is whether it was set. *)
Record OrchestratorState := mkState { ledger : option LLedger; cancellation : option bool }.

(** ** Errors *)

Definition map_runner_error (e : CloudRunnerError) : CloudLifecycleError :=
  mkLifeErr
    match re_category e with
    | RunScope => EScope
    | RunBusy => EBusy
    | RunOperationConflict => EOperationConflict
    | RunOutcomeUnknown => EOutcomeUnknown
    | RunRecoveryRequired => ERecoveryRequired
    | RunLedgerInvalid => ELedgerInvalid
    | RunLedgerUnavailable => ELedgerUnavailable
    | _ => ELowerRunner
    end (re_operation_id e).

Definition map_provider_read (e : CloudRunnerError) (op : CloudSubmitOperationId) : CloudLifecycleError :=
  life_err_for EProviderRead op.

Definition recovery_required (op : CloudSubmitOperationId) : CloudLifecycleError :=
  life_err_for ERecoveryRequired op.

Definition current_error (c : CloudLifecycleErrorCategory) (l : option LLedger) : CloudLifecycleError :=
  match l with Some l => life_err_for c (Life.operation_id l) | None => life_err c end.

Definition require_phase (st : OrchestratorState) (expected : Life.CloudLifecyclePhase)
  : result CloudLifecycleError CloudSubmitOperationId :=
  let? l := ok_or (ledger st) (life_err ENoCurrentOperation) in
  if bool_decide (Life.phase l = expected) then Ok (Life.operation_id l)
  else Err (life_err_for EWrongState (Life.operation_id l)).

Definition replay_resolution (l : LLedger) (d : UnknownSubmitDecision)
  : result CloudLifecycleError CloudLifecycle :=
  let? lifecycle := Life.lifecycle l in
  let exact :=
    (0 <? Life.reconciliation_generation l) &&
    match d, lifecycle with
    | AdoptListedTask requested, (LPending _ t | LReady _ t | LApplied _ t | LProviderError _ t) =>
        bool_decide (requested = t)
    | AbandonAfterReconciliation acknowledged, LAbandonedUnknown op => bool_decide (acknowledged = op)
    | _, _ => false
    end in
  if exact then Ok lifecycle else Err (life_err_for EStaleDecision (Life.operation_id l)).

Section Orchestrator.
Context {S : Type} `{R : LifecycleCloudRunner S}.

Abbreviation St := (OrchestratorState * S)%type.
Abbreviation Op A := (M St (result CloudLifecycleError A)).

(** Run a runner method under the orchestrator. *)
Definition lift {A} (m : M S A) : M St A :=
  fun '(o, s) => match m s with Done a s' => Done a (o, s') | Crashed s' => Crashed (o, s') end.
Definition state : M St OrchestratorState := fun st => Done st.1 st.
Definition put (o : OrchestratorState) : M St unit := fun st => Done tt (o, st.2).
Definition set_ledger (l : option LLedger) : M St unit :=
  fun st => Done tt (mkState l (cancellation st.1), st.2).
Definition set_cancellation (c : option bool) : M St unit :=
  fun st => Done tt (mkState (ledger st.1) c, st.2).
Definition lower {A} (m : M S (result CloudRunnerError A)) : Op A :=
  let! r := lift m in ret (map_err map_runner_error r).
Definition pure {A} (r : result CloudLifecycleError A) : Op A := ret r.

(** ** Files under the lease *)

Definition persist (l : LLedger) : Op unit :=
  try! _ := lower lr_acquire_scope in lift (lr_persist_lifecycle_ledger l).

Definition persist_after_effect (l : LLedger) : Op unit :=
  let! r := persist l in ret (map_err (fun _ => recovery_required (Life.operation_id l)) r).

Definition remove : Op unit :=
  try! _ := lower lr_acquire_scope in lift lr_remove_lifecycle_ledger.

Definition load_with_runner : Op (option LLedger) :=
  try! _ := lower lr_acquire_scope in lift lr_load_lifecycle_ledger.

(** ** Construction and repair *)

(** What the durable submit says makes of an interrupted record; [None] where nothing changes. *)
Definition repair (l : LLedger) (obs : CloudSubmitObservation) : result CloudLifecycleError (option LLedger) :=
  let op := Life.operation_id l in
  match Life.phase l, obs with
  | Life.Submitting, (OAbsent | OFailedBeforeSpawn) =>
      let? l := Life.record_failed_before_submit l in Ok (Some l)
  | Life.Submitting, OOutcomeUnknown => let? l := Life.record_outcome_unknown l in Ok (Some l)
  | (Life.Submitting | Life.OutcomeUnknown), OTaskRecorded s =>
      if bool_decide (sub_operation_id s <> op) then
        Err (life_err_for EOperationConflict (sub_operation_id s))
      else let? l := Life.record_status (sub_task_id s) TPending l in Ok (Some l)
  | Life.Submitting, OExplicitlyAbandoned =>
      let? l := Life.record_outcome_unknown l in
      let? l := Life.record_abandoned_unknown l in Ok (Some l)
  | Life.OutcomeUnknown, OExplicitlyAbandoned =>
      let? l := Life.record_abandoned_unknown l in Ok (Some l)
  | Life.OutcomeUnknown, OOutcomeUnknown => Ok None
  | _, _ => Err (life_err_for EOperationConflict op)
  end.

Definition repair_interrupted_state : Op unit :=
  let! st := state in
  match ledger st with
  | None => ret (Ok tt)
  | Some current =>
      if negb (bool_decide (Life.phase current = Life.Submitting)
               || bool_decide (Life.phase current = Life.OutcomeUnknown)) then ret (Ok tt)
      else
      try! obs := lower (lr_observe_submit (Life.operation_id current)) in
      try! repaired := pure (repair current obs) in
      match repaired with
      | None => ret (Ok tt)
      | Some l =>
          try! _ := persist l in
          let! _ := set_ledger (Some l) in ret (Ok tt)
      end
  end.

Definition from_runner : Op unit :=
  try! l := load_with_runner in
  let! _ := put (mkState l None) in
  repair_interrupted_state.

(** ** Starting *)

Definition rollback_after_conflict (prior : option LLedger) (op conflicting : CloudSubmitOperationId)
  : Op CloudLifecycle :=
  let! restored := match prior with Some l => persist l | None => remove end in
  let! _ := set_cancellation None in
  match restored with
  | Ok _ => let! _ := set_ledger prior in ret (Err (life_err_for EOperationConflict conflicting))
  | Err _ => ret (Err (life_err_for ERecoveryRequired op))
  end.

(** The first region: the new record is durable before the lock is released.  It returns the record
    it replaced. *)
Definition start_begin (op : CloudSubmitOperationId) : Op (option LLedger) :=
  let! st := state in
  if match ledger st with Some l => negb (Life.is_terminal (Life.phase l)) | None => false end then
    ret (Err (current_error ETurnAlreadyRunning (ledger st)))
  else
  let! observed := lift (lr_observe_submit op) in
  match observed with
  | Err e => ret (Err (map_runner_error e))
  | Ok OAbsent =>
      let submitting := Life.submitting op in
      try! _ := persist submitting in
      let! _ := put (mkState (Some submitting) (Some false)) in
      ret (Ok (ledger st))
  | Ok _ => ret (Err (life_err_for EOperationConflict op))
  end.

(** The end of [start]: make the new record durable, then publish it. *)
Definition start_commit (recorded : result CloudLifecycleError LLedger) : Op CloudLifecycle :=
  try! l := pure recorded in
  let! r := persist_after_effect l in
  match r with
  | Err e => let! _ := set_cancellation None in ret (Err e)
  | Ok _ =>
      try! lifecycle := pure (Life.lifecycle l) in
      let! _ := put (mkState (Some l) None) in
      ret (Ok lifecycle)
  end.

(** The [Err(error)] arm: what a failed submission makes of the record. *)
Definition start_error (l : LLedger) (op : CloudSubmitOperationId) (prior : option LLedger)
    (e : CloudRunnerError) : Op CloudLifecycle :=
  match re_category e with
  | RunCanceledBeforeStart => start_commit (Life.record_canceled_without_task l)
  | RunOutcomeUnknown | RunRecoveryRequired =>
      if bool_decide (re_operation_id e <> Some op) then
        let! _ := set_cancellation None in ret (Err (recovery_required op))
      else start_commit (Life.record_outcome_unknown l)
  | RunOperationConflict => rollback_after_conflict prior op (default op (re_operation_id e))
  | _ => start_commit (Life.record_failed_before_submit l)
  end.

(** The second region, with the result of the submission. *)
Definition start_finish (op : CloudSubmitOperationId) (prior : option LLedger)
    (r : result CloudRunnerError CloudSubmission) : Op CloudLifecycle :=
  let! st := state in
  match ledger st with
  | Some l =>
      if negb (bool_decide (Life.operation_id l = op) && bool_decide (Life.phase l = Life.Submitting)) then
        let! _ := set_cancellation None in ret (Err (recovery_required op))
      else
      match r with
      | Ok s =>
          if bool_decide (sub_operation_id s <> op) then
            rollback_after_conflict prior op (sub_operation_id s)
          else start_commit (Life.record_status (sub_task_id s) TPending l)
      | Err e =>
          match re_operation_id e with
          | Some reported => if bool_decide (reported <> op) then rollback_after_conflict prior op reported
                             else start_error l op prior e
          | None => start_error l op prior e
          end
      end
  | None => let! _ := set_cancellation None in ret (Err (recovery_required op))
  end.

(** The whole of [start], the identity drawn from [CloudSubmitOperationId::new]. *)
Definition start (op : CloudSubmitOperationId) (prompt : CloudPrompt) : Op CloudLifecycle :=
  try! prior := start_begin op in
  let! r := lift (lr_submit op prompt) in
  start_finish op prior r.

(** ** Inspecting *)

Definition inspect : Op CloudLifecycle :=
  let! st := state in
  try! l := pure (ok_or (ledger st) (life_err ENoCurrentOperation)) in
  try! current := pure (Life.lifecycle l) in
  match current with
  | LPending op t =>
      let! r := lift (lr_status t) in
      try! status := pure (map_err (fun e => map_provider_read e op) r) in
      try! l := pure (Life.record_status t status l) in
      try! _ := persist_after_effect l in
      try! lifecycle := pure (Life.lifecycle l) in
      let! _ := set_ledger (Some l) in
      ret (Ok lifecycle)
  | LSubmitting op => ret (Err (life_err_for ETurnAlreadyRunning op))
  | LOutcomeUnknown op => ret (Err (life_err_for EOutcomeUnknown op))
  | current => ret (Ok current)
  end.

(** ** Recovering from an unknown outcome *)

Definition reconcile_unknown : Op Runner.CloudReconciliation :=
  let! st := state in
  try! op := pure (require_phase st Life.OutcomeUnknown) in
  try! rec := lower lr_reconcile_unknown in
  if bool_decide (Runner.rec_operation_id rec <> op) then
    ret (Err (life_err_for EOperationConflict (Runner.rec_operation_id rec)))
  else
  try! l := pure (ok_or (ledger st) (recovery_required op)) in
  try! l := pure (Life.record_reconciliation (map sum_id (Runner.rec_tasks rec)) (Runner.rec_complete rec) l) in
  try! _ := persist_after_effect l in
  let! _ := set_ledger (Some l) in
  ret (Ok rec).

(** The [match &decision] of [resolve_unknown]: the lower resolution, with the adopted status. *)
Definition decide_resolution (op : CloudSubmitOperationId) (l : LLedger) (d : UnknownSubmitDecision)
  : Op (CloudUnknownResolution * option (CloudTaskId * CloudTaskStatus)) :=
  match d with
  | AdoptListedTask t =>
      if bool_decide (Life.reconciliation_complete l <> Some true) || negb (Life.has_candidate t l) then
        ret (Err (life_err_for ETaskNotListed op))
      else
      let! r := lift (lr_status t) in
      try! status := pure (map_err (fun e => map_provider_read e op) r) in
      ret (Ok (RAdoptListedTask t, Some (t, status)))
  | AbandonAfterReconciliation acknowledged =>
      if bool_decide (acknowledged <> op) then ret (Err (life_err_for EAcknowledgementRequired op))
      else ret (Ok (RExplicitlyAbandon, None))
  end.

(** Whether the lower record now says what was decided. *)
Definition lower_agrees (op : CloudSubmitOperationId) (adopted : option (CloudTaskId * CloudTaskStatus))
    (obs : CloudSubmitObservation) : bool :=
  match adopted, obs with
  | Some (t, _), OTaskRecorded s => bool_decide (sub_operation_id s = op) && bool_decide (sub_task_id s = t)
  | None, OExplicitlyAbandoned => true
  | _, _ => false
  end.

Definition resolve_unknown (op : CloudSubmitOperationId) (d : UnknownSubmitDecision) : Op CloudLifecycle :=
  let! st := state in
  try! l := pure (ok_or (ledger st) (life_err ENoCurrentOperation)) in
  if bool_decide (Life.operation_id l <> op) then ret (Err (life_err_for EStaleDecision op))
  else if Life.is_terminal (Life.phase l) || bool_decide (Life.phase l = Life.Pending) then
    ret (replay_resolution l d)
  else if bool_decide (Life.phase l <> Life.OutcomeUnknown) then ret (Err (life_err_for EWrongState op))
  else if Life.reconciliation_generation l =? 0 then ret (Err (life_err_for EWrongState op))
  else
  try! (resolution, adopted) := decide_resolution op l d in
  try! obs := lower (lr_resolve_unknown op resolution) in
  if negb (lower_agrees op adopted obs) then ret (Err (life_err_for EOperationConflict op))
  else
  try! next := pure (map_err (fun _ => recovery_required op)
                       match adopted with
                       | Some (t, status) => Life.record_status t status l
                       | None => Life.record_abandoned_unknown l
                       end) in
  try! _ := persist_after_effect next in
  try! lifecycle := pure (Life.lifecycle next) in
  let! _ := set_ledger (Some next) in
  ret (Ok lifecycle).

(** ** Cancelling *)

(** One turn of the loop of [cancel]; [None] waits for the running submission. *)
Definition cancel_step : M St (option (result CloudLifecycleError CloudLifecycle)) :=
  let! st := state in
  match ledger st with
  | None => ret (Some (Err (life_err ENoCurrentOperation)))
  | Some l =>
      match Life.lifecycle l with
      | Err e => ret (Some (Err e))
      | Ok (LSubmitting op) =>
          match cancellation st with
          | None => ret (Some (Err (recovery_required op)))
          | Some _ => let! _ := set_cancellation (Some true) in ret None
          end
      | Ok (LPending op t) =>
          let! r :=
            try! l := pure (Life.record_canceled_with_task l) in
            try! _ := persist_after_effect l in
            try! lifecycle := pure (Life.lifecycle l) in
            let! _ := set_ledger (Some l) in
            ret (Ok lifecycle) in
          ret (Some r)
      | Ok current => ret (Some (Ok current))
      end
  end.

(** ** Diff authority *)

Definition diff_eligible_task : M St (result CloudDiffReadErrorCategory Runner.DiffEligibleCloudTask) :=
  let! st := state in
  match ledger st with
  | None => ret (Err DIneligibleLifecycle)
  | Some l =>
      match Life.lifecycle l with
      | Err _ => ret (Err DAuthorityMismatch)
      | Ok (LReady op t) | Ok (LApplied op t) => ret (Ok (Runner.mkEligible op t))
      | Ok _ => ret (Err DIneligibleLifecycle)
      end
  end.
End Orchestrator.

End Orch.

(** ** The runner on a host *)

(** A host with the answers of the calls to come; [w_rest] answers when they run out. *)
Record World := mkWorld { w_host : Runner.Host; w_agenda : list Runner.Answers; w_rest : Runner.Answers }.

Definition with_answers {A} (m : Runner.Answers -> M Runner.Host A) : M World A :=
  fun w =>
    let '(a, agenda) := match w_agenda w with a :: rest => (a, rest) | [] => (w_rest w, []) end in
    match m a (w_host w) with
    | Done x h => Done x (mkWorld h agenda (w_rest w))
    | Crashed h => Crashed (mkWorld h agenda (w_rest w))
    end.

Definition put_lifecycle (l : option LLedger) : M Runner.Host unit :=
  fun h => Done tt (Runner.mkHost (Runner.submit_file h) l (Runner.execs h) (Runner.writes h) (Runner.fuel h)).

Definition write_error (c : CloudRunnerErrorCategory) : CloudLifecycleError :=
  match c with RunLedgerInvalid => Life.invalid_ledger | _ => Life.unavailable_ledger end.

(** The durable change the two operations end in: the file becomes [l], unless the write fails
    before the rename (or the unlink). *)
Definition replace_lifecycle (l : option LLedger) : M Runner.Host (result CloudLifecycleError unit) :=
  let! _ := Runner.effect in
  let! w := Runner.next_write in
  match w with
  | Runner.WOk => let! _ := put_lifecycle l in ret (Ok tt)
  | Runner.WFailBefore c => ret (Err (write_error c))
  | Runner.WFailAfter => let! _ := put_lifecycle l in ret (Err Life.unavailable_ledger)
  end.

Definition persist_lifecycle_ledger (l : LLedger) : M Runner.Host (result CloudLifecycleError unit) :=
  match Life.validate l with
  | Err e => ret (Err e)
  | Ok _ => replace_lifecycle (Some l)
  end.

Definition remove_lifecycle_ledger : M Runner.Host (result CloudLifecycleError unit) :=
  let! h := get in
  match Runner.lifecycle_file h with
  | None => ret (Err Life.unavailable_ledger)
  | Some _ => replace_lifecycle None
  end.

Definition no_answers {A} (m : M Runner.Host A) : M World A :=
  fun w => match m (w_host w) with
           | Done x h => Done x (mkWorld h (w_agenda w) (w_rest w))
           | Crashed h => Crashed (mkWorld h (w_agenda w) (w_rest w))
           end.

(** The file operations run under the scope the preceding [acquire_scope] answered for. *)
Definition host_runner (fs : string -> option RawTaskListPage) (cfg : Runner.Config)
  : LifecycleCloudRunner World := {|
  lr_acquire_scope := with_answers (fun a => ret (Runner.acquire_scope a));
  lr_observe_submit := fun op => with_answers (fun a => Runner.observe_submit cfg a op);
  lr_submit := fun op p => with_answers (fun a => Runner.submit cfg a op p);
  lr_status := fun t => with_answers (fun a => ret (Runner.status cfg a t));
  lr_reconcile_unknown := with_answers (fun a => Runner.reconcile_unknown fs cfg a);
  lr_resolve_unknown := fun op r => with_answers (fun a => Runner.resolve_unknown cfg a op r);
  lr_load_lifecycle_ledger := with_answers (fun a => Runner.load_lifecycle_ledger a);
  lr_persist_lifecycle_ledger := fun l => no_answers (persist_lifecycle_ledger l);
  lr_remove_lifecycle_ledger := no_answers remove_lifecycle_ledger |}.
#[export] Existing Instance host_runner.
