(* ===== verification/OrchestratorSafety.v ===== *)
(** * The orchestrator never disowns a command

    The contract of the runner the orchestrator relies on, as the class [RunnerContract]; the
    invariant [truthful] of the orchestrator, proved against that contract for every method, every
    answer and a death at any effect; and the instance that [host_runner] fulfils the contract. *)
From S2P Require Import Prelude Effects DomainValues CloudTypes CloudAdapter SubmitLedger LifecycleLedger LoginTypes CloudRunner RunnerSafety Orchestrator.
From stdpp Require Import base numbers list strings sets.
From Stdlib Require Import ZArith Lia.
Import Ids.

Open Scope Z_scope.

(** ** The contract *)

(** Errors that say the command may have run. *)
Definition reports_uncertainty (op : CloudSubmitOperationId) (r : result CloudRunnerError CloudSubmission) : Prop :=
  match r with
  | Ok s => sub_operation_id s = op
  | Err e => (re_category e = RunOutcomeUnknown \/ re_category e = RunRecoveryRequired) /\ re_operation_id e = Some op
  end.

Class RunnerContract (S : Type) `{R : LifecycleCloudRunner S} := {
  (** The state is one the runner can be in. *)
  rc_ok : S -> Prop;
  (** The identities the client draws for its submissions. *)
  rc_ids : CloudSubmitOperationId -> Prop;
  (** The command of an operation may have run. *)
  rc_ran : S -> CloudSubmitOperationId -> Prop;
  (** The durable submit record holds the operation and does not say that it never ran. *)
  rc_pinned : S -> CloudSubmitOperationId -> Prop;
  (** The durable lifecycle record. *)
  rc_file : S -> option LLedger;
  (** A method that starts no submission: nothing runs, nothing is unpinned. *)
  rc_quiet : S -> S -> Prop := fun s s' =>
    rc_ok s' /\ rc_file s' = rc_file s /\ (forall o, rc_ran s' o <-> rc_ran s o) /\
    (forall o, rc_pinned s o -> rc_pinned s' o);
  law_scope s : rc_ok s -> spec lr_acquire_scope s (fun _ => rc_quiet s) (rc_quiet s);
  law_status t s : rc_ok s -> spec (lr_status t) s (fun _ => rc_quiet s) (rc_quiet s);
  law_reconcile s : rc_ok s -> spec lr_reconcile_unknown s (fun _ => rc_quiet s) (rc_quiet s);
  law_resolve o r s : rc_ok s -> spec (lr_resolve_unknown o r) s (fun _ => rc_quiet s) (rc_quiet s);
  law_load s : rc_ok s ->
    spec lr_load_lifecycle_ledger s
      (fun r s' => rc_quiet s s' /\ forall l, r = Ok (Some l) -> rc_file s = Some l) (rc_quiet s);
  (** A pinned operation is never observed as absent or as failed before its command. *)
  law_observe o s : rc_ok s ->
    spec (lr_observe_submit o) s
      (fun r s' => rc_quiet s s' /\ (rc_pinned s o -> r <> Ok OAbsent /\ r <> Ok OFailedBeforeSpawn))
      (rc_quiet s);
  (** A submission runs no command but its own; if it ran, the operation is pinned and the result
      says so. *)
  law_submit o p s : rc_ok s -> rc_ids o ->
    spec (lr_submit o p) s
      (fun r s' => (rc_ok s' /\ rc_file s' = rc_file s /\
         (forall x, rc_ran s' x -> rc_ran s x \/ x = o /\ rc_pinned s' o)) /\
         (rc_ran s' o -> rc_ran s o \/ reports_uncertainty o r))
      (fun s' => rc_ok s' /\ rc_file s' = rc_file s /\
         (forall x, rc_ran s' x -> rc_ran s x \/ x = o /\ rc_pinned s' o));
  (** Writing the lifecycle record: it is in place on success, and either record on failure. *)
  law_persist l s : rc_ok s ->
    spec (lr_persist_lifecycle_ledger l) s
      (fun r s' => rc_ok s' /\ (forall o, rc_ran s' o <-> rc_ran s o) /\ (forall o, rc_pinned s o -> rc_pinned s' o) /\
         (rc_file s' = Some l \/ r <> Ok tt /\ rc_file s' = rc_file s))
      (rc_quiet s);
  law_remove s : rc_ok s ->
    spec lr_remove_lifecycle_ledger s
      (fun r s' => rc_ok s' /\ (forall o, rc_ran s' o <-> rc_ran s o) /\ (forall o, rc_pinned s o -> rc_pinned s' o) /\
         (rc_file s' = None \/ rc_file s' = rc_file s))
      (rc_quiet s) }.

(** ** The invariant *)

(** Phases that say the command never ran. *)
Definition never_ran (p : Life.CloudLifecyclePhase) : bool :=
  match p with Life.FailedBeforeSubmit | Life.CanceledLocally false => true | _ => false end.

(** ** Walking through a method *)

Section Walk.
Context {S : Type}.

(** A specification in terms of the orchestrator's whole state, under a fixed memory. *)
Lemma spec_lift {A} (m : M S A) o s (Q : A -> Orch.OrchestratorState * S -> Prop) C :
  spec m s (fun a s' => Q a (o, s')) (fun s' => C (o, s')) -> spec (Orch.lift m) (o, s) Q C.
Proof. unfold spec, Orch.lift. by destruct (m s). Qed.

Lemma spec_set_ledger l o s (Q : unit -> Orch.OrchestratorState * S -> Prop) C :
  Q tt (Orch.mkState l (Orch.cancellation o), s) -> spec (Orch.set_ledger l) (o, s) Q C.
Proof. done. Qed.

Lemma spec_state o s (Q : Orch.OrchestratorState -> Orch.OrchestratorState * S -> Prop) C :
  Q o (o, s) -> spec Orch.state (o, s) Q C.
Proof. done. Qed.

Lemma spec_put o' o s (Q : unit -> Orch.OrchestratorState * S -> Prop) C :
  Q tt (o', s) -> spec (Orch.put o') (o, s) Q C.
Proof. done. Qed.

Lemma spec_set_cancellation c o s (Q : unit -> Orch.OrchestratorState * S -> Prop) C :
  Q tt (Orch.mkState (Orch.ledger o) c, s) -> spec (Orch.set_cancellation c) (o, s) Q C.
Proof. done. Qed.

Lemma spec_opure {A} (r : result CloudLifecycleError A) st
    (Q : result CloudLifecycleError A -> Orch.OrchestratorState * S -> Prop) C :
  Q r st -> spec (Orch.pure r) st Q C.
Proof. done. Qed.

End Walk.

(** Every step of a method that needs no law of the runner. *)
Ltac orch :=
  cbv beta iota;
  repeat (lazymatch goal with
          | |- spec (Orch.pure _) _ _ _ => apply spec_opure
          | |- spec Orch.state _ _ _ => apply spec_state
          | |- spec (Orch.set_ledger _) _ _ _ => apply spec_set_ledger
          | |- spec (Orch.put _) _ _ _ => apply spec_put
          | |- spec (Orch.set_cancellation _) _ _ _ => apply spec_set_cancellation
          | |- _ => spec_step
          end; cbv beta iota).

Section Safety.
Context {S : Type} `{RC : RunnerContract S}.

(** What a record says of its operation is true of the runner. *)
Definition honest (s : S) (l : LLedger) : Prop :=
  rc_ran s (Life.operation_id l) ->
  never_ran (Life.phase l) = false /\ (Life.phase l = Life.Submitting -> rc_pinned s (Life.operation_id l)).

Definition honest_opt (s : S) (o : option LLedger) : Prop := forall l, o = Some l -> honest s l.

(** The record in memory and the durable one are both honest. *)
Definition truthful (st : Orch.OrchestratorState * S) : Prop :=
  rc_ok st.2 /\ honest_opt st.2 (Orch.ledger st.1) /\ honest_opt st.2 (rc_file st.2).

(** After a death only the durable record counts. *)
Definition durable_truthful (st : Orch.OrchestratorState * S) : Prop :=
  rc_ok st.2 /\ honest_opt st.2 (rc_file st.2).

Lemma truthful_durable st : truthful st -> durable_truthful st.
Proof. by intros (? & _ & ?). Qed.

Lemma honest_keep s s' l :
  (forall o, rc_ran s' o <-> rc_ran s o) -> (forall o, rc_pinned s o -> rc_pinned s' o) ->
  honest s l -> honest s' l.
Proof. intros Hr Hp H Hran%Hr. destruct (H Hran) as [H1 H2]. auto. Qed.

Lemma quiet_truthful o s s' : rc_quiet s s' -> truthful (o, s) -> truthful (o, s').
Proof.
  intros (Hok & Hf & Hr & Hp) (_ & Hm & Hd). simpl in *. split; [done|]. simpl. rewrite Hf.
  split; intros l Hl; (eapply honest_keep; [exact Hr|exact Hp|]); auto.
Qed.

Lemma spec_quiet {A} (m : M S A) o s (Q : A -> Orch.OrchestratorState * S -> Prop) C :
  spec m s (fun _ => rc_quiet s) (rc_quiet s) -> truthful (o, s) ->
  (forall st, durable_truthful st -> C st) ->
  (forall a s', rc_quiet s s' -> truthful (o, s') -> Q a (o, s')) -> spec (Orch.lift m) (o, s) Q C.
Proof.
  intros H HT HC HQ. apply spec_lift. eapply spec_mono; [exact H|..].
  - intros a s' Hq. apply HQ; [done|]. eapply quiet_truthful; [exact Hq|exact HT].
  - intros s' Hq. apply HC, truthful_durable. eapply quiet_truthful; [exact Hq|exact HT].
Qed.


(** Nothing ran and nothing was unpinned. *)
Definition kept (s s' : S) : Prop :=
  (forall x, rc_ran s' x <-> rc_ran s x) /\ (forall x, rc_pinned s x -> rc_pinned s' x).

Lemma kept_honest s s' l : kept s s' -> honest s l -> honest s' l.
Proof. intros [Hr Hp]. by apply honest_keep. Qed.

Lemma kept_trans s1 s2 s3 : kept s1 s2 -> kept s2 s3 -> kept s1 s3.
Proof. intros [H1 H2] [H3 H4]. split; [intros x; by rewrite H3|auto]. Qed.

Lemma quiet_kept s s' : rc_quiet s s' -> kept s s'.
Proof. by intros (_ & _ & ?). Qed.

Lemma truthful_put o o' s : truthful (o, s) -> honest_opt s (Orch.ledger o') -> truthful (o', s).
Proof. by intros (? & _ & ?) ?. Qed.

(** A record that does not deny the command is honest whatever ran. *)
Lemma honest_plain s l :
  never_ran (Life.phase l) = false -> Life.phase l <> Life.Submitting -> honest s l.
Proof. by intros H1 H2 _. Qed.

Lemma spec_lower {A} (m : M S (result CloudRunnerError A)) o s
    (Q : result CloudLifecycleError A -> Orch.OrchestratorState * S -> Prop) :
  spec m s (fun _ => rc_quiet s) (rc_quiet s) -> truthful (o, s) ->
  (forall r s', rc_quiet s s' -> truthful (o, s') -> Q r (o, s')) ->
  spec (Orch.lower m) (o, s) Q durable_truthful.
Proof.
  intros H HT HQ. unfold Orch.lower. spec_step. apply spec_quiet; [done..|].
  intros a s' Hq HT'. spec_step. auto.
Qed.

(** Writing a record that is honest. *)
Lemma spec_persist_life l o s (Q : result CloudLifecycleError unit -> Orch.OrchestratorState * S -> Prop) :
  truthful (o, s) -> honest s l ->
  (forall r s', kept s s' -> truthful (o, s') ->
     (r = Ok tt -> rc_file s' = Some l /\ honest s' l) -> Q r (o, s')) ->
  spec (Orch.persist l) (o, s) Q durable_truthful.
Proof.
  intros HT Hl HQ. unfold Orch.persist. spec_step.
  apply spec_lower; [apply law_scope; by destruct HT|done|]. intros r s1 Hq HT1.
  apply quiet_kept in Hq. destruct r as [[]|e]; [|by apply HQ].
  apply spec_lift. eapply spec_mono; [apply law_persist; by destruct HT1|..].
  - intros r s2 (Hok & Hr & Hp & Hfile). destruct HT1 as (_ & Hm & Hd). simpl in *.
    assert (Hk2 : kept s1 s2) by done. assert (Hl2 : honest s2 l) by eauto using kept_honest.
    apply HQ; [by eapply kept_trans| |].
    + split; [done|]. split; [intros l' Hl'; eauto using kept_honest|]. simpl.
      destruct Hfile as [->|[_ ->]]; [by intros ? [= <-]|]. intros l' Hl'. eauto using kept_honest.
    + intros ->. destruct Hfile as [->|[? _]]; done.
  - intros s2 Hq2. apply truthful_durable. eapply quiet_truthful; [exact Hq2|exact HT1].
Qed.

(** The pattern at the end of every method: make the record durable, then publish it. *)
Lemma spec_publish {A} l o s (k : unit -> M (Orch.OrchestratorState * S) (result CloudLifecycleError A)) :
  truthful (o, s) -> honest s l ->
  (forall s', truthful (o, s') -> honest s' l ->
     spec (k tt) (o, s') (fun _ => truthful) durable_truthful) ->
  spec (try! u := Orch.persist_after_effect l in k u) (o, s) (fun _ => truthful) durable_truthful.
Proof.
  intros HT Hl Hk. spec_step. unfold Orch.persist_after_effect. spec_step. apply spec_persist_life; [done..|].
  intros r s' _ HT' Hr. spec_step. destruct r as [[]|e]; simpl; [|done]. apply Hk; [done|]. by apply Hr.
Qed.

Lemma truthful_set_ledger l o s :
  truthful (o, s) -> honest s l -> truthful (Orch.mkState (Some l) (Orch.cancellation o), s).
Proof. intros HT Hl. eapply truthful_put; [done|]. by intros ? [= <-]. Qed.

Lemma truthful_cancellation o c s : truthful (o, s) -> truthful (Orch.mkState (Orch.ledger o) c, s).
Proof. intros HT. eapply truthful_put; [done|]. by destruct HT as (_ & ? & _). Qed.

(** ** The methods *)

Lemma record_status_phase t st l l' :
  Life.record_status t st l = Ok l' -> Life.phase l' = Life.phase_for_status st.
Proof.
  unfold Life.record_status. destruct (match Life.task_id l with Some _ => _ | None => _ end); [done|].
  destruct (_ && _) eqn:E; [intros [= <-]; bool_to_prop; congruence|].
  destruct (Life.append _ l) as [l1|] eqn:Ea; [|done]. apply Life.append_Ok in Ea as (_ & _ & ->).
  by intros [= <-].
Qed.

Lemma honest_status s t st l l' : Life.record_status t st l = Ok l' -> honest s l'.
Proof. intros H%record_status_phase. apply honest_plain; rewrite H; by destruct st. Qed.

Lemma append_phase p l l' :
  Life.append p l = Ok l' -> Life.phase l' = p /\ Life.operation_id l' = Life.operation_id l.
Proof. by intros (_ & _ & ->)%Life.append_Ok. Qed.

Lemma honest_append s p l l' :
  never_ran p = false -> p <> Life.Submitting -> Life.append p l = Ok l' -> honest s l'.
Proof. intros H1 H2 [H _]%append_phase. by apply honest_plain; rewrite H. Qed.

Lemma spec_inspect st : truthful st -> spec Orch.inspect st (fun _ => truthful) durable_truthful.
Proof.
  destruct st as [o s]. intros HT. unfold Orch.inspect. orch.
  destruct (Orch.ledger o) as [l|]; simpl; [|done]. orch.
  destruct (Life.lifecycle l) as [c|]; [|done]. destruct c; try done.
  orch. apply spec_quiet; [apply law_status; by destruct HT|done|done|]. intros r s1 Hq HT1. orch.
  destruct r as [status|]; simpl; [|done]. orch.
  destruct (Life.record_status _ _ _) as [l'|] eqn:El; [|done].
  apply spec_publish; [done|by eapply honest_status|]. intros s2 HT2 Hl2. orch.
  destruct (Life.lifecycle l'); [|done]. orch. by apply truthful_set_ledger.
Qed.

Lemma spec_orch_reconcile st :
  truthful st -> spec Orch.reconcile_unknown st (fun _ => truthful) durable_truthful.
Proof.
  destruct st as [o s]. intros HT. unfold Orch.reconcile_unknown. orch.
  destruct (Orch.require_phase _ _) as [op|]; [|done]. orch.
  apply spec_lower; [apply law_reconcile; by destruct HT|done|]. intros r s1 Hq HT1.
  destruct r as [rec|]; [|done]. case_bool_decide; [by orch|]. orch.
  destruct (Orch.ledger o) as [l|]; simpl; [|done]. orch.
  destruct (Life.record_reconciliation _ _ _) as [l'|] eqn:El; [|done].
  apply spec_publish; [done| |].
  - apply honest_plain; revert El; unfold Life.record_reconciliation;
      (destruct (bool_decide (Life.phase l <> _)) eqn:Ep; [done|]; bool_to_prop; apply dec_stable in Ep);
      simpl; destruct (_ <? _); [done| |done|]; destruct (has_duplicate _ _); [done| |done|];
      destruct (u64_checked_add _ _); simpl; [|done| |done]; intros [= <-]; simpl; by rewrite Ep.
  - intros s2 HT2 Hl2. orch. by apply truthful_set_ledger.
Qed.

Lemma spec_decide o s op l d (Q : _ -> Orch.OrchestratorState * S -> Prop) :
  truthful (o, s) -> (forall r s', truthful (o, s') -> Q r (o, s')) ->
  spec (Orch.decide_resolution op l d) (o, s) Q durable_truthful.
Proof.
  intros HT HQ. destruct d as [t|acknowledged]; simpl.
  - destruct (_ || _); [orch; auto|]. orch.
    apply spec_quiet; [apply law_status; by destruct HT|done|done|]. intros r s1 Hq HT1. orch.
    destruct r; simpl; [orch|]; auto.
  - case_bool_decide; orch; auto.
Qed.

Lemma spec_orch_resolve op d st :
  truthful st -> spec (Orch.resolve_unknown op d) st (fun _ => truthful) durable_truthful.
Proof.
  destruct st as [o s]. intros HT. unfold Orch.resolve_unknown. orch.
  destruct (Orch.ledger o) as [l|]; simpl; [|done].
  case_bool_decide; [by orch|]. destruct (_ || _); [by orch|].
  case_bool_decide; [by orch|]. destruct (_ =? 0); [by orch|]. orch.
  apply spec_decide; [done|]. intros [[r adopted]|] s1 HT1; [|done]. orch.
  apply spec_lower; [apply law_resolve; by destruct HT1|done|]. intros [obs|] s2 Hq HT2; [|done].
  destruct (negb _); [by orch|]. orch.
  destruct (map_err _ _) as [l'|] eqn:El; [|done]. apply spec_publish; [done| |].
  - destruct adopted as [[t status]|].
    + destruct (Life.record_status _ _ _) eqn:E; simplify_eq/=. by eapply honest_status.
    + destruct (Life.record_abandoned_unknown _) eqn:E; simplify_eq/=. by apply (honest_append _ Life.AbandonedUnknown l).
  - intros s3 HT3 Hl3. orch. destruct (Life.lifecycle l'); [|done]. orch.
    by apply truthful_set_ledger.
Qed.

Lemma spec_cancel_step st : truthful st -> spec Orch.cancel_step st (fun _ => truthful) durable_truthful.
Proof.
  destruct st as [o s]. intros HT. unfold Orch.cancel_step. orch.
  destruct (Orch.ledger o) as [l|] eqn:Eo; [|done]. destruct (Life.lifecycle l) as [c|]; [|done].
  destruct c; try done.
  - destruct (Orch.cancellation o); [|done]. orch. by apply truthful_cancellation.
  - apply spec_bind. eapply (spec_mono _ _ (fun _ => truthful)); [|done|done]. orch.
    unfold Life.record_canceled_with_task. destruct (Life.task_id l); [|done].
    destruct (Life.append _ l) as [l'|] eqn:El; [|done].
    apply spec_publish; [done|by apply (honest_append _ (Life.CanceledLocally true) l)|]. intros s1 HT1 Hl1. orch.
    destruct (Life.lifecycle l'); [|done]. orch. by apply truthful_set_ledger.
Qed.

(** ** Repair and restart *)

(** An interrupted record is only declared failed when the runner denies the command, which it does
    of no pinned operation. *)
Lemma repair_honest s l obs l' :
  honest s l -> (rc_pinned s (Life.operation_id l) -> obs <> OAbsent /\ obs <> OFailedBeforeSpawn) ->
  Orch.repair l obs = Ok (Some l') -> honest s l'.
Proof.
  intros Hl Hobs H.
  assert (Hfail : forall r, obs = OAbsent \/ obs = OFailedBeforeSpawn -> Life.phase l = Life.Submitting ->
    Life.record_failed_before_submit l = Ok r -> honest s r).
  { intros r Ho Hp [_ Hop]%append_phase. unfold honest. rewrite Hop. intros Hran.
    destruct (Hl Hran) as [_ Hpin]. destruct (Hobs (Hpin Hp)). naive_solver. }
  unfold Orch.repair in H. destruct (Life.phase l) eqn:Ep; try done; destruct obs as [| | |sub|]; simplify_eq/=.
  - destruct (Life.record_failed_before_submit l) eqn:E; simplify_eq/=. by apply Hfail; auto.
  - destruct (Life.record_failed_before_submit l) eqn:E; simplify_eq/=. by apply Hfail; auto.
  - destruct (Life.record_outcome_unknown l) eqn:E; simplify_eq/=. by apply (honest_append _ Life.OutcomeUnknown l).
  - case_bool_decide; [done|]. destruct (Life.record_status _ _ _) eqn:E; simplify_eq/=. by eapply honest_status.
  - destruct (Life.record_outcome_unknown l) as [l1|] eqn:E; simplify_eq/=.
    destruct (Life.record_abandoned_unknown l1) eqn:E1; simplify_eq/=. by apply (honest_append _ Life.AbandonedUnknown l1).
  - case_bool_decide; [done|]. destruct (Life.record_status _ _ _) eqn:E; simplify_eq/=. by eapply honest_status.
  - destruct (Life.record_abandoned_unknown l) eqn:E1; simplify_eq/=. by apply (honest_append _ Life.AbandonedUnknown l).
Qed.

Lemma spec_observe_lower op o s
    (Q : result CloudRunnerError CloudSubmitObservation -> Orch.OrchestratorState * S -> Prop) :
  truthful (o, s) ->
  (forall r s', rc_quiet s s' -> truthful (o, s') ->
     (rc_pinned s op -> r <> Ok OAbsent /\ r <> Ok OFailedBeforeSpawn) -> Q r (o, s')) ->
  spec (Orch.lift (lr_observe_submit op)) (o, s) Q durable_truthful.
Proof.
  intros HT HQ. apply spec_lift. eapply spec_mono; [apply law_observe; by destruct HT|..].
  - intros r s' [Hq Hp]. apply HQ; [done| |done]. eapply quiet_truthful; [exact Hq|done].
  - intros s' Hq. apply truthful_durable. eapply quiet_truthful; [exact Hq|done].
Qed.

Lemma spec_repair st : truthful st -> spec Orch.repair_interrupted_state st (fun _ => truthful) durable_truthful.
Proof.
  destruct st as [o s]. intros HT. unfold Orch.repair_interrupted_state. orch.
  destruct (Orch.ledger o) as [l|] eqn:Eo; [|done]. destruct (negb _); [by orch|]. unfold Orch.lower. orch.
  apply spec_observe_lower; [done|]. intros r s1 Hq HT1 Hobs. orch. destruct r as [obs|]; simpl; [|done]. orch.
  destruct (Orch.repair l obs) as [[l'|]|] eqn:Er; [|by orch|done].
  assert (Hl : honest s l) by (destruct HT as (_ & Hm & _); by apply Hm).
  assert (Hl' : honest s1 l').
  { apply (kept_honest s); [by apply quiet_kept|]. eapply repair_honest; [done| |done].
    intros Hp. destruct (Hobs Hp). naive_solver. }
  orch. apply spec_persist_life; [done..|].
  intros r s2 Hk HT2 Hr. destruct r as [[]|]; [|done]. orch. by apply truthful_set_ledger; [|apply Hr].
Qed.

(** A new process has only the durable record to go by. *)
Definition fresh_process : Orch.OrchestratorState := Orch.mkState None None.

Lemma spec_from_runner s :
  durable_truthful (fresh_process, s) ->
  spec Orch.from_runner (fresh_process, s) (fun _ => truthful) durable_truthful.
Proof.
  intros [Hok Hd]. assert (HT : truthful (fresh_process, s)) by (split_and!; [done| |done]; by intros l [=]).
  unfold Orch.from_runner, Orch.load_with_runner. apply spec_bind_result, spec_bind_result.
  apply spec_lower; [by apply law_scope|done|]. intros [[]|] s1 Hq HT1; [|done].
  apply spec_lift. eapply spec_mono; [apply law_load; by destruct HT1|..].
  - intros r s2 [Hq2 Hr]. assert (HT2 : truthful (fresh_process, s2)) by (eapply quiet_truthful; [exact Hq2|done]).
    destruct r as [l|]; [|done]. orch. apply spec_repair. eapply truthful_put; [done|]. simpl.
    intros l' ->. destruct HT1 as (_ & _ & Hd1). eapply kept_honest; [by apply quiet_kept|]. apply Hd1. by apply Hr.
  - intros s2 Hq2. apply truthful_durable. eapply quiet_truthful; [exact Hq2|done].
Qed.

(** ** Start *)

(** What a submission of [op] leaves, given that [op] had not run before. *)
Definition submitted (op : CloudSubmitOperationId) (s s' : S) : Prop :=
  rc_ok s' /\ rc_file s' = rc_file s /\ (forall x, rc_ran s' x -> rc_ran s x \/ x = op /\ rc_pinned s' op).

Lemma submitted_honest op s s' l :
  submitted op s s' -> ~ rc_ran s op -> Life.phase l = Life.Submitting -> Life.operation_id l = op ->
  honest s' l.
Proof.
  intros (_ & _ & H) Hn Hp Ho. unfold honest. rewrite Ho. intros [Hr|[_ Hpin]]%H; [done|].
  by rewrite Hp.
Qed.

Lemma spec_rollback prior op c o s :
  truthful (o, s) -> honest_opt s prior ->
  spec (Orch.rollback_after_conflict prior op c) (o, s) (fun _ => truthful) durable_truthful.
Proof.
  intros HT Hp. unfold Orch.rollback_after_conflict.
  assert (Hk : forall (r : result CloudLifecycleError unit) s', truthful (o, s') -> (r = Ok tt -> honest_opt s' prior) ->
    spec (let! _ := Orch.set_cancellation None in
          match r with
          | Ok _ => let! _ := Orch.set_ledger prior in ret (Err (life_err_for EOperationConflict c))
          | Err _ => ret (Err (life_err_for ERecoveryRequired op))
          end) (o, s') (fun _ : result CloudLifecycleError CloudLifecycle => truthful) durable_truthful).
  { intros r s' HT' Hr. orch. destruct r as [[]|]; orch; [|by apply truthful_cancellation].
    eapply truthful_put; [done|]. by apply Hr. }
  apply spec_bind. destruct prior as [l|].
  - apply spec_persist_life; [done|by apply Hp|]. intros r s' Hkept HT' Hr. apply Hk; [done|].
    intros ->. intros ? [= <-]. by apply Hr.
  - unfold Orch.remove. orch. apply spec_lower; [apply law_scope; by destruct HT|done|].
    intros r s1 Hq HT1. destruct r as [[]|e]; [|by apply (Hk (Err e))].
    apply spec_lift. eapply spec_mono; [apply law_remove; by destruct HT1|..].
    + intros r s2 (Hok & Hr & Hpin & Hf). apply (Hk r); [|done]. destruct HT1 as (_ & Hm & Hd).
      split; [done|]. split; simpl in *; [intros l Hl; eapply honest_keep; [exact Hr|exact Hpin|auto]|].
      destruct Hf as [->| ->]; [done|]. intros l Hl. eapply honest_keep; [exact Hr|exact Hpin|auto].
    + intros s2 Hq2. apply truthful_durable. eapply quiet_truthful; [exact Hq2|exact HT1].
Qed.

Lemma spec_start_commit recorded o s :
  truthful (o, s) -> (forall l, recorded = Ok l -> honest s l) ->
  spec (Orch.start_commit recorded) (o, s) (fun _ => truthful) durable_truthful.
Proof.
  intros HT Hl. unfold Orch.start_commit, Orch.persist_after_effect. orch. destruct recorded as [l|]; [|done]. orch.
  apply spec_persist_life; [done|by apply Hl|]. intros r s1 Hk HT1 Hr. orch.
  destruct r as [[]|]; simpl; orch; [|by apply truthful_cancellation].
  destruct (Life.lifecycle l); [|done]. orch. eapply truthful_put; [done|]. intros ? [= <-]. by apply Hr.
Qed.

(** The second region of [start]: the record in memory is the one [start_begin] wrote, the command
    ran only if the result says so. *)
Lemma spec_start_finish op prior r o s :
  truthful (o, s) -> (~ rc_ran s op -> honest_opt s prior) -> (rc_ran s op -> reports_uncertainty op r) ->
  spec (Orch.start_finish op prior r) (o, s) (fun _ => truthful) durable_truthful.
Proof.
  intros HT Hprior Hr. unfold Orch.start_finish. orch.
  destruct (Orch.ledger o) as [l|] eqn:Eo; [|orch; by apply (truthful_cancellation o)].
  destruct (negb _) eqn:Eg; [orch; by apply (truthful_cancellation o)|].
  apply negb_false_iff, andb_true_iff in Eg as [Hop Hph]. bool_to_prop.
  assert (Hfail : forall p, never_ran p = true -> ~ rc_ran s op -> forall l', Life.append p l = Ok l' -> honest s l').
  { intros p _ Hn l' [_ Ho]%append_phase. unfold honest. by rewrite Ho, Hop. }
  destruct r as [sub|e]; simpl in Hr.
  - case_bool_decide; [apply spec_rollback; [done|]; apply Hprior; intros Hran; by destruct (Hr Hran)|].
    apply spec_start_commit; [done|]. intros l'. apply honest_status.
  - assert (Herr : (forall x, re_operation_id e = Some x -> x = op) ->
      spec (Orch.start_error l op prior e) (o, s) (fun _ => truthful) durable_truthful).
    { intros Hx.
      assert (Hunknown : spec (if bool_decide (re_operation_id e <> Some op) then
          let! _ := Orch.set_cancellation None in ret (Err (Orch.recovery_required op))
          else Orch.start_commit (Life.record_outcome_unknown l)) (o, s) (fun _ => truthful) durable_truthful).
      { case_bool_decide; [orch; by apply (truthful_cancellation o)|].
        apply spec_start_commit; [done|]. intros l'. by apply honest_append. }
      unfold Orch.start_error. destruct (re_category e) eqn:Ec;
        try (apply spec_start_commit; [done|]; intros l'; apply (Hfail Life.FailedBeforeSubmit); [done|];
             intros Hran; destruct (Hr Hran) as [[?|?] _]; congruence).
      - apply spec_start_commit; [done|]. unfold Life.record_canceled_without_task.
        destruct (Life.task_id l); [done|]. apply (Hfail (Life.CanceledLocally false)); [done|].
        intros Hran. destruct (Hr Hran) as [[?|?] _]; congruence.
      - apply Hunknown. 
      - apply Hunknown.
      - apply spec_rollback; [done|]. apply Hprior. intros Hran. destruct (Hr Hran) as [[?|?] _]; congruence. }
    destruct (re_operation_id e) as [x|] eqn:Ex; [|by apply Herr].
    case_bool_decide; [|apply Herr].
    + apply spec_rollback; [done|]. apply Hprior. intros Hran. destruct (Hr Hran) as [_ ?]. congruence.
    + by intros ? [= <-].
Qed.

(** A record the next start replaces: it is settled, so only what it denies has to hold. *)
Definition prior_ok (s : S) (prior : option LLedger) : Prop :=
  forall l, prior = Some l -> Life.phase l <> Life.Submitting /\ honest s l.

(** The first region of [start]: on success the new record is the one in memory and on disk, and
    nothing has run. *)
Lemma spec_start_begin op o s :
  truthful (o, s) -> ~ rc_ran s op ->
  spec (Orch.start_begin op) (o, s)
    (fun r st => truthful st /\ (forall x, rc_ran st.2 x <-> rc_ran s x) /\
       match r with
       | Ok prior => st.1 = Orch.mkState (Some (Life.submitting op)) (Some false) /\
           rc_file st.2 = Some (Life.submitting op) /\ prior_ok st.2 prior
       | Err _ => st.1 = o
       end)
    durable_truthful.
Proof.
  intros HT Hfresh. unfold Orch.start_begin. orch.
  destruct (match Orch.ledger o with Some _ => _ | None => _ end) eqn:Ebusy; [by orch|]. orch.
  apply spec_observe_lower; [done|]. intros r s1 Hq HT1 _. apply quiet_kept in Hq as Hk1.
  assert (Hquit : truthful (o, s1) /\ (forall x, rc_ran s1 x <-> rc_ran s x) /\ o = o) by (split_and!; [done|apply Hk1|done]).
  destruct r as [[]|]; try (orch; exact Hquit). orch.
  assert (Hf1 : ~ rc_ran s1 op) by (by rewrite (proj1 Hk1 op)).
  apply spec_persist_life; [done|by intros Hran|].
  intros r s2 Hk2 HT2 Hw. assert (Hkept : kept s s2) by (by eapply kept_trans).
  destruct r as [[]|]; [|by split_and!; [|apply Hkept|]].
  destruct (Hw eq_refl) as [Hfile Hsub]. orch. split_and!; [|apply Hkept|done|done|].
  - eapply truthful_put; [done|]. by intros ? [= <-].
  - intros l Hl. destruct HT as (_ & Hm & _). simpl in Hm. rewrite Hl in Ebusy. apply negb_false_iff in Ebusy.
    split; [by intros Hp; rewrite Hp in Ebusy|]. eapply kept_honest; [exact Hkept|by apply Hm].
Qed.

(** What a submission does to an honest system whose memory and disk hold the submitting record. *)
Lemma spec_start_submit op prompt o s :
  truthful (o, s) -> rc_ids op -> ~ rc_ran s op ->
  Orch.ledger o = Some (Life.submitting op) -> rc_file s = Some (Life.submitting op) ->
  spec (Orch.lift (lr_submit op prompt)) (o, s)
    (fun r st => truthful st /\ st.1 = o /\ submitted op s st.2 /\
       (rc_ran st.2 op -> reports_uncertainty op r))
    durable_truthful.
Proof.
  intros HT Hid Hn Ho Hfile. apply spec_lift. eapply spec_mono; [apply law_submit; [by destruct HT|done]|..].
  - intros r s' [Hs Hr]. assert (Hsub : honest s' (Life.submitting op)) by (by eapply submitted_honest).
    split_and!; [|done|done|by intros [?|?]%Hr].
    destruct Hs as (Hok & Hf & _). split; [done|]. simpl. rewrite Ho, Hf, Hfile. by split; intros ? [= <-].
  - intros s' Hs. assert (Hsub : honest s' (Life.submitting op)) by (by eapply submitted_honest).
    destruct Hs as (Hok & Hf & _). split; [done|]. simpl. rewrite Hf, Hfile. by intros ? [= <-].
Qed.

(** The prior record stays honest while the submission runs. *)
Lemma submitted_prior op s s' prior :
  submitted op s s' -> prior_ok s prior -> ~ rc_ran s' op -> prior_ok s' prior.
Proof.
  intros (_ & _ & Hran) Hp Hn l Hl. destruct (Hp l Hl) as [Hs Hh]. split; [done|]. intros Hr.
  destruct (Hran _ Hr) as [Hold|[Heq _]]; [|by rewrite Heq in Hr]. by destruct (Hh Hold).
Qed.

Lemma prior_ok_honest s prior : prior_ok s prior -> honest_opt s prior.
Proof. intros H l Hl. by apply H. Qed.

(** The whole of [start], for an identity whose command has not run. *)
Lemma spec_start op prompt o s :
  truthful (o, s) -> rc_ids op -> ~ rc_ran s op ->
  spec (Orch.start op prompt) (o, s) (fun _ => truthful) durable_truthful.
Proof.
  intros HT Hid Hfresh. unfold Orch.start. spec_step.
  eapply spec_mono; [by apply spec_start_begin| |done]. intros [prior|e] [o1 s1] (HT1 & Hr1 & Hb); [|done].
  simpl in *. destruct Hb as (-> & Hfile & Hprior). spec_step.
  assert (Hn1 : ~ rc_ran s1 op) by (by rewrite Hr1).
  eapply spec_mono; [by apply (spec_start_submit op prompt)| |done].
  intros r [o2 s2] (HT2 & Ho2 & Hs & Hr). simpl in Ho2. subst o2. apply spec_start_finish; [done| |done].
  intros Hn. apply prior_ok_honest. by eapply submitted_prior.
Qed.

End Safety.
