(* ===== verification/OrchestratorClaims.v ===== *)
(** * The orchestrator on a host

    The runner of [CloudRunner] fulfils the contract of [OrchestratorSafety], so what is proved there
    of every method holds of sequences of them: starts, inspections, reconciliations, decisions,
    cancellations, restarts and deaths, with any answers and any write failures. *)
From S2P Require Import Prelude Effects DomainValues CloudTypes CloudAdapter SubmitLedger LifecycleLedger LoginTypes CloudRunner RunnerSafety RunnerClaims Orchestrator OrchestratorSafety.
From stdpp Require Import base numbers list strings sets.
From Stdlib Require Import ZArith Lia.
Import Ids.

Open Scope Z_scope.

(** ** The contract holds *)

Section Contract.
Context (fs : string -> option RawTaskListPage) (cfg : Runner.Config).
(** The identities drawn so far: no other command can have run. *)
Context (drawn : list CloudSubmitOperationId).

(** The command of an operation ran, or may still run because its identity has not been drawn. *)
Definition host_ran (w : World) (op : CloudSubmitOperationId) : Prop :=
  op ∈ (Runner.execs (w_host w)).*1 \/ op ∉ drawn.
Definition host_ok (w : World) : Prop :=
  file_ok (w_host w) /\ forall x, x ∈ (Runner.execs (w_host w)).*1 -> x ∈ drawn.
Definition host_ids (op : CloudSubmitOperationId) : Prop := is_nil (op_uuid op) = false /\ op ∈ drawn.
Definition host_pinned (w : World) (op : CloudSubmitOperationId) : Prop :=
  exists l, Runner.submit_file (w_host w) = Some l /\ Sub.operation_id l = op /\
    Sub.latest l <> Sub.Intent /\ Sub.latest l <> Sub.FailedBeforeSpawn.
Definition host_file (w : World) : option LLedger := Runner.lifecycle_file (w_host w).

Lemma spec_with_answers {A} (m : Runner.Answers -> M Runner.Host A) w (Q : A -> World -> Prop) C :
  (forall a ag, spec (m a) (w_host w) (fun x h => Q x (mkWorld h ag (w_rest w))) (fun h => C (mkWorld h ag (w_rest w)))) ->
  spec (with_answers m) w Q C.
Proof.
  intros H. unfold spec, with_answers in *. destruct (w_agenda w) as [|a ag].
  - specialize (H (w_rest w) []). by destruct (m _ _).
  - specialize (H a ag). by destruct (m _ _).
Qed.

Lemma spec_no_answers {A} (m : M Runner.Host A) w (Q : A -> World -> Prop) C :
  spec m (w_host w) (fun x h => Q x (mkWorld h (w_agenda w) (w_rest w))) (fun h => C (mkWorld h (w_agenda w) (w_rest w))) ->
  spec (no_answers m) w Q C.
Proof. unfold spec, no_answers. by destruct (m _). Qed.

Lemma record_step_latest l l' :
  record_step l l' -> Sub.latest l <> Sub.Intent -> Sub.latest l <> Sub.FailedBeforeSpawn ->
  Sub.latest l' <> Sub.Intent /\ Sub.latest l' <> Sub.FailedBeforeSpawn.
Proof.
  intros [->| ->|o _ Hp Ho] H1 H2; [done|rewrite recovered_latest; by destruct (Sub.latest l)|].
  rewrite (Sub.apply_op_latest o _ _ Ho). by destruct (Sub.op_phase o).
Qed.

Definition host_quiet (w w' : World) : Prop :=
  host_ok w' /\ host_file w' = host_file w /\ (forall o, host_ran w' o <-> host_ran w o) /\
  (forall o, host_pinned w o -> host_pinned w' o).

Lemma step_quiet w h ag r :
  host_ok w -> frame (w_host w) h -> file_step (w_host w) h -> host_quiet w (mkWorld h ag r).
Proof.
  intros [Hok Hdr] [He Hl] Hs. unfold host_quiet, host_ok, host_ran, host_pinned, host_file in *. simpl. rewrite He, Hl.
  unfold file_step in Hs. split_and!; try done.
  - intros l El. destruct (Runner.submit_file (w_host w)) as [l0|] eqn:E0; [|congruence].
    destruct Hs as (l' & E' & Hst). simplify_eq. eapply record_step_WF; [by apply Hok|congruence].
  - intros o (l & El & Ho & H1 & H2). rewrite El in Hs. destruct Hs as (l' & E' & Hst). exists l'.
    split; [done|]. rewrite (record_step_op _ _ Hst). split; [done|]. by eapply record_step_latest.
Qed.

Lemma spec_host_quiet {A} (m : Runner.Answers -> M Runner.Host A) w :
  host_ok w ->
  (forall a, spec (m a) (w_host w) (fun _ h => frame (w_host w) h /\ file_step (w_host w) h)
     (fun h => frame (w_host w) h /\ file_step (w_host w) h)) ->
  spec (with_answers m) w (fun _ => host_quiet w) (host_quiet w).
Proof.
  intros Hok H. apply spec_with_answers. intros a ag. eapply spec_mono; [apply H|..].
  - intros x h [Hf Hs]. by apply step_quiet.
  - intros h [Hf Hs]. by apply step_quiet.
Qed.

Lemma spec_host_load a h :
  spec (Runner.load_lifecycle_ledger a) h
    (fun r h' => h' = h /\ forall x, r = Ok x -> Runner.lifecycle_file h = x) (fun h' => h' = h).
Proof.
  unfold Runner.load_lifecycle_ledger. spec_step. unfold spec, get, ret.
  destruct (Runner.a_lifecycle_load_error a); [done|].
  destruct (Runner.lifecycle_file h) as [l|]; [|split; [done|by intros ? [= ->]]].
  destruct (Life.validate l); [|done]. split; [done|]. by intros ? [= ->].
Qed.

(** The durable change of the lifecycle record: the process dies before it, it succeeds, or it fails
    with either record in place.  Nothing else changes. *)
Definition same_submit (h h' : Runner.Host) : Prop :=
  Runner.submit_file h' = Runner.submit_file h /\ Runner.execs h' = Runner.execs h.

Lemma spec_replace (l : option LLedger) h :
  spec (replace_lifecycle l) h
    (fun r h' => same_submit h h' /\
       (Runner.lifecycle_file h' = l \/ r <> Ok tt /\ Runner.lifecycle_file h' = Runner.lifecycle_file h))
    (fun h' => h' = h).
Proof.
  unfold replace_lifecycle. spec_step. apply spec_effect; [done|]. intros h1 [He Hl] Hs. spec_step.
  unfold spec at 1, Runner.next_write, same_submit.
  destruct (Runner.writes h1) as [|[| |] ws]; unfold spec, bind, put_lifecycle, ret; simpl; rewrite ?He, ?Hl, ?Hs;
    (split; [done|]); auto.
Qed.

Lemma same_submit_kept w h ag r :
  host_ok w -> same_submit (w_host w) h ->
  host_ok (mkWorld h ag r) /\ (forall o, host_ran (mkWorld h ag r) o <-> host_ran w o) /\
  (forall o, host_pinned w o -> host_pinned (mkWorld h ag r) o).
Proof.
  unfold host_ok, host_ran, host_pinned, file_ok. intros Hok [Hs He]. simpl. by rewrite Hs, He.
Qed.

Lemma quiet_refl w ag r : host_ok w -> host_quiet w (mkWorld (w_host w) ag r).
Proof. intros Hok. apply step_quiet; [done|apply frame_refl|]. apply file_step_untouched. by left. Qed.

(** Submission. *)
Lemma submit_safe_world w h ag r op i :
  host_ok w -> host_ids op -> submit_safe (w_host w) h op i ->
  host_ok (mkWorld h ag r) /\ host_file (mkWorld h ag r) = host_file w /\
  (forall x, host_ran (mkWorld h ag r) x -> host_ran w x \/ x = op /\ host_pinned (mkWorld h ag r) op).
Proof.
  unfold host_ok, host_file, host_ran, host_pinned, file_ok. simpl.
  intros [Hok Hdr] [_ Hid] [[He Hl] Hs|l [He Hl] _ Hs HW Ho|l He Hl _ Hs HW Ho Hc]; rewrite He, Hl.
  - split_and!; [|done|done|auto]. intros l Hfl. destruct Hs as [Hs|Hs]; rewrite Hs in Hfl; [by apply Hok|].
    destruct (Runner.submit_file (w_host w)) as [l0|] eqn:E0; simplify_eq/=. by apply recovered_WF, Hok.
  - split_and!; [congruence|done|done|auto].
  - split_and!; [congruence| |done|].
    { intros x. rewrite fmap_app, elem_of_app. intros [Hx|Hx%list_elem_of_singleton]; [auto|by subst x]. }
    intros x. rewrite fmap_app, elem_of_app. simpl.
    intros [[Hx|Hx%list_elem_of_singleton]|Hx]; [by left; left|right|by left; right]. split; [done|]. exists l. split_and!; [done..| |]; by destruct (Sub.latest l).
Qed.

Context (Hcfg : cfg_ok cfg).

#[local] Instance the_runner : LifecycleCloudRunner World := host_runner fs cfg.

Lemma host_law_submit o p w :
  host_ok w -> host_ids o ->
  spec (lr_submit o p) w
    (fun r w' => (host_ok w' /\ host_file w' = host_file w /\
       (forall x, host_ran w' x -> host_ran w x \/ x = o /\ host_pinned w' o)) /\
       (host_ran w' o -> host_ran w o \/ reports_uncertainty o r))
    (fun w' => host_ok w' /\ host_file w' = host_file w /\
       (forall x, host_ran w' x -> host_ran w x \/ x = o /\ host_pinned w' o)).
Proof.
  intros Hok Hid. pose proof Hid as [Hnil _]. pose proof Hok as [Hfile _]. apply spec_with_answers.
  intros a ag. eapply spec_mono; [by apply spec_submit|..].
  - intros r h [Hsafe Hrep]. split; [exact (submit_safe_world _ _ _ _ _ _ Hok Hid Hsafe)|].
    destruct r as [s|e]; simpl in Hrep |- *; [right; by destruct Hrep as (l & ? & _)|].
    destruct Hrep as [He|He]; [|by right]. unfold host_ran. simpl. rewrite He. by left.
  - intros h Hsafe. exact (submit_safe_world _ _ _ _ _ _ Hok Hid Hsafe).
Qed.

Lemma host_law_observe o w :
  host_ok w ->
  spec (lr_observe_submit o) w
    (fun r w' => host_quiet w w' /\ (host_pinned w o -> r <> Ok OAbsent /\ r <> Ok OFailedBeforeSpawn))
    (host_quiet w).
Proof.
  intros Hok. apply spec_with_answers. intros a ag. eapply spec_mono; [apply spec_observe; by destruct Hok|..].
  - intros r h (Hf & Hs & Hobs). split; [by apply step_quiet|]. intros (l & El & Ho & H1 & H2).
    rewrite El in Hobs. simpl in Hobs. rewrite recovered_op, Ho, recovered_latest in Hobs.
    rewrite bool_decide_false in Hobs by tauto.
    destruct r as [obs|]; [|done]. specialize (Hobs obs eq_refl).
    destruct (Sub.latest l); simpl in *; try done; simplify_eq/=; try done;
      destruct (Runner.recorded_or_invalid _); simplify_eq/=; done.
  - intros h [Hf Hs]. by apply step_quiet.
Qed.

#[export, refine] Instance host_contract : RunnerContract World := {
  rc_ok := host_ok; rc_ids := host_ids; rc_ran := host_ran; rc_pinned := host_pinned; rc_file := host_file }.
Proof.
  - intros w Hok. apply spec_with_answers. intros a ag. spec_step. by apply quiet_refl.
  - intros t w Hok. apply spec_with_answers. intros a ag. spec_step. by apply quiet_refl.
  - intros w Hok. apply spec_host_quiet; [done|]. intros a.
    eapply spec_mono; [apply spec_reconcile; by destruct Hok| |done]. by intros ? ? (? & ? & _).
  - intros o r w Hok. apply spec_host_quiet; [done|]. intros a. apply spec_resolve. by destruct Hok.
  - intros w Hok. apply spec_with_answers. intros a ag. eapply spec_mono; [apply spec_host_load|..].
    + intros r h [-> Hl]. split; [by apply quiet_refl|]. intros l Hr. by apply (Hl (Some l)).
    + intros h ->. by apply quiet_refl.
  - apply host_law_observe.
  - apply host_law_submit.
  - intros l w Hok. apply spec_no_answers. unfold persist_lifecycle_ledger. destruct (Life.validate l).
    + eapply spec_mono; [apply spec_replace|..].
      * intros r h [Hs Hf]. destruct (same_submit_kept w h (w_agenda w) (w_rest w) Hok Hs) as (? & ? & ?).
        split_and!; done.
      * intros h ->. by apply quiet_refl.
    + spec_step. split_and!; try done. by right.
  - intros w Hok. apply spec_no_answers. unfold remove_lifecycle_ledger. spec_step. unfold spec at 1, get.
    destruct (Runner.lifecycle_file (w_host w)) eqn:El.
    + eapply spec_mono; [apply spec_replace|..].
      * intros r h [Hs Hf]. destruct (same_submit_kept w h (w_agenda w) (w_rest w) Hok Hs) as (? & ? & ?).
        split_and!; try done. unfold host_file. simpl. rewrite El in Hf |- *. tauto.
      * intros h ->. by apply quiet_refl.
    + spec_step. split_and!; try done. by right.
Defined.
End Contract.

(** ** Sequences of calls *)

Inductive OrchCall :=
| OStart (op : CloudSubmitOperationId) (prompt : CloudPrompt)
| OInspect
| OReconcile
| OResolve (op : CloudSubmitOperationId) (d : UnknownSubmitDecision)
| OCancel
| ORestart.

(** A call with the system's answers, how its writes end and how many effects the process lives. *)
Record OrchAttempt := mkOrchAttempt {
  oa_call : OrchCall; oa_agenda : list Runner.Answers; oa_rest : Runner.Answers;
  oa_writes : list Runner.WriteOutcome; oa_fuel : nat }.

(** A process (none after a death or a failed construction) on a host. *)
Abbreviation System := (option Orch.OrchestratorState * Runner.Host)%type.

Section Sequences.
Context (fs : string -> option RawTaskListPage) (cfg : Runner.Config).

#[local] Instance sys_runner : LifecycleCloudRunner World := host_runner fs cfg.

Definition attempt_world (t : OrchAttempt) (h : Runner.Host) : World :=
  mkWorld (boot (oa_writes t) (oa_fuel t) h) (oa_agenda t) (oa_rest t).

Definition forget {St A} (m : M St A) : M St unit := let! _ := m in ret tt.

Definition run_call (c : OrchCall) : M (Orch.OrchestratorState * World) unit :=
  match c with
  | OStart op prompt => forget (Orch.start op prompt)
  | OInspect => forget Orch.inspect
  | OReconcile => forget Orch.reconcile_unknown
  | OResolve op d => forget (Orch.resolve_unknown op d)
  | OCancel => forget Orch.cancel_step
  | ORestart => forget Orch.from_runner
  end.

Definition survivors (r : Run (Orch.OrchestratorState * World) unit) : System :=
  match r with Done _ (o, w) => (Some o, w_host w) | Crashed (_, w) => (None, w_host w) end.

(** A restart ends the old process; its construction may fail. *)
Definition restart (w : World) : System :=
  match Orch.from_runner (fresh_process, w) with
  | Done (Ok _) (o, w') => (Some o, w_host w')
  | Done (Err _) (_, w') | Crashed (_, w') => (None, w_host w')
  end.

Definition orch_attempt (t : OrchAttempt) (s : System) : System :=
  let w := attempt_world t s.2 in
  match oa_call t, s.1 with
  | ORestart, _ => restart w
  | _, None => s
  | c, Some o => survivors (run_call c (o, w))
  end.

Definition orch_attempts (ts : list OrchAttempt) (s : System) : System := foldl (fun s t => orch_attempt t s) s ts.

(** The identities the starts draw, in order. *)
Definition started (ts : list OrchAttempt) : list CloudSubmitOperationId :=
  omap (fun t => match oa_call t with OStart op _ => Some op | _ => None end) ts.

Context (Hcfg : cfg_ok cfg).

(** The invariant of the whole system, for the identities drawn so far. *)
Definition system_truthful (drawn : list CloudSubmitOperationId) (s : System) : Prop :=
  let w := mkWorld s.2 [] demo_answers in
  match s.1 with
  | Some o => truthful (RC := host_contract fs cfg drawn Hcfg) (o, w)
  | None => durable_truthful (RC := host_contract fs cfg drawn Hcfg) (fresh_process, w)
  end.

Lemma run_call_spec drawn t o w :
  truthful (RC := host_contract fs cfg drawn Hcfg) (o, w) ->
  match oa_call t with
  | OStart op _ => is_nil (op_uuid op) = false /\ op ∈ drawn /\ ~ host_ran drawn w op
  | ORestart => False
  | _ => True
  end ->
  system_truthful drawn (survivors (run_call (oa_call t) (o, w))).
Proof.
  intros HT Hc.
  assert (Hs : forall A (m : M (Orch.OrchestratorState * World) A),
    spec m (o, w) (fun _ => truthful (RC := host_contract fs cfg drawn Hcfg))
      (durable_truthful (RC := host_contract fs cfg drawn Hcfg)) ->
    system_truthful drawn (survivors (forget m (o, w)))).
  { intros A m. unfold spec, forget, bind, survivors. destruct (m (o, w)) as [a [o' w']|[o' w']]; exact id. }
  destruct (oa_call t) as [op p| | |op d| |]; [| | | | |done]; apply Hs.
  - destruct Hc as (? & ? & ?). apply (spec_start (RC := host_contract fs cfg drawn Hcfg)); done.
  - by apply (spec_inspect (RC := host_contract fs cfg drawn Hcfg)).
  - by apply (spec_orch_reconcile (RC := host_contract fs cfg drawn Hcfg)).
  - by apply (spec_orch_resolve (RC := host_contract fs cfg drawn Hcfg)).
  - by apply (spec_cancel_step (RC := host_contract fs cfg drawn Hcfg)).
Qed.

Lemma system_truthful_durable drawn p h : system_truthful drawn (p, h) -> system_truthful drawn (None, h).
Proof. destruct p; [|done]. apply (truthful_durable (RC := host_contract fs cfg drawn Hcfg)). Qed.

(** Drawing more identities keeps the invariant: fewer operations may still run. *)
Lemma host_ran_draw drawn more w x : host_ran (drawn ++ more) w x -> host_ran drawn w x.
Proof. intros [?|Hx]; [by left|right]. intros Hd. apply Hx, elem_of_app. by left. Qed.

Lemma honest_draw drawn more w l :
  honest (RC := host_contract fs cfg drawn Hcfg) w l -> honest (RC := host_contract fs cfg (drawn ++ more) Hcfg) w l.
Proof. intros H Hran. exact (H (host_ran_draw drawn more w _ Hran)). Qed.

Lemma system_truthful_draw drawn more s : system_truthful drawn s -> system_truthful (drawn ++ more) s.
Proof.
  assert (Hok : forall w, host_ok drawn w -> host_ok (drawn ++ more) w).
  { intros w [? H]. split; [done|]. intros x Hx. apply elem_of_app. auto. }
  unfold system_truthful. destruct s as [[o|] h].
  - intros (H & Hm & Hd). split_and!; [by apply Hok|intros l Hl; by apply honest_draw, Hm|].
    intros l Hl. by apply honest_draw, Hd.
  - intros [H Hd]. split; [by apply Hok|]. intros l Hl. by apply honest_draw, Hd.
Qed.

Lemma restart_truthful drawn t h :
  system_truthful drawn (None, h) -> system_truthful drawn (restart (attempt_world t h)).
Proof.
  intros HS. unfold restart.
  pose proof (spec_from_runner (RC := host_contract fs cfg drawn Hcfg) (attempt_world t h) HS) as H.
  unfold spec in H. destruct (Orch.from_runner _) as [[u|e] [o w]|[o w]]; [exact H| |exact H].
  exact (truthful_durable (RC := host_contract fs cfg drawn Hcfg) (o, w) H).
Qed.

Lemma orch_attempt_truthful drawn t s :
  system_truthful drawn s -> Forall (fun op => is_nil (op_uuid op) = false /\ op ∉ drawn) (started [t]) ->
  system_truthful (drawn ++ started [t]) (orch_attempt t s).
Proof.
  intros HS HF. pose proof (system_truthful_draw drawn (started [t]) s HS) as HS'.
  destruct s as [p h]. unfold orch_attempt.
  assert (Hcall : forall o, p = Some o -> match oa_call t with ORestart => False | _ => True end ->
    system_truthful (drawn ++ started [t]) (survivors (run_call (oa_call t) (o, attempt_world t h)))).
  { intros o -> Hc. apply run_call_spec; [exact HS'|]. unfold started in *. simpl in *.
    destruct (oa_call t) as [op pr| | |op d| |]; try done. apply Forall_inv in HF as [Hnil Hnew].
    split_and!; [done|set_solver|]. destruct HS as ([_ Hd] & _).
    intros [Hran|Hran]; [by apply Hnew, Hd|]. apply Hran. set_solver. }
  cbn [fst snd]. destruct (oa_call t) eqn:Ec; try (destruct p as [o|]; [by apply (Hcall o)|exact HS']).
  apply restart_truthful. by eapply system_truthful_durable.
Qed.

Lemma orch_attempts_truthful ts : forall drawn s,
  system_truthful drawn s -> Forall (fun op => is_nil (op_uuid op) = false) (started ts) ->
  NoDup (drawn ++ started ts) ->
  system_truthful (drawn ++ started ts) (orch_attempts ts s).
Proof.
  induction ts as [|t ts IH]; intros drawn s HS HF HN.
  - simpl. by rewrite app_nil_r.
  - assert (E : started (t :: ts) = started [t] ++ started ts)
      by (unfold started; simpl; by destruct (oa_call t)).
    rewrite E in *. rewrite app_assoc in *. apply Forall_app in HF as [HF1 HF2].
    apply (IH _ (orch_attempt t s)); [|done..]. apply orch_attempt_truthful; [done|].
    apply NoDup_app in HN as (HN & _ & _). apply NoDup_app in HN as (_ & HN & _).
    apply Forall_forall. intros op Hop. split; [by apply (proj1 (Forall_forall _ _) HF1)|].
    intros Hd. by apply (HN op).
Qed.
End Sequences.

(** The host of a first installation. *)
Definition first_host : Runner.Host := Runner.mkHost None None [] [] 0.

(** No record of the orchestrator ever disowns a command that ran.  However starts, inspections,
    reconciliations, decisions, cancellations and restarts follow each other from a first
    installation, whatever the system answers, whichever writes fail and wherever the process dies:
    when the record in memory or the durable record says that its operation failed before the
    submission, or was cancelled without a task, the operation's command was never started. *)
Theorem failed_lifecycle_means_no_command fs cfg ts (p : option Orch.OrchestratorState) h l
    (Hcfg : cfg_ok cfg) (Hids : Forall (fun op => is_nil (op_uuid op) = false) (started ts))
    (Hfresh : NoDup (started ts))
    (Hrun : orch_attempts fs cfg ts (None, first_host) = (p, h))
    (Hrec : p ≫= Orch.ledger = Some l \/ Runner.lifecycle_file h = Some l)
    (Hphase : Life.phase l = Life.FailedBeforeSubmit \/ Life.phase l = Life.CanceledLocally false) :
  Life.operation_id l ∉ (Runner.execs h).*1.
Proof.
  assert (H0 : system_truthful fs cfg Hcfg [] (None, first_host)).
  { split; [split; [by intros ? [=]|by intros ? ?%not_elem_of_nil]|by intros ? [=]]. }
  pose proof (orch_attempts_truthful fs cfg Hcfg ts [] _ H0 Hids Hfresh) as HS. rewrite Hrun in HS.
  intros Hran.
  assert (Hl : honest (RC := host_contract fs cfg (started ts) Hcfg) (mkWorld h [] demo_answers) l).
  { destruct p as [o|]; [destruct HS as (_ & Hm & Hd)|destruct HS as [_ Hd]];
      (destruct Hrec as [Hrec|Hrec]; [|by apply Hd]); [by apply Hm|done]. }
  destruct (Hl (or_introl Hran)) as [Hn _]. by destruct Hphase as [Hp|Hp]; rewrite Hp in Hn.
Qed.

(** A first start dies while its command runs; the restart finds it and it is abandoned after a
    reconciliation; the next start is canceled before its command, and the process restarted. *)
Definition demo_cancel_answers : Runner.Answers :=
  Runner.mkAnswers (Ok tt) None None (Ok tt) (Ok None) (Ok LoggedIn) demo_sentinel demo_sentinel true true
    (Ok (demo_supervisor (exec_capture demo_task))) (fun _ => false)
    (fun _ _ => Runner.mkPageAnswer demo_sentinel (Ok (demo_supervisor demo_list_capture))).
Definition demo_call (c : OrchCall) (n : nat) : OrchAttempt := mkOrchAttempt c [] demo_answers [] n.
Definition demo_sequence : list OrchAttempt :=
  [demo_call ORestart 9; demo_call (OStart demo_op demo_prompt) 5; demo_call ORestart 9; demo_call OReconcile 9;
   demo_call (OResolve demo_op (AbandonAfterReconciliation demo_op)) 9;
   mkOrchAttempt (OStart demo_op2 demo_prompt) [] demo_cancel_answers [] 9; demo_call ORestart 9].
Definition demo_system : System := orch_attempts demo_last_slice demo_cfg demo_sequence (None, first_host).

Definition demo_canceled_ledger : LLedger :=
  Life.mkLedger 1 demo_op2 (Life.CanceledLocally false) None 0 [] None [Life.Submitting; Life.CanceledLocally false].

Lemma failed_lifecycle_means_no_command_witness :
  Runner.execs demo_system.2 = [(demo_op, demo_exec)] /\
  Life.operation_id demo_canceled_ledger ∉ (Runner.execs demo_system.2).*1.
Proof.
  split; [vm_compute; reflexivity|].
  refine (failed_lifecycle_means_no_command demo_last_slice demo_cfg demo_sequence demo_system.1 demo_system.2
    demo_canceled_ledger demo_cfg_ok _ _ _ _ _).
  - repeat constructor.
  - apply (bool_decide_unpack (NoDup (started demo_sequence))). vm_compute. exact I.
  - vm_compute. reflexivity.
  - right. vm_compute. reflexivity.
  - right. reflexivity.
Defined.

(** ** A stranded orchestrator *)

(** The directory sync after the [Authorized] write fails: the runner reports an unavailable ledger,
    which the orchestrator records as a failure before the submission, while the durable submit
    record says the command may have run. *)
Definition demo_late : list OrchAttempt :=
  [demo_call ORestart 9;
   mkOrchAttempt (OStart demo_op demo_prompt) [] demo_answers [Runner.WOk; Runner.WOk; Runner.WFailAfter] 9].

Definition failed_ledger : LLedger :=
  Life.mkLedger 1 demo_op Life.FailedBeforeSubmit None 0 [] None [Life.Submitting; Life.FailedBeforeSubmit].

Definition late_submit : Sub.CloudSubmitLedger :=
  Sub.mkLedger 1 demo_op "prod" "main" None None [] None [Sub.Intent; Sub.Authorized].

Section Stranded.
Context (fs : string -> option RawTaskListPage).
#[local] Instance stranded_runner : LifecycleCloudRunner World := host_runner fs demo_cfg.

Definition stranded_host (h : Runner.Host) : Prop :=
  Runner.execs h = [] /\ Runner.lifecycle_file h = Some failed_ledger /\ file_ok h /\
  exists l, Runner.submit_file h = Some l /\ Sub.operation_id l = demo_op /\
    (Sub.latest l = Sub.Authorized \/ Sub.latest l = Sub.OutcomeUnknown).

Definition stranded (s : System) : Prop :=
  stranded_host s.2 /\ forall o, s.1 = Some o -> Orch.ledger o = Some failed_ledger.

Lemma stranded_recovered h h' :
  stranded_host h -> frame h h' ->
  Runner.submit_file h' = Runner.submit_file h \/ Runner.submit_file h' = recovered <$> Runner.submit_file h ->
  stranded_host h'.
Proof.
  intros (He & Hl & Hok & l & Es & Ho & Hp) [Hfe Hfl] Hs. unfold stranded_host, file_ok.
  rewrite Hfe, Hfl. split; [done|]. split; [done|]. rewrite Es in Hs. destruct Hs as [Hs|Hs]; rewrite Hs.
  - split; [intros ? [= <-]; by apply Hok|]. by exists l.
  - split; [intros ? [= <-]; by apply recovered_WF, Hok|]. exists (recovered l). rewrite recovered_op, recovered_latest.
    split_and!; [done..|]. right. by destruct Hp as [Hp|Hp]; rewrite Hp.
Qed.

(** Observing any operation on such a host reports it neither absent nor startable. *)
Lemma spec_observe_stranded a op h :
  stranded_host h ->
  spec (Runner.observe_submit demo_cfg a op) h
    (fun r h' => stranded_host h' /\ r <> Ok OAbsent) stranded_host.
Proof.
  intros Hh. pose proof Hh as (He & Hl & Hok & l & Es & Ho & Hp). unfold Runner.observe_submit.
  spec_step. apply spec_pure. destruct (Runner.acquire_scope a); [|done]. spec_step.
  apply spec_recover; [done|intros; by eapply stranded_recovered| |].
  - intros h1 Hf1 Hs1 _. spec_step. split; [eapply stranded_recovered; eauto|]. rewrite Es. simpl.
    rewrite recovered_latest. destruct Hp as [->| ->]; simpl; by case_bool_decide.
  - intros e h1 Hf1 Hs1. split; [by eapply stranded_recovered|done].
Qed.

Lemma spec_start_stranded op prompt o w :
  Orch.ledger o = Some failed_ledger -> stranded_host (w_host w) ->
  spec (Orch.start op prompt) (o, w)
    (fun r st => stranded_host (w_host st.2) /\ Orch.ledger st.1 = Some failed_ledger /\ exists e, r = Err e)
    (fun st => stranded_host (w_host st.2)).
Proof.
  intros Ho Hw. unfold Orch.start, Orch.start_begin. apply spec_bind_result, spec_bind.
  apply spec_state. rewrite Ho. cbn [negb Life.is_terminal Life.phase failed_ledger]. apply spec_bind, spec_lift.
  apply spec_with_answers. intros a ag. eapply spec_mono; [by apply spec_observe_stranded|..].
  - intros r h [Hh Hr]. destruct r as [[]|]; try done; spec_step; simpl; eauto.
  - done.
Qed.
(** Every other method answers from the record in memory and changes nothing. *)
Lemma idle_stranded c o w :
  Orch.ledger o = Some failed_ledger ->
  match c with OStart _ _ | ORestart => True | _ => survivors (run_call fs demo_cfg c (o, w)) = (Some o, w_host w) end.
Proof.
  intros Ho. destruct o as [l cn]. simpl in Ho. subst l. destruct c as [| | |op d| |]; try done.
  unfold run_call, forget, Orch.resolve_unknown, bind, bind_result, Orch.state, Orch.pure, ret. simpl.
  unfold bind, ret. case_bool_decide; done.
Qed.

Lemma restart_stranded t h : stranded_host h -> stranded (restart fs demo_cfg (attempt_world t h)).
Proof.
  intros Hh.
  assert (H : spec Orch.from_runner (fresh_process, attempt_world t h)
    (fun r st => stranded_host (w_host st.2) /\ (r = Ok tt -> Orch.ledger st.1 = Some failed_ledger))
    (fun st => stranded_host (w_host st.2))).
  { unfold Orch.from_runner, Orch.load_with_runner, Orch.lower. apply spec_bind_result, spec_bind_result, spec_bind, spec_lift.
    apply spec_with_answers. intros a ag. spec_step. spec_step. destruct (Runner.acquire_scope a) as [[]|]; [|by split].
    apply spec_lift, spec_with_answers. intros a' ag'. eapply spec_mono; [apply spec_host_load|..]; simpl.
    - intros r h' [-> Hl]. destruct r as [x|]; [|by split]. specialize (Hl x eq_refl).
      assert (x = Some failed_ledger) as -> by (destruct Hh as (_ & Hf & _); congruence).
      apply spec_bind, spec_put, spec_bind, spec_state, spec_ret. by split.
    - by intros h' ->. }
  unfold spec in H. unfold restart. destruct (Orch.from_runner _) as [[[]|e] [o w]|[o w]]; simpl in H.
  - destruct H as [H1 H2]. split; [done|]. intros ? [= <-]. by apply H2.
  - destruct H. by split.
  - by split.
Qed.

Lemma attempt_stranded t s : stranded s -> stranded (orch_attempt fs demo_cfg t s).
Proof.
  destruct s as [p h]. intros [Hh Hp]. simpl in *. unfold orch_attempt. cbn [fst snd].
  assert (Hidle : forall c, match c with OStart _ _ | ORestart => False | _ => True end ->
    forall o, p = Some o -> stranded (survivors (run_call fs demo_cfg c (o, attempt_world t h)))).
  { intros c Hc o ->. pose proof (idle_stranded c o (attempt_world t h) (Hp o eq_refl)) as Hi.
    destruct c; try done; rewrite Hi; (split; [exact Hh|]); by intros ? [= <-]; apply Hp. }
  destruct (oa_call t) eqn:Ec; try (destruct p as [o|]; [by apply Hidle|by split]); [|by apply restart_stranded].
  destruct p as [o|]; [|by split].
  pose proof (spec_start_stranded op prompt o (attempt_world t h) (Hp o eq_refl) Hh) as H.
  unfold spec in H. unfold run_call, survivors, forget, bind, ret.
  destruct (Orch.start op prompt _) as [r [o' w']|[o' w']]; [destruct H as (H1 & H2 & _)|]; split; try done.
  by intros ? [= <-].
Qed.
End Stranded.

(** C36: a failed directory sync can strand the orchestrator for good.  When the sync after the
    [Authorized] write fails, no command runs, but the orchestrator records that the operation failed
    before the submission while the durable submit record keeps it as one that may have run.  From
    then on, whatever is called, however often the process restarts and whatever the system answers,
    no command is ever started again and every start is refused: the orchestrator believes the
    operation settled, so it neither reconciles nor resolves it. *)
Theorem late_authorization_failure_strands_orchestrator fs ts :
  let s := orch_attempts fs demo_cfg ts (orch_attempts fs demo_cfg demo_late (None, first_host)) in
  Runner.execs s.2 = [] /\ Runner.lifecycle_file s.2 = Some failed_ledger /\
  (exists l, Runner.submit_file s.2 = Some l /\ Sub.operation_id l = demo_op /\
     (Sub.latest l = Sub.Authorized \/ Sub.latest l = Sub.OutcomeUnknown)) /\
  (forall o op prompt t r st, s.1 = Some o ->
     @Orch.start World (host_runner fs demo_cfg) op prompt (o, attempt_world t s.2) = Done r st ->
     exists e, r = Err e).
Proof.
  assert (H0 : stranded (orch_attempts fs demo_cfg demo_late (None, first_host))).
  { assert (orch_attempts fs demo_cfg demo_late (None, first_host) =
      (Some (Orch.mkState (Some failed_ledger) None),
       Runner.mkHost (Some late_submit) (Some failed_ledger) [] [] 5)) as -> by (vm_compute; reflexivity).
    split; [|by intros o [= <-]]. split_and!; [done|done| |].
    - intros l [= <-]. apply Sub.submit_validate_iff. vm_compute. reflexivity.
    - exists late_submit. by split_and!; [..|left]. }
  set (s0 := orch_attempts fs demo_cfg demo_late (None, first_host)) in *. clearbody s0.
  assert (H : stranded (orch_attempts fs demo_cfg ts s0)).
  { revert s0 H0. induction ts as [|t ts IH]; intros s0 H0; [done|]. apply (IH (orch_attempt fs demo_cfg t s0)).
    by apply attempt_stranded. }
  simpl. set (s := orch_attempts fs demo_cfg ts s0) in *. destruct H as [Hh Hp].
  pose proof Hh as (? & ? & _ & ?). split_and!; [done..|].
  intros o op prompt t r st Hs Hr.
  pose proof (spec_start_stranded fs op prompt o (attempt_world t s.2) (Hp o Hs) Hh) as Hspec.
  unfold spec, stranded_runner in Hspec. rewrite Hr in Hspec. apply Hspec.
Qed.

(** ** Calls during a submission *)

Section Busy.
Context {S : Type} `{R : LifecycleCloudRunner S}.

(** The other methods, as another thread may call them while [start] waits for the submission. *)
Inductive OtherCall :=
| KStart (op : CloudSubmitOperationId) (prompt : CloudPrompt)
| KInspect | KReconcile | KResolve (op : CloudSubmitOperationId) (d : UnknownSubmitDecision) | KCancel | KEligible.

Definition other_call (c : OtherCall) : M (Orch.OrchestratorState * S) bool :=
  let done_ok {A} (r : result CloudLifecycleError A) := ret (is_ok r) in
  match c with
  | KStart op prompt => let! r := Orch.start op prompt in done_ok r
  | KInspect => let! r := Orch.inspect in done_ok r
  | KReconcile => let! r := Orch.reconcile_unknown in done_ok r
  | KResolve op d => let! r := Orch.resolve_unknown op d in done_ok r
  | KCancel => let! r := Orch.cancel_step in ret (match r with Some r => is_ok r | None => false end)
  | KEligible => let! r := Orch.diff_eligible_task in ret (is_ok r)
  end.

Definition other_calls (cs : list OtherCall) (st : Orch.OrchestratorState * S) : Orch.OrchestratorState * S :=
  foldl (fun st c => outcome_state (other_call c st)) st cs.

Lemma busy_call c o s l :
  Orch.ledger o = Some l -> Life.phase l = Life.Submitting ->
  exists cn, other_call c (o, s) = Done false (Orch.mkState (Some l) cn, s).
Proof.
  intros Ho Hp. destruct o as [led cn]. simpl in Ho. subst led.
  assert (Hlc : forall lc, Life.lifecycle l = Ok lc -> lc = LSubmitting (Life.operation_id l)).
  { intros lc. unfold Life.lifecycle. rewrite Hp. destruct (Life.get_task_id l); [by intros [= <-]|done]. }
  destruct c as [op p| | |op d| |]; simpl; unfold bind.
  - unfold Orch.start, Orch.start_begin, bind_result, bind, Orch.state. simpl. rewrite Hp. simpl. by eexists.
  - unfold Orch.inspect, bind_result, bind, Orch.state, Orch.pure, ret. simpl.
    destruct (Life.lifecycle l) as [lc|] eqn:E; [|by eexists]. rewrite (Hlc lc eq_refl). by eexists.
  - unfold Orch.reconcile_unknown, bind_result, bind, Orch.state, Orch.pure, ret, Orch.require_phase. simpl.
    rewrite Hp. simpl. by eexists.
  - unfold Orch.resolve_unknown, bind_result, bind, Orch.state, Orch.pure, ret. simpl. rewrite Hp. simpl.
    case_bool_decide; by eexists.
  - unfold Orch.cancel_step, bind, Orch.state, ret. simpl.
    destruct (Life.lifecycle l) as [lc|] eqn:E; [|by eexists]. rewrite (Hlc lc eq_refl). simpl.
    destruct cn; by eexists.
  - unfold Orch.diff_eligible_task, bind, Orch.state, ret. simpl.
    destruct (Life.lifecycle l) as [lc|] eqn:E; [|by eexists]. rewrite (Hlc lc eq_refl). by eexists.
Qed.

(** While a submission runs outside the lock, no other call of the orchestrator succeeds, touches
    the record in memory or reaches the runner, in any number and order; a cancellation only sets the
    token.  So the second half of [start] finds the record it wrote, and the runner untouched. *)
Theorem running_submission_excludes_other_calls (cs : list OtherCall) o s l
    (Hled : Orch.ledger o = Some l) (Hphase : Life.phase l = Life.Submitting) :
  (forall c, exists st, other_call c (o, s) = Done false st) /\
  exists cn, other_calls cs (o, s) = (Orch.mkState (Some l) cn, s).
Proof.
  split; [intros c; destruct (busy_call c o s l Hled Hphase) as [cn ?]; by eexists|].
  revert o Hled. induction cs as [|c cs IH]; intros o Hled.
  - exists (Orch.cancellation o). destruct o. simpl in *. by subst.
  - destruct (busy_call c o s l Hled Hphase) as [cn E]. simpl. rewrite E. by apply IH.
Qed.
End Busy.

Definition demo_busy : Orch.OrchestratorState := Orch.mkState (Some (Life.submitting demo_op)) (Some false).

Lemma running_submission_excludes_other_calls_witness :
  exists cn, @other_calls World (host_runner demo_last_slice demo_cfg)
      [KInspect; KStart demo_op2 demo_prompt; KCancel; KReconcile]
      (demo_busy, mkWorld demo_host [] demo_answers) =
    (Orch.mkState (Some (Life.submitting demo_op)) cn, mkWorld demo_host [] demo_answers).
Proof.
  refine (proj2 (@running_submission_excludes_other_calls World (host_runner demo_last_slice demo_cfg)
    [KInspect; KStart demo_op2 demo_prompt; KCancel; KReconcile] demo_busy _ (Life.submitting demo_op) _ _));
    reflexivity.
Defined.
