(* ===== verification/P0System.v ===== *)
(** * The whole Cloud path: session, orchestrator and runner on one host

    Composes the session runtime ([SessionSystem]) with the orchestrator ([Orchestrator]) on the
    runner of a host ([CloudRunner]) the way [P0SessionRuntime::new] and [CodexCloudControl]
    ([codebox-session-runtime/src/runtime.rs]) compose them.  The lower results the session's labels
    carry are no longer arbitrary: each is the reply of an orchestrator call that some thread of the
    session made.  A step is a locked region of the session, a locked region of the orchestrator, the
    submission [start] runs between its two regions, the start of a process, or its death; a call into
    the system can also end in the death of the process at any of its effects.

    The submission is one step: while it runs the orchestrator's record says [Submitting], under which
    no other region touches the host ([P0Safety.submitting_blocks_calls]). *)
From S2P Require Import Prelude Effects DomainValues CloudTypes SessionTypes SessionRuntime SessionLog SessionSystem LifecycleLedger CloudAdapter SubmitLedger LoginTypes CloudRunner RunnerSafety Orchestrator OrchestratorSafety.
From stdpp Require Import base numbers list strings.
From Stdlib Require Import ZArith Lia.
Import Ids Config Errors SessionRuntime.

Open Scope Z_scope.

#[export] Instance LowerLifecycleError_eq_dec : EqDecision LowerLifecycleError.
Proof. solve_decision. Defined.
#[export] Instance P0RecoveryCandidates_eq_dec : EqDecision P0RecoveryCandidates.
Proof. solve_decision. Defined.

(** ** The adapter between the two components *)

(** [From<CloudLifecycleError> for LowerLifecycleError] and [P0RecoveryCandidates::from_summaries]. *)
Definition lower_from (e : CloudLifecycleError) : LowerLifecycleError :=
  mkLower (le_category e) (le_operation_id e).

Definition from_summaries (op : CloudSubmitOperationId) (tasks : list CloudTaskSummary) (complete : bool)
  : P0RecoveryCandidates :=
  {| rc_operation_id := op; rc_task_ids := map (fun t => p0_task_from_cloud (sum_id t)) tasks;
     rc_complete := complete |}.

Module Control.
Section Control.
Context {S : Type} `{R : LifecycleCloudRunner S}.

Abbreviation St := (Orch.OrchestratorState * S)%type.

(** [map_err(Into::into)] *)
Definition mapped {A} (m : M St (result CloudLifecycleError A)) : M St (result LowerLifecycleError A) :=
  let! r := m in ret (map_err lower_from r).

Definition inspect : M St (result LowerLifecycleError CloudLifecycle) := mapped Orch.inspect.

(** [start], whose two regions run at different times: the second maps the result. *)
Definition start (op : CloudSubmitOperationId) (prompt : CloudPrompt)
  : M St (result LowerLifecycleError CloudLifecycle) := mapped (Orch.start op prompt).
Definition start_begin (op : CloudSubmitOperationId)
  : M St (result LowerLifecycleError (option LLedger)) := mapped (Orch.start_begin op).
Definition start_finish (op : CloudSubmitOperationId) (prior : option LLedger)
    (r : result CloudRunnerError CloudSubmission) : M St (result LowerLifecycleError CloudLifecycle) :=
  mapped (Orch.start_finish op prior r).

(** One turn of the waiting loop of [cancel]; [None] waits for the running submission. *)
Definition cancel : M St (option (result LowerLifecycleError CloudLifecycle)) :=
  let! r := Orch.cancel_step in ret (map_err lower_from <$> r).

Definition reconcile_unknown : M St (result LowerLifecycleError P0RecoveryCandidates) :=
  try! rec := mapped Orch.reconcile_unknown in
  ret (Ok (from_summaries (Runner.rec_operation_id rec) (Runner.rec_tasks rec) (Runner.rec_complete rec))).

Definition resolve_unknown (op : CloudSubmitOperationId) (d : UnknownSubmitDecision)
  : M St (result LowerLifecycleError CloudLifecycle) := mapped (Orch.resolve_unknown op d).

End Control.
End Control.

(** ** Processes *)

(** A call into the orchestrator other than [start], which is taken apart below. *)
Inductive LowerCall :=
| CallInspect
| CallCancel
| CallReconcile
| CallResolve (op : CloudSubmitOperationId) (decision : UnknownSubmitDecision).

(** A result on its way back to the thread that made the call. *)
Inductive Reply :=
| ReplyLifecycle (call : LowerCall) (r : result LowerLifecycleError CloudLifecycle)
| ReplyCandidates (r : result LowerLifecycleError P0RecoveryCandidates).

#[export] Instance LowerCall_eq_dec : EqDecision LowerCall.
Proof. solve_decision. Defined.
#[export] Instance result_eq_dec {E A} `{EqDecision E, EqDecision A} : EqDecision (result E A).
Proof. solve_decision. Defined.
#[export] Instance Reply_eq_dec : EqDecision Reply.
Proof. solve_decision. Defined.

(** Where the worker's [start] is: between its regions, around the submission, and returned. *)
Inductive StartState :=
| NotStarting
| StartCalled (turn : TurnId) (prompt : CloudPrompt)
| StartSubmitting (turn : TurnId) (prompt : CloudPrompt) (op : CloudSubmitOperationId)
    (prior : option LLedger)
| StartSubmitted (turn : TurnId) (op : CloudSubmitOperationId) (prior : option LLedger)
    (r : result CloudRunnerError CloudSubmission)
| StartReturned (turn : TurnId) (r : result LowerLifecycleError CloudLifecycle).

Record Process := mkProcess {
  inner : Inner;
  sys : Sys;
  orch : Orch.OrchestratorState;
  starting : StartState;
  replies : list Reply }.

(** The host with at most one process.  [epoch] counts the processes, [drawn] the operation
    identities drawn, [accepted] the turns whose [start_turn] returned a receipt, with their
    process and prompt: no code reads them. *)
Record P0System := mkP0 {
  proc : option Process;
  host : Runner.Host;
  epoch : nat;
  drawn : list CloudSubmitOperationId;
  accepted : list ((nat * TurnId) * CloudPrompt) }.

(** What the system answers during one call, how its writes end, and after how many effects the
    process dies. *)
Record Os := mkOs {
  os_agenda : list Runner.Answers; os_rest : Runner.Answers;
  os_writes : list Runner.WriteOutcome; os_fuel : nat }.

Definition os_world (os : Os) (h : Runner.Host) : Orchestrator.World :=
  Orchestrator.mkWorld (boot (os_writes os) (os_fuel os) h) (os_agenda os) (os_rest os).

Inductive P0Label :=
| PSession (l : Label)
| PCall (c : LowerCall) (os : Os)
| PStartBegin (op : CloudSubmitOperationId) (os : Os)
| PSubmit (os : Os)
| PStartFinish (os : Os)
| PBoot (i : Inner) (now : Z) (fresh : TurnId) (os : Os)
| PDie.

(** ** Session regions *)

(** Which reply a session label consumes; [WorkerStartDone] takes the result of [start]. *)
Definition expects (l : Label) (y : Sys) : option Reply :=
  match l with
  | CancelLower _ _ r | WorkerStartCancelDone r | WorkerCancelDone r => Some (ReplyLifecycle CallCancel r)
  | WorkerMonitorDone _ r => Some (ReplyLifecycle CallInspect r)
  | ReconcileLower _ r => Some (ReplyCandidates r)
  | ResolveLower k _ r =>
      match callers y !! k with
      | Some (SessionSystem.CResolve _ op d) => Some (ReplyLifecycle (CallResolve op d) r)
      | _ => None
      end
  | _ => None
  end.

(** Take one occurrence of a reply out. *)
Fixpoint take_reply (r : Reply) (rs : list Reply) : option (list Reply) :=
  match rs with
  | [] => None
  | x :: rs => if bool_decide (x = r) then Some rs else cons x <$> take_reply r rs
  end.

Lemma take_reply_spec r rs rs' : take_reply r rs = Some rs' -> r ∈ rs /\ forall x, x ∈ rs' -> x ∈ rs.
Proof.
  revert rs'. induction rs as [|x rs IH]; intros rs'; simpl; [done|]. case_bool_decide as E.
  - intros [= <-]. subst x. split; [by left|]. intros y Hy. by right.
  - destruct (take_reply r rs) as [rs0|]; [|done]. intros [= <-]. destruct (IH rs0 eq_refl) as [Hr Hx].
    split; [by right|]. intros y [->|Hy]%elem_of_cons; [by left|right; auto].
Qed.

(** The replies left when a label's reply is there. *)
Definition consume (l : Label) (p : Process) : option (list Reply) :=
  match expects l (sys p) with
  | Some r => take_reply r (replies p)
  | None => Some (replies p)
  end.

(** The worker calls [start] where its claim was admitted, and takes the result where it is
    returned. *)
Definition start_after (l : Label) (p : Process) (y : Sys) : option StartState :=
  match l, pc (sys p), pc y with
  | WorkerAdmit, WClaimed t prompt, WStarting _ => Some (StartCalled t prompt)
  | WorkerStartDone _ r, _, _ =>
      match starting p with
      | StartReturned _ r' => if bool_decide (r = r') then Some NotStarting else None
      | _ => None
      end
  | _, _, _ => Some (starting p)
  end.

(** The turn a label accepts. *)
Definition accepts (l : Label) (p : Process) : option (TurnId * CloudPrompt) :=
  match l with
  | StartTurn fresh prompt =>
      if is_ok (start_turn (inner p) fresh prompt (world (sys p))).2 then Some (fresh, prompt) else None
  | _ => None
  end.

Definition with_proc (p : option Process) (s : P0System) : P0System :=
  mkP0 p (host s) (epoch s) (drawn s) (accepted s).

Definition session_step (l : Label) (p : Process) (s : P0System) : option P0System :=
  y ← sys_step (inner p) l (sys p);
  rs ← consume l p;
  st ← start_after l p y;
  Some (mkP0 (Some (mkProcess (inner p) y (orch p) st rs)) (host s) (epoch s) (drawn s)
          match accepts l p with
          | Some (t, prompt) => ((epoch s, t), prompt) :: accepted s
          | None => accepted s
          end).

(** ** Orchestrator regions *)

(** Some thread of the session is at this call. *)
Definition wanted (c : LowerCall) (y : Sys) : bool :=
  match c with
  | CallInspect => match pc y with WMonitoring _ _ => true | _ => false end
  | CallCancel =>
      match pc y with WStartCancel _ | WCancelling _ => true | _ => false end
      || existsb (fun x => match x with CCancel _ _ _ => true | _ => false end) (callers y)
  | CallReconcile => existsb (fun x => match x with SessionSystem.CReconcile _ _ => true | _ => false end) (callers y)
  | CallResolve op d =>
      existsb (fun x => match x with
                        | SessionSystem.CResolve _ op' d' => bool_decide (op' = op) && bool_decide (d' = d)
                        | _ => false
                        end) (callers y)
  end.

Section Steps.
Context (fs : string -> option RawTaskListPage) (cfg : Runner.Config).

#[local] Instance p0_runner : LifecycleCloudRunner Orchestrator.World := host_runner fs cfg.

Abbreviation OM A := (M (Orch.OrchestratorState * Orchestrator.World) A).

(** The reply a call leaves: a [cancel] that waits leaves none. *)
Definition run_lower (c : LowerCall) : OM (list Reply) :=
  match c with
  | CallInspect => let! r := Control.inspect in ret [ReplyLifecycle CallInspect r]
  | CallCancel =>
      let! r := Control.cancel in
      ret match r with Some r => [ReplyLifecycle CallCancel r] | None => [] end
  | CallReconcile => let! r := Control.reconcile_unknown in ret [ReplyCandidates r]
  | CallResolve op d =>
      let! r := Control.resolve_unknown op d in ret [ReplyLifecycle (CallResolve op d) r]
  end.

(** [read_diff]: the authority of the record in memory, then the runner's own checks ([LowerDiffError]
    keeps the category alone).  It changes neither. *)
Definition read_diff : OM (result CloudDiffReadErrorCategory CloudDiff) :=
  try! task := Orch.diff_eligible_task in
  Orch.lift (with_answers (fun a => Runner.retrieve_diff cfg a task)).

(** Run a region on the process's orchestrator; a death ends the process. *)
Definition on_orch {A} (m : OM A) (os : Os) (p : Process) (s : P0System)
    (k : A -> Process -> Process) : P0System :=
  match m (orch p, os_world os (host s)) with
  | Done a (o, w) =>
      mkP0 (Some (k a (mkProcess (inner p) (sys p) o (starting p) (replies p))))
        (Orchestrator.w_host w) (epoch s) (drawn s) (accepted s)
  | Crashed (_, w) => mkP0 None (Orchestrator.w_host w) (epoch s) (drawn s) (accepted s)
  end.

Definition with_starting (st : StartState) (p : Process) : Process :=
  mkProcess (inner p) (sys p) (orch p) st (replies p).
Definition add_replies (rs : list Reply) (p : Process) : Process :=
  mkProcess (inner p) (sys p) (orch p) (starting p) (rs ++ replies p).

Definition call_step (c : LowerCall) (os : Os) (p : Process) (s : P0System) : option P0System :=
  if wanted c (sys p) then Some (on_orch (run_lower c) os p s add_replies) else None.

(** [CloudSubmitOperationId::new] draws a version 4 UUID: it is not nil and was not drawn before. *)
Definition draws (op : CloudSubmitOperationId) (s : P0System) : bool :=
  negb (is_nil (op_uuid op)) && negb (bool_decide (op ∈ drawn s)).

Definition begin_step (op : CloudSubmitOperationId) (os : Os) (p : Process) (s : P0System) : option P0System :=
  match starting p with
  | StartCalled t prompt =>
      if draws op s then
        let s := mkP0 (proc s) (host s) (epoch s) (drawn s ++ [op]) (accepted s) in
        Some (on_orch (Control.start_begin op) os p s
                (fun r => with_starting match r with
                                        | Ok prior => StartSubmitting t prompt op prior
                                        | Err e => StartReturned t (Err e)
                                        end))
      else None
  | _ => None
  end.

Definition submit_step (os : Os) (p : Process) (s : P0System) : option P0System :=
  match starting p with
  | StartSubmitting t prompt op prior =>
      Some (on_orch (Orch.lift (lr_submit op prompt)) os p s
              (fun r => with_starting (StartSubmitted t op prior r)))
  | _ => None
  end.

Definition finish_step (os : Os) (p : Process) (s : P0System) : option P0System :=
  match starting p with
  | StartSubmitted t op prior r =>
      Some (on_orch (Control.start_finish op prior r) os p s
              (fun r => with_starting (StartReturned t r)))
  | _ => None
  end.

(** [CloudTaskOrchestrator::from_runner], then [P0SessionRuntime::new], which inspects once.  A
    construction that fails leaves no process. *)
Definition construct : OM (result LowerLifecycleError (result LowerLifecycleError CloudLifecycle)) :=
  try! _ := Control.mapped Orch.from_runner in
  let! r := Control.inspect in ret (Ok r).

Definition boot_step (i : Inner) (now : Z) (fresh : TurnId) (os : Os) (s : P0System) : P0System :=
  let '(p, w) :=
    match construct (fresh_process, os_world os (host s)) with
    | Done (Ok inspected) (o, w) =>
        (match sys_init i now fresh inspected with
         | Ok y => Some (mkProcess i y o NotStarting [])
         | Err _ => None
         end, w)
    | Done (Err _) (_, w) | Crashed (_, w) => (None, w)
    end in
  mkP0 p (Orchestrator.w_host w) (Datatypes.S (epoch s)) (drawn s) (accepted s).

Definition p0_step (l : P0Label) (s : P0System) : option P0System :=
  match l, proc s with
  | PSession l, Some p => session_step l p s
  | PCall c os, Some p => call_step c os p s
  | PStartBegin op os, Some p => begin_step op os p s
  | PSubmit os, Some p => submit_step os p s
  | PStartFinish os, Some p => finish_step os p s
  | PDie, Some _ => Some (with_proc None s)
  | PBoot i now fresh os, None => Some (boot_step i now fresh os s)
  | _, _ => None
  end.

Definition p0_run (ls : list P0Label) (s : P0System) : option P0System :=
  foldl (fun acc l => acc ≫= p0_step l) (Some s) ls.

End Steps.

(** A host on which nothing has been submitted. *)
Definition p0_init : P0System := mkP0 None (Runner.mkHost None None [] [] 0) 0 [] [].

(** A cursor is a [u64]. *)
Definition p0_label_ok (l : P0Label) : Prop := match l with PSession l => label_ok l | _ => True end.

Inductive p0_reachable (fs : string -> option RawTaskListPage) (cfg : Runner.Config) : P0System -> Prop :=
| p0_first : p0_reachable fs cfg p0_init
| p0_next s l s' :
    p0_reachable fs cfg s -> p0_label_ok l -> p0_step fs cfg l s = Some s' -> p0_reachable fs cfg s'.

Lemma p0_run_reachable fs cfg ls s s' :
  p0_reachable fs cfg s -> Forall p0_label_ok ls -> p0_run fs cfg ls s = Some s' -> p0_reachable fs cfg s'.
Proof.
  intros Hs Hls. unfold p0_run.
  assert (Hn : forall ls, foldl (fun acc l => acc ≫= p0_step fs cfg l) None ls = None)
    by (intros xs; induction xs; done).
  revert s Hs. induction Hls as [|l ls Hl Hls IH]; simpl; intros s Hs H; [by simplify_eq|].
  destruct (p0_step fs cfg l s) as [s1|] eqn:E; [|by rewrite Hn in H].
  apply (IH s1); [|done]. by eapply p0_next.
Qed.

(** The session of a process is a session of SessionSystem.v, with the replies it got. *)
Lemma proc_reachable fs cfg s p : p0_reachable fs cfg s -> proc s = Some p -> reachable (inner p) (sys p).
Proof.
  intros Hs Hp.
  revert p Hp. induction Hs as [|s l s' _ IH Hl Hstep]; [done|].
  assert (Horch : forall A m os q k, proc s = Some q ->
    (forall a x, inner (k a x) = inner x /\ sys (k a x) = sys x) ->
    forall s0 p, proc (@on_orch A m os q s0 k) = Some p -> reachable (inner p) (sys p)).
  { intros A m os q k Hq Hk s0 p. unfold on_orch. destruct (m _) as [a [o w]|[o w]]; [|done]. intros [= <-].
    destruct (Hk a (mkProcess (inner q) (sys q) o (starting q) (replies q))) as [-> ->]. exact (IH q Hq). }
  intros p Hp. unfold p0_step in Hstep. destruct l as [l|c os|op os|os|os|i now fresh os|], (proc s) as [q|] eqn:Hq; try done.
  - unfold session_step in Hstep. destruct (sys_step _ _ _) as [y|] eqn:Ey; [|done].
    destruct (consume l q); [|done]. simpl in Hstep. destruct (start_after l q y); simplify_eq/=.
    eapply reach_step; [by apply IH|exact Hl|done].
  - unfold call_step in Hstep. destruct (wanted _ _); simplify_eq. refine (Horch _ _ _ _ _ eq_refl _ _ _ Hp). done.
  - unfold begin_step in Hstep. destruct (starting q); try done. destruct (draws _ _); simplify_eq.
    refine (Horch _ _ _ _ _ eq_refl _ _ _ Hp). by intros [] x.
  - unfold submit_step in Hstep. destruct (starting q); simplify_eq. refine (Horch _ _ _ _ _ eq_refl _ _ _ Hp). done.
  - unfold finish_step in Hstep. destruct (starting q); simplify_eq. refine (Horch _ _ _ _ _ eq_refl _ _ _ Hp). done.
  - injection Hstep as <-. unfold boot_step in Hp.
    destruct (construct _ _ _) as [[r|e] [o w]|[o w]]; simplify_eq/=.
    destruct (sys_init i now fresh r) as [y|] eqn:Ey; simplify_eq/=. by eapply reach_init.
  - by simplify_eq.
Qed.
