(* ===== verification/P0Calls.v ===== *)
(** * What the orchestrator's calls do to the whole path

    Facts about single calls, for every answer and a death at any effect: no call but a submission
    starts a command; a call that returns a lifecycle returns the one in memory; while a submission
    runs, every other call leaves the host alone.  The first is an instance of the contract of
    [OrchestratorSafety] that counts commands, so the orchestrator's methods are not gone through
    again. *)
From S2P Require Import Prelude Effects DomainValues CloudTypes SessionTypes SessionRuntime SessionSystem LifecycleLedger CloudAdapter SubmitLedger LoginTypes CloudRunner RunnerSafety RunnerClaims Orchestrator OrchestratorSafety OrchestratorClaims P0System.
From stdpp Require Import base numbers list strings.
From Stdlib Require Import ZArith Lia.
Import Ids.

Open Scope Z_scope.

Abbreviation OWorld := Orchestrator.World.
Abbreviation OSt := (Orch.OrchestratorState * OWorld)%type.

Section Specs.
Context {S : Type}.

Lemma spec_and {A} (m : M S A) s (Q Q' : A -> S -> Prop) (C C' : S -> Prop) :
  spec m s Q C -> spec m s Q' C' -> spec m s (fun a s' => Q a s' /\ Q' a s') (fun s' => C s' /\ C' s').
Proof. unfold spec. by destruct (m s). Qed.

Lemma spec_any {A} (m : M S A) s : spec m s (fun _ _ => True) (fun _ => True).
Proof. unfold spec. by destruct (m s). Qed.
End Specs.

(** ** Commands *)

Section Still.
Context (fs : string -> option RawTaskListPage) (cfg : Runner.Config).
Context (E : list (CloudSubmitOperationId * CloudInvocation)).

(** The commands started so far are exactly [E]. *)
Definition still_ok (w : OWorld) : Prop := file_ok (w_host w) /\ Runner.execs (w_host w) = E.

#[local] Instance still_runner : LifecycleCloudRunner OWorld := host_runner fs cfg.

Definition still_quiet (w w' : OWorld) : Prop :=
  still_ok w' /\ host_file w' = host_file w /\ (forall o : CloudSubmitOperationId, False <-> False) /\
  (forall o : CloudSubmitOperationId, False -> False).

Lemma step_still w h ag r :
  still_ok w -> frame (w_host w) h -> file_step (w_host w) h -> still_quiet w (mkWorld h ag r).
Proof.
  intros [Hok He] Hf Hs.
  destruct (step_quiet (Runner.execs (w_host w)).*1 w h ag r) as ([Hfile _] & Hl & _); [done..|].
  destruct Hf as [Hx _]. split_and!; try done. split; [done|]. simpl. congruence.
Qed.

Lemma still_refl w ag r : still_ok w -> still_quiet w (mkWorld (w_host w) ag r).
Proof. intros Hok. apply step_still; [done|apply frame_refl|]. apply file_step_untouched. by left. Qed.

Lemma spec_still {A} (m : Runner.Answers -> M Runner.Host A) w :
  still_ok w ->
  (forall a, spec (m a) (w_host w) (fun _ h => frame (w_host w) h /\ file_step (w_host w) h)
     (fun h => frame (w_host w) h /\ file_step (w_host w) h)) ->
  spec (with_answers m) w (fun _ => still_quiet w) (still_quiet w).
Proof.
  intros Hok H. apply spec_with_answers. intros a ag.
  eapply spec_mono; [apply H|..]; [intros x h [Hf Hs]|intros h [Hf Hs]]; by apply step_still.
Qed.

Lemma spec_still_replace l w :
  still_ok w ->
  spec (no_answers (replace_lifecycle l)) w
    (fun r w' => still_ok w' /\ (host_file w' = l \/ r <> Ok tt /\ host_file w' = host_file w)) (still_quiet w).
Proof.
  intros [Hok He]. apply spec_no_answers. eapply spec_mono; [apply spec_replace|..].
  - intros r h [[Hs Hx] Hf]. split; [|exact Hf]. unfold still_ok, file_ok. simpl. rewrite Hs, Hx. done.
  - intros h ->. by apply still_refl.
Qed.

#[export, refine] Instance still_contract : RunnerContract OWorld := {
  rc_ok := still_ok; rc_ids := fun _ => False; rc_ran := fun _ _ => False; rc_pinned := fun _ _ => False;
  rc_file := host_file }.
Proof.
  - intros w Hok. apply spec_with_answers. intros a ag. spec_step. by apply still_refl.
  - intros t w Hok. apply spec_with_answers. intros a ag. spec_step. by apply still_refl.
  - intros w Hok. apply spec_still; [done|]. intros a.
    eapply spec_mono; [apply spec_reconcile; by destruct Hok| |done]. by intros ? ? (? & ? & _).
  - intros o r w Hok. apply spec_still; [done|]. intros a. apply spec_resolve. by destruct Hok.
  - intros w Hok. apply spec_with_answers. intros a ag. eapply spec_mono; [apply spec_host_load|..].
    + intros r h [-> Hl]. split; [by apply still_refl|]. intros l Hr. by apply (Hl (Some l)).
    + intros h ->. by apply still_refl.
  - intros o w Hok.
    eapply (spec_mono _ _ (fun _ => still_quiet w) _ (still_quiet w)); [|by intros ? ? ?|done].
    apply (spec_still (fun a => Runner.observe_submit cfg a o)); [done|]. intros a.
    eapply spec_mono; [apply spec_observe; by destruct Hok| |done]. by intros ? ? (? & ? & _).
  - done.
  - intros l w Hok. unfold lr_persist_lifecycle_ledger, still_runner, host_runner, persist_lifecycle_ledger.
    destruct (Life.validate l).
    + eapply spec_mono; [by apply (spec_still_replace (Some l))| |done]. by intros r w' [Hs Hf].
    + apply spec_no_answers. spec_step. split_and!; try done. by right.
  - intros w Hok. unfold lr_remove_lifecycle_ledger, still_runner, host_runner, remove_lifecycle_ledger.
    apply spec_no_answers. spec_step. unfold spec at 1, get.
    destruct (Runner.lifecycle_file (w_host w)) eqn:El.
    + pose proof (spec_still_replace None w Hok) as H. unfold spec, no_answers in H |- *.
      destruct (replace_lifecycle None (w_host w)) as [r h|h]; [|exact H].
      destruct H as [Hs Hf]. split_and!; try done. tauto.
    + spec_step. split_and!; try done. by right.
Defined.

(** Memory says nothing about commands under this contract. *)
Lemma still_truthful o w : still_ok w -> truthful (RC := still_contract) (o, w).
Proof. intros Hok. split; [exact Hok|]. split; by intros l _ []. Qed.

End Still.

(** ** Results *)

(** A lifecycle that is returned is the one of the record in memory. *)
Definition publishes {S} (r : result CloudLifecycleError CloudLifecycle) (st : Orch.OrchestratorState * S) : Prop :=
  forall lc, r = Ok lc -> exists l, Orch.ledger st.1 = Some l /\ Life.lifecycle l = Ok lc.

Section Publishes.
Context {S : Type} `{R : LifecycleCloudRunner S}.

Definition ends {A} (Q : A -> Orch.OrchestratorState * S -> Prop) (m : M (Orch.OrchestratorState * S) A)
    (o : Orch.OrchestratorState) : Prop := forall s, spec m (o, s) Q (fun _ => True).

Lemma ends_lift {A} (m : M S A) o (Q : A -> Orch.OrchestratorState * S -> Prop) :
  (forall a s, Q a (o, s)) -> ends Q (Orch.lift m) o.
Proof. intros H s. unfold spec, Orch.lift. destruct (m s); auto. Qed.

Lemma ends_persist l o (Q : _ -> Orch.OrchestratorState * S -> Prop) :
  (forall r s, Q r (o, s)) -> ends Q (Orch.persist l) o.
Proof.
  intros H s. unfold Orch.persist, Orch.lower. orch. apply ends_lift. intros [] s1; orch; [|apply H].
  by apply ends_lift.
Qed.

Lemma ends_persist_after l o (Q : _ -> Orch.OrchestratorState * S -> Prop) :
  (forall r s, Q r (o, s)) -> ends Q (Orch.persist_after_effect l) o.
Proof. intros H s. unfold Orch.persist_after_effect. orch. apply ends_persist. intros. by orch. Qed.

Lemma publishes_err e (st : Orch.OrchestratorState * S) : publishes (Err e) st.
Proof. by intros lc [=]. Qed.
Lemma publishes_ok l lc c (s : S) :
  Life.lifecycle l = Ok lc -> publishes (Ok lc) (Orch.mkState (Some l) c, s).
Proof. intros H lc' [= <-]. by exists l. Qed.
#[local] Hint Resolve publishes_err publishes_ok : core.

Lemma inspect_publishes o : ends publishes Orch.inspect o.
Proof.
  intros s. unfold Orch.inspect. orch. destruct (Orch.ledger o) as [l|] eqn:El; simpl; [|auto]. orch.
  destruct (Life.lifecycle l) as [lc|] eqn:Elc; [|auto].
  destruct lc; orch; auto; try (intros lc' [= <-]; by exists l).
  apply ends_lift. intros r s1. orch. destruct r; simpl; [|auto]. orch.
  destruct (Life.record_status _ _ _) as [l'|]; [|auto]. orch. apply ends_persist_after. intros [] s2; [|auto]. orch.
  destruct (Life.lifecycle l') eqn:El'; [|auto]. orch. auto.
Qed.

Lemma replay_publishes l d o (s : S) : Orch.ledger o = Some l -> publishes (Orch.replay_resolution l d) (o, s).
Proof.
  intros Ho lc. unfold Orch.replay_resolution. destruct (Life.lifecycle l) eqn:El; [|done]. simpl.
  intros H. exists l. split; [done|]. by repeat (break_match_hyp; simplify_eq).
Qed.

Lemma resolve_publishes op d o : ends publishes (Orch.resolve_unknown op d) o.
Proof.
  intros s. unfold Orch.resolve_unknown. orch. destruct (Orch.ledger o) as [l|] eqn:El; simpl; [|auto].
  case_bool_decide; [orch; auto|]. destruct (_ || _); [orch; by apply replay_publishes|].
  case_bool_decide; [orch; auto|]. destruct (_ =? 0); [orch; auto|]. orch.
  assert (Hd : forall (Q : _ -> Orch.OrchestratorState * S -> Prop), (forall r s, Q r (o, s)) ->
    ends Q (Orch.decide_resolution op l d) o).
  { intros Q HQ s0. destruct d; simpl; [destruct (_ || _)|case_bool_decide]; orch; auto.
    apply ends_lift. intros r s1. orch. destruct r; simpl; [orch|]; auto. }
  apply Hd. intros [[r adopted]|] s1; [|auto]. unfold Orch.lower. orch. apply ends_lift. intros obs s2. orch.
  destruct obs as [obs|]; simpl; [|auto]. destruct (negb _); [orch; auto|]. orch.
  destruct (map_err _ _) as [l'|]; [|auto]. orch. apply ends_persist_after. intros [] s3; [|auto]. orch.
  destruct (Life.lifecycle l') eqn:El'; [|auto]. orch. auto.
Qed.

Lemma cancel_publishes o :
  ends (fun r st => forall r', r = Some r' -> publishes r' st) Orch.cancel_step o.
Proof.
  intros s. unfold Orch.cancel_step. orch.
  destruct (Orch.ledger o) as [l|] eqn:El; [|intros r' [= <-]; auto].
  destruct (Life.lifecycle l) as [lc|] eqn:Elc; [|intros r' [= <-]; auto].
  destruct lc; orch; try (intros r' [= <-]; auto; intros lc' [= <-]; by exists l).
  - destruct (Orch.cancellation o); orch; [done|intros r' [= <-]; auto].
  - destruct (Life.record_canceled_with_task l) as [l'|]; [|orch; intros r' [= <-]; auto]. orch.
    apply ends_persist_after. intros [] s1; [|orch; intros r' [= <-]; auto]. orch.
    destruct (Life.lifecycle l') eqn:El'; orch; intros r' [= <-]; auto.
Qed.

Lemma start_commit_publishes r o : ends publishes (Orch.start_commit r) o.
Proof.
  intros s. unfold Orch.start_commit. orch. destruct r as [l|]; [|auto]. orch.
  apply ends_persist_after. intros [] s1; [|orch; auto]. orch.
  destruct (Life.lifecycle l) eqn:El; [|auto]. orch. auto.
Qed.

Lemma rollback_publishes prior op c o : ends publishes (Orch.rollback_after_conflict prior op c) o.
Proof.
  intros s. unfold Orch.rollback_after_conflict. orch.
  assert (Hk : forall (r : result CloudLifecycleError unit) s',
    spec (let! _ := Orch.set_cancellation None in
          match r with
          | Ok _ => let! _ := Orch.set_ledger prior in ret (Err (life_err_for EOperationConflict c))
          | Err _ => ret (Err (life_err_for ERecoveryRequired op))
          end : M (Orch.OrchestratorState * S) (result CloudLifecycleError CloudLifecycle)) (o, s') publishes (fun _ => True)).
  { intros r s'. orch. destruct r; orch; auto. }
  destruct prior as [l|]; [apply ends_persist; intros r s'; apply Hk|].
  unfold Orch.remove, Orch.lower. orch. apply ends_lift. intros [|e] s1; orch; [|exact (Hk (Err (Orch.map_runner_error e)) s1)].
  apply ends_lift. intros r s2. apply Hk.
Qed.

Lemma start_finish_publishes op prior r o : ends publishes (Orch.start_finish op prior r) o.
Proof.
  intros s. unfold Orch.start_finish. orch. destruct (Orch.ledger o) as [l|]; [|orch; auto].
  destruct (negb _); [orch; auto|].
  assert (He : forall e, ends publishes (Orch.start_error l op prior e) o).
  { intros e s0. unfold Orch.start_error.
    destruct (re_category e); try apply start_commit_publishes; try apply rollback_publishes;
      case_bool_decide; try apply start_commit_publishes; orch; auto. }
  destruct r as [sub|e].
  - case_bool_decide; [apply rollback_publishes|apply start_commit_publishes].
  - destruct (re_operation_id e); [case_bool_decide; [apply rollback_publishes|]|]; apply He.
Qed.

Lemma spec_mapped {A} (m : M (Orch.OrchestratorState * S) (result CloudLifecycleError A)) st
    (Q : result SessionRuntime.LowerLifecycleError A -> Orch.OrchestratorState * S -> Prop) C :
  spec m st (fun r => Q (map_err lower_from r)) C -> spec (Control.mapped m) st Q C.
Proof. intros H. unfold Control.mapped. spec_step. eapply spec_mono; [exact H| |done]. intros. by spec_step. Qed.

End Publishes.

(** ** Denials *)

(** A lifecycle that says its operation's command never ran. *)
Definition denied (lc : CloudLifecycle) : option CloudSubmitOperationId :=
  match lc with
  | LFailedBeforeSubmit op | LCanceledLocally op _ false => Some op
  | _ => None
  end.

Lemma denied_ledger l lc op :
  Life.lifecycle l = Ok lc -> denied lc = Some op -> never_ran (Life.phase l) = true /\ Life.operation_id l = op.
Proof.
  unfold Life.lifecycle. destruct (Life.get_task_id l) as [t|]; [|done]. simpl.
  intros H Hd. destruct (Life.phase l) as [| | | | | | |[]|]; destruct t; simplify_eq/=; done.
Qed.

(** The identity was drawn and its command has not been started. *)
Definition unrun (drawn : list CloudSubmitOperationId) (h : Runner.Host) (op : CloudSubmitOperationId) : Prop :=
  op ∈ drawn /\ op ∉ (Runner.execs h).*1.

(** Everything a result denies satisfies [P]. *)
Definition denies_only {E} (P : CloudSubmitOperationId -> Prop) (r : result E CloudLifecycle) : Prop :=
  forall lc op, r = Ok lc -> denied lc = Some op -> P op.

Definition reply_denies_only (P : CloudSubmitOperationId -> Prop) (r : Reply) : Prop :=
  match r with ReplyLifecycle _ r => denies_only P r | ReplyCandidates _ => True end.

Section Calls.
Context (fs : string -> option RawTaskListPage) (cfg : Runner.Config) (Hcfg : cfg_ok cfg).
Context (drawn : list CloudSubmitOperationId).

#[local] Instance calls_runner : LifecycleCloudRunner OWorld := host_runner fs cfg.

Abbreviation honest_now := (truthful (RC := host_contract fs cfg drawn Hcfg)).
Abbreviation honest_disk := (durable_truthful (RC := host_contract fs cfg drawn Hcfg)).

Lemma honest_now_denies o w l lc op :
  honest_now (o, w) -> Orch.ledger o = Some l -> Life.lifecycle l = Ok lc -> denied lc = Some op ->
  unrun drawn (w_host w) op.
Proof.
  intros (_ & Hm & _) Hl Hlc Hd. destruct (denied_ledger l lc op Hlc Hd) as [Hn <-].
  assert (Hran : ~ host_ran drawn w (Life.operation_id l)).
  { intros Hran. destruct (Hm l Hl Hran) as [Hf _]. congruence. }
  split; [apply dec_stable; intros Hx; by apply Hran; right|intros Hx; by apply Hran; left].
Qed.

Definition same_execs (w w' : OWorld) : Prop := Runner.execs (w_host w') = Runner.execs (w_host w).

(** The host and the record a call leaves: honest, and no command was started. *)
Definition left_honest (w : OWorld) (st : OSt) : Prop := honest_now st /\ same_execs w st.2.
Definition left_disk (w : OWorld) (st : OSt) : Prop := honest_disk st /\ same_execs w st.2.

(** A method that satisfies its orchestrator lemma under both contracts. *)
Lemma spec_quiet_call {A} (m : M OSt A) o w :
  honest_now (o, w) ->
  spec m (o, w) (fun _ => honest_now) honest_disk ->
  (let RC := still_contract fs cfg (Runner.execs (w_host w)) in
   truthful (RC := RC) (o, w) -> spec m (o, w) (fun _ => truthful (RC := RC)) (durable_truthful (RC := RC))) ->
  spec m (o, w) (fun _ => left_honest w) (left_disk w).
Proof.
  intros HT H1 H2. cbv zeta in H2.
  assert (Hs : still_ok (Runner.execs (w_host w)) w) by (split; [|done]; by destruct HT as ([? _] & _)).
  eapply spec_mono; [exact (spec_and _ _ _ _ _ _ H1 (H2 (still_truthful _ _ _ _ _ Hs)))|..].
  - intros a [o' w'] [Ha [[_ Hx] _]]. by split.
  - intros [o' w'] [Ha [[_ Hx] _]]. by split.
Qed.

Lemma spec_published (m : M OSt (result CloudLifecycleError CloudLifecycle)) o w :
  spec m (o, w) (fun _ => left_honest w) (left_disk w) -> ends publishes m o ->
  spec (Control.mapped m) (o, w)
    (fun r st => left_honest w st /\ denies_only (unrun drawn (w_host st.2)) r) (left_disk w).
Proof.
  intros H Hp. apply spec_mapped. eapply spec_mono; [apply (spec_and _ _ _ _ _ _ H (Hp w))| |by intros ? []].
  intros r [o' w'] [[Ha Hs] Hr]. split; [done|]. intros lc op Elc Hd. destruct r as [lc'|]; simplify_eq/=.
  destruct (Hr lc eq_refl) as (l & Hl & Hlc). by eapply honest_now_denies.
Qed.

Lemma inspect_call o w :
  honest_now (o, w) ->
  spec Control.inspect (o, w)
    (fun r st => left_honest w st /\ denies_only (unrun drawn (w_host st.2)) r) (left_disk w).
Proof.
  intros HT. apply spec_published; [|apply inspect_publishes]. apply spec_quiet_call; [done|by apply spec_inspect|].
  intros RC H. by apply (spec_inspect (RC := RC)).
Qed.

Lemma run_lower_call c o w :
  honest_now (o, w) ->
  spec (run_lower fs cfg c) (o, w)
    (fun rs st => left_honest w st /\ Forall (reply_denies_only (unrun drawn (w_host st.2))) rs) (left_disk w).
Proof.
  intros HT.
  assert (Hone : forall x (m : M OSt (result SessionRuntime.LowerLifecycleError CloudLifecycle)),
    spec m (o, w) (fun r st => left_honest w st /\ denies_only (unrun drawn (w_host st.2)) r) (left_disk w) ->
    spec (let! r := m in ret [ReplyLifecycle x r]) (o, w)
      (fun rs st => left_honest w st /\ Forall (reply_denies_only (unrun drawn (w_host st.2))) rs) (left_disk w)).
  { intros x m H. spec_step. eapply spec_mono; [exact H| |done]. intros r st [Ha Hr]. spec_step.
    split; [done|]. by apply Forall_singleton. }
  destruct c as [| | |op d]; simpl; [by apply Hone, inspect_call|..].
  - unfold Control.cancel. apply spec_bind, spec_bind.
    eapply spec_mono; [apply (spec_and _ _ _ _ _ _ (spec_quiet_call Orch.cancel_step o w HT
      (spec_cancel_step _ HT) ltac:(by intros; apply (spec_cancel_step (RC := still_contract fs cfg _)))) (cancel_publishes o w))| |by intros ? []].
    intros r [o' w'] [Ha Hr]. repeat spec_step. split; [done|]. destruct r as [r|]; [|by apply Forall_nil].
    apply Forall_singleton. intros lc op Elc Hd. destruct r as [lc'|]; simplify_eq/=.
    destruct (Hr _ eq_refl lc eq_refl) as (l & Hl & Hlc). destruct Ha. by eapply honest_now_denies.
  - unfold Control.reconcile_unknown. spec_step. spec_step. apply spec_mapped.
    eapply spec_mono; [apply (spec_quiet_call Orch.reconcile_unknown o w HT)| |done].
    + by apply spec_orch_reconcile.
    + intros RC H. by apply (spec_orch_reconcile (RC := RC)).
    + intros r st Ha. destruct r; simpl; repeat spec_step; (split; [done|]; by apply Forall_singleton).
  - apply Hone. apply spec_published; [|apply resolve_publishes]. apply spec_quiet_call; [done|by apply spec_orch_resolve|].
    intros RC H. by apply (spec_orch_resolve (RC := RC)).
Qed.

(** While a submission runs, every other call leaves the host and the record alone and returns no
    lifecycle. *)
Lemma submitting_blocks_calls c op o w :
  Orch.ledger o = Some (Life.submitting op) ->
  exists rs o', run_lower fs cfg c (o, w) = Done rs (o', w) /\ Orch.ledger o' = Some (Life.submitting op) /\
    Forall (reply_denies_only (fun _ => False)) rs.
Proof.
  intros Ho. unfold run_lower, Control.inspect, Control.cancel, Control.reconcile_unknown, Control.resolve_unknown,
    Control.mapped, Orch.inspect, Orch.cancel_step, Orch.reconcile_unknown, Orch.resolve_unknown,
    bind_result, bind, Orch.state, Orch.pure, ret, Orch.require_phase, Orch.set_cancellation.
  assert (Hnone : forall x e, Forall (reply_denies_only (fun _ => False)) [ReplyLifecycle x (Err e)])
    by (intros x e; apply Forall_singleton; by intros lc op' [=]).
  assert (Hdone : forall rs, Forall (reply_denies_only (fun _ => False)) rs ->
    exists rs0 o', Done (A := list Reply) rs (o, w) = Done rs0 (o', w) /\ Orch.ledger o' = Some (Life.submitting op) /\
      Forall (reply_denies_only (fun _ => False)) rs0) by (intros rs H; by exists rs, o).
  destruct c; cbn [fst snd]; rewrite Ho; simpl.
  - apply Hdone, Hnone.
  - destruct (Orch.cancellation o); [|apply Hdone, Hnone].
    eexists [], _. split; [reflexivity|]. split; [done|by apply Forall_nil].
  - apply Hdone. by apply Forall_singleton.
  - case_bool_decide; apply Hdone, Hnone.
Qed.

(** The two regions of [start] start no command. *)
Lemma start_begin_call op o w :
  honest_now (o, w) -> op ∈ drawn -> op ∉ (Runner.execs (w_host w)).*1 ->
  spec (Control.start_begin op) (o, w)
    (fun r st => left_honest w st /\
       match r with
       | Ok prior => Orch.ledger st.1 = Some (Life.submitting op) /\
           host_file st.2 = Some (Life.submitting op) /\ prior_ok (RC := host_contract fs cfg drawn Hcfg) st.2 prior
       | Err _ => True
       end)
    (left_disk w).
Proof.
  intros HT Hd Hx. assert (Hn : ~ host_ran drawn w op) by (intros [?|?]; done).
  apply spec_mapped.
  assert (Hs : spec (Orch.start_begin op) (o, w) (fun _ => left_honest w) (left_disk w)).
  { apply spec_quiet_call; [done| |].
    - eapply spec_mono; [by apply (spec_start_begin (RC := host_contract fs cfg drawn Hcfg))| |done]. by intros ? ? (? & _).
    - intros RC H. eapply spec_mono; [apply (spec_start_begin (RC := RC)); [exact H|by intros []]| |done].
      by intros ? ? (? & _). }
  eapply spec_mono; [apply (spec_and _ _ _ _ _ _ Hs (spec_start_begin (RC := host_contract fs cfg drawn Hcfg) op o w HT Hn))| |by intros ? []].
  intros r st [Ha (_ & _ & Hr)]. split; [done|]. destruct r; [|done]. simpl. destruct Hr as (-> & ? & ?). done.
Qed.

Lemma start_finish_call op prior r o w :
  honest_now (o, w) ->
  (~ host_ran drawn w op -> prior_ok (RC := host_contract fs cfg drawn Hcfg) w prior) ->
  (host_ran drawn w op -> reports_uncertainty op r) ->
  spec (Control.start_finish op prior r) (o, w)
    (fun r st => left_honest w st /\ denies_only (unrun drawn (w_host st.2)) r) (left_disk w).
Proof.
  intros HT Hp Hr. apply spec_published; [|apply start_finish_publishes]. apply spec_quiet_call; [done| |].
  - apply spec_start_finish; [done| |done]. intros Hn. apply prior_ok_honest. exact (Hp Hn).
  - intros RC H. apply (spec_start_finish (RC := RC)); [exact H| |by intros []]. by intros _ l _ [].
Qed.

End Calls.
