(* ===== verification/P0Safety.v ===== *)
(** * The invariant of the whole Cloud path

    Every reachable state of P0System.v matches its commands one to one with distinct accepted turns,
    keeps every orchestrator record honest, and lets no reply, published event or snapshot deny a
    command that was started. *)
From S2P Require Import Prelude Effects DomainValues CloudTypes SessionTypes SessionRuntime SessionSystem SessionTurns SessionReports LifecycleLedger CloudAdapter SubmitLedger LoginTypes CloudRunner RunnerSafety RunnerClaims Orchestrator OrchestratorSafety OrchestratorClaims P0System P0Calls.
From stdpp Require Import base numbers list strings.
From Stdlib Require Import ZArith Lia.
Import Ids.

Open Scope Z_scope.

Abbreviation Turn := (nat * TurnId)%type.

(** A published lifecycle that says its operation's command never ran. *)
Definition p0_denied (l : P0CloudLifecycle) : option CloudSubmitOperationId :=
  match l with
  | SessionTypes.FailedBeforeSubmit op | SessionTypes.CanceledLocally op _ false => Some op
  | _ => None
  end.

Lemma p0_denied_from_cloud lc : p0_denied (from_cloud lc) = denied lc.
Proof. by destruct lc as [| | | | | | |? ? []|]. Qed.

(** The turn whose [start] has not reached its submission. *)
(** An event denies no command but those of [P]. *)
Definition denies_event (P : CloudSubmitOperationId -> Prop) (e : P0SessionEvent) : Prop :=
  match e with LifecycleChanged l => forall op, p0_denied l = Some op -> P op | _ => True end.
#[export] Instance denies_event_plain P : Plain (denies_event P).
Proof. by intros []. Qed.
Lemma denies_event_mono (P P' : CloudSubmitOperationId -> Prop) e :
  (forall op, P op -> P' op) -> denies_event P e -> denies_event P' e.
Proof. destruct e; simpl; auto. Qed.

Definition about_to_run (st : StartState) : option TurnId :=
  match st with StartCalled t _ | StartSubmitting t _ _ _ => Some t | _ => None end.

Definition submitting_op (st : StartState) : option CloudSubmitOperationId :=
  match st with StartSubmitting _ _ op _ => Some op | _ => None end.

Section Invariant.
Context (fs : string -> option RawTaskListPage) (cfg : Runner.Config) (Hcfg : cfg_ok cfg).

#[local] Instance inv_runner : LifecycleCloudRunner OWorld := host_runner fs cfg.

(** The command of an accepted turn. *)
Definition commanded (acc : list (Turn * CloudPrompt)) (turn : Turn)
    (c : CloudSubmitOperationId * CloudInvocation) : Prop :=
  exists prompt, (turn, prompt) ∈ acc /\
    c.2 = inv_exec (Runner.cfg_environment cfg) (Runner.cfg_branch cfg) prompt.

(** No command of this operation has run, and none will. *)
Definition settled (s : P0System) (st : StartState) (op : CloudSubmitOperationId) : Prop :=
  unrun (drawn s) (host s) op /\ submitting_op st <> Some op.

Definition plain_world (h : Runner.Host) : OWorld := mkWorld h [] demo_answers.

Definition start_inv (s : P0System) (p : Process) : Prop :=
  let RC := host_contract fs cfg (drawn s) Hcfg in
  match starting p with
  | NotStarting => True
  | StartCalled t prompt => t ∈ starts (sys p) /\ ((epoch s, t), prompt) ∈ accepted s
  | StartSubmitting t prompt op prior =>
      (t ∈ starts (sys p) /\ ((epoch s, t), prompt) ∈ accepted s) /\
      is_nil (op_uuid op) = false /\ unrun (drawn s) (host s) op /\
      Orch.ledger (orch p) = Some (Life.submitting op) /\
      Runner.lifecycle_file (host s) = Some (Life.submitting op) /\
      prior_ok (RC := RC) (plain_world (host s)) prior
  | StartSubmitted t op prior r =>
      Orch.ledger (orch p) = Some (Life.submitting op) /\
      (~ host_ran (drawn s) (plain_world (host s)) op -> prior_ok (RC := RC) (plain_world (host s)) prior) /\
      (host_ran (drawn s) (plain_world (host s)) op -> reports_uncertainty op r)
  | StartReturned t r => denies_only (settled s (starting p)) r
  end.

Record ProcInv (s : P0System) (ts : list Turn) (p : Process) : Prop := {
  pi_turns : TurnInv (sys p);
  pi_issued : forall t prompt, ((epoch s, t), prompt) ∈ accepted s -> t ∈ issued (sys p);
  pi_holds : forall t prompt, holds (sys p) t prompt -> ((epoch s, t), prompt) ∈ accepted s;
  pi_ran : forall t, (epoch s, t) ∈ ts -> t ∈ starts (sys p) /\ about_to_run (starting p) <> Some t;
  pi_start : start_inv s p;
  pi_replies : Forall (reply_denies_only (settled s (starting p))) (replies p);
  pi_told : told (denies_event (settled s (starting p))) (world (sys p)) }.

Record P0Inv (s : P0System) (ts : list Turn) : Prop := {
  inv_truthful : system_truthful fs cfg Hcfg (drawn s) (orch <$> proc s, host s);
  inv_commands : Forall2 (commanded (accepted s)) ts (Runner.execs (host s));
  inv_once : NoDup (Runner.execs (host s)).*1;
  inv_turns : NoDup ts;
  inv_epochs : forall k, k ∈ ts -> (k.1 <= epoch s)%nat;
  inv_accepted : NoDup (accepted s).*1 /\ forall k, k ∈ (accepted s).*1 -> (k.1 <= epoch s)%nat;
  inv_proc : forall p, proc s = Some p -> ProcInv s ts p }.

Lemma commanded_accepts acc acc' ts cs :
  (forall x, x ∈ acc -> x ∈ acc') -> Forall2 (commanded acc) ts cs -> Forall2 (commanded acc') ts cs.
Proof. intros Hacc H. eapply Forall2_impl; [exact H|]. intros t c (p & Hp & E). exists p. auto. Qed.

(** ** Session steps *)

Lemma settled_starting s st st' op :
  (forall x, submitting_op st' = Some x -> submitting_op st = Some x) -> settled s st op -> settled s st' op.
Proof. intros H [Hu Hn]. split; [done|]. intros E. by apply Hn, H. Qed.

Lemma denies_only_mono {E} (P P' : CloudSubmitOperationId -> Prop) (r : result E CloudLifecycle) :
  (forall op, P op -> P' op) -> denies_only P r -> denies_only P' r.
Proof. intros HP H lc op E1 E2. eauto. Qed.

Lemma replies_mono (P P' : CloudSubmitOperationId -> Prop) rs :
  (forall op, P op -> P' op) -> Forall (reply_denies_only P) rs -> Forall (reply_denies_only P') rs.
Proof.
  intros HP H. eapply Forall_impl; [exact H|]. intros [c r|r]; simpl; [|done]. by apply denies_only_mono.
Qed.

(** The reply a label takes was one the process had, so what it denies is settled. *)
Lemma consumed_told s ts p l y rs st' :
  ProcInv s ts p -> consume l p = Some rs -> start_after l p y = Some st' ->
  sys_step (inner p) l (sys p) = Some y ->
  (forall r, label_lower l = Some r -> denies_only (settled s (starting p)) r) /\
  (forall x, x ∈ rs -> x ∈ replies p).
Proof.
  intros HI Hc Hs Hy. unfold consume in Hc.
  assert (Hrep : forall c r rs', take_reply (ReplyLifecycle c r) (replies p) = Some rs' ->
    denies_only (settled s (starting p)) r).
  { intros c r rs' [Hin _]%take_reply_spec. pose proof (pi_replies _ _ _ HI) as HF. rewrite Forall_forall in HF.
    exact (HF _ Hin). }
  assert (Htake : forall r rs', take_reply r (replies p) = Some rs' -> forall x, x ∈ rs' -> x ∈ replies p)
    by (by intros r rs' [_ ?]%take_reply_spec).
  destruct l; simpl in Hc; try (split; [by intros ? [=]|]; simplify_eq; eauto; fail);
    try (split; [intros ? [= <-]|]; eauto; fail).
  - simpl in Hy. destruct (callers (sys p) !! k) as [[]|]; try done. split; [intros ? [= <-]|]; eauto.
  - unfold start_after in Hs. split; [intros ? [= <-]|by simplify_eq].
    pose proof (pi_start _ _ _ HI) as Hst. unfold start_inv in Hst. 
    destruct (pc (sys p)), (starting p) eqn:Es; try done; case_bool_decide; simplify_eq; done.
Qed.

Lemma start_after_cases l p y st' :
  start_after l p y = Some st' ->
  st' = starting p \/ st' = NotStarting \/
  exists t prompt t', l = WorkerAdmit /\ pc (sys p) = WClaimed t prompt /\ pc y = WStarting t' /\
    st' = StartCalled t prompt.
Proof.
  unfold start_after. intros H. destruct l; try (simplify_eq; by left).
  - destruct (pc (sys p)) eqn:E1, (pc y) eqn:E2; simplify_eq; eauto 10.
  - destruct (pc (sys p)), (starting p); try done; case_bool_decide; simplify_eq; eauto.
Qed.

(** A process whose session moved: its other parts hold as they did, up to the turns it accepts and
    the start it makes. *)
Lemma session_proc s ts p y rs st' acc l :
  ProcInv s ts p -> consume l p = Some rs -> start_after l p y = Some st' ->
  sys_step (inner p) l (sys p) = Some y ->
  (forall x, x ∈ accepted s -> x ∈ acc) ->
  (forall t prompt, ((epoch s, t), prompt) ∈ acc -> t ∈ issued y) ->
  (forall t prompt, holds y t prompt -> ((epoch s, t), prompt) ∈ acc) ->
  (forall t, t ∈ starts (sys p) -> t ∈ starts y) ->
  (st' = starting p \/ st' = NotStarting \/
   exists t prompt, st' = StartCalled t prompt /\ t ∈ starts y /\ t ∉ starts (sys p) /\
     ((epoch s, t), prompt) ∈ acc) ->
  let p' := mkProcess (inner p) y (orch p) st' rs in
  ProcInv (mkP0 (Some p') (host s) (epoch s) (drawn s) acc) ts p'.
Proof.
  intros HI Hc Hs Hy Hacc Hiss Hh Hst Hcase p'. pose proof HI as [].
  destruct (consumed_told _ _ _ _ _ _ _ HI Hc Hs Hy) as [Hl Hrs].
  assert (Hset : forall op, settled s (starting p) op -> settled s st' op).
  { intros op. apply settled_starting. destruct Hcase as [->|[->|(? & ? & -> & _)]]; done. }
  constructor; simpl; try done.
  - by eapply sys_step_TurnInv.
  - intros t Ht. destruct (pi_ran0 t Ht) as [Ht1 Ht2]. split; [auto|].
    destruct Hcase as [->|[->|(t' & ? & -> & _ & Hn & _)]]; [done..|]. simpl. congruence.
  - unfold start_inv in *. simpl. destruct Hcase as [->|[->|(t' & ? & -> & ? & _ & ?)]]; [|done..].
    destruct (starting p); naive_solver.
  - apply Forall_forall. intros x Hx%Hrs. rewrite Forall_forall in pi_replies0. specialize (pi_replies0 x Hx).
    destruct x as [c r|r]; [|done]. by eapply denies_only_mono; [|exact pi_replies0].
  - eapply told_mono; [|eapply sys_step_told; [apply _|exact pi_told0| | |exact Hy]].
    + intros e. by apply denies_event_mono.
    + intros r Hr lc -> op Hop. rewrite p0_denied_from_cloud in Hop. by eapply Hl.
    + done.
Qed.

Lemma session_step_inv l p s s' ts :
  P0Inv s ts -> proc s = Some p -> session_step l p s = Some s' -> P0Inv s' ts.
Proof.
  intros HI Hp H. pose proof HI as []. pose proof (inv_proc0 p Hp) as HP. rewrite Hp in inv_truthful0.
  unfold session_step in H. destruct (sys_step _ _ _) as [y|] eqn:Hy; [|done].
  destruct (consume l p) as [rs|] eqn:Hc; [|done]. simpl in H.
  destruct (start_after l p y) as [st'|] eqn:Hs; [|done]. injection H as <-.
  pose proof (start_after_cases _ _ _ _ Hs) as Hcase.
  destruct (sys_step_turns (inner p) l (sys p) y (pi_turns _ _ _ HP) Hy)
    as [Hh Est Hiss Hacc Hadm|t prompt -> Hok Hn Hh Est Hiss|t prompt -> Hpc Hpc' Hh Hn Est Hiss].
  - assert (Ea : accepts l p = None).
    { destruct l; try done. simpl. by rewrite (Hacc _ _ eq_refl). }
    rewrite Ea. constructor; simpl; try done. intros p' [= <-].
    apply (session_proc s ts p y rs st' (accepted s) l); try done.
    + intros t prompt Ht. by eapply Hiss, pi_issued.
    + intros t prompt Ht. by eapply pi_holds, Hh.
    + by rewrite Est.
    + destruct Hcase as [?|[?|(t & pr & t' & El & E1 & E2 & _)]]; [by left|by right; left|].
      by destruct (Hadm t pr t' El E1).
  - simpl. rewrite Hok. constructor; simpl; try done.
    + eapply commanded_accepts; [|done]. intros x Hx. by right.
    + destruct inv_accepted0 as [HN HE]. split.
      * apply NoDup_cons. split; [|done]. intros ([k pr] & E & Hin)%list_elem_of_fmap. simpl in E. subst k.
        by eapply Hn, pi_issued.
      * intros k [->|Hk]%elem_of_cons; [done|auto].
    + intros p' [= <-]. apply (session_proc s ts p y rs st' _ (StartTurn t prompt)); try done.
      * intros x Hx. by right.
      * intros t' pr [E|Hin]%elem_of_cons; rewrite Hiss; [|right; by eapply pi_issued]. simplify_eq. by left.
      * intros t' pr [Hold|E]%Hh; [right; by apply (pi_holds _ _ _ HP)|simplify_eq; by left].
      * by rewrite Est.
      * destruct Hcase as [?|[?|(? & ? & ? & ? & _)]]; [by left|by right; left|done].
  - simpl. constructor; simpl; try done. intros p' [= <-].
    apply (session_proc s ts p y rs st' _ WorkerAdmit); try done.
    + intros t' pr Hin. rewrite Hiss. by eapply pi_issued.
    + intros t' pr Hin. by eapply pi_holds, Hh.
    + intros t' Ht'. rewrite Est. by right.
    + destruct Hcase as [?|[?|(t1 & pr & t2 & _ & E1 & E2 & ->)]]; [by left|by right; left|].
      rewrite Hpc in E1. simplify_eq. right. right. exists t1, pr. split_and!; [done| |done|].
      * rewrite Est. by left.
      * apply (pi_holds _ _ _ HP). by right.
Qed.

(** ** Steps of the orchestrator *)

Lemma settled_moved s s' st st' op :
  (forall x, x ∈ drawn s -> x ∈ drawn s') -> Runner.execs (host s') = Runner.execs (host s) ->
  (forall x, submitting_op st' = Some x -> submitting_op st = Some x \/ x ∉ drawn s) ->
  settled s st op -> settled s' st' op.
Proof.
  intros Hd Hx Hsub [[H1 H2] H3]. split; [split; [auto|by rewrite Hx]|]. intros E.
  destruct (Hsub _ E); done.
Qed.

Lemma unrun_settled s st op : submitting_op st = None -> unrun (drawn s) (host s) op -> settled s st op.
Proof. intros E H. split; [done|]. by rewrite E. Qed.

(** A process whose orchestrator moved. *)
Lemma orch_proc s s' ts p st' o' rs :
  ProcInv s ts p -> epoch s' = epoch s -> accepted s' = accepted s ->
  (forall op, settled s (starting p) op -> settled s' st' op) ->
  (forall t, about_to_run st' = Some t -> about_to_run (starting p) = Some t) ->
  Forall (reply_denies_only (settled s' st')) rs ->
  let p' := mkProcess (inner p) (sys p) o' st' (rs ++ replies p) in
  start_inv s' p' -> ProcInv s' ts p'.
Proof.
  intros [] Ee Ea Hset Hrun Hrs p' Hst. constructor; simpl; rewrite ?Ee, ?Ea; try done.
  - intros t Ht. destruct (pi_ran0 t Ht) as [? Hn]. split; [done|]. intros E. by apply Hn, Hrun.
  - apply Forall_app. split; [done|]. by eapply replies_mono.
  - eapply told_mono; [|exact pi_told0]. intros e. by apply denies_event_mono.
Qed.

(** A step that starts no command. *)
Lemma quiet_inv s s' ts :
  P0Inv s ts -> Runner.execs (host s') = Runner.execs (host s) -> epoch s' = epoch s ->
  accepted s' = accepted s ->
  system_truthful fs cfg Hcfg (drawn s') (orch <$> proc s', host s') ->
  (forall p, proc s' = Some p -> ProcInv s' ts p) -> P0Inv s' ts.
Proof. intros [] Ex Ee Ea HT HP. constructor; rewrite ?Ex, ?Ee, ?Ea; try done. Qed.

(** What the invariant says of a process and the world its call runs in. *)
Lemma inv_honest s ts p os :
  P0Inv s ts -> proc s = Some p ->
  truthful (RC := host_contract fs cfg (drawn s) Hcfg) (orch p, os_world os (host s)).
Proof. intros [] Hp. rewrite Hp in inv_truthful0. exact inv_truthful0. Qed.

(** A call while [start] is not around its submission. *)
Lemma call_step_inv c os p s s' ts :
  P0Inv s ts -> proc s = Some p -> call_step fs cfg c os p s = Some s' -> P0Inv s' ts.
Proof.
  intros HI Hp H. unfold call_step in H. destruct (wanted c (sys p)); [|done]. injection H as <-.
  pose proof (inv_proc _ _ HI p Hp) as HP. pose proof (inv_honest s ts p os HI Hp) as HT.
  pose proof (run_lower_call fs cfg Hcfg (drawn s) c (orch p) (os_world os (host s)) HT) as Hspec.
  assert (Hblock : forall op, Orch.ledger (orch p) = Some (Life.submitting op) -> exists rs o',
    run_lower fs cfg c (orch p, os_world os (host s)) = Done rs (o', os_world os (host s)) /\
    Orch.ledger o' = Some (Life.submitting op) /\ Forall (reply_denies_only (fun _ => False)) rs)
    by (intros op Hop; by apply submitting_blocks_calls).
  unfold on_orch, spec in *.
  destruct (run_lower fs cfg c _) as [rs [o w]|[o w]].
  2:{ destruct Hspec as [Ha Hex]. apply (quiet_inv s); [done..|exact Ha|done]. }
  destruct Hspec as [[Ha Hex] Hx]. apply (quiet_inv s); [done..|exact Ha|]. simpl.
  assert (Hset : forall op, settled s (starting p) op ->
    settled (mkP0 (Some p) (w_host w) (epoch s) (drawn s) (accepted s)) (starting p) op).
  { intros op. apply settled_moved; [done..|]. by left. }
  pose proof (pi_start _ _ _ HP) as Hst. intros p' [= <-].
  assert (Hrs : Forall (reply_denies_only (settled (mkP0 (Some p) (w_host w) (epoch s) (drawn s) (accepted s)) (starting p))) rs).
  { destruct (submitting_op (starting p)) as [op|] eqn:Eop.
    - unfold start_inv in Hst. destruct (starting p); simplify_eq/=. destruct Hst as (_ & _ & _ & Hl & _).
      destruct (Hblock _ Hl) as (rs' & o' & E & _ & Hrs). simplify_eq. by eapply replies_mono; [|exact Hrs].
    - eapply replies_mono; [|exact Hx]. intros op Hop. split; [exact Hop|]. by rewrite Eop. }
  apply (orch_proc s _ ts p (starting p) o rs); [done..|exact Hset|done|exact Hrs|].
  unfold start_inv in *. simpl. destruct (starting p) eqn:Es; [done|exact Hst|..].
  - destruct Hst as (Hacc & Hnil & Hun & Hl & Hfile & Hprior).
    destruct (Hblock _ Hl) as (rs' & o' & E & Hl' & _). simplify_eq. done.
  - destruct Hst as (Hl & Hprior & Hr).
    destruct (Hblock _ Hl) as (rs' & o' & E & Hl' & _). simplify_eq. done.
  - by eapply denies_only_mono; [exact Hset|].
Qed.

Lemma inv_execs_drawn s ts op : P0Inv s ts -> op ∈ (Runner.execs (host s)).*1 -> op ∈ drawn s.
Proof.
  intros [] Hop. unfold system_truthful in inv_truthful0. simpl in inv_truthful0.
  destruct (orch <$> proc s); destruct inv_truthful0 as [[_ Hd] _]; by apply Hd.
Qed.

Lemma begin_step_inv op os p s s' ts :
  P0Inv s ts -> proc s = Some p -> begin_step fs cfg op os p s = Some s' -> P0Inv s' ts.
Proof.
  intros HI Hp H. unfold begin_step in H. destruct (starting p) as [|t prompt| | |] eqn:Es; try done.
  destruct (draws op s) eqn:Ed; [|done]. injection H as <-.
  apply andb_true_iff in Ed as [Hnil Hnew]. apply negb_true_iff in Hnil, Hnew. bool_to_prop.
  pose proof (inv_proc _ _ HI p Hp) as HP. pose proof (pi_start _ _ _ HP) as Hst.
  unfold start_inv in Hst. rewrite Es in Hst.
  assert (Hx : op ∉ (Runner.execs (host s)).*1) by (intros Hin; by apply Hnew, (inv_execs_drawn s ts)).
  assert (HT : truthful (RC := host_contract fs cfg (drawn s ++ [op]) Hcfg) (orch p, os_world os (host s))).
  { pose proof (system_truthful_draw fs cfg Hcfg (drawn s) [op] (Some (orch p), host s)) as Hd.
    apply Hd. exact (inv_honest s ts p os HI Hp). }
  assert (Hin : op ∈ drawn s ++ [op]) by (apply elem_of_app; right; by apply list_elem_of_singleton).
  pose proof (start_begin_call fs cfg Hcfg (drawn s ++ [op]) op (orch p) (os_world os (host s)) HT Hin Hx) as Hspec.
  unfold on_orch, spec in *. cbn [host epoch drawn accepted] in *.
  destruct (Control.start_begin op _) as [r [o w]|[o w]].
  2:{ destruct Hspec as [Ha Hex]. apply (quiet_inv s); [done..|exact Ha|done]. }
  destruct Hspec as [[Ha Hex] Hr]. apply (quiet_inv s); [done..|exact Ha|]. intros p' [= <-].
  apply (orch_proc s _ ts p _ o []); [done..| | |by apply Forall_nil|].
  - intros x. apply settled_moved; simpl.
    + intros y Hy. apply elem_of_app. by left.
    + exact Hex.
    + destruct r; [|done]. intros y [= <-]. by right.
  - rewrite Es. by destruct r.
  - unfold start_inv. simpl. destruct r as [prior|e]; [|by intros lc y [=]].
    destruct Hst as [Hst Hacc]. destruct Hr as (Hl & Hf & Hprior). split_and!; try done.
    split; [done|]. unfold same_execs in Hex. simpl in *. by rewrite Hex.
Qed.

Lemma finish_step_inv os p s s' ts :
  P0Inv s ts -> proc s = Some p -> finish_step fs cfg os p s = Some s' -> P0Inv s' ts.
Proof.
  intros HI Hp H. unfold finish_step in H. destruct (starting p) as [| | |t op prior r|] eqn:Es; try done.
  injection H as <-. pose proof (inv_proc _ _ HI p Hp) as HP. pose proof (pi_start _ _ _ HP) as Hst.
  unfold start_inv in Hst. rewrite Es in Hst. destruct Hst as (Hl & Hprior & Hr).
  pose proof (start_finish_call fs cfg Hcfg (drawn s) op prior r (orch p) (os_world os (host s))
    (inv_honest s ts p os HI Hp) Hprior Hr) as Hspec.
  unfold on_orch, spec in *.
  destruct (Control.start_finish op prior r _) as [r' [o w]|[o w]].
  2:{ destruct Hspec as [Ha Hex]. apply (quiet_inv s); [done..|exact Ha|done]. }
  destruct Hspec as [[Ha Hex] Hd]. apply (quiet_inv s); [done..|exact Ha|]. intros p' [= <-].
  apply (orch_proc s _ ts p _ o []); [done..| |done|by apply Forall_nil|].
  - intros x. by apply settled_moved.
  - unfold start_inv. simpl. eapply denies_only_mono; [|exact Hd]. intros x Hx. by split.
Qed.

(** The submission adds at most its own command. *)
Lemma submit_execs op prompt o w (Hf : file_ok (w_host w)) (Hnil : is_nil (op_uuid op) = false) :
  let adds (st : OSt) :=
    Runner.execs (w_host st.2) = Runner.execs (w_host w) \/
    Runner.execs (w_host st.2) = Runner.execs (w_host w) ++
      [(op, inv_exec (Runner.cfg_environment cfg) (Runner.cfg_branch cfg) prompt)] in
  spec (Orch.lift (lr_submit op prompt)) (o, w) (fun _ => adds) adds.
Proof.
  intros adds. apply spec_lift, spec_with_answers. intros a ag.
  assert (Hs : forall h, submit_safe (w_host w) h op (inv_exec (Runner.cfg_environment cfg) (Runner.cfg_branch cfg) prompt) ->
    adds (o, mkWorld h ag (w_rest w))).
  { intros h [[He _] _|l [He _] _ _ _ _|l He _ _ _ _ _ _]; [by left..|by right]. }
  eapply spec_mono; [by apply spec_submit|..]; [intros r h [Hh _]|intros h Hh]; by apply Hs.
Qed.

(** The commands after a submission of turn [t], with the turns they belong to. *)
Lemma submitted_inv s ts t prompt op h' p' drawn' :
  P0Inv s ts -> (epoch s, t) ∉ ts -> ((epoch s, t), prompt) ∈ accepted s ->
  op ∉ (Runner.execs (host s)).*1 ->
  Runner.execs h' = Runner.execs (host s) \/
  Runner.execs h' = Runner.execs (host s) ++ [(op, inv_exec (Runner.cfg_environment cfg) (Runner.cfg_branch cfg) prompt)] ->
  let s' := mkP0 p' h' (epoch s) drawn' (accepted s) in
  system_truthful fs cfg Hcfg drawn' (orch <$> p', h') ->
  (forall ts' p, p' = Some p -> (forall k, k ∈ ts' -> k ∈ ts \/ k = (epoch s, t)) -> ProcInv s' ts' p) ->
  exists ts', P0Inv s' ts'.
Proof.
  intros [] Ht Hacc Hop [Hx|Hx] s' HT HP.
  - exists ts. constructor; simpl; rewrite ?Hx; try done. intros p Hp. apply HP; [done|]. by left.
  - exists (ts ++ [(epoch s, t)]). constructor; simpl; rewrite ?Hx; try done.
    + apply Forall2_app; [done|]. constructor; [|constructor]. by exists prompt.
    + rewrite fmap_app. apply NoDup_app. split_and!; [done| |by apply NoDup_singleton].
      intros x Hin Hx'%list_elem_of_singleton. by subst x.
    + apply NoDup_app. split_and!; [done| |by apply NoDup_singleton].
      intros x Hin Hx'%list_elem_of_singleton. by subst x.
    + intros k [Hk|Hk%list_elem_of_singleton]%elem_of_app; [by apply inv_epochs0|by subst k].
    + intros p Hp. apply HP; [done|]. intros k [?|?%list_elem_of_singleton]%elem_of_app; auto.
Qed.

Lemma submit_step_inv os p s s' ts :
  P0Inv s ts -> proc s = Some p -> submit_step fs cfg os p s = Some s' -> exists ts', P0Inv s' ts'.
Proof.
  intros HI Hp H. unfold submit_step in H. destruct (starting p) as [| |t prompt op prior| |] eqn:Es; try done.
  injection H as <-. pose proof (inv_proc _ _ HI p Hp) as HP. pose proof (pi_start _ _ _ HP) as Hst.
  unfold start_inv in Hst. rewrite Es in Hst. destruct Hst as ((Ht & Hacc) & Hnil & [Hin Hun] & Hl & Hfile & Hprior).
  set (RC := host_contract fs cfg (drawn s) Hcfg) in *.
  pose proof (inv_honest s ts p os HI Hp) as HT. set (w0 := os_world os (host s)) in *.
  assert (Hn : ~ host_ran (drawn s) w0 op) by (intros [?|?]; done).
  assert (Hid : host_ids (drawn s) op) by done.
  pose proof (spec_start_submit (RC := RC) op prompt (orch p) w0 HT Hid Hn Hl Hfile) as H1.
  assert (Hf0 : file_ok (w_host w0)) by (by destruct HT as ([? _] & _)).
  pose proof (submit_execs op prompt (orch p) w0 Hf0 Hnil) as H2. cbv zeta in H2.
  assert (Hturn : (epoch s, t) ∉ ts).
  { intros Hts. destruct (pi_ran _ _ _ HP t Hts) as [_ Hr]. by rewrite Es in Hr. }
  unfold on_orch, spec in *. fold w0. destruct (Orch.lift _ _) as [r [o w]|[o w]].
  2:{ eapply submitted_inv; try done. }
  destruct H1 as (Ha & Eo & Hs & Hr). simpl in Eo, Hs, Hr, H2. subst o.
  eapply submitted_inv; [done..|exact H2|exact Ha|]. intros ts' p' [= <-] Hts'.
  assert (Hset : forall x, settled s (starting p) x ->
    settled (mkP0 (Some p) (w_host w) (epoch s) (drawn s) (accepted s)) (StartSubmitted t op prior r) x).
  { rewrite Es. intros x [[Hx1 Hx2] Hx3]. simpl in Hx3. split; [|done]. split; [done|]. simpl.
    destruct H2 as [-> | ->]; [done|]. rewrite fmap_app. intros [?|Hx%list_elem_of_singleton]%elem_of_app; [done|].
    simpl in Hx. congruence. }
  pose proof HP as []. constructor; simpl; try done.
  - intros t' [Hold|E]%Hts'; [|by simplify_eq]. by destruct (pi_ran0 t' Hold).
  - unfold start_inv. simpl. split_and!; [done| |done].
    intros Hnr. by apply (submitted_prior (RC := RC) op w0).
  - by eapply replies_mono; [exact Hset|].
  - eapply told_mono; [|exact pi_told0]. intros e. by apply denies_event_mono.
Qed.

(** ** Processes *)

Lemma construct_call h os d :
  system_truthful fs cfg Hcfg d (None, h) ->
  spec (construct fs cfg) (fresh_process, os_world os h)
    (fun r st => left_honest fs cfg Hcfg d (os_world os h) st /\
       match r with Ok inspected => denies_only (unrun d (w_host st.2)) inspected | Err _ => True end)
    (left_disk fs cfg Hcfg d (os_world os h)).
Proof.
  intros HT. set (w := os_world os h). set (RC := host_contract fs cfg d Hcfg).
  assert (Hd : durable_truthful (RC := RC) (fresh_process, w)) by exact HT.
  assert (HF : file_ok (w_host w)) by (by destruct Hd as ([? _] & _)).
  unfold construct. spec_step. apply spec_mapped.
  assert (Hstill : spec Orch.from_runner (fresh_process, w)
    (fun _ => truthful (RC := still_contract fs cfg (Runner.execs (w_host w))))
    (durable_truthful (RC := still_contract fs cfg (Runner.execs (w_host w))))).
  { apply (spec_from_runner (RC := still_contract fs cfg (Runner.execs (w_host w)))).
    split; [exact (conj HF eq_refl)|]. by intros l _ []. }
  eapply spec_mono; [apply (spec_and _ _ _ _ _ _ (spec_from_runner (RC := RC) w Hd) Hstill)|..].
  - intros r [o1 w1] [Ha [[_ Hx] _]]. destruct r as [[]|e]; simpl; [|done].
    spec_step. eapply spec_mono; [by apply (inspect_call fs cfg Hcfg d)|..].
    + intros inspected st [[Hs1 Hs2] Hi]. spec_step. split; [|done]. split; [done|]. unfold same_execs in *. simpl in *. congruence.
    + intros st [Hs1 Hs2]. split; [done|]. unfold same_execs in *. simpl in *. congruence.
  - intros [o1 w1] [Ha [[_ Hx] _]]. by split.
Qed.

Lemma inv_dead s ts : P0Inv s ts -> P0Inv (with_proc None s) ts.
Proof.
  intros HI. apply (quiet_inv s); [done..| |done]. eapply system_truthful_durable. exact (inv_truthful _ _ HI).
Qed.

Lemma boot_step_inv i now fresh os s ts :
  P0Inv s ts -> proc s = None -> P0Inv (boot_step fs cfg i now fresh os s) ts.
Proof.
  intros HI Hp. pose proof HI as []. rewrite Hp in inv_truthful0. unfold boot_step.
  pose proof (construct_call (host s) os (drawn s) inv_truthful0) as Hspec. unfold spec in Hspec.
  assert (Hnew : forall p w (HT : system_truthful fs cfg Hcfg (drawn s) (orch <$> p, w_host w)),
    same_execs (os_world os (host s)) w ->
    (forall q, p = Some q -> ProcInv (mkP0 p (w_host w) (Datatypes.S (epoch s)) (drawn s) (accepted s)) ts q) ->
    P0Inv (mkP0 p (w_host w) (Datatypes.S (epoch s)) (drawn s) (accepted s)) ts).
  { intros p w HT Hx HP. unfold same_execs in Hx. simpl in Hx.
    constructor; simpl; rewrite ?Hx; try done.
    - intros k Hk. specialize (inv_epochs0 k Hk). lia.
    - destruct inv_accepted0 as [? Hk]. split; [done|]. intros k Hin. specialize (Hk k Hin). lia. }
  assert (Hdead : forall o w, left_honest fs cfg Hcfg (drawn s) (os_world os (host s)) (o, w) ->
    P0Inv (mkP0 None (w_host w) (Datatypes.S (epoch s)) (drawn s) (accepted s)) ts).
  { intros o w [Ha Hx]. apply Hnew; [|done..].
    apply (system_truthful_durable fs cfg Hcfg (drawn s) (Some o)). exact Ha. }
  destruct (construct fs cfg _) as [[inspected|e] [o w]|[o w]].
  - destruct Hspec as [Ha Hi]. destruct (sys_init i now fresh inspected) as [y|] eqn:Ey; [|by apply (Hdead o)].
    destruct Ha as [Ha Hx]. apply Hnew; [exact Ha|exact Hx|]. intros q [= <-].
    constructor; simpl; try done.
    + apply (reachable_TurnInv i). by eapply reach_init.
    + intros t prompt Hin. destruct inv_accepted0 as [_ Hk].
      assert (Hin' : (Datatypes.S (epoch s), t) ∈ (accepted s).*1) by (apply list_elem_of_fmap; by eexists (_, _)).
      specialize (Hk _ Hin'). simpl in Hk. lia.
    + intros t prompt Hh. by apply (sys_init_holds _ _ _ _ _ _ _ Ey) in Hh.
    + intros t Hts. specialize (inv_epochs0 _ Hts). simpl in inv_epochs0. lia.
    + eapply sys_init_told; [|by intros ? ? [=]|exact Ey].
      intros lc -> op Hop. rewrite p0_denied_from_cloud in Hop. split; [|done]. by eapply Hi.
  - destruct Hspec as [Ha _]. by apply (Hdead o).
  - destruct Hspec as [Ha Hx]. apply Hnew; [exact Ha|exact Hx|done].
Qed.

Lemma p0_reachable_inv s : p0_reachable fs cfg s -> exists ts, P0Inv s ts.
Proof.
  induction 1 as [|s l s' _ [ts HI] _ Hs].
  - exists []. constructor; simpl; [|constructor|apply NoDup_nil_2|apply NoDup_nil_2| | |done].
    + split; [split; [by intros ? [=]|by intros ? ?%not_elem_of_nil]|by intros ? [=]].
    + by intros ? ?%not_elem_of_nil.
    + split; [apply NoDup_nil_2|by intros ? ?%not_elem_of_nil].
  - unfold p0_step in Hs. destruct l, (proc s) as [p|] eqn:Hp; simplify_eq;
      eauto using session_step_inv, call_step_inv, begin_step_inv, submit_step_inv, finish_step_inv,
        boot_step_inv, inv_dead.
Qed.

End Invariant.
