(* ===== verification/P0Typing.v ===== *)
(** * Every value a session publishes is well typed

    The Rust types of published values carry invariants: a [CloudTaskId] passed its validator, an
    [EventSeq] is a 64-bit integer, a recovery event lists distinct tasks within the limit.  In the
    model these are predicates, and this file shows that the composed system of P0System.v publishes
    only values that satisfy them, whatever the Codex CLI prints, the disk holds and the operator does:
    the validators at the edges are never bypassed on the way to a client. *)
From S2P Require Import Prelude Effects DomainValues CloudTypes SessionTypes SessionRuntime SessionLog SessionSystem SessionReports LifecycleLedger CloudAdapter SubmitLedger LoginTypes CloudRunner RunnerSafety Orchestrator OrchestratorSafety P0System P0Calls P0Safety.
From stdpp Require Import base numbers list strings sets.
From Stdlib Require Import ZArith Lia.
Import Ids Seqs Config Errors SessionRuntime.

Open Scope Z_scope.

(** ** The invariants of the types *)

Definition task_typed (t : P0CloudTaskId) : Prop := valid_task (mkTask (p0_task_str t)).

Definition lifecycle_typed (l : P0CloudLifecycle) : Prop := forall t, p0_task_id l = Some t -> task_typed t.

Definition candidates_typed (ts : list P0CloudTaskId) : Prop :=
  Forall task_typed ts /\ NoDup ts /\ len ts <= MAX_RECONCILIATION_TASKS.

Definition event_typed (e : P0SessionEvent) : Prop :=
  match e with
  | LifecycleChanged l => lifecycle_typed l
  | RecoveryObserved _ _ ts _ => candidates_typed ts
  | _ => True
  end.
#[export] Instance event_typed_plain : Plain event_typed.
Proof. by intros []. Qed.

Definition envelope_typed (i : Inner) (e : P0SessionEventEnvelope) : Prop :=
  ev_schema_version e = EVENT_SCHEMA_VERSION /\
  ev_session_id e = SessionTypes.session_id (identity i) /\
  1 <= value (ev_seq e) <= u64_max /\ event_typed (ev_payload e).

Definition snapshot_typed (sn : P0SessionSnapshot) : Prop :=
  0 <= value (sn_high_water_seq sn) <= u64_max /\
  forall t l, sn_current_turn sn = Some t -> projection_lifecycle (ts_projection t) = Some l -> lifecycle_typed l.

(** ** Lower results *)

Lemma lifecycle_read_typed l lc : Life.lifecycle l = Ok lc -> lifecycle_typed (from_cloud lc).
Proof.
  unfold Life.lifecycle. destruct (Life.get_task_id l) as [t|] eqn:Et; [|done].
  assert (Ht : forall x, t = Some x -> valid_task x).
  { intros x ->. unfold Life.get_task_id in Et. destruct (Life.task_id l) as [s|]; [|done]. simpl in Et.
    destruct (CloudTaskId_try_new s) eqn:E; simplify_eq/=. by apply CloudTaskId_try_new_Ok in E as [_ ?]. }
  intros H x Hx. unfold task_typed.
  destruct (Life.phase l), t as [t|]; simplify_eq/=; simplify_eq/=; destruct t; by apply Ht.
Qed.

Lemma published_typed {S} (r : result CloudLifecycleError CloudLifecycle) (st : Orch.OrchestratorState * S) :
  publishes r st -> lower_told event_typed (map_err lower_from r).
Proof.
  intros Hp lc E. destruct r as [lc'|]; simplify_eq/=. destruct (Hp lc eq_refl) as (l & _ & Hl).
  by eapply lifecycle_read_typed.
Qed.

Lemma reconcile_lists fs cfg a h :
  spec (Runner.reconcile_unknown fs cfg a) h
    (fun r _ => forall rec, r = Ok rec -> Forall (fun t => valid_task (sum_id t)) (Runner.rec_tasks rec) /\
       NoDup (sum_id <$> Runner.rec_tasks rec) /\ len (Runner.rec_tasks rec) <= MAX_RECONCILIATION_TASKS)
    (fun _ => True).
Proof.
  unfold Runner.reconcile_unknown. spec_step. apply spec_pure. destruct (Runner.acquire_scope a); [|done].
  spec_step. eapply spec_mono; [apply spec_any| |done]. intros [r|] h1 _; [|done].
  spec_step. apply spec_pure. destruct (ok_or r _) as [l|]; [|done]. destruct (negb _); [done|].
  spec_step. apply spec_pure. destruct (Runner.require_matching_config _ _); [|done].
  spec_step. apply spec_pure. destruct (Runner.a_version a); [|done]. spec_step. apply spec_pure.
  destruct (Runner.list_pages _ _ _ _ _ _ _ _) as [[ts complete]|] eqn:Ep; [|done].
  apply (list_pages_spec _ _ (fun n c page => read_page_ok fs cfg (Runner.a_pages a n) c page)) in Ep
    as (Hnd & HFv & Hlen); [|done|set_solver|constructor|done|done].
  spec_step. apply spec_pure. destruct (Sub.record_reconciliation _ _ _); [|done].
  spec_step. eapply spec_mono; [apply spec_any| |done]. intros [] h2 _; [|done]. by intros rec [= <-].
Qed.

Lemma summaries_typed op ts complete : Forall (fun t => valid_task (sum_id t)) ts -> NoDup (sum_id <$> ts) ->
  len ts <= MAX_RECONCILIATION_TASKS -> candidates_typed (rc_task_ids (from_summaries op ts complete)).
Proof.
  intros HF Hn Hl. unfold candidates_typed. simpl. change (map ?f ts) with (f <$> ts). split_and!.
  - apply Forall_fmap. eapply Forall_impl; [exact HF|]. intros t. unfold task_typed. simpl. by destruct (sum_id t).
  - rewrite (list_fmap_compose sum_id p0_task_from_cloud ts : (fun t => p0_task_from_cloud (sum_id t)) <$> ts = _).
    apply NoDup_fmap_2; [|done]. intros [x] [y] E. unfold p0_task_from_cloud in E. simpl in E. congruence.
  - unfold len in *. by rewrite length_fmap.
Qed.

Section Typing.
Context (fs : string -> option RawTaskListPage) (cfg : Runner.Config).
#[local] Instance typing_runner : LifecycleCloudRunner Orchestrator.World := host_runner fs cfg.

(** What a reply carries. *)
Definition reply_typed (r : Reply) : Prop :=
  match r with
  | ReplyLifecycle _ r => lower_told event_typed r
  | ReplyCandidates r => candidates_told event_typed r
  end.

Definition start_typed (st : StartState) : Prop :=
  match st with StartReturned _ r => lower_told event_typed r | _ => True end.

Lemma mapped_typed (m : M (Orch.OrchestratorState * Orchestrator.World) (result CloudLifecycleError CloudLifecycle)) o w :
  ends publishes m o -> spec (Control.mapped m) (o, w) (fun r _ => lower_told event_typed r) (fun _ => True).
Proof.
  intros Hm. apply spec_mapped. eapply spec_mono; [apply Hm| |done]. intros r st. apply published_typed.
Qed.

Lemma answered_with {A} (m : Runner.Answers -> M Runner.Host A) (P : A -> Prop) w :
  (forall a h, spec (m a) h (fun r _ => P r) (fun _ => True)) -> spec (with_answers m) w (fun r _ => P r) (fun _ => True).
Proof.
  intros Hm. unfold spec, with_answers. destruct (match w_agenda w with a :: rest => _ | [] => _ end) as [a agenda].
  specialize (Hm a (w_host w)). unfold spec in Hm. by destruct (m a (w_host w)).
Qed.

Lemma reconcile_typed o w :
  spec Control.reconcile_unknown (o, w) (fun r _ => candidates_told event_typed r) (fun _ => True).
Proof.
  unfold Control.reconcile_unknown. spec_step. apply spec_mapped. unfold Orch.reconcile_unknown, Orch.lower. orch.
  destruct (Orch.require_phase o _) as [op|]; [|done]. orch. apply spec_lift.
  eapply spec_mono; [apply answered_with; intros a h; apply reconcile_lists| |done].
  intros [rec|] w1 Hr; orch; [|done]. destruct (Hr rec eq_refl) as (HF & Hn & Hl).
  cbn [map_err]. case_bool_decide; [orch; done|]. orch. destruct (ok_or _ _) as [l|]; [|done]. orch.
  destruct (Life.record_reconciliation _ _ _) as [l'|]; [|done]. orch.
  apply ends_persist_after. intros [] w2; [|done]. orch.
  intros c actor [= <-]. by apply summaries_typed.
Qed.

Lemma run_lower_typed c o w : spec (run_lower fs cfg c) (o, w) (fun rs _ => Forall reply_typed rs) (fun _ => True).
Proof.
  assert (Hone : forall call r, lower_told event_typed r -> Forall reply_typed [ReplyLifecycle call r])
    by (intros; by apply Forall_singleton).
  destruct c; simpl; spec_step.
  - eapply spec_mono; [apply mapped_typed, inspect_publishes| |done]. intros r st Hr. spec_step. auto.
  - unfold Control.cancel. spec_step. eapply spec_mono; [apply cancel_publishes| |done].
    intros r st Hr. spec_step. destruct r as [r|]; simpl; [|by apply Forall_nil]. apply Hone. by eapply published_typed, Hr.
  - eapply spec_mono; [apply reconcile_typed| |done]. intros r st Hr. spec_step. by apply Forall_singleton.
  - eapply spec_mono; [apply mapped_typed, resolve_publishes| |done]. intros r st Hr. spec_step. auto.
Qed.

(** ** The invariant *)

Record typed (p : Process) : Prop := mkTyped {
  ty_told : told event_typed (world (sys p));
  ty_replies : Forall reply_typed (replies p);
  ty_start : start_typed (starting p) }.

Definition typed_system (s : P0System) : Prop := forall p, proc s = Some p -> typed p.

Lemma on_orch_typed {A} (m : M (Orch.OrchestratorState * Orchestrator.World) A) os p s k (P : A -> Prop) :
  spec m (orch p, os_world os (host s)) (fun a _ => P a) (fun _ => True) ->
  (forall a o, P a -> typed (k a (mkProcess (inner p) (sys p) o (starting p) (replies p)))) ->
  typed_system (on_orch m os p s k).
Proof.
  intros Hm Hk q. unfold on_orch. unfold spec in Hm. destruct (m _) as [a [o w]|[o w]]; [|done].
  intros [= <-]. by apply Hk.
Qed.

Lemma taken_typed p l rs : typed p -> consume l p = Some rs ->
  Forall reply_typed rs /\ forall r, expects l (sys p) = Some r -> reply_typed r.
Proof.
  intros [_ Hr _] Hc. rewrite Forall_forall in Hr. unfold consume in Hc.
  destruct (expects l (sys p)) as [r|]; [|simplify_eq; split; [by apply Forall_forall|done]].
  apply take_reply_spec in Hc as [Hin Hx]. split; [apply Forall_forall; auto|]. intros r' [= <-]. auto.
Qed.

Lemma session_step_typed l p s s' : typed p -> session_step l p s = Some s' -> typed_system s'.
Proof.
  intros Hp H. unfold session_step in H. destruct (sys_step _ _ _) as [y|] eqn:Ey; [|done].
  destruct (consume l p) as [rs|] eqn:Ec; [|done]. simpl in H. destruct (start_after l p y) as [st'|] eqn:Es; simplify_eq/=.
  destruct (taken_typed p l rs Hp Ec) as [Hrs He]. intros q [= <-]. destruct Hp as [Ht Hr Hst].
  assert (Hst' : start_typed st').
  { unfold start_after in Es. repeat (case_match; simplify_eq; try done). }
  constructor; simpl; [|done|done]. eapply sys_step_told; [apply _|exact Ht| | |exact Ey].
  - intros r Hl. destruct l; simpl in Hl; simplify_eq; try (exact (He _ eq_refl)).
    + simpl in Ey, He. destruct (callers (sys p) !! k) as [[]|]; try done. exact (He _ eq_refl).
    + unfold start_after in Es. destruct (starting p); try done. case_bool_decide; [|done]. by subst.
  - intros r Hl. destruct l; simpl in Hl; simplify_eq. exact (He _ eq_refl).
Qed.
Lemma boot_step_typed i now fresh os s : typed_system (boot_step fs cfg i now fresh os s).
Proof.
  unfold boot_step.
  assert (Hc : spec (construct fs cfg) (fresh_process, os_world os (host s))
    (fun r _ => forall x, r = Ok x -> lower_told event_typed x) (fun _ => True)).
  { unfold construct. spec_step. eapply spec_mono; [apply spec_any| |done]. intros [] [o w] _; [|done]. spec_step.
    eapply spec_mono; [apply mapped_typed, inspect_publishes| |done]. intros r st Hr. spec_step. by intros x [= <-]. }
  unfold spec in Hc. destruct (construct fs cfg _) as [[inspected|e] [o w]|[o w]]; [|done..].
  destruct (sys_init i now fresh inspected) as [y|] eqn:Ey; [|done]. intros q [= <-].
  constructor; simpl; [|by apply Forall_nil|done]. eapply sys_init_told; [by apply Hc|by intros o' t [=]|exact Ey].
Qed.

Lemma p0_step_typed l s s' : typed_system s -> p0_step fs cfg l s = Some s' -> typed_system s'.
Proof.
  intros Hs H. unfold p0_step in H. destruct l as [l|c os|op os|os|os|i now fresh os|], (proc s) as [p|] eqn:Ep; try done;
    try pose proof (Hs p Ep) as Hp; try destruct Hp as [Ht Hr Hst].
  - by eapply session_step_typed.
  - unfold call_step in H. destruct (wanted _ _); simplify_eq. eapply on_orch_typed; [apply run_lower_typed|].
    intros rs o Hrs. constructor; simpl; [done|by apply Forall_app|done].
  - unfold begin_step in H. destruct (starting p) eqn:Es; try done. destruct (draws op s); simplify_eq.
    eapply (on_orch_typed _ _ _ _ _ (fun _ => True)); [apply spec_any|].
    intros [prior|e] o _; constructor; simpl; done.
  - unfold submit_step in H. destruct (starting p) eqn:Es; simplify_eq.
    eapply (on_orch_typed _ _ _ _ _ (fun _ => True)); [apply spec_any|]. by constructor.
  - unfold finish_step in H. destruct (starting p) eqn:Es; simplify_eq.
    eapply on_orch_typed; [apply mapped_typed, start_finish_publishes|]. by constructor.
  - simplify_eq. apply boot_step_typed.
  - simplify_eq. by intros q.
Qed.

Lemma p0_reachable_typed s : p0_reachable fs cfg s -> typed_system s.
Proof. induction 1 as [|s l s' _ IH _ Hs]; [done|]. by eapply p0_step_typed. Qed.
End Typing.
