(* ===== verification/P0Claims.v ===== *)
(** * What the composed system guarantees

    The properties of P0System.v, from a first installation through any number of processes. *)
From S2P Require Import Prelude Effects DomainValues CloudTypes SessionTypes SessionRuntime SessionSystem SessionReports LifecycleLedger CloudAdapter LoginTypes CloudRunner RunnerSafety RunnerClaims Orchestrator OrchestratorClaims P0System P0Calls P0Safety P0Typing.
From stdpp Require Import base numbers list strings gmap.
From Stdlib Require Import ZArith Lia.
Import Ids.

Open Scope Z_scope.

(** ** A run on a concrete host *)

Definition p0_inner : SessionRuntime.Inner :=
  SessionRuntime.Build_Inner config_default {| session_id := mkId 7; instance_id := mkInstance 8 |}.
Definition demo_os : Os := mkOs [] demo_answers [] 30.
Definition p0_turn1 : TurnId := mkId 11.
Definition p0_turn2 : TurnId := mkId 12.
Definition p0_pending : result SessionRuntime.LowerLifecycleError CloudLifecycle := Ok (LPending demo_op demo_task).
Definition p0_canceled1 : result SessionRuntime.LowerLifecycleError CloudLifecycle :=
  Ok (LCanceledLocally demo_op (Some demo_task) true).
Definition p0_canceled2 : result SessionRuntime.LowerLifecycleError CloudLifecycle :=
  Ok (LCanceledLocally demo_op2 None false).

(** The first process dies before it accepts anything.  The second runs a turn to a pending task. *)
Definition p0_first_turn : list P0Label :=
  [PBoot p0_inner 0 (mkId 100) demo_os; PDie; PBoot p0_inner 0 (mkId 101) demo_os;
   PSession (StartTurn p0_turn1 demo_prompt); PSession (WorkerNext 1); PSession WorkerAdmit;
   PStartBegin demo_op demo_os; PSubmit demo_os; PStartFinish demo_os; PSession (WorkerStartDone 2 p0_pending)].
(** The turn is canceled; the next one is canceled before its command. *)
Definition p0_second_turn : list P0Label :=
  [PSession (CancelEnter Operator 3); PCall CallCancel demo_os; PSession (CancelLower 0 4 p0_canceled1);
   PSession (StartTurn p0_turn2 demo_prompt); PSession (WorkerNext 5); PSession WorkerAdmit;
   PStartBegin demo_op2 demo_os; PSubmit (mkOs [] demo_cancel_answers [] 30); PStartFinish demo_os;
   PSession (WorkerStartDone 6 p0_canceled2)].

Definition p0_first_state : P0System := default p0_init (p0_run demo_last_slice demo_cfg p0_first_turn p0_init).
Definition p0_second_state : P0System :=
  default p0_init (p0_run demo_last_slice demo_cfg p0_second_turn p0_first_state).

Lemma p0_first_reachable : p0_reachable demo_last_slice demo_cfg p0_first_state.
Proof.
  apply (p0_run_reachable _ _ p0_first_turn p0_init); [apply p0_first|repeat constructor|].
  vm_compute. reflexivity.
Defined.

Lemma p0_second_reachable : p0_reachable demo_last_slice demo_cfg p0_second_state.
Proof.
  apply (p0_run_reachable _ _ p0_second_turn p0_first_state); [apply p0_first_reachable|repeat constructor|].
  vm_compute. reflexivity.
Defined.

(** ** Commands and turns *)

(** C2: every command the host ever started is the submission of one accepted turn.  Whatever the
    operator does, whatever the system answers, whichever writes fail, wherever processes die and
    however the threads interleave: the commands can be matched one to one, in order, with distinct
    turns whose [start_turn] returned a receipt, each command being exactly [cloud exec] with the
    configured environment and branch and that turn's own prompt; no operation is submitted twice,
    and no turn is accepted twice.  So there are never more commands than accepted turns. *)
Theorem every_command_is_one_accepted_turn fs cfg s (Hcfg : cfg_ok cfg) (Hs : p0_reachable fs cfg s) :
  (exists turns, NoDup turns /\
     Forall2 (fun turn c => exists prompt, (turn, prompt) ∈ accepted s /\
       c.2 = inv_exec (Runner.cfg_environment cfg) (Runner.cfg_branch cfg) prompt)
       turns (Runner.execs (host s))) /\
  NoDup (Runner.execs (host s)).*1 /\ NoDup (accepted s).*1 /\
  (length (Runner.execs (host s)) <= length (accepted s))%nat.
Proof.
  destruct (p0_reachable_inv fs cfg Hcfg s Hs) as [ts HI]. destruct HI as [_ Hc Ho Ht _ Ha _]. split_and!; [by exists ts|done|apply Ha|].
  rewrite <- (Forall2_length _ _ _ Hc), <- (length_fmap fst (accepted s)).
  apply submseteq_length, NoDup_submseteq; [done|]. intros t Hin0.
  apply list_elem_of_lookup in Hin0 as [k Hk]. destruct (Forall2_lookup_l _ _ _ _ _ Hc Hk) as (c & _ & prompt & Hin & _).
  apply list_elem_of_fmap. by exists (t, prompt).
Qed.

Lemma every_command_is_one_accepted_turn_witness :
  Runner.execs (host p0_second_state) = [(demo_op, demo_exec)] /\ length (accepted p0_second_state) = 2%nat /\
  NoDup (Runner.execs (host p0_second_state)).*1.
Proof.
  split; [vm_compute; reflexivity|]. split; [vm_compute; reflexivity|].
  exact (proj1 (proj2 (every_command_is_one_accepted_turn demo_last_slice demo_cfg p0_second_state
    demo_cfg_ok p0_second_reachable))).
Defined.

(** ** What clients are told *)

(** C3: a session never tells a client that a command did not run when it did.  In every reachable
    state, when a published lifecycle event or the snapshot's current turn says that an operation
    failed before its submission, or was canceled locally with nothing left running at the provider,
    no process on this host ever started that operation's command. *)
Theorem session_never_denies_a_command fs cfg s p l op
    (Hcfg : cfg_ok cfg) (Hs : p0_reachable fs cfg s) (Hp : proc s = Some p)
    (Htold : (exists e, e ∈ SessionRuntime.log (world (sys p)) /\ ev_payload e = LifecycleChanged l) \/
             (exists t, sn_current_turn (SessionRuntime.snapshot_from (inner p) (SessionRuntime.st (world (sys p)))) = Some t /\
                SessionRuntime.projection_lifecycle (ts_projection t) = Some l))
    (Hl : p0_denied l = Some op) :
  op ∉ (Runner.execs (host s)).*1.
Proof.
  destruct (p0_reachable_inv fs cfg Hcfg s Hs) as [ts HI].
  destruct (pi_told _ _ _ _ _ _ (inv_proc _ _ _ _ _ HI p Hp)) as [Hlog Hshown].
  destruct Htold as [(e & He & Hpay)|(t & Ht & Hlc)]; [specialize (Hlog e He); rewrite Hpay in Hlog; by apply (Hlog op Hl)|].
  simpl in Ht. destruct (SessionRuntime.current_turn _) as [r|] eqn:Er; [|done]. simplify_eq/=.
  by apply (Hshown r l Er Hlc op Hl).
Qed.

Definition p0_second_proc : Process :=
  default (mkProcess p0_inner (mkSys (SessionRuntime.mkWorld (SessionRuntime.mkState SReady None Seqs.initial [] [] 1 None false false) ∅ []) WIdle [] ∅ [] [])
    OrchestratorSafety.fresh_process NotStarting []) (proc p0_second_state).

Lemma session_never_denies_a_command_witness :
  Runner.execs (host p0_second_state) <> [] /\ demo_op2 ∉ (Runner.execs (host p0_second_state)).*1.
Proof.
  split; [vm_compute; discriminate|].
  refine (session_never_denies_a_command demo_last_slice demo_cfg p0_second_state p0_second_proc
    (SessionTypes.CanceledLocally demo_op2 None false) demo_op2 demo_cfg_ok p0_second_reachable _ _ eq_refl).
  - vm_compute. reflexivity.
  - right. eexists. split; [vm_compute; reflexivity|reflexivity].
Defined.

(** ** What is published *)

(** C23: every value a session publishes is well typed.  In every state the composed system reaches,
    with any output of the Codex CLI, any file content and any operator input, each event of the log
    has the schema version, the session's identity and a sequence number in the 64-bit range; each
    task identity in a published or shown lifecycle passed the task-identity validator; the tasks of
    a recovery event are valid, distinct and at most one hundred; and the snapshot's high-water mark
    is a 64-bit integer. *)
Theorem published_values_are_well_typed fs cfg s p
    (Hs : p0_reachable fs cfg s) (Hp : proc s = Some p) (Hv : valid_config (config (inner p))) :
  Forall (envelope_typed (inner p)) (log (world (sys p))) /\
  snapshot_typed (snapshot_from (inner p) (st (world (sys p)))).
Proof.
  destruct (p0_reachable_typed fs cfg s Hs p Hp) as [[Hl Hsh] _ _].
  destruct (reachable_LogInv _ _ Hv (proc_reachable fs cfg s p Hs Hp)) as [Hhw Hb Hseq Henv _ _ _ _ _ _ _ _].
  assert (Hn : 0 <= len (log (world (sys p)))) by (unfold len; lia). split.
  - rewrite Forall_forall in *. intros e He. destruct (Henv e He) as [Hv1 Hv2]. split_and!; auto.
    all: assert (Hin : Seqs.value (ev_seq e) ∈ map (fun e => Seqs.value (ev_seq e)) (log (world (sys p))))
      by (by apply (list_elem_of_fmap_2 (fun e => Seqs.value (ev_seq e)))).
    all: rewrite Hseq in Hin; apply elem_of_seqZ in Hin; lia.
  - split; [simpl; lia|]. intros t l Ht Hlc. simpl in Ht. destruct (current_turn _) as [r|] eqn:Er; simplify_eq/=.
    by apply (Hsh r l Er Hlc).
Qed.

Lemma published_values_are_well_typed_witness :
  log (world (sys p0_second_proc)) <> [] /\
  Forall (envelope_typed (inner p0_second_proc)) (log (world (sys p0_second_proc))).
Proof.
  split; [by vm_compute|].
  refine (proj1 (published_values_are_well_typed demo_last_slice demo_cfg p0_second_state p0_second_proc
    p0_second_reachable _ _)); [vm_compute; reflexivity|apply config_default_valid].
Defined.
