(* ===== verification/SessionApi.v ===== *)
(** * The public methods of the session runtime, whole

    SessionSystem.v interleaves the locked regions of [P0SessionRuntime]; here every public method is
    one function, from its first region to its return, over the trait it is written against
    ([P0CloudControl], runtime.rs).  A call that runs while no other thread does is a schedule of the
    concurrent system ([api_calls_keep_reachable]), and the retry loop of [cancel_turn] is bounded by
    its deadline.  Poisoned locks are not modelled. *)
From S2P Require Import Prelude Effects DomainValues CloudTypes SessionTypes SessionRuntime SessionSystem LifecycleLedger CloudAdapter SubmitLedger LoginTypes CloudRunner RunnerSafety RunnerClaims Orchestrator OrchestratorSafety P0System.
From stdpp Require Import base numbers list strings gmap.
From Stdlib Require Import ZArith Lia.
Import Ids Seqs Config Errors SessionRuntime.

Open Scope Z_scope.

(** [P0CloudControl]; a [cancel] that answers [None] still waits for a running submission. *)
Class P0CloudControl (C : Type) := {
  cc_inspect : M C (result LowerLifecycleError CloudLifecycle);
  cc_start : CloudPrompt -> CloudSubmitOperationId -> M C (result LowerLifecycleError CloudLifecycle);
  cc_cancel : M C (option (result LowerLifecycleError CloudLifecycle));
  cc_reconcile_unknown : M C (result LowerLifecycleError P0RecoveryCandidates);
  cc_resolve_unknown : CloudSubmitOperationId -> UnknownSubmitDecision ->
    M C (result LowerLifecycleError CloudLifecycle);
  cc_read_diff : M C (result CloudDiffReadErrorCategory CloudDiff) }.

(** [CodexCloudControl] over the orchestrator on a host. *)
Definition codex_cloud_control (fs : string -> option RawTaskListPage) (cfg : Runner.Config)
  : P0CloudControl (Orch.OrchestratorState * Orchestrator.World) := {|
  cc_inspect := Control.inspect (R := host_runner fs cfg);
  cc_start := fun prompt op => Control.start (R := host_runner fs cfg) op prompt;
  cc_cancel := Control.cancel (R := host_runner fs cfg);
  cc_reconcile_unknown := Control.reconcile_unknown (R := host_runner fs cfg);
  cc_resolve_unknown := Control.resolve_unknown (R := host_runner fs cfg);
  cc_read_diff := read_diff cfg |}.
#[export] Existing Instance codex_cloud_control.

Module Api.
Section Api.
Context {C : Type} `{P0CloudControl C} (i : Inner).

Abbreviation A T := (M (World * C) (result P0SessionError T)).

Definition lower {T} (m : M C T) : M (World * C) T :=
  fun '(w, c) => match m c with Done t c' => Done t (w, c') | Crashed c' => Crashed (w, c') end.
(** One locked region. *)
Definition region {T} (f : World -> World * T) : M (World * C) T :=
  fun '(w, c) => let '(w', t) := f w in Done t (w', c).
Definition locked : M (World * C) World := region (fun w => (w, w)).

Definition get_identity : P0SessionIdentity := identity i.

Definition snapshot : A P0SessionSnapshot := let! w := locked in ret (Ok (snapshot_from i (st w))).

Definition start_turn (fresh : TurnId) (prompt : CloudPrompt) : A P0TurnReceipt :=
  region (SessionRuntime.start_turn i fresh prompt).

(** The loop of [cancel_turn]: [clock k] is what the clock says in its [k]-th turn, [n] the turns
    left.  [None] has not returned: it waits for the lower [cancel], or the turns ran out. *)
Fixpoint cancel_loop (turn : TurnId) (admission : bool) (deadline : Z) (clock : nat -> Z) (k n : nat)
  : M (World * C) (option (result P0SessionError P0SessionSnapshot)) :=
  match n with
  | O => ret None
  | S n =>
      let! r := lower cc_cancel in
      match r with
      | None => ret None
      | Some r =>
          let! step := region (cancel_turn_on_lower i turn admission (clock k) deadline r) in
          match step with
          | CancelReturn r => ret (Some r)
          | CancelRetry => cancel_loop turn admission deadline clock (S k) n
          end
      end
  end.

Definition cancel_turn (actor : P0Actor) (now : Z) (clock : nat -> Z) (n : nat)
  : M (World * C) (option (result P0SessionError P0SessionSnapshot)) :=
  let! entry := region (cancel_turn_enter i actor) in
  match entry with
  | CancelDone r => ret (Some r)
  | CancelResnapshot => let! r := snapshot in ret (Some r)
  | CancelCall turn admission => cancel_loop turn admission (now + CANCEL_ADMISSION_LIMIT) clock 0 n
  end.

Definition reconcile_unknown (actor : P0Actor) : A P0RecoveryCandidates :=
  let! w := locked in
  try! expected := ret (reconcile_unknown_enter (st w)) in
  let! r := lower cc_reconcile_unknown in
  region (reconcile_unknown_commit i actor expected r).

Definition resolve_unknown (actor : P0Actor) (op : CloudSubmitOperationId) (d : UnknownSubmitDecision)
    (now : Z) : A P0SessionSnapshot :=
  let! w := locked in
  try! _ := ret (resolve_unknown_enter op (st w)) in
  let! r := lower (cc_resolve_unknown op d) in
  region (resolve_unknown_commit i actor op d now r).

Definition read_diff : A CloudDiff :=
  let! w := locked in
  try! _ := ret (read_diff_enter (st w)) in
  let! r := lower cc_read_diff in
  ret (map_err from_cloud_diff r).

(** ** A call alone is a schedule *)

(** The labels of [cancel_loop] are the lower results it got, in order. *)
Lemma cancel_loop_schedule turn admission deadline clock n : forall k w c y cs,
  world y = w -> callers y = cs ++ [CCancel turn admission deadline] ->
  match cancel_loop turn admission deadline clock k n (w, c) with
  | Done r (w', _) => exists ls y', sys_run i ls y = Some y' /\ world y' = w' /\
      pc y' = pc y /\ Forall (fun l => match l with CancelLower _ _ _ => True | _ => False end) ls /\
      callers y' = if r then cs else callers y
  | Crashed _ => True
  end.
Proof.
  induction n as [|n IH]; intros k w c y cs Hw Hc; simpl.
  { exists [], y. by split_and!; [| | |apply Forall_nil|]. }
  unfold bind, lower. destruct (cc_cancel c) as [[r|] c1|c1]; [|by exists [], y; split_and!; [| | |apply Forall_nil|]|done].
  unfold region. destruct (cancel_turn_on_lower i turn admission (clock k) deadline r w) as [w1 s] eqn:Es.
  set (l := CancelLower (length cs) (clock k) r).
  assert (Hk : callers y !! length cs = Some (CCancel turn admission deadline))
    by (rewrite Hc; by apply list_lookup_middle).
  assert (Hstep : sys_step i l y = Some match s with
    | CancelReturn _ => with_callers cs (on_world y w1) | CancelRetry => on_world y w1 end).
  { simpl. rewrite Hk, Hw, Es. destruct s; [|done]. simpl. rewrite Hc, delete_middle, app_nil_r. done. }
  destruct s as [r1|].
  - exists [l], (with_callers cs (on_world y w1)). split; [by rewrite (sys_run_step _ _ _ _ _ Hstep)|].
    split_and!; try done. by apply Forall_singleton.
  - specialize (IH (S k) w1 c1 (on_world y w1) cs eq_refl Hc).
    destruct (cancel_loop _ _ _ _ (S k) n (w1, c1)) as [r' [w' c']|]; [|done].
    destruct IH as (ls & y' & Hr & ? & ? & ? & ?). exists (l :: ls), y'. split; [by rewrite (sys_run_step _ _ _ _ _ Hstep)|].
    split_and!; try done. by apply Forall_cons.
Qed.

(** Every call of the API, with whether it returned. *)
Inductive Call :=
| CallSnapshot
| CallStartTurn (fresh : TurnId) (prompt : CloudPrompt)
| CallCancelTurn (actor : P0Actor) (now : Z) (clock : nat -> Z) (n : nat)
| CallReconcileUnknown (actor : P0Actor)
| CallResolveUnknown (actor : P0Actor) (op : CloudSubmitOperationId) (d : UnknownSubmitDecision) (now : Z)
| CallReadDiff.

Definition returned {T} (m : M (World * C) T) : M (World * C) bool := let! _ := m in ret true.

Definition run (c : Call) : M (World * C) bool :=
  match c with
  | CallSnapshot => returned snapshot
  | CallStartTurn fresh prompt => returned (start_turn fresh prompt)
  | CallCancelTurn actor now clock n => let! r := cancel_turn actor now clock n in ret (bool_decide (is_Some r))
  | CallReconcileUnknown actor => returned (reconcile_unknown actor)
  | CallResolveUnknown actor op d now => returned (resolve_unknown actor op d now)
  | CallReadDiff => returned read_diff
  end.

(** The concurrent system reaches the same world with the same worker, and with the same callers once
    the call has returned. *)
Definition scheduled (y : Sys) (b : bool) (w' : World) : Prop :=
  exists ls y', Forall label_ok ls /\ sys_run i ls y = Some y' /\ world y' = w' /\ pc y' = pc y /\
    (b = true -> callers y' = callers y).

Lemma scheduled_nil y b : scheduled y b (world y).
Proof. exists [], y. by split_and!; [apply Forall_nil| | | |]. Qed.

Lemma scheduled_cons l y y1 b w' :
  label_ok l -> sys_step i l y = Some y1 -> pc y1 = pc y -> callers y1 = callers y ->
  scheduled y1 b w' -> scheduled y b w'.
Proof.
  intros Hl Hs Hp Hc (ls & y' & Hls & Hr & Hw & Hp' & Hc'). exists (l :: ls), y'.
  rewrite (sys_run_step _ _ _ _ _ Hs). split_and!; [by apply Forall_cons|done|done|congruence|].
  intros Hb. rewrite (Hc' Hb). done.
Qed.

(** Enter, call, commit: the shape of [reconcile_unknown] and [resolve_unknown]. *)
Lemma two_labels y y1 l1 l2 x w' :
  label_ok l1 -> label_ok l2 -> sys_step i l1 y = Some y1 -> world y1 = world y -> pc y1 = pc y ->
  callers y1 = callers y ++ [x] ->
  sys_step i l2 y1 = Some (with_callers (delete (length (callers y)) (callers y1)) (on_world y1 w')) ->
  scheduled y true w'.
Proof.
  intros H1 H2 Hs1 Hw Hp Hc Hs2.
  exists [l1; l2], (with_callers (delete (length (callers y)) (callers y1)) (on_world y1 w')).
  rewrite (sys_run_step _ _ _ _ _ Hs1), (sys_run_step _ _ _ _ _ Hs2).
  split_and!; [by repeat constructor|done|done|done|]. intros _. simpl.
  by rewrite Hc, delete_middle, app_nil_r.
Qed.

Lemma last_caller (y : Sys) x : (callers y ++ [x]) !! length (callers y) = Some x.
Proof. by apply list_lookup_middle. Qed.

Lemma reconcile_schedule actor y c :
  match reconcile_unknown actor (world y, c) with
  | Done _ (w', _) => scheduled y true w'
  | Crashed _ => True
  end.
Proof.
  unfold reconcile_unknown, bind_result, bind, locked, region, ret, lower.
  destruct (reconcile_unknown_enter (st (world y))) as [op|e] eqn:Ee; [|apply scheduled_nil].
  destruct (cc_reconcile_unknown c) as [r c1|]; [|done].
  destruct (reconcile_unknown_commit i actor op r (world y)) as [w' res] eqn:Ec.
  apply (two_labels y (with_callers (callers y ++ [SessionSystem.CReconcile actor op]) y) (ReconcileEnter actor)
           (ReconcileLower (length (callers y)) r) (SessionSystem.CReconcile actor op)); try done.
  - simpl. by rewrite Ee.
  - simpl. by rewrite last_caller, Ec.
Qed.

Lemma resolve_schedule actor op d now y c :
  match resolve_unknown actor op d now (world y, c) with
  | Done _ (w', _) => scheduled y true w'
  | Crashed _ => True
  end.
Proof.
  unfold resolve_unknown, bind_result, bind, locked, region, ret, lower.
  destruct (resolve_unknown_enter op (st (world y))) as [u|e] eqn:Ee; [|apply scheduled_nil].
  destruct (cc_resolve_unknown op d c) as [r c1|]; [|done].
  destruct (resolve_unknown_commit i actor op d now r (world y)) as [w' res] eqn:Ec.
  apply (two_labels y (with_callers (callers y ++ [SessionSystem.CResolve actor op d]) y) (ResolveEnter actor op d)
           (ResolveLower (length (callers y)) now r) (SessionSystem.CResolve actor op d)); try done.
  - simpl. by rewrite Ee.
  - simpl. by rewrite last_caller, Ec.
Qed.

Lemma cancel_schedule actor now clock n y c :
  match cancel_turn actor now clock n (world y, c) with
  | Done r (w', _) => scheduled y (bool_decide (is_Some r)) w'
  | Crashed _ => True
  end.
Proof.
  unfold cancel_turn, bind, region, ret, snapshot, locked.
  destruct (cancel_turn_enter i actor (world y)) as [w1 e] eqn:Ee.
  destruct e as [r| |turn admission]; try (apply (scheduled_cons (CancelEnter actor now) y (on_world y w1));
    [done|by simpl; rewrite Ee|done|done|apply (scheduled_nil (on_world y w1))]).
  pose proof (cancel_loop_schedule turn admission (now + CANCEL_ADMISSION_LIMIT) clock n 0 w1 c
    (with_callers (callers y ++ [CCancel turn admission (now + CANCEL_ADMISSION_LIMIT)]) (on_world y w1)) (callers y) eq_refl eq_refl) as Hcl.
  destruct (cancel_loop _ _ _ _ 0 n (w1, c)) as [r [w' c']|]; [|done].
  destruct Hcl as (ls & y' & Hr & Hw & Hp & Hls & Hc). exists (CancelEnter actor now :: ls), y'.
  erewrite sys_run_step by (simpl; by rewrite Ee). split_and!; try done.
  - apply Forall_cons. split; [done|]. eapply Forall_impl; [exact Hls|]. by intros [].
  - intros Hb. bool_to_prop. rewrite Hc. destruct r; [done|]. by destruct Hb.
Qed.

Lemma start_schedule fresh prompt y c :
  fresh ∉ issued y ->
  match start_turn fresh prompt (world y, c) with
  | Done _ (w', _) => scheduled y true w'
  | Crashed _ => True
  end.
Proof.
  intros Hf. unfold start_turn, region.
  destruct (SessionRuntime.start_turn i fresh prompt (world y)) as [w' r] eqn:Es.
  set (y1 := mkSys w' (pc y) (callers y) (deliveries y) (starts y) (fresh :: issued y)).
  apply (scheduled_cons (StartTurn fresh prompt) y y1); [done| |done|done|apply (scheduled_nil y1)].
  simpl. rewrite bool_decide_false by done. by rewrite Es.
Qed.

(** ** The retry loop ends *)

(** The clock moves on by the pause between two attempts. *)
Definition ticks (clock : nat -> Z) : Prop := forall k, clock k + CANCEL_ADMISSION_POLL <= clock (S k).

Definition lower_cancel_returns : Prop := forall c, exists r c', cc_cancel c = Done (Some r) c'.

(** Attempts before the deadline, and the one after it. *)
Definition CANCEL_ATTEMPTS : nat := 101.

Lemma ticks_from clock k : ticks clock -> clock 0%nat + Z.of_nat k * CANCEL_ADMISSION_POLL <= clock k.
Proof.
  intros Ht. induction k as [|k IH]; [lia|]. specialize (Ht k). rewrite Nat2Z.inj_succ. lia.
Qed.

Lemma cancel_loop_returns turn admission now clock n : forall k w c,
  lower_cancel_returns -> ticks clock -> now <= clock 0%nat -> (k + n = CANCEL_ATTEMPTS)%nat -> (0 < n)%nat ->
  exists r st, cancel_loop turn admission (now + CANCEL_ADMISSION_LIMIT) clock k n (w, c) = Done (Some r) st.
Proof.
  induction n as [|n IH]; intros k w c Hl Ht Hnow Hk Hn; [lia|].
  simpl. unfold bind, lower. destruct (Hl c) as (r & c1 & ->). unfold region.
  destruct (cancel_turn_on_lower i turn admission (clock k) _ r w) as [w1 s] eqn:Es.
  destruct s as [r1|]; [by eexists _, _|]. apply IH; try done; [lia|].
  destruct n as [|n]; [|lia]. exfalso.
  assert (Hlt : clock k < now + CANCEL_ADMISSION_LIMIT).
  { unfold cancel_turn_on_lower in Es. destruct r as [lc|e]; [by destruct (commit_cancel_result _ _ _ _)|].
    destruct (admission && _ && _) eqn:Ea; [|destruct (admission && _); simplify_eq].
    apply andb_true_iff in Ea as [_ Ea]. by apply Z.ltb_lt. }
  pose proof (ticks_from clock k Ht). unfold CANCEL_ATTEMPTS, CANCEL_ADMISSION_LIMIT, CANCEL_ADMISSION_POLL, from_millis, from_secs, NANOS_PER_SEC in *. lia.
Qed.

End Api.
End Api.

(** ** What the calls guarantee *)

(** the public methods of a session are schedules of its concurrent system.  A call that starts
    in a reachable session and runs while no other thread does leaves a reachable session with the
    worker where it was, whatever its lower layer answers, and once it has returned it leaves no
    caller behind.  So the properties of reachable sessions hold between the calls of any client. *)
Theorem api_calls_keep_reachable {C : Type} `{P0CloudControl C} i call y c b w c'
    (Hy : reachable i y)
    (Hfresh : match call with Api.CallStartTurn fresh _ => fresh ∉ issued y | _ => True end)
    (Hrun : Api.run i call (world y, c) = Done b (w, c')) :
  exists y', reachable i y' /\ world y' = w /\ pc y' = pc y /\ (b = true -> callers y' = callers y).
Proof.
  assert (Hs : Api.scheduled i y b w).
  { unfold Api.run, Api.returned, bind, ret in Hrun. destruct call as [|fresh prompt|actor now clock n|actor|actor op d now|].
    - injection Hrun as <- <- _. apply Api.scheduled_nil.
    - pose proof (Api.start_schedule i fresh prompt y c Hfresh) as Hc.
      destruct (Api.start_turn i fresh prompt _) as [r [w1 c1]|]; simplify_eq. exact Hc.
    - pose proof (Api.cancel_schedule i actor now clock n y c) as Hc.
      destruct (Api.cancel_turn i actor now clock n _) as [r [w1 c1]|]; simplify_eq. exact Hc.
    - pose proof (Api.reconcile_schedule i actor y c) as Hc.
      destruct (Api.reconcile_unknown i actor _) as [r [w1 c1]|]; simplify_eq. exact Hc.
    - pose proof (Api.resolve_schedule i actor op d now y c) as Hc.
      destruct (Api.resolve_unknown i actor op d now _) as [r [w1 c1]|]; simplify_eq. exact Hc.
    - unfold Api.read_diff, bind_result, bind, Api.locked, Api.region, ret, Api.lower in Hrun.
      destruct (read_diff_enter _); [destruct (cc_read_diff c)|]; simplify_eq; apply Api.scheduled_nil. }
  destruct Hs as (ls & y' & Hls & Hr & ? & ? & ?). exists y'. split_and!; try done.
  by eapply sys_run_reachable.
Qed.

(** C21: [cancel_turn] always comes back.  While its turn's start may still be on its way down, it asks
    again whenever the lower layer knows no operation; with a pause of ten milliseconds between two
    attempts and a deadline of one second it gives up after at most a hundred and one, provided the
    lower [cancel] itself returns. *)
Theorem cancel_turn_returns {C : Type} `{P0CloudControl C} i actor now clock w c
    (Hlower : Api.lower_cancel_returns) (Hclock : Api.ticks clock) (Hnow : now <= clock 0%nat) :
  exists r s, Api.cancel_turn i actor now clock Api.CANCEL_ATTEMPTS (w, c) = Done (Some r) s.
Proof.
  unfold Api.cancel_turn, bind, Api.region. destruct (cancel_turn_enter i actor w) as [w1 e].
  destruct e as [r| |turn admission]; [by eexists _, _..|].
  apply Api.cancel_loop_returns; try done. unfold Api.CANCEL_ATTEMPTS. lia.
Qed.

(** *** Witnesses *)

Definition api_inner : Inner :=
  Build_Inner config_default {| SessionTypes.session_id := mkId 7; instance_id := mkInstance 8 |}.
Definition api_turn : TurnId := mkId 11.

(** A session whose worker is between its admission and the lower start. *)
Definition api_run (ls : list Label) : option Sys :=
  match sys_init api_inner 0 (mkId 100) (Err (mkLower ENoCurrentOperation None)) with
  | Ok y => sys_run api_inner ls y
  | Err _ => None
  end.
Definition api_sys (ls : list Label) : Sys :=
  default (mkSys (mkWorld (mkState SReady None initial [] [] 1 None false false) ∅ []) WIdle [] ∅ [] []) (api_run ls).
Definition api_starting : Sys := api_sys [StartTurn api_turn demo_prompt; WorkerNext 1; WorkerAdmit].
Definition api_pending : Sys :=
  api_sys [StartTurn api_turn demo_prompt; WorkerNext 1; WorkerAdmit; WorkerStartDone 2 (Ok (LPending demo_op demo_task))].

Lemma api_pending_reachable : reachable api_inner api_pending.
Proof.
  unfold api_pending, api_sys, api_run.
  destruct (sys_init api_inner 0 (mkId 100) (Err (mkLower ENoCurrentOperation None))) as [y|] eqn:E; [|vm_compute in E; discriminate].
  destruct (sys_run api_inner _ y) as [y'|] eqn:E'; [|vm_compute in E; injection E as <-; vm_compute in E'; discriminate].
  eapply sys_run_reachable; [by eapply reach_init| |exact E']. by repeat constructor.
Defined.

(** The orchestrator that submitted the turn's task. *)
Definition api_orch : Orch.OrchestratorState * Orchestrator.World :=
  outcome_state (cc_start (P0CloudControl := codex_cloud_control demo_empty_slice demo_cfg) demo_prompt demo_op
    (fresh_process, Orchestrator.mkWorld (boot [] 40 demo_host) [] demo_answers)).
Definition api_cancel : Run (World * (Orch.OrchestratorState * Orchestrator.World)) bool :=
  Api.run (H := codex_cloud_control demo_empty_slice demo_cfg) api_inner
    (Api.CallCancelTurn Operator 3 (fun k => 3 + Z.of_nat k * CANCEL_ADMISSION_POLL) 5) (world api_pending, api_orch).
Definition api_canceled : World * (Orch.OrchestratorState * Orchestrator.World) := outcome_state api_cancel.

Lemma api_calls_keep_reachable_witness :
  session_state (st api_canceled.1) = SReady /\ exists y', reachable api_inner y' /\ world y' = api_canceled.1.
Proof.
  split; [vm_compute; reflexivity|].
  destruct (@api_calls_keep_reachable _ (codex_cloud_control demo_empty_slice demo_cfg) api_inner
    (Api.CallCancelTurn Operator 3 (fun k => 3 + Z.of_nat k * CANCEL_ADMISSION_POLL) 5) api_pending api_orch
    true api_canceled.1 api_canceled.2 api_pending_reachable I) as (y' & Hy & Hw & _).
  - vm_compute. reflexivity.
  - exists y'. exact (conj Hy Hw).
Defined.

(** A lower layer that never hears of the operation. *)
Definition idle_control : P0CloudControl unit :=
  let none {A} : M unit (result LowerLifecycleError A) := ret (Err (mkLower ENoCurrentOperation None)) in
  {| cc_inspect := none; cc_start := fun _ _ => none; cc_cancel := ret (Some (Err (mkLower ENoCurrentOperation None)));
     cc_reconcile_unknown := none; cc_resolve_unknown := fun _ _ => none; cc_read_diff := ret (Err DIneligibleLifecycle) |}.

Lemma cancel_turn_returns_witness :
  (exists r s, Api.cancel_turn (H := idle_control) api_inner Operator 5
     (fun k => 5 + Z.of_nat k * CANCEL_ADMISSION_POLL) Api.CANCEL_ATTEMPTS (world api_starting, tt) = Done (Some r) s) /\
  exists s, Api.cancel_turn (H := idle_control) api_inner Operator 5
     (fun k => 5 + Z.of_nat k * CANCEL_ADMISSION_POLL) 100 (world api_starting, tt) = Done None s.
Proof.
  split.
  - refine (@cancel_turn_returns _ idle_control api_inner Operator 5 (fun k => 5 + Z.of_nat k * CANCEL_ADMISSION_POLL)
      (world api_starting) tt _ _ _).
    + intros []. do 2 eexists. reflexivity.
    + intros k. rewrite Nat2Z.inj_succ. unfold CANCEL_ADMISSION_POLL, from_millis. lia.
    + simpl. lia.
  - eexists. vm_compute. reflexivity.
Defined.
