(* ===== verification/LoginParser.v ===== *)
(** * What the login commands print

    Models [crates/codebox-agent-codex/src/parser.rs]: the version, the login status, the device
    prompt with its code, the end of a login.  The four texts are the fixtures the source includes.
    Slicing a [String] at a byte that is not the start of a character panics in Rust: the outer option
    of the prompt parser is [None] then. *)
From S2P Require Import Prelude DomainValues CloudTypes LoginTypes CloudAdapter.
From stdpp Require Import base numbers list strings.
From Stdlib Require Import ZArith Lia.
Import Str.

Open Scope Z_scope.

Module Parser.

Definition CapturedOutput := CloudCapture.

Definition DEVICE_CODE_PLACEHOLDER : string := "A1B2-3456C".

Definition line (s : string) : string := (s ++ lf)%string.

(** The device prompt before and after its code. *)
Definition PROMPT_BEFORE : string :=
  (lf ++ line "Welcome to Codex [v0.145.0]" ++ line "OpenAI's command-line coding agent" ++ lf
   ++ line "Follow these steps to sign in with ChatGPT using device code authorization:" ++ lf
   ++ line "1. Open this link in your browser and sign in to your account"
   ++ line "   https://auth.openai.com/codex/device" ++ lf
   ++ line "2. Enter this one-time code (expires in 15 minutes)" ++ "   ")%string.
Definition PROMPT_AFTER : string :=
  (lf ++ lf
   ++ line "Continue only if you started this login in Codex. If a website or another person gave you this code, cancel."
   ++ lf)%string.

Definition DEVICE_PROMPT_FIXTURE : string := (PROMPT_BEFORE ++ DEVICE_CODE_PLACEHOLDER ++ PROMPT_AFTER)%string.
Definition STATUS_CHATGPT_FIXTURE : string := line "Logged in using ChatGPT".
Definition STATUS_LOGGED_OUT_FIXTURE : string := line "Not logged in".
Definition LOGIN_SUCCESS_FIXTURE : string := line "Successfully logged in".

(** ** Text *)

Definition reject_overflow (o : CapturedOutput) : result LoginBrokerError unit :=
  if stdout_overflow o || stderr_overflow o then Err LBOutputLimitExceeded else Ok tt.

Definition normalize_line_endings (value : string) : option string :=
  let normalized := replace_crlf value in
  if contains (ch 13) normalized || any_byte (fun c => is_ascii_control c && negb (Ascii.eqb c (ch 10))) normalized
  then None else Some normalized.

Definition normalize_plain_stream (bytes : string) : result LoginBrokerError string :=
  if utf8_valid bytes then ok_or (normalize_line_endings bytes) LBProviderOutputInvalid
  else Err LBProviderOutputInvalid.

Inductive PromptParseError := Incomplete | Terminal (error : LoginBrokerError).

(** The parameters of a colour sequence: digits and semicolons. *)
Fixpoint skip_parameters (s : string) : string :=
  match s with
  | String c rest => if is_ascii_digit c || (byte c =? 59) then skip_parameters rest else s
  | EmptyString => EmptyString
  end.

(** The scan for colour sequences; [fuel] is the length of the text, which every turn shortens. *)
Fixpoint strip_ansi (fuel : nat) (s : string) : result PromptParseError string :=
  match fuel, s with
  | _, EmptyString => Ok EmptyString
  | O, _ => Ok EmptyString
  | S n, String c rest =>
      if negb (byte c =? 27) then
        let? tail := strip_ansi n rest in Ok (String c tail)
      else
      match rest with
      | EmptyString => Err Incomplete
      | String d rest =>
          if negb (byte d =? 91) then Err (Terminal LBProviderOutputInvalid)
          else
          match skip_parameters rest with
          | EmptyString => Err Incomplete
          | String e rest => if byte e =? 109 then strip_ansi n rest else Err (Terminal LBProviderOutputInvalid)
          end
      end
  end.

Definition normalize_ansi_stream (bytes : string) : result PromptParseError string :=
  let? stripped := strip_ansi (String.length bytes) bytes in
  if utf8_valid stripped then ok_or (normalize_line_endings stripped) (Terminal LBProviderOutputInvalid)
  else Err (Terminal LBProviderOutputInvalid).

(** ** The device prompt *)

Fixpoint byte_prefix (n : nat) (s : string) : string :=
  match n, s with S n, String c rest => String c (byte_prefix n rest) | _, _ => EmptyString end.
Fixpoint byte_suffix (n : nat) (s : string) : string :=
  match n, s with O, s => s | S n, String _ rest => byte_suffix n rest | _, EmptyString => EmptyString end.

(** [str::is_char_boundary]. *)
Definition is_char_boundary (n : nat) (s : string) : bool :=
  match byte_suffix n s with EmptyString => Nat.eqb n (String.length s) | String c _ => negb (cont c) end.

Definition code_byte (c : Ascii.ascii) : bool := is_ascii_uppercase c || is_ascii_digit c.

Definition valid_device_code (code : string) : bool :=
  Nat.eqb (String.length code) 10 && String.eqb (byte_prefix 1 (byte_suffix 4 code)) "-"
  && all_bytes code_byte (byte_prefix 4 code) && all_bytes code_byte (byte_suffix 5 code).

Definition placeholder_start : nat := String.length PROMPT_BEFORE.
Definition placeholder_end : nat := placeholder_start + String.length DEVICE_CODE_PLACEHOLDER.

(** The slices and the checks on a text of the right length. *)
Definition match_prompt (normalized : string) : option (result PromptParseError VerificationCode) :=
  let invalid := Some (Err (Terminal LBProviderOutputInvalid)) in
  if negb (is_char_boundary placeholder_start normalized) then None
  else if negb (String.eqb (byte_prefix placeholder_start normalized) PROMPT_BEFORE) then invalid
  else if negb (is_char_boundary placeholder_end normalized) then None
  else if negb (String.eqb (byte_suffix placeholder_end normalized) PROMPT_AFTER) then invalid
  else
  let code := byte_prefix (placeholder_end - placeholder_start) (byte_suffix placeholder_start normalized) in
  if valid_device_code code then Some (Ok (mkCode code)) else invalid.

Definition parse_device_prompt (stdout : string) (overflow : bool) : option (result PromptParseError VerificationCode) :=
  if overflow then Some (Err (Terminal LBOutputLimitExceeded))
  else
  match normalize_ansi_stream stdout with
  | Err e => Some (Err e)
  | Ok normalized =>
      if Nat.ltb (String.length normalized) (String.length DEVICE_PROMPT_FIXTURE) then Some (Err Incomplete)
      else if negb (Nat.eqb (String.length normalized) (String.length DEVICE_PROMPT_FIXTURE))
      then Some (Err (Terminal LBProviderOutputInvalid))
      else match_prompt normalized
  end.

(** ** The commands *)

Definition parse_version (o : CapturedOutput) : result LoginBrokerError unit :=
  let? _ := reject_overflow o in
  if negb (bool_decide (exit_code o = Some 0)) then Err LBVersionMismatch
  else
  let? out := normalize_plain_stream (stdout o) in
  if negb (String.eqb out PINNED_CODEX_VERSION_STDOUT) || negb (String.eqb (stderr o) "") then Err LBVersionMismatch
  else Ok tt.

Definition parse_status (o : CapturedOutput) : result LoginBrokerError PinnedStatus :=
  let? _ := reject_overflow o in
  if negb (String.eqb (stdout o) "") then Err LBProviderOutputInvalid
  else
  let? err := normalize_plain_stream (stderr o) in
  match exit_code o with
  | None => Err LBStatusUnavailable
  | Some code =>
      if (code =? 0) && String.eqb err STATUS_CHATGPT_FIXTURE then Ok LoggedIn
      else if (code =? 1) && String.eqb err STATUS_LOGGED_OUT_FIXTURE then Ok LoggedOut
      else if code =? 1 then Err LBStatusUnavailable
      else Err LBProviderOutputInvalid
  end.

Definition parse_login_completion (o : CapturedOutput) : option (result LoginBrokerError unit) :=
  match reject_overflow o with
  | Err e => Some (Err e)
  | Ok _ =>
      match parse_device_prompt (stdout o) false with
      | None => None
      | Some (Err _) => Some (Err LBProviderOutputInvalid)
      | Some (Ok _) =>
          Some (if bool_decide (exit_code o = Some 0) then
                  let? err := normalize_plain_stream (stderr o) in
                  if String.eqb err LOGIN_SUCCESS_FIXTURE then Ok tt else Err LBLoginFailed
                else match exit_code o with Some _ => Err LBLoginFailed | None => Err LBOutcomeUnknown end)
      end
  end.

(** ** Slices *)

Lemma byte_prefix_app s t : byte_prefix (String.length s) (s ++ t) = s.
Proof. induction s as [|c s IH]; simpl; [by destruct t|]. by rewrite IH. Qed.

Lemma byte_suffix_app s t : byte_suffix (String.length s) (s ++ t) = t.
Proof. induction s as [|c s IH]; simpl; done. Qed.

Lemma slices n s : (byte_prefix n s ++ byte_suffix n s)%string = s.
Proof. revert s. induction n as [|n IH]; intros [|c s]; simpl; [done..|]. change (String c (byte_prefix n s ++ byte_suffix n s) = String c s)%string. f_equal. apply IH. Qed.

Lemma byte_prefix_length n s : (n <= String.length s)%nat -> String.length (byte_prefix n s) = n.
Proof. revert s. induction n as [|n IH]; intros [|c s] Hn; simpl in *; [done..|lia|]. rewrite IH; lia. Qed.

Lemma byte_suffix_length n s : String.length (byte_suffix n s) = (String.length s - n)%nat.
Proof. revert s. induction n as [|n IH]; intros [|c s]; simpl; auto. Qed.

Lemma byte_suffix_add n m s : byte_suffix (n + m) s = byte_suffix m (byte_suffix n s).
Proof. revert s. induction n as [|n IH]; intros [|c s]; simpl; auto. by destruct m. Qed.

Lemma string_app_length s t : String.length (s ++ t) = (String.length s + String.length t)%nat.
Proof. induction s as [|c s IH]; [done|]. exact (f_equal S IH). Qed.

(** ** Plain text *)

(** Printable ASCII and line feeds. *)
Definition plain_byte (c : Ascii.ascii) : bool := in_range 32 126 (byte c) || (byte c =? 10).
Definition plain (s : string) : Prop := all_bytes plain_byte s = true.

Lemma plain_cons c s : plain (String c s) <-> plain_byte c = true /\ plain s.
Proof. unfold plain. simpl. by rewrite andb_true_iff. Qed.

Lemma plain_app s t : plain (s ++ t) <-> plain s /\ plain t.
Proof. unfold plain. by rewrite all_bytes_app, andb_true_iff. Qed.

Lemma plain_prefix n s : plain s -> plain (byte_prefix n s).
Proof. intros Hp. rewrite <- (slices n s) in Hp. by apply plain_app in Hp as [? _]. Qed.

Lemma plain_byte_range c : plain_byte c = true -> 32 <= byte c <= 126 \/ byte c = 10.
Proof. unfold plain_byte, in_range. rewrite orb_true_iff, andb_true_iff, !Z.leb_le, Z.eqb_eq. lia. Qed.

Lemma strip_ansi_plain n s : (String.length s <= n)%nat -> plain s -> strip_ansi n s = Ok s.
Proof.
  revert s. induction n as [|n IH]; intros [|c s] Hn Hp; simpl in *; [done|lia|done|].
  apply plain_cons in Hp as [Hc Hs]. apply plain_byte_range in Hc.
  rewrite (proj2 (Z.eqb_neq _ _)) by lia. simpl. by rewrite IH by (done || lia).
Qed.

Lemma utf8_plain s : plain s -> utf8_valid s = true.
Proof.
  induction s as [|c s IH]; [done|]. intros [Hc Hs]%plain_cons. apply plain_byte_range in Hc. simpl.
  rewrite (proj2 (Z.ltb_lt _ _)) by lia. by apply IH.
Qed.

Lemma byte_eqb c n : (0 <= Z.of_nat n < 256) -> Ascii.eqb c (ch n) = true -> byte c = Z.of_nat n.
Proof. intros Hn ->%Ascii.eqb_eq. unfold byte, ch. rewrite Ascii.nat_ascii_embedding; lia. Qed.

Lemma crlf_plain s : plain s -> replace_crlf s = s.
Proof.
  induction s as [|c s IH]; [done|]. intros [Hc Hs]%plain_cons. apply plain_byte_range in Hc. cbn [replace_crlf].
  destruct s as [|d s]; [done|]. destruct (Ascii.eqb c (ch 13)) eqn:E; [apply byte_eqb in E; [lia|done]|].
  simpl andb. cbv iota. by rewrite IH.
Qed.

Lemma contains_cr_plain s : plain s -> contains (ch 13) s = false.
Proof.
  induction s as [|c s IH]; [done|]. intros [Hc Hs]%plain_cons. apply plain_byte_range in Hc. cbn [contains].
  rewrite IH by done. rewrite orb_false_r. destruct (Ascii.eqb _ _) eqn:E; [|done].
  first [apply byte_eqb in E; [lia|done]|rewrite Ascii.eqb_sym in E; apply byte_eqb in E; [lia|done]].
Qed.

Lemma no_control_plain s : plain s -> any_byte (fun c => is_ascii_control c && negb (Ascii.eqb c (ch 10))) s = false.
Proof.
  intros Hp. unfold any_byte. apply negb_false_iff. induction s as [|c s IH]; [done|].
  apply plain_cons in Hp as [Hc Hs]. cbn [all_bytes]. rewrite IH by done. rewrite andb_true_r, negb_true_iff.
  destruct (Ascii.eqb c (ch 10)) eqn:E; [by rewrite andb_false_r|]. rewrite andb_true_r.
  assert (byte c <> 10).
  { intros Hb. apply not_true_iff_false in E. apply E, Ascii.eqb_eq. unfold byte, ch in *.
    rewrite <- (Ascii.ascii_nat_embedding c). f_equal. lia. }
  apply plain_byte_range in Hc. unfold is_ascii_control.
  apply orb_false_iff. split; [apply Z.ltb_ge|apply Z.eqb_neq]; lia.
Qed.

Lemma normalize_plain s : plain s -> normalize_ansi_stream s = Ok s.
Proof.
  intros Hp. unfold normalize_ansi_stream. rewrite strip_ansi_plain by done. simpl. rewrite utf8_plain by done.
  unfold normalize_line_endings. rewrite crlf_plain, contains_cr_plain, no_control_plain by done. done.
Qed.

(** ** The prompt *)

Definition prompt_with (code : string) : string := (PROMPT_BEFORE ++ code ++ PROMPT_AFTER)%string.

#[local] Opaque PROMPT_BEFORE PROMPT_AFTER.

Lemma valid_code_length code : valid_device_code code = true -> String.length code = 10%nat.
Proof. unfold valid_device_code. rewrite !andb_true_iff, Nat.eqb_eq. tauto. Qed.

Lemma code_byte_ascii c : code_byte c = true -> 48 <= byte c <= 90.
Proof.
  unfold code_byte, is_ascii_uppercase, is_ascii_digit, in_range. rewrite orb_true_iff, !andb_true_iff, !Z.leb_le. lia.
Qed.

Lemma code_byte_plain c : code_byte c = true -> plain_byte c = true.
Proof.
  intros Hc%code_byte_ascii. unfold plain_byte, in_range. rewrite orb_true_iff, andb_true_iff, !Z.leb_le. lia.
Qed.

Lemma valid_code_plain code : valid_device_code code = true -> plain code.
Proof.
  unfold valid_device_code. rewrite !andb_true_iff. intros (((_ & Hd) & H1) & H2).
  rewrite <- (slices 4 code). apply plain_app. split; [exact (all_bytes_impl _ _ _ code_byte_plain H1)|].
  rewrite <- (slices 1 (byte_suffix 4 code)). apply plain_app. split.
  - apply String.eqb_eq in Hd. by rewrite Hd.
  - rewrite <- byte_suffix_add. exact (all_bytes_impl _ _ _ code_byte_plain H2).
Qed.

Lemma prompt_length code : String.length code = 10%nat -> String.length (prompt_with code) = String.length DEVICE_PROMPT_FIXTURE.
Proof. intros Hc. unfold prompt_with, DEVICE_PROMPT_FIXTURE. rewrite !string_app_length, Hc. done. Qed.

(** A plain byte starts a character. *)
Lemma plain_boundary n s t c : String.length s = n -> plain_byte c = true -> is_char_boundary n (s ++ String c t) = true.
Proof.
  intros <- Hc. unfold is_char_boundary. rewrite byte_suffix_app. apply plain_byte_range in Hc. unfold cont, in_range.
  apply negb_true_iff, andb_false_iff. rewrite !Z.leb_gt. lia.
Qed.

Lemma plain_start s : plain s -> s <> EmptyString -> exists c t, s = String c t /\ plain_byte c = true.
Proof. destruct s as [|c t]; [done|]. intros [Hc _]%plain_cons _. eauto. Qed.

Lemma after_plain : plain PROMPT_AFTER /\ plain PROMPT_BEFORE.
Proof. split; vm_compute; reflexivity. Qed.

Lemma match_prompt_complete code : valid_device_code code = true -> match_prompt (prompt_with code) = Some (Ok (mkCode code)).
Proof.
  intros Hv. pose proof (valid_code_length code Hv) as Hl. pose proof (valid_code_plain code Hv) as Hp.
  unfold match_prompt, prompt_with. destruct after_plain as [Ha _].
  destruct (plain_start code Hp) as (c & t & Ec & Hc); [by intros ->|].
  destruct (plain_start PROMPT_AFTER Ha) as (d & u & Ed & Hd); [by intros ?|].
  rewrite (eq_trans (f_equal (is_char_boundary placeholder_start) (f_equal (String.append PROMPT_BEFORE) (f_equal (fun x => x ++ PROMPT_AFTER)%string Ec)))
             (plain_boundary _ PROMPT_BEFORE (t ++ PROMPT_AFTER) c eq_refl Hc)). cbn [negb].
  assert (E1 : byte_prefix placeholder_start (PROMPT_BEFORE ++ code ++ PROMPT_AFTER) = PROMPT_BEFORE) by apply byte_prefix_app.
  rewrite E1, String.eqb_refl. cbn [negb].
  assert (Eend : String.length (PROMPT_BEFORE ++ code) = placeholder_end) by (rewrite string_app_length, Hl; done).
  assert (E2 : is_char_boundary placeholder_end (PROMPT_BEFORE ++ code ++ PROMPT_AFTER) = true).
  { rewrite <- append_assoc, Ed. by apply plain_boundary. }
  rewrite E2. cbn [negb].
  assert (E3 : byte_suffix placeholder_end (PROMPT_BEFORE ++ code ++ PROMPT_AFTER) = PROMPT_AFTER).
  { rewrite <- append_assoc, <- Eend. apply byte_suffix_app. }
  rewrite E3, String.eqb_refl. cbn [negb].
  assert (E4 : byte_suffix placeholder_start (PROMPT_BEFORE ++ code ++ PROMPT_AFTER) = (code ++ PROMPT_AFTER)%string) by apply byte_suffix_app.
  rewrite E4. replace (placeholder_end - placeholder_start)%nat with (String.length code)
    by (rewrite Hl; unfold placeholder_end; change (String.length DEVICE_CODE_PLACEHOLDER) with 10%nat; lia).
  rewrite byte_prefix_app, Hv. done.
Qed.

Lemma match_prompt_sound text code : match_prompt text = Some (Ok code) ->
  text = prompt_with (code_str code) /\ valid_device_code (code_str code) = true.
Proof.
  unfold match_prompt. destruct (negb (is_char_boundary _ _)); [done|].
  destruct (String.eqb _ PROMPT_BEFORE) eqn:E1; [|done]. apply String.eqb_eq in E1. cbn [negb].
  destruct (negb (is_char_boundary _ _)); [done|].
  destruct (String.eqb _ PROMPT_AFTER) eqn:E2; [|done]. apply String.eqb_eq in E2. cbn [negb].
  set (c := byte_prefix _ _). destruct (valid_device_code c) eqn:Ev; [|done]. intros [= <-]. cbn [code_str].
  split; [|done]. unfold prompt_with.
  transitivity (byte_prefix placeholder_start text ++ byte_suffix placeholder_start text)%string; [by rewrite slices|].
  f_equal; [done|].
  transitivity (c ++ byte_suffix (placeholder_end - placeholder_start) (byte_suffix placeholder_start text))%string;
    [by unfold c; rewrite slices|].
  f_equal. rewrite <- E2, <- byte_suffix_add. f_equal; try (unfold placeholder_end; lia).
Qed.

(** The device prompt is decoded exactly: a code is returned if and only if the output, without its
    colour sequences and with its line endings normalized, is the pinned prompt around a code of the
    pinned shape, and the code is that one. *)
Lemma device_prompt_decodes_exactly out code :
  parse_device_prompt out false = Some (Ok code) <->
  normalize_ansi_stream out = Ok (prompt_with (code_str code)) /\ valid_device_code (code_str code) = true.
Proof.
  unfold parse_device_prompt. cbn [negb]. destruct (normalize_ansi_stream out) as [text|e]; [|split; [done|by intros [? _]]].
  split.
  - destruct (Nat.ltb _ _); [done|]. destruct (negb _); [done|]. by intros [-> ?]%match_prompt_sound.
  - intros [[= ->] Hv]. rewrite prompt_length by (by apply valid_code_length). rewrite Nat.ltb_irrefl, Nat.eqb_refl. cbn [negb].
    destruct code as [code]. by apply match_prompt_complete.
Qed.

Lemma parsed_code_valid out overflow code : parse_device_prompt out overflow = Some (Ok code) -> valid_device_code (code_str code) = true.
Proof. destruct overflow; [done|]. by intros [_ ?]%device_prompt_decodes_exactly. Qed.

(** C34: The prompt is recognized as soon as it is complete, however the bytes arrive: for every code of
    the pinned shape, every proper prefix of the pinned prompt around it parses as incomplete (so the
    supervisor keeps waiting instead of failing the login), and the whole prompt parses to exactly that
    code. *)
Theorem prompt_recognized_when_complete code (n : nat) :
  valid_device_code code = true -> (n <= String.length (prompt_with code))%nat ->
  parse_device_prompt (byte_prefix n (prompt_with code)) false =
  Some (if Nat.ltb n (String.length (prompt_with code)) then Err Incomplete else Ok (mkCode code)).
Proof.
  intros Hv Hn. assert (Hp : plain (prompt_with code)).
  { unfold prompt_with. destruct after_plain. rewrite !plain_app. split; [done|]. split; [by apply valid_code_plain|done]. }
  assert (Hl := prompt_length code (valid_code_length code Hv)).
  destruct (Nat.ltb_spec n (String.length (prompt_with code))) as [Hlt|Hge].
  - unfold parse_device_prompt. rewrite normalize_plain by (by apply plain_prefix).
    rewrite byte_prefix_length, <- Hl by lia. by rewrite (proj2 (Nat.ltb_lt _ _)).
  - assert (byte_prefix n (prompt_with code) = prompt_with code) as ->.
    { assert (n = String.length (prompt_with code)) as -> by lia. rewrite <- (append_nil (prompt_with code)) at 2. apply byte_prefix_app. }
    apply device_prompt_decodes_exactly. cbn [code_str]. split; [by apply normalize_plain|done].
Qed.

#[local] Transparent PROMPT_BEFORE PROMPT_AFTER.

Lemma prompt_recognized_when_complete_witness :
  valid_device_code "Q7W8-ERTY9" = true /\
  parse_device_prompt (byte_prefix 200 (prompt_with "Q7W8-ERTY9")) false = Some (Err Incomplete).
Proof.
  split; [vm_compute; reflexivity|].
  refine (prompt_recognized_when_complete "Q7W8-ERTY9" 200 _ _); [vm_compute; reflexivity|].
  apply Nat.leb_le. vm_compute. reflexivity.
Defined.

(** An output of the length of the prompt in which a two-byte character lies across the place where the
    code begins. *)
Definition straddling_output : string :=
  (byte_prefix (placeholder_start - 1) PROMPT_BEFORE ++ String (ch 195) (String (ch 169) "")
   ++ "1B2-3456C" ++ PROMPT_AFTER)%string.

(** The prompt parser can panic on what a command prints: for an output of the expected length with
    a two-byte character across the start of the code, the slice at that byte is not at a character
    boundary, in the supervisor's polling and again in the parse of the finished login. *)
Theorem prompt_slice_can_panic :
  String.length straddling_output = String.length DEVICE_PROMPT_FIXTURE /\
  parse_device_prompt straddling_output false = None /\
  parse_login_completion (mkCapture straddling_output "" false false (Some 0)) = None.
Proof. split_and!; vm_compute; reflexivity. Qed.
End Parser.
