(* ===== verification/LoginLedger.v ===== *)
(** * The durable login record

    Models [crates/codebox-agent-codex/src/ledger.rs]: the ledger of one device login, its recording
    operations and its validator, the checks on the ledger file, loading and persisting it, and the
    identity of a process read from [/proc].  The host keeps the file as the value it decodes to, the
    temporary files that are left in the state directory and a ghost list of every ledger that was
    ever the file.  What the system answers to one load or one persist is a [LoadOs] or a [PersistOs];
    [fuel] counts the effects left before the process dies. *)
From S2P Require Import Prelude Effects DomainValues CloudTypes CloudAdapter SubmitLedger LoginTypes.
From stdpp Require Import base numbers list strings.
From Stdlib Require Import ZArith Lia.
Import Ids.

Open Scope Z_scope.

Module Ledger.

Definition LEDGER_SCHEMA_VERSION : Z := 1.
Definition MAX_LEDGER_BYTES : Z := 64 * 1024.
Definition MAX_HISTORY_ENTRIES : Z := 32.

Definition ProcessIdentity := Sub.ProcessIdentity.
#[export] Instance ProcessIdentity_eq_dec : EqDecision ProcessIdentity := Sub.ProcessIdentity_eq_dec.

#[export] Instance LedgerPhase_eq_dec : EqDecision LedgerPhase.
Proof. solve_decision. Defined.

Record LoginLedger := mkLedger {
  schema_version : Z;
  operation_id : LoginOperationId;
  process : option ProcessIdentity;
  history : list LedgerPhase }.

Definition new (op : LoginOperationId) : LoginLedger := mkLedger LEDGER_SCHEMA_VERSION op None [LPIntent].

Definition latest (l : LoginLedger) : LedgerPhase :=
  match last (history l) with Some p => p | None => LPOutcomeUnknown end.

Definition valid_transition (from to : LedgerPhase) : bool :=
  match from with
  | LPIntent => match to with LPStarted | LPFailed | LPOutcomeUnknown => true | _ => false end
  | LPStarted =>
      match to with LPDeviceInstructions | LPLoggedIn | LPLoggedOut | LPFailed | LPOutcomeUnknown => true | _ => false end
  | LPDeviceInstructions | LPOutcomeUnknown =>
      match to with LPLoggedIn | LPLoggedOut | LPFailed | LPOutcomeUnknown => true | _ => false end
  | LPLoggedIn | LPLoggedOut | LPFailed => false
  end.

Definition append (p : LedgerPhase) (l : LoginLedger) : result LoginBrokerError LoginLedger :=
  if (MAX_HISTORY_ENTRIES <=? len (history l)) || negb (valid_transition (latest l) p) then Err LBLedgerInvalid
  else Ok (mkLedger (schema_version l) (operation_id l) (process l) (history l ++ [p])).

Definition record_started (p : ProcessIdentity) (l : LoginLedger) : result LoginBrokerError LoginLedger :=
  match process l with
  | Some _ => Err LBLedgerInvalid
  | None => append LPStarted (mkLedger (schema_version l) (operation_id l) (Some p) (history l))
  end.

(** The [windows(2)] loop. *)
Fixpoint transitions_valid (h : list LedgerPhase) : bool :=
  match h with
  | a :: (b :: _) as rest => valid_transition a b && transitions_valid rest
  | _ => true
  end.

Definition has_started (h : list LedgerPhase) : bool := existsb (fun p => bool_decide (p = LPStarted)) h.

Definition validate (l : LoginLedger) : result LoginBrokerError unit :=
  if negb (schema_version l =? LEDGER_SCHEMA_VERSION) || is_nil (login_uuid (operation_id l))
     || bool_decide (history l = []) || (MAX_HISTORY_ENTRIES <? len (history l))
     || bool_decide (head (history l) <> Some LPIntent)
  then Err LBLedgerInvalid
  else if negb (transitions_valid (history l)) then Err LBLedgerInvalid
  else if negb (eqb (has_started (history l)) (bool_decide (is_Some (process l)))) then Err LBLedgerInvalid
  else Ok tt.

(** ** Files *)

Record FileMeta := mkFileMeta { fm_is_file : bool; fm_uid : Z; fm_mode : Z; fm_nlink : Z }.

(** [None]: the metadata could not be read. *)
Definition validate_ledger_file (meta : option FileMeta) (runner_uid : Z) : result LoginBrokerError unit :=
  match meta with
  | None => Err LBLedgerUnavailable
  | Some m =>
      if negb (fm_is_file m) || negb (fm_uid m =? runner_uid) || negb (Z.land (fm_mode m) 4095 =? 384)
         || negb (fm_nlink m =? 1)
      then Err LBLedgerInvalid else Ok tt
  end.

Inductive OpenError := OpenLoop | OpenOther.

(** One load: an error of [open] that is not a missing file, the metadata with the length, the bytes
    read, and whether they decode. *)
Record LoadOs := mkLoadOs {
  lo_open : option OpenError; lo_meta : option FileMeta; lo_length : option Z; lo_read : option Z; lo_decodes : bool }.

(** One persist: the size of the encoding, and the outcome of each system call in turn. *)
Record PersistOs := mkPersistOs {
  po_size : Z; po_open_ok : bool; po_chmod_ok : bool; po_meta : option FileMeta; po_write_ok : bool;
  po_rename_ok : bool; po_sync_ok : bool }.

Definition load_ledger (file : option LoginLedger) (os : LoadOs) (runner_uid : Z)
  : result LoginBrokerError (option LoginLedger) :=
  match lo_open os with
  | Some OpenLoop => Err LBLedgerInvalid
  | Some OpenOther => Err LBLedgerUnavailable
  | None =>
      match file with
      | None => Ok None
      | Some l =>
          let? _ := validate_ledger_file (lo_meta os) runner_uid in
          let? length := ok_or (lo_length os) LBLedgerUnavailable in
          if MAX_LEDGER_BYTES <? length then Err LBLedgerInvalid
          else
          let? read := ok_or (lo_read os) LBLedgerUnavailable in
          if MAX_LEDGER_BYTES <? read then Err LBLedgerInvalid
          else if negb (lo_decodes os) then Err LBLedgerInvalid
          else let? _ := validate l in Ok (Some l)
      end
  end.

(** ** The identity of a process *)

(** [str::rfind] of the closing parenthesis, and the text after it. *)
Fixpoint after_last_paren (s : string) : option string :=
  match s with
  | EmptyString => None
  | String c rest =>
      match after_last_paren rest with
      | Some t => Some t
      | None => if byte c =? 41 then Some rest else None
      end
  end.

(** [split_whitespace] on the fields the kernel writes, which are ASCII. *)
Definition is_whitespace (c : Ascii.ascii) : bool := in_range 9 13 (byte c) || (byte c =? 32).
Fixpoint split_whitespace (s : string) : list string :=
  match s with
  | EmptyString => []
  | String c rest =>
      if is_whitespace c then split_whitespace rest
      else match rest with
           | String d _ =>
               if is_whitespace d then String c EmptyString :: split_whitespace rest
               else match split_whitespace rest with
                    | field :: fields => String c field :: fields
                    | [] => [String c EmptyString]
                    end
           | EmptyString => [String c EmptyString]
           end
  end.

(** One [/proc/<pid>/stat]: missing, unreadable, or its text. *)
Inductive ProcStat := StatMissing | StatError | Stat (text : string).

Definition parse_process_stat (pid : Z) (stat : string) : result LoginBrokerError (ProcessIdentity * Ascii.ascii) :=
  let? rest := ok_or (after_last_paren stat) LBLedgerInvalid in
  let fields := split_whitespace rest in
  let? state := ok_or (head fields ≫= String.get 0) LBLedgerInvalid in
  let? field := ok_or (drop 1 fields !! 18%nat) LBLedgerInvalid in
  let? start_time_ticks := ok_or (parse_usize field) LBLedgerInvalid in
  Ok (Sub.mkProcess pid start_time_ticks, state).

Definition read_process_stat (pid : Z) (s : ProcStat) : result LoginBrokerError (ProcessIdentity * Ascii.ascii) :=
  match s with
  | StatMissing | StatError => Err LBProcess
  | Stat text => parse_process_stat pid text
  end.

Definition read_process_identity (pid : Z) (s : ProcStat) : result LoginBrokerError ProcessIdentity :=
  let? r := read_process_stat pid s in Ok (fst r).

Definition process_is_alive (identity : ProcessIdentity) (s : ProcStat) : result LoginBrokerError bool :=
  match s with
  | StatMissing => Ok false
  | _ =>
      let? r := read_process_stat (Sub.pid identity) s in
      Ok (bool_decide (fst r = identity)
          && negb (Ascii.eqb (snd r) (Ascii.ascii_of_nat 90) || Ascii.eqb (snd r) (Ascii.ascii_of_nat 88)))
  end.

(** ** The host *)

(** A login the broker supervises: the ledger in memory.  Its supervisor answers through the
    [Answers] of a call, its lease is held as long as it exists. *)
Record ActiveLogin := mkActive { al_operation_id : LoginOperationId; al_ledger : LoginLedger }.

Record Host := mkHost {
  ledger_file : option LoginLedger;
  temps : list LoginOperationId;
  active : option ActiveLogin;
  logins : list LoginOperationId;
  files : list LoginLedger;
  writes : list PersistOs;
  fuel : nat }.

Definition with_temps (t : list LoginOperationId) (h : Host) : Host :=
  mkHost (ledger_file h) t (active h) (logins h) (files h) (writes h) (fuel h).
Definition with_active (a : option ActiveLogin) (h : Host) : Host :=
  mkHost (ledger_file h) (temps h) a (logins h) (files h) (writes h) (fuel h).
Definition with_login (op : LoginOperationId) (h : Host) : Host :=
  mkHost (ledger_file h) (temps h) (active h) (op :: logins h) (files h) (writes h) (fuel h).

Definition effect : M Host unit :=
  fun h => match fuel h with
  | O => Crashed h
  | S n => Done tt (mkHost (ledger_file h) (temps h) (active h) (logins h) (files h) (writes h) n)
  end.

(** The answers to the next persist; those beyond the listed ones are all successes. *)
Definition good_persist (runner_uid : Z) : PersistOs :=
  mkPersistOs 0 true true (Some (mkFileMeta true runner_uid 384 1)) true true true.
Definition next_write (runner_uid : Z) : M Host PersistOs :=
  fun h => match writes h with
  | [] => Done (good_persist runner_uid) h
  | w :: ws => Done w (mkHost (ledger_file h) (temps h) (active h) (logins h) (files h) ws (fuel h))
  end.

(** [create_new] on [.login-ledger.<operation>.tmp]: false when the file exists or the system fails. *)
Definition create_temporary (op : LoginOperationId) (ok : bool) : M Host bool :=
  fun h => if bool_decide (op ∈ temps h) || negb ok then Done false h
           else Done true (with_temps (op :: temps h) h).

(** The rename: the temporary file is gone, the ledger is the file. *)
Definition rename_temporary (l : LoginLedger) : M Host unit :=
  fun h => Done tt (mkHost (Some l) (filter (fun op => op <> operation_id l) (temps h)) (active h) (logins h)
                      (l :: files h) (writes h) (fuel h)).

Definition persist_ledger (runner_uid : Z) (l : LoginLedger) : M Host (result LoginBrokerError unit) :=
  match validate l with
  | Err e => ret (Err e)
  | Ok _ =>
      let! os := next_write runner_uid in
      if MAX_LEDGER_BYTES <? po_size os then ret (Err LBLedgerInvalid)
      else
      let! _ := effect in
      let! created := create_temporary (operation_id l) (po_open_ok os) in
      if negb created then ret (Err LBLedgerUnavailable)
      else if negb (po_chmod_ok os) then ret (Err LBLedgerUnavailable)
      else
      match validate_ledger_file (po_meta os) runner_uid with
      | Err e => ret (Err e)
      | Ok _ =>
          if negb (po_write_ok os) then ret (Err LBLedgerUnavailable)
          else
          let! _ := effect in
          if negb (po_rename_ok os) then ret (Err LBLedgerUnavailable)
          else
          let! _ := rename_temporary l in
          ret (if po_sync_ok os then Ok tt else Err LBLedgerUnavailable)
      end
  end.

(** ** Ledgers *)

Lemma append_shape p l l' : append p l = Ok l' ->
  operation_id l' = operation_id l /\ history l' = history l ++ [p] /\ process l' = process l
  /\ valid_transition (latest l) p = true.
Proof.
  unfold append. destruct (_ || _) eqn:E; [done|]. intros [= <-].
  apply orb_false_iff in E as [_ E%negb_false_iff]. done.
Qed.

Lemma latest_append p l l' : append p l = Ok l' -> latest l' = p.
Proof. intros (_ & Hh & _)%append_shape. unfold latest. by rewrite Hh, last_snoc. Qed.

Lemma transitions_snoc h p : h <> [] ->
  transitions_valid (h ++ [p])
  = transitions_valid h && valid_transition (match last h with Some q => q | None => LPOutcomeUnknown end) p.
Proof.
  induction h as [|a [|b h] IH]; intros Hne; [done|simpl; by rewrite andb_true_r|].
  change (transitions_valid ((a :: b :: h) ++ [p])) with (valid_transition a b && transitions_valid ((b :: h) ++ [p])).
  rewrite IH by done. change (last (a :: b :: h)) with (last (b :: h)).
  change (transitions_valid (a :: b :: h)) with (valid_transition a b && transitions_valid (b :: h)).
  by rewrite andb_assoc.
Qed.

(** The validator, as a proposition: the shape of the history, and a process from [Started] on. *)
Definition valid (l : LoginLedger) : Prop := validate l = Ok tt.
Definition well_shaped (l : LoginLedger) : Prop :=
  schema_version l = LEDGER_SCHEMA_VERSION /\ is_nil (login_uuid (operation_id l)) = false
  /\ head (history l) = Some LPIntent /\ len (history l) <= MAX_HISTORY_ENTRIES
  /\ transitions_valid (history l) = true.

Lemma valid_iff l : valid l <-> well_shaped l /\ has_started (history l) = bool_decide (is_Some (process l)).
Proof.
  unfold valid, validate, well_shaped. split.
  - destruct (_ || _) eqn:E1; [done|]. destruct (negb (transitions_valid _)) eqn:E2; [done|].
    destruct (negb (eqb _ _)) eqn:E3; [done|]. intros _.
    rewrite !orb_false_iff, negb_false_iff, Z.eqb_eq, Z.ltb_ge in E1.
    rewrite negb_false_iff in E2, E3. apply eqb_prop in E3.
    destruct E1 as ((((? & ?) & ?) & ?) & Hh). apply bool_decide_eq_false in Hh. apply dec_stable in Hh. done.
  - intros ((-> & -> & Hh & Hl & ->) & ->). rewrite eqb_reflx. simpl.
    assert (history l <> []) by (by intros Hn; rewrite Hn in Hh).
    rewrite !bool_decide_eq_false_2 by (by auto). rewrite (proj2 (Z.ltb_ge _ _)) by done. done.
Qed.

Lemma has_started_app h p : has_started (h ++ [p]) = has_started h || bool_decide (p = LPStarted).
Proof. unfold has_started. rewrite existsb_app. simpl. by rewrite orb_false_r. Qed.

Lemma append_well_shaped p l l' : append p l = Ok l' -> well_shaped l -> well_shaped l'.
Proof.
  intros Ha (Hs & Hn & Hhd & Hl & Htr). unfold append in Ha. destruct (_ || _) eqn:E; [done|]. injection Ha as <-.
  apply orb_false_iff in E as [E%Z.leb_gt Et%negb_false_iff].
  assert (history l <> []) by (by intros Hnil; rewrite Hnil in Hhd).
  unfold well_shaped. cbn [schema_version operation_id process history]. repeat split; auto.
  - by destruct (history l).
  - unfold len in *. rewrite length_app. cbn [length]. lia.
  - rewrite transitions_snoc by done. rewrite Htr. exact Et.
Qed.

(** Appending keeps the record valid, except that [Started] goes with a process. *)
Lemma append_valid p l l' : append p l = Ok l' -> p <> LPStarted -> valid l -> valid l'.
Proof.
  intros Ha Hp (Hs & Hst)%valid_iff. apply valid_iff. split; [by eapply append_well_shaped|].
  apply append_shape in Ha as (_ & -> & -> & _). by rewrite has_started_app, bool_decide_eq_false_2, orb_false_r.
Qed.

Lemma record_started_shape pr l l' : record_started pr l = Ok l' ->
  operation_id l' = operation_id l /\ history l' = history l ++ [LPStarted] /\ process l' = Some pr.
Proof. unfold record_started. destruct (process l); [done|]. by intros (-> & -> & -> & _)%append_shape. Qed.

Lemma record_started_valid pr l l' : record_started pr l = Ok l' -> valid l -> valid l'.
Proof.
  intros Hr (Hs & Hst)%valid_iff. apply valid_iff. split.
  - unfold record_started in Hr. destruct (process l); [done|]. by apply append_well_shaped in Hr.
  - apply record_started_shape in Hr as (_ & -> & ->).
    rewrite has_started_app, (bool_decide_eq_true_2 (LPStarted = _)), orb_true_r by done.
    by rewrite bool_decide_eq_true_2.
Qed.

Lemma new_valid op : is_nil (login_uuid op) = false -> valid (new op).
Proof. intros Hn. apply valid_iff. by repeat split. Qed.

(** A settled record admits no further phase. *)
Lemma settled_final l p : is_uncertain (latest l) = false -> append p l = Err LBLedgerInvalid.
Proof. intros Hu. unfold append. destruct (latest l); try done; simpl; by rewrite orb_true_r. Qed.

End Ledger.
