(* ===== verification/Json.v ===== *)
(** * JSON values and what serde derives

    The records of the Cloud runner, the orchestrator and the login broker are files of JSON text, and
    so are the bodies of the control plane's requests, its responses and its stream.  The text is
    written and read by [serde_json], which is an interface here ([JsonText]): writing succeeds, what
    was written is UTF-8 and reads back, if it is nested no deeper than the crate reads, and the compact
    form has no more bytes than its parts.  What serde's derive makes of a type's declaration and attributes is in the combinators of this file: structs from
    objects or arrays, with or without [deny_unknown_fields], missing [Option] fields, enums with their
    tagging.  A decoder answers [None] for every error.

    JsonCompact.v has a concrete writer and reader that satisfy the interface. *)
From S2P Require Import Prelude DomainValues CloudTypes CloudAdapter.
From stdpp Require Import base numbers list strings option sets.
From Stdlib Require Import ZArith Lia.
Import Ids Str.

Open Scope Z_scope.

(** An object keeps its entries as they are in the text, so a repeated key is seen.  A number is an
    integer or else the text of a number that is none. *)
Inductive Json :=
| JNull
| JBool (b : bool)
| JInt (z : Z)
| JFloat (text : string)
| JString (s : string)
| JArray (vs : list Json)
| JObject (es : list (string * Json)).

Section Induction.
Context (P : Json -> Prop).
Hypotheses (Hnull : P JNull) (Hbool : forall b, P (JBool b)) (Hint : forall z, P (JInt z))
  (Hfloat : forall t, P (JFloat t)) (Hstring : forall s, P (JString s))
  (Harray : forall vs, Forall P vs -> P (JArray vs))
  (Hobject : forall es, Forall (fun e => P e.2) es -> P (JObject es)).

Fixpoint json_nested_ind (v : Json) : P v :=
  match v with
  | JNull => Hnull
  | JBool b => Hbool b
  | JInt z => Hint z
  | JFloat t => Hfloat t
  | JString s => Hstring s
  | JArray vs =>
      Harray vs ((fix go l : Forall P l :=
        match l with [] => Forall_nil_2 _ | w :: l => Forall_cons_2 _ _ _ (json_nested_ind w) (go l) end) vs)
  | JObject es =>
      Hobject es ((fix go l : Forall (fun e => P e.2) l :=
        match l with [] => Forall_nil_2 _ | (k, w) :: l => Forall_cons_2 _ (k, w) _ (json_nested_ind w) (go l) end) es)
  end.
End Induction.

(** ** The text *)

Definition QUOTE : Ascii.ascii := ch 34.
Definition BACKSLASH : Ascii.ascii := ch 92.

(** At most this many bytes stand for a byte of a string. *)
Definition char_size (c : Ascii.ascii) : Z :=
  if Z.of_nat (Ascii.nat_of_ascii c) <? 32 then 6
  else if Ascii.eqb c QUOTE || Ascii.eqb c BACKSLASH then 2 else 1.

Fixpoint chars_size (s : string) : Z :=
  match s with EmptyString => 0 | String c s => char_size c + chars_size s end.

Definition string_size (s : string) : Z := 2 + chars_size s.

(** A bound on the compact text: an integer of 64 bits has at most twenty digits. *)
Fixpoint compact_size (v : Json) : Z :=
  match v with
  | JNull => 4
  | JBool _ => 5
  | JInt _ => 20
  | JFloat t => slen t
  | JString s => string_size s
  | JArray vs => 2 + foldr (fun w acc => compact_size w + 1 + acc) 0 vs
  | JObject es => 2 + foldr (fun e acc => string_size e.1 + compact_size e.2 + 2 + acc) 0 es
  end.

Definition array_size (vs : list Json) : Z := foldr (fun w acc => compact_size w + 1 + acc) 0 vs.

(** What the program writes: unsigned integers and text. *)
Fixpoint writable (v : Json) : bool :=
  match v with
  | JNull | JBool _ => true
  | JInt z => (0 <=? z) && (z <=? u64_max)
  | JFloat _ => false
  | JString s => utf8_valid s
  | JArray vs => forallb writable vs
  | JObject es => forallb (fun e => utf8_valid e.1 && writable e.2) es
  end.

(** How deep arrays and objects are nested; [serde_json] reads up to 127 levels. *)
Fixpoint json_depth (v : Json) : nat :=
  match v with
  | JArray vs => S (foldr (fun w acc => json_depth w `max` acc)%nat 0%nat vs)
  | JObject es => S (foldr (fun e acc => json_depth e.2 `max` acc)%nat 0%nat es)
  | _ => 0%nat
  end.
Definition MAX_DEPTH : nat := 127.

(** [serde_json::to_vec] and [serde_json::from_slice]. *)
Class JsonText := {
  json_to_vec : Json -> option string;
  json_from_slice : string -> option Json;
  json_written v : writable v = true -> (json_depth v <= MAX_DEPTH)%nat ->
    exists text, json_to_vec v = Some text /\ slen text <= compact_size v /\ utf8_valid text = true /\
      json_from_slice text = Some v }.

(** [uuid]: its text as serde writes it and [Uuid::parse_str]. *)
Class UuidText := {
  uuid_hyphenated : Uuid -> string;
  uuid_parse : string -> option Uuid;
  uuid_written u : 0 <= u < 2 ^ 128 -> uuid_parse (uuid_hyphenated u) = Some u;
  uuid_read s u : uuid_parse s = Some u -> 0 <= u < 2 ^ 128;
  uuid_chars u : 0 <= u < 2 ^ 128 ->
    slen (uuid_hyphenated u) = 36 /\
    all_bytes (fun c => ascii_byte c && (char_size c =? 1)) (uuid_hyphenated u) = true }.

Definition in_uuid (u : Uuid) : Prop := 0 <= u < 2 ^ 128.

(** ** Decoders *)

Definition Decoder (A : Type) := Json -> option A.

Definition de_unsigned (max : Z) : Decoder Z := fun v =>
  match v with JInt z => if (0 <=? z) && (z <=? max) then Some z else None | _ => None end.
Definition de_u8 : Decoder Z := de_unsigned u8_max.
Definition de_u16 : Decoder Z := de_unsigned u16_max.
Definition de_u32 : Decoder Z := de_unsigned u32_max.
Definition de_u64 : Decoder Z := de_unsigned u64_max.
Definition de_bool : Decoder bool := fun v => match v with JBool b => Some b | _ => None end.
Definition de_string : Decoder string := fun v => match v with JString s => Some s | _ => None end.
Definition de_option {A} (d : Decoder A) : Decoder (option A) := fun v =>
  match v with JNull => Some None | _ => Some <$> d v end.
Definition de_vec {A} (d : Decoder A) : Decoder (list A) := fun v =>
  match v with JArray vs => mapM d vs | _ => None end.
Definition de_uuid `{UuidText} : Decoder Uuid := fun v => s ← de_string v; uuid_parse s.

(** Where the fields of a struct come from: the entries of an object, by name, or the elements of an
    array, by position. *)
Inductive Fields := ByName (names : list string) (es : list (string * Json)) | ByPosition (vs : list Json).

Definition lookup_all (name : string) (es : list (string * Json)) : list Json :=
  snd <$> filter (fun e => e.1 = name) es.

(** The visitor of a struct: a known key that is repeated is an error, and so is an unknown key where
    the declaration denies it; an array has every field. *)
Definition de_fields (deny : bool) (names : list string) (v : Json) : option Fields :=
  match v with
  | JObject es =>
      if forallb (fun name => (length (lookup_all name es) <=? 1)%nat) names
         && (negb deny || forallb (fun e => bool_decide (e.1 ∈ names)) es)
      then Some (ByName names es) else None
  | JArray vs => if (length vs =? length names)%nat then Some (ByPosition vs) else None
  | _ => None
  end.

(** The field declared at a position, with what stands for it when an object lacks it. *)
Definition de_field {A} (missing : option A) (d : Decoder A) (i : nat) (fs : Fields) : option A :=
  match fs with
  | ByName names es =>
      match names !! i with
      | Some name => match lookup_all name es with [] => missing | w :: _ => d w end
      | None => None
      end
  | ByPosition vs => vs !! i ≫= d
  end.

Definition required {A} (d : Decoder A) := de_field None d.
Definition optional {A} (d : Decoder A) := de_field (Some None) (de_option d).

(** A unit variant of an externally tagged enum: its name, or an object with it and [null]. *)
Definition de_unit_variant {A} (variants : list (string * A)) : Decoder A := fun v =>
  let named name := snd <$> head (filter (fun e => e.1 = name) variants) in
  match v with
  | JString name | JObject [(name, JNull)] => named name
  | _ => None
  end.

(** ** Encoders *)

Definition ser_option {A} (f : A -> Json) (o : option A) : Json := match o with None => JNull | Some x => f x end.
Definition ser_vec {A} (f : A -> Json) (l : list A) : Json := JArray (f <$> l).
(** A struct with its declared names. *)
Definition ser_struct (names : list string) (vs : list Json) : Json := JObject (zip names vs).
Definition ser_uuid `{UuidText} (u : Uuid) : Json := JString (uuid_hyphenated u).

(** ** Round trips of the combinators *)

(** [d] reads back what [f] writes. *)
Definition reads_back {A} (f : A -> Json) (d : Decoder A) (x : A) : Prop := d (f x) = Some x.

Lemma de_unsigned_back max z : 0 <= z <= max -> de_unsigned max (JInt z) = Some z.
Proof. intros Hz. simpl. by rewrite (proj2 (Z.leb_le _ _)), (proj2 (Z.leb_le _ _)) by lia. Qed.

Lemma de_option_back {A} (f : A -> Json) d o : (forall x, o = Some x -> f x <> JNull /\ d (f x) = Some x) ->
  de_option d (ser_option f o) = Some o.
Proof.
  intros Hf. destruct o as [x|]; [|done]. destruct (Hf x eq_refl) as [Hn Hd]. simpl. unfold de_option. rewrite Hd. by destruct (f x).
Qed.

Lemma de_vec_back {A} (f : A -> Json) d l : Forall (reads_back f d) l -> de_vec d (ser_vec f l) = Some l.
Proof.
  intros Hl. simpl. apply mapM_Some. unfold reads_back in Hl. induction Hl as [|x l Hx _ IH]; constructor; auto.
Qed.

Lemma de_uuid_back `{UuidText} u : in_uuid u -> de_uuid (ser_uuid u) = Some u.
Proof. intros Hu. unfold de_uuid. simpl. by apply uuid_written. Qed.

(** ** Reading a struct that was written *)

Lemma lookup_all_absent name names vs : name ∉ names -> lookup_all name (zip names vs) = [].
Proof.
  unfold lookup_all. revert vs. induction names as [|k names IH]; intros [|v vs] Hn; try done. simpl.
  rewrite filter_cons_False by set_solver. apply IH. set_solver.
Qed.

Lemma lookup_all_zip names vs i name v : NoDup names -> names !! i = Some name -> vs !! i = Some v ->
  lookup_all name (zip names vs) = [v].
Proof.
  intros Hd. revert vs i. induction Hd as [|k names Hk _ IH]; intros [|w vs] [|i] Hn Hv; try done; simpl in *; simplify_eq.
  - unfold lookup_all. rewrite filter_cons_True by done. simpl. f_equal. by apply lookup_all_absent.
  - unfold lookup_all. rewrite filter_cons_False; [by apply (IH vs i)|]. simpl. intros ->.
    by apply Hk, list_elem_of_lookup_2 with i.
Qed.

Lemma de_fields_written deny names vs : NoDup names -> length vs = length names ->
  de_fields deny names (ser_struct names vs) = Some (ByName names (zip names vs)).
Proof.
  intros Hd Hl. simpl. replace (forallb _ names && _) with true; [done|]. symmetry. apply andb_true_iff. split.
  - apply forallb_forall. intros name [i Hi]%list_elem_of_In%list_elem_of_lookup.
    destruct (lookup_lt_is_Some_2 vs i) as [v Hv]; [rewrite Hl; by eapply lookup_lt_Some|].
    by rewrite (lookup_all_zip names vs i name v).
  - apply orb_true_iff. right. apply forallb_forall. intros [k v] Hk%list_elem_of_In%elem_of_zip_l. by apply bool_decide_eq_true.
Qed.

Lemma de_field_written {A} missing (d : Decoder A) names vs i v : NoDup names -> length vs = length names ->
  vs !! i = Some v -> de_field missing d i (ByName names (zip names vs)) = d v.
Proof.
  intros Hd Hl Hv. simpl. destruct (lookup_lt_is_Some_2 names i) as [name Hn]; [rewrite <- Hl; by eapply lookup_lt_Some|].
  by rewrite Hn, (lookup_all_zip names vs i name v).
Qed.

(** The next field of a struct that was written. *)
Lemma bind_field {A B} missing (d : Decoder A) names vs i v x (k : A -> option B) : NoDup names -> length vs = length names ->
  vs !! i = Some v -> d v = Some x -> (de_field missing d i (ByName names (zip names vs)) ≫= k) = k x.
Proof. intros Hd Hl Hv Hx. by rewrite (de_field_written _ _ _ _ _ v), Hx. Qed.

(** The fields of a written struct, one after the other, with how each reads back. *)
Ltac struct_back :=
  rewrite de_fields_written by first [reflexivity|apply (bool_decide_unpack _); vm_compute; exact I]; cbn [mbind option_bind].
Ltac field_back E :=
  eapply eq_trans;
    [eapply bind_field; [apply (bool_decide_unpack _); vm_compute; exact I|reflexivity|reflexivity|exact E]|cbn beta].

(** ** Sizes and writability *)

Lemma chars_size_plain s : all_bytes (fun c => ascii_byte c && (char_size c =? 1)) s = true ->
  chars_size s = slen s /\ utf8_valid s = true.
Proof.
  intros Hs. split.
  - unfold slen. induction s as [|c s IH]; [done|]. simpl in Hs. apply andb_true_iff in Hs as [[_ Hc%Z.eqb_eq]%andb_true_iff Hs].
    cbn [chars_size String.length]. rewrite Hc, (IH Hs). lia.
  - apply utf8_valid_ascii. revert Hs. apply all_bytes_impl. by intros c [? _]%andb_true_iff.
Qed.

Lemma chars_size_bounds s : 0 <= chars_size s <= 6 * slen s.
Proof.
  unfold slen. induction s as [|c s IH]; [done|]. cbn [chars_size String.length].
  assert (1 <= char_size c <= 6) by (unfold char_size; destruct (_ <? 32); [lia|]; destruct (_ || _); lia). lia.
Qed.

Lemma array_size_bound {A} (f : A -> Json) k l : Forall (fun x => compact_size (f x) <= k) l ->
  array_size (f <$> l) <= (k + 1) * len l.
Proof. unfold array_size, len. induction 1 as [|x l Hx _ IH]; [simpl; lia|]. cbn [fmap list_fmap foldr length]. lia. Qed.

Lemma depth_vec {A} (f : A -> Json) l n : (forall x, json_depth (f x) <= n)%nat -> (json_depth (ser_vec f l) <= S n)%nat.
Proof.
  intros Hf. unfold ser_vec. cbn [json_depth]. apply le_n_S. induction l as [|x l IH]; cbn [fmap list_fmap foldr]; [lia|].
  specialize (Hf x). apply Nat.max_lub; [exact Hf|exact IH].
Qed.

Lemma depth_option {A} (f : A -> Json) o n : (forall x, json_depth (f x) <= n)%nat -> (json_depth (ser_option f o) <= n)%nat.
Proof. intros Hf. destruct o; simpl; [done|lia]. Qed.

Lemma depth_struct names vs n : Forall (fun v => json_depth v <= n)%nat vs -> (json_depth (ser_struct names vs) <= S n)%nat.
Proof.
  intros Hv. unfold ser_struct. cbn [json_depth]. apply le_n_S. revert names.
  induction Hv as [|v vs Hv _ IH]; intros [|k names]; cbn [zip_with foldr]; try lia. apply Nat.max_lub; [exact Hv|apply IH].
Qed.

Lemma depth_weaken n m v : (json_depth v <= n)%nat -> (n <= m)%nat -> (json_depth v <= m)%nat.
Proof. lia. Qed.

(** A struct from the bound on its fields: leaves have no depth. *)
Ltac struct_depth n :=
  apply (depth_weaken (S n)); [apply depth_struct; repeat apply Forall_cons_2; try apply Forall_nil_2; try (simpl; lia)|unfold MAX_DEPTH; lia].

Lemma writable_vec {A} (f : A -> Json) l : Forall (fun x => writable (f x) = true) l -> writable (ser_vec f l) = true.
Proof. intros Hl. simpl. induction Hl as [|x l Hx _ IH]; [done|]. simpl. by rewrite Hx. Qed.

Lemma writable_option {A} (f : A -> Json) o : (forall x, o = Some x -> writable (f x) = true) -> writable (ser_option f o) = true.
Proof. destruct o; simpl; auto. Qed.

Lemma writable_uuid `{UuidText} u : in_uuid u -> writable (ser_uuid u) = true /\ compact_size (ser_uuid u) = 38.
Proof.
  intros Hu. destruct (uuid_chars u Hu) as [Hl Hc]. destruct (chars_size_plain _ Hc) as [Hs Hv]. simpl. unfold string_size.
  by rewrite Hs, Hl.
Qed.

Lemma writable_struct names vs : forallb utf8_valid names = true -> forallb writable vs = true -> writable (ser_struct names vs) = true.
Proof.
  intros Hn. revert vs. simpl. induction names as [|k names IH]; intros [|v vs] Hv; try done. simpl in *.
  apply andb_true_iff in Hn as [Hk Hn], Hv as [Hv Hvs]. by rewrite Hk, Hv, IH.
Qed.
