(* ===== verification/JsonCompact.v ===== *)
(** * A writer and a reader of compact JSON

    A concrete instance of the interfaces of Json.v: the compact text of a value, a reader for it by
    recursive descent, and the hyphenated form of a UUID.  They show that the interfaces can be met;
    nothing else rests on them. *)
From S2P Require Import Prelude DomainValues CloudTypes CloudAdapter Json.
From stdpp Require Import base numbers list strings option.
From Stdlib Require Import ZArith Lia.
Import Ids Str.

Open Scope Z_scope.

Module Compact.

(** ** Digits *)

Definition code (c : Ascii.ascii) : Z := Z.of_nat (Ascii.nat_of_ascii c).

Definition digit (n : Z) : Ascii.ascii := ch (Z.to_nat (if n <? 10 then 48 + n else 87 + n)).

Definition undigit (c : Ascii.ascii) : option Z :=
  let n := code c in
  if (48 <=? n) && (n <=? 57) then Some (n - 48) else if (97 <=? n) && (n <=? 102) then Some (n - 87) else None.

Lemma below_16 n : 0 <= n < 16 -> n ∈ [0; 1; 2; 3; 4; 5; 6; 7; 8; 9; 10; 11; 12; 13; 14; 15].
Proof. intros Hn. rewrite !elem_of_cons. lia. Qed.

Ltac each_digit Hn := apply below_16 in Hn; rewrite !elem_of_cons in Hn;
  repeat (destruct Hn as [-> | Hn]; [vm_compute; auto|]); by apply not_elem_of_nil in Hn.

Lemma undigit_digit n : 0 <= n < 16 -> undigit (digit n) = Some n.
Proof. intros Hn. each_digit Hn. Qed.

Lemma digit_plain n : 0 <= n < 16 ->
  ascii_byte (digit n) && (char_size (digit n) =? 1) = true /\ Ascii.eqb (digit n) (ch 45) = false.
Proof. intros Hn. each_digit Hn. Qed.

Lemma string_cons_app c a b : String c a +:+ b = String c (a +:+ b).
Proof. done. Qed.

Lemma string_nil_app b : "" +:+ b = b.
Proof. done. Qed.

(** ** UUIDs *)

(** [w] hexadecimal digits. *)
Fixpoint hex_digits (w : nat) (n : Z) : string :=
  match w with O => "" | S w => hex_digits w (n / 16) +:+ String (digit (n mod 16)) "" end.

(** The value of hexadecimal text, hyphens skipped. *)
Fixpoint of_hex (acc : Z) (s : string) : option Z :=
  match s with
  | EmptyString => Some acc
  | String c s => if Ascii.eqb c (ch 45) then of_hex acc s else d ← undigit c; of_hex (acc * 16 + d) s
  end.

Lemma of_hex_app a b acc : of_hex acc (a +:+ b) = of_hex acc a ≫= fun acc => of_hex acc b.
Proof.
  revert acc. induction a as [|c a IH]; intros acc; [done|]. simpl. destruct (Ascii.eqb c (ch 45)); [apply IH|].
  destruct (undigit c); simpl; [apply IH|done].
Qed.

Lemma mod_16 n : 0 <= n mod 16 < 16.
Proof. apply Z.mod_pos_bound. lia. Qed.

Lemma of_hex_digits w n acc : 0 <= n < 16 ^ Z.of_nat w -> of_hex acc (hex_digits w n) = Some (acc * 16 ^ Z.of_nat w + n).
Proof.
  revert n acc. induction w as [|w IH]; intros n acc Hn; [simpl in *; f_equal; lia|].
  rewrite Nat2Z.inj_succ, Z.pow_succ_r in Hn by lia. cbn [hex_digits]. rewrite of_hex_app, IH.
  - simpl. destruct (digit_plain _ (mod_16 n)) as [_ ->]. rewrite (undigit_digit _ (mod_16 n)). simpl. f_equal.
    rewrite Nat2Z.inj_succ, Z.pow_succ_r by lia. pose proof (Z.div_mod n 16). nia.
  - split; [apply Z.div_pos; lia|]. apply Z.div_lt_upper_bound; lia.
Qed.

Lemma hex_digits_plain w n : all_bytes (fun c => ascii_byte c && (char_size c =? 1)) (hex_digits w n) = true /\
  slen (hex_digits w n) = Z.of_nat w.
Proof.
  revert n. induction w as [|w IH]; intros n; [done|]. cbn [hex_digits]. destruct (IH (n / 16)) as [Hc Hl]. split.
  - rewrite all_bytes_app, Hc. cbn [all_bytes]. by rewrite (proj1 (digit_plain _ (mod_16 n))).
  - rewrite slen_app, Hl. unfold slen. cbn [String.length]. lia.
Qed.

Definition hyphenated (u : Uuid) : string :=
  hex_digits 8 (u / 2 ^ 96) +:+ String (ch 45) (hex_digits 4 (u / 2 ^ 80 mod 2 ^ 16) +:+ String (ch 45)
    (hex_digits 4 (u / 2 ^ 64 mod 2 ^ 16) +:+ String (ch 45) (hex_digits 4 (u / 2 ^ 48 mod 2 ^ 16) +:+ String (ch 45)
      (hex_digits 12 (u mod 2 ^ 48))))).

Definition parse_uuid (s : string) : option Uuid :=
  match of_hex 0 s with Some u => if (0 <=? u) && (u <? 2 ^ 128) then Some u else None | None => None end.

(** The digits above a position and the next ones, together. *)
Lemma next_digits u a b : 0 < a -> 0 < b -> u / (a * b) * b + u / a mod b = u / a.
Proof. intros Ha Hb. rewrite <- Z.div_div by lia. pose proof (Z.div_mod (u / a) b). lia. Qed.

Lemma of_hex_chunk w n k acc rest : k = 16 ^ Z.of_nat w -> 0 <= n < k ->
  of_hex acc (hex_digits w n +:+ String (ch 45) rest) = of_hex (acc * k + n) rest.
Proof. intros -> Hn. by rewrite of_hex_app, of_hex_digits. Qed.

Lemma of_hyphenated u : 0 <= u < 2 ^ 128 -> of_hex 0 (hyphenated u) = Some u.
Proof.
  intros Hu. unfold hyphenated.
  assert (Hm : forall v k, 0 < k -> 0 <= v mod k < k) by (intros; apply Z.mod_pos_bound; lia).
  assert (H0 : 0 <= u / 2 ^ 96 < 2 ^ 32) by (split; [apply Z.div_pos; lia|apply Z.div_lt_upper_bound; lia]).
  rewrite (of_hex_chunk 8 _ (2 ^ 32)) by done. rewrite !(of_hex_chunk 4 _ (2 ^ 16)) by (done || by apply Hm).
  rewrite of_hex_digits by (by apply Hm). f_equal.
  replace (0 * 2 ^ 32 + u / 2 ^ 96) with (u / (2 ^ 80 * 2 ^ 16)) by (change (2 ^ 80 * 2 ^ 16) with (2 ^ 96); lia).
  rewrite (next_digits u (2 ^ 80)) by done. change (2 ^ 80) with (2 ^ 64 * 2 ^ 16) at 1.
  rewrite (next_digits u (2 ^ 64)) by done. change (2 ^ 64) with (2 ^ 48 * 2 ^ 16) at 1.
  rewrite (next_digits u (2 ^ 48)) by done. change (16 ^ Z.of_nat 12) with (2 ^ 48).
  rewrite Z.mul_comm. symmetry. by apply Z.div_mod.
Qed.

Lemma plain_chunk (f : Ascii.ascii -> bool) w n rest :
  f = (fun c => ascii_byte c && (char_size c =? 1)) -> all_bytes f rest = true ->
  all_bytes f (hex_digits w n +:+ String (ch 45) rest) = true /\
  slen (hex_digits w n +:+ String (ch 45) rest) = Z.of_nat w + 1 + slen rest.
Proof.
  intros -> Hr. destruct (hex_digits_plain w n) as [Hc Hl]. split; [rewrite all_bytes_app, Hc; exact Hr|].
  rewrite slen_app, Hl. unfold slen. cbn [String.length]. lia.
Qed.

Lemma hyphenated_plain u : slen (hyphenated u) = 36 /\
  all_bytes (fun c => ascii_byte c && (char_size c =? 1)) (hyphenated u) = true.
Proof.
  unfold hyphenated. destruct (hex_digits_plain 12 (u mod 2 ^ 48)) as [C0 L0].
  destruct (plain_chunk _ 4 (u / 2 ^ 48 mod 2 ^ 16) _ eq_refl C0) as [C1 L1].
  destruct (plain_chunk _ 4 (u / 2 ^ 64 mod 2 ^ 16) _ eq_refl C1) as [C2 L2].
  destruct (plain_chunk _ 4 (u / 2 ^ 80 mod 2 ^ 16) _ eq_refl C2) as [C3 L3].
  destruct (plain_chunk _ 8 (u / 2 ^ 96) _ eq_refl C3) as [C4 L4]. split; [|exact C4]. rewrite L4, L3, L2, L1, L0. done.
Qed.

Lemma parse_hyphenated u : 0 <= u < 2 ^ 128 -> parse_uuid (hyphenated u) = Some u.
Proof.
  intros Hu. unfold parse_uuid. rewrite of_hyphenated by done.
  by rewrite (proj2 (Z.leb_le _ _)), (proj2 (Z.ltb_lt _ _)) by lia.
Qed.

Lemma parse_range s u : parse_uuid s = Some u -> 0 <= u < 2 ^ 128.
Proof.
  unfold parse_uuid. destruct (of_hex 0 s) as [v|]; [|done]. destruct (_ && _) eqn:E; [|done]. intros [= ->].
  apply andb_true_iff in E as [?%Z.leb_le ?%Z.ltb_lt]. lia.
Qed.

#[export] Instance uuid_text : UuidText :=
  {| uuid_hyphenated := hyphenated; uuid_parse := parse_uuid; uuid_written := parse_hyphenated; uuid_read := parse_range;
     uuid_chars := fun u _ => hyphenated_plain u |}.

(** ** Integers *)

Fixpoint decimal (fuel : nat) (n : Z) : string :=
  match fuel with
  | O => ""
  | S f => if n <? 10 then String (digit n) "" else decimal f (n / 10) +:+ String (digit (n mod 10)) ""
  end.

Definition decimal_digit (c : Ascii.ascii) : option Z :=
  if (48 <=? code c) && (code c <=? 57) then Some (code c - 48) else None.

Fixpoint read_decimal (acc : Z) (s : string) : Z * string :=
  match s with
  | String c rest => match decimal_digit c with Some d => read_decimal (acc * 10 + d) rest | None => (acc, s) end
  | EmptyString => (acc, s)
  end.

Lemma decimal_digit_digit n : 0 <= n < 10 -> decimal_digit (digit n) = Some n.
Proof.
  intros Hn. assert (Hn' : 0 <= n < 16) by lia. apply below_16 in Hn'. rewrite !elem_of_cons in Hn'.
  repeat (destruct Hn' as [-> | Hn']; [first [vm_compute; reflexivity|lia]|]); by apply not_elem_of_nil in Hn'.
Qed.

Lemma decimal_size fuel n : slen (decimal fuel n) <= Z.of_nat fuel.
Proof.
  revert n. induction fuel as [|f IH]; intros n; [done|]. cbn [decimal]. destruct (n <? 10); [unfold slen; simpl; lia|].
  rewrite slen_app. specialize (IH (n / 10)). unfold slen in *. cbn [String.length]. lia.
Qed.

(** No digit follows. *)
Definition ends_number (rest : string) : Prop :=
  match rest with String c _ => decimal_digit c = None | EmptyString => True end.

Lemma read_decimal_back fuel n acc rest : 0 <= n < 10 ^ Z.of_nat fuel -> (0 < fuel)%nat ->
  exists k, read_decimal acc (decimal fuel n +:+ rest) = read_decimal (acc * k + n) rest.
Proof.
  revert n acc rest. induction fuel as [|f IH]; intros n acc rest Hn Hf; [lia|]. cbn [decimal].
  destruct (Z.ltb_spec n 10) as [Hl|Hl].
  - exists 10. simpl. by rewrite decimal_digit_digit by lia.
  - rewrite Nat2Z.inj_succ, Z.pow_succ_r in Hn by lia. destruct f as [|f]; [simpl in Hn; lia|].
    destruct (IH (n / 10) acc (String (digit (n mod 10)) rest)) as [k Hk];
      [split; [apply Z.div_pos; lia|apply Z.div_lt_upper_bound; lia]|lia|].
    exists (k * 10). rewrite append_assoc. change (String (digit (n mod 10)) "" +:+ rest) with (String (digit (n mod 10)) rest). rewrite Hk. simpl.
    rewrite decimal_digit_digit by (apply Z.mod_pos_bound; lia). f_equal. pose proof (Z.div_mod n 10). lia.
Qed.

Lemma decimal_first fuel n : (0 < fuel)%nat -> 0 <= n < 10 ^ Z.of_nat fuel ->
  exists d r, decimal fuel n = String (digit d) r /\ 0 <= d < 10.
Proof.
  revert n. induction fuel as [|f IH]; intros n Hf Hn; [lia|]. cbn [decimal]. destruct (Z.ltb_spec n 10); [exists n, ""; split; [done|lia]|].
  rewrite Nat2Z.inj_succ, Z.pow_succ_r in Hn by lia. destruct f as [|f]; [simpl in Hn; lia|].
  destruct (IH (n / 10)) as (d & r & -> & Hd); [lia|split; [apply Z.div_pos; lia|apply Z.div_lt_upper_bound; lia]|].
  exists d, (r +:+ String (digit (n mod 10)) ""). done.
Qed.

(** ** Strings *)

Definition escape (c : Ascii.ascii) : string :=
  if code c <? 32 then String BACKSLASH (String (ch 117) (String (ch 48) (String (ch 48) (hex_digits 2 (code c)))))
  else if Ascii.eqb c QUOTE || Ascii.eqb c BACKSLASH then String BACKSLASH (String c "") else String c "".

Fixpoint escaped (s : string) : string :=
  match s with EmptyString => "" | String c s => escape c +:+ escaped s end.

Definition quoted (s : string) : string := String QUOTE (escaped s +:+ String QUOTE "").

(** The characters up to the closing quote. *)
Fixpoint read_chars (s : string) : option (string * string) :=
  match s with
  | EmptyString => None
  | String c s1 =>
      if Ascii.eqb c QUOTE then Some ("", s1)
      else if Ascii.eqb c BACKSLASH then
        match s1 with
        | String d s2 =>
            if Ascii.eqb d (ch 117) then
              match s2 with
              | String _ (String _ (String h (String l s3))) =>
                  n ← of_hex 0 (String h (String l "")); '(t, rest) ← read_chars s3;
                  Some (String (ch (Z.to_nat n)) t, rest)
              | _ => None
              end
            else '(t, rest) ← read_chars s2; Some (String d t, rest)
        | EmptyString => None
        end
      else '(t, rest) ← read_chars s1; Some (String c t, rest)
  end.

#[local] Arguments of_hex : simpl never.
#[local] Arguments ch : simpl never.

Lemma ch_code c : ch (Z.to_nat (code c)) = c.
Proof. unfold ch, code. rewrite Nat2Z.id. apply Ascii.ascii_nat_embedding. Qed.

Lemma read_escape c s t rest : read_chars s = Some (t, rest) -> read_chars (escape c +:+ s) = Some (String c t, rest).
Proof.
  intros Hs. unfold escape. destruct (Z.ltb_spec (code c) 32) as [Hc|Hc].
  - assert (H0 : 0 <= code c) by (unfold code; lia). destruct (hex_digits_plain 2 (code c)) as [_ Hl].
    pose proof (of_hex_digits 2 (code c) 0 ltac:(simpl; lia)) as Hh. rewrite Z.mul_0_l, Z.add_0_l in Hh. unfold slen in Hl.
    destruct (hex_digits 2 (code c)) as [|h [|l [|]]]; try (simpl in Hl; lia).
    rewrite !string_cons_app, string_nil_app. cbn. rewrite Hh, Hs. cbn. by rewrite ch_code.
  - destruct (Ascii.eqb_spec c QUOTE) as [->|Hq]; [cbn [orb]; rewrite !string_cons_app, string_nil_app; cbn; by rewrite Hs|].
    destruct (Ascii.eqb_spec c BACKSLASH) as [->|Hb]; [cbn [orb]; rewrite !string_cons_app, string_nil_app; cbn; by rewrite Hs|]. cbn [orb]. rewrite string_cons_app, string_nil_app. cbn.
    rewrite (proj2 (Ascii.eqb_neq _ _) Hq), (proj2 (Ascii.eqb_neq _ _) Hb), Hs. done.
Qed.

Lemma read_escaped s rest : read_chars (escaped s +:+ String QUOTE rest) = Some (s, rest).
Proof. induction s as [|c s IH]; [done|]. cbn [escaped]. rewrite append_assoc. by apply read_escape. Qed.

Lemma escaped_size s : slen (escaped s) = chars_size s.
Proof.
  induction s as [|c s IH]; [done|]. cbn [escaped chars_size]. rewrite slen_app, IH. f_equal.
  unfold escape, char_size. fold (code c). destruct (code c <? 32).
  - destruct (hex_digits_plain 2 (code c)) as [_ Hl]. unfold slen in *. cbn [String.length]. lia.
  - by destruct (_ || _).
Qed.

Lemma quoted_size s : slen (quoted s) = string_size s.
Proof.
  unfold quoted, string_size. rewrite <- escaped_size.
  change (slen (String QUOTE (escaped s +:+ String QUOTE ""))) with (slen (String QUOTE "" +:+ (escaped s +:+ String QUOTE ""))).
  rewrite !slen_app. unfold slen. cbn [String.length]. lia.
Qed.

(** ** Values *)

Definition COMMA : Ascii.ascii := ch 44.
Definition COLON : Ascii.ascii := ch 58.
Definition LBRACKET : Ascii.ascii := ch 91.
Definition RBRACKET : Ascii.ascii := ch 93.
Definition LBRACE : Ascii.ascii := ch 123.
Definition RBRACE : Ascii.ascii := ch 125.

(** Each item followed by a comma or, the last one, by the closing bracket. *)
Fixpoint items (close : Ascii.ascii) (xs : list string) : string :=
  match xs with
  | [] => String close ""
  | [x] => x +:+ String close ""
  | x :: rest => x +:+ String COMMA (items close rest)
  end.

Definition DIGITS : nat := 20.

Fixpoint render (v : Json) : string :=
  match v with
  | JNull => "null"
  | JBool true => "true"
  | JBool false => "false"
  | JInt z => decimal DIGITS z
  | JFloat t => t
  | JString s => quoted s
  | JArray vs => String LBRACKET (items RBRACKET (map render vs))
  | JObject es => String LBRACE (items RBRACE (map (fun e => quoted e.1 +:+ String COLON (render e.2)) es))
  end.

Section Reader.
(** The reader of a value, one level down. *)
Variable read : string -> option (Json * string).

Fixpoint read_items (n : nat) (s : string) : option (list Json * string) :=
  match n with
  | O => None
  | S n =>
      '(v, s) ← read s;
      match s with
      | String c rest =>
          if Ascii.eqb c COMMA then '(vs, rest) ← read_items n rest; Some (v :: vs, rest)
          else if Ascii.eqb c RBRACKET then Some ([v], rest) else None
      | EmptyString => None
      end
  end.

Definition read_entry (s : string) : option ((string * Json) * string) :=
  match s with
  | String c rest =>
      if Ascii.eqb c QUOTE then
        '(key, rest) ← read_chars rest;
        match rest with
        | String d rest => if Ascii.eqb d COLON then '(v, rest) ← read rest; Some ((key, v), rest) else None
        | EmptyString => None
        end
      else None
  | EmptyString => None
  end.

Fixpoint read_entries (n : nat) (s : string) : option (list (string * Json) * string) :=
  match n with
  | O => None
  | S n =>
      '(e, s) ← read_entry s;
      match s with
      | String c rest =>
          if Ascii.eqb c COMMA then '(es, rest) ← read_entries n rest; Some (e :: es, rest)
          else if Ascii.eqb c RBRACE then Some ([e], rest) else None
      | EmptyString => None
      end
  end.
End Reader.

Fixpoint read_value (n : nat) (s : string) : option (Json * string) :=
  match n with
  | O => None
  | S n =>
      match s with
      | EmptyString => None
      | String c rest =>
          if Ascii.eqb c QUOTE then '(t, rest) ← read_chars rest; Some (JString t, rest)
          else if Ascii.eqb c LBRACKET then
            match CloudAdapter.strip_prefix (String RBRACKET "") rest with
            | Some rest => Some (JArray [], rest)
            | None => '(vs, rest) ← read_items (read_value n) n rest; Some (JArray vs, rest)
            end
          else if Ascii.eqb c LBRACE then
            match CloudAdapter.strip_prefix (String RBRACE "") rest with
            | Some rest => Some (JObject [], rest)
            | None => '(es, rest) ← read_entries (read_value n) n rest; Some (JObject es, rest)
            end
          else match decimal_digit c with
          | Some _ => let '(z, rest) := read_decimal 0 s in Some (JInt z, rest)
          | None =>
              match CloudAdapter.strip_prefix "null" s, CloudAdapter.strip_prefix "true" s, CloudAdapter.strip_prefix "false" s with
              | Some rest, _, _ => Some (JNull, rest)
              | _, Some rest, _ => Some (JBool true, rest)
              | _, _, Some rest => Some (JBool false, rest)
              | _, _, _ => None
              end
          end
      end
  end.

Definition from_text (s : string) : option Json :=
  match read_value (S (String.length s)) s with Some (v, EmptyString) => Some v | _ => None end.

(** ** Round trip *)

#[local] Arguments read_decimal : simpl never.
#[local] Arguments decimal : simpl never.
#[local] Arguments read_chars : simpl never.
#[local] Arguments quoted : simpl never.

Definition reads (n : nat) (v : Json) : Prop := forall rest, ends_number rest ->
  read_value n (render v +:+ rest) = Some (v, rest).

Lemma int_bounds z : (0 <=? z) && (z <=? u64_max) = true -> 0 <= z < 10 ^ Z.of_nat DIGITS.
Proof.
  intros [H1%Z.leb_le H2%Z.leb_le]%andb_true_iff. split; [done|]. eapply Z.le_lt_trans; [exact H2|]. by vm_compute.
Qed.

Lemma render_first v : writable v = true -> exists c r, render v = String c r /\ c <> RBRACKET.
Proof.
  destruct v as [|[]|z|t|s|vs|es]; simpl; intros Hw; try done; try by eexists _, _.
  destruct (decimal_first DIGITS z) as (d & r & E & Hd); [unfold DIGITS; lia|by apply int_bounds|].
  exists (digit d), r. split; [exact E|]. intros Eq. pose proof (decimal_digit_digit d Hd) as Hx. rewrite Eq in Hx. discriminate Hx.
Qed.

Lemma read_literal n v t rest : t = render v -> v = JNull \/ v = JBool true \/ v = JBool false ->
  read_value (S n) (t +:+ rest) = Some (v, rest).
Proof. intros -> [->|[->| ->]]; reflexivity. Qed.

Lemma read_int n z : writable (JInt z) = true -> reads (S n) (JInt z).
Proof.
  intros Hw rest Hr. simpl in Hw. pose proof (int_bounds z Hw) as Hz.
  assert (Hd : (0 < DIGITS)%nat) by (unfold DIGITS; lia).
  destruct (decimal_first DIGITS z Hd Hz) as (d & r & E & Hd'). destruct (read_decimal_back DIGITS z 0 rest Hz Hd) as [k Hk].
  assert (Hfirst : forall c, decimal_digit c = None -> Ascii.eqb (digit d) c = false).
  { intros c Hc. apply Ascii.eqb_neq. intros Eq. rewrite <- Eq, decimal_digit_digit in Hc by done. done. }
  assert (Hread : read_decimal (0 * k + z) rest = (z, rest)).
  { destruct rest as [|c rest]; [reflexivity|]. simpl in Hr. unfold read_decimal. fold read_decimal. by rewrite Hr. }
  rewrite Hread in Hk. simpl render. rewrite E in Hk |- *. rewrite string_cons_app in Hk |- *. cbn [read_value].
  rewrite !Hfirst by reflexivity. rewrite decimal_digit_digit by done. by rewrite Hk.
Qed.

Lemma items_first x xs close : items close (x :: xs) = x +:+ String (if decide (xs = []) then close else COMMA) (if decide (xs = []) then "" else items close xs).
Proof. destruct xs; [done|]. by rewrite decide_False. Qed.

Lemma slen_nat a b : String.length (a +:+ b) = (String.length a + String.length b)%nat.
Proof. pose proof (slen_app a b) as E. unfold slen in E. lia. Qed.

Lemma items_bounds close xs : (length xs <= String.length (items close xs))%nat /\
  Forall (fun x => (String.length x <= String.length (items close xs))%nat) xs.
Proof.
  induction xs as [|x xs [IH1 IH2]]; [split; [simpl; lia|constructor]|].
  rewrite items_first, slen_nat. cbn [String.length length]. case_decide as Hx.
  - subst xs. split; [simpl; lia|]. constructor; [simpl; lia|constructor].
  - split; [lia|]. constructor; [lia|]. eapply Forall_impl; [|exact IH2]. intros; simpl in *; lia.
Qed.

Lemma read_items_back n vs m rest : vs <> [] -> (length vs <= m)%nat -> Forall (reads n) vs ->
  read_items (read_value n) m (items RBRACKET (map render vs) +:+ rest) = Some (vs, rest).
Proof.
  intros Hne Hm Hvs. revert m Hm. induction Hvs as [|v vs Hv _ IH]; intros m Hm; [done|]. destruct m as [|m]; [simpl in Hm; lia|].
  cbn [map]. rewrite items_first, append_assoc, string_cons_app. cbn [read_items]. rewrite Hv by (by case_decide). simpl.
  destruct vs as [|w vs]; [reflexivity|]. rewrite decide_False by done. change (Ascii.eqb COMMA COMMA) with true. cbv match.
  rewrite IH; [done|done|simpl in *; lia].
Qed.

Definition entry_text (e : string * Json) : string := quoted e.1 +:+ String COLON (render e.2).

Lemma entry_length e : (String.length (render e.2) <= String.length (entry_text e))%nat.
Proof. unfold entry_text. rewrite slen_nat. cbn [String.length]. lia. Qed.

Lemma read_entry_back n e rest : reads n e.2 -> ends_number rest ->
  read_entry (read_value n) (entry_text e +:+ rest) = Some (e, rest).
Proof.
  intros Hv Hr. destruct e as [k v]. unfold entry_text, quoted. cbn [fst snd] in *.
  rewrite append_assoc, !string_cons_app, append_assoc, string_cons_app, string_nil_app. unfold read_entry.
  change (Ascii.eqb QUOTE QUOTE) with true. cbv match. rewrite read_escaped. simpl. rewrite Hv by done. done.
Qed.

Lemma read_entries_back n es m rest : es <> [] -> (length es <= m)%nat -> Forall (fun e => reads n e.2) es ->
  read_entries (read_value n) m (items RBRACE (map entry_text es) +:+ rest) = Some (es, rest).
Proof.
  intros Hne Hm Hes. revert m Hm. induction Hes as [|e es He _ IH]; intros m Hm; [done|]. destruct m as [|m]; [simpl in Hm; lia|].
  cbn [map]. rewrite items_first, append_assoc, string_cons_app. cbn [read_entries]. rewrite read_entry_back by (by case_decide || done). simpl.
  destruct es as [|w es]; [reflexivity|]. rewrite decide_False by done. change (Ascii.eqb COMMA COMMA) with true. cbv match.
  rewrite IH; [done|done|simpl in *; lia].
Qed.

Lemma Forall_under {A B} (f : A -> B) (P : B -> Prop) l : Forall P (map f l) -> Forall (fun x => P (f x)) l.
Proof. intros Hl. induction l; inversion Hl; constructor; auto. Qed.

Lemma read_back v : writable v = true -> forall n, (String.length (render v) <= n)%nat -> reads n v.
Proof.
  induction v as [|b|z|t|s|vs IH|es IH] using json_nested_ind; intros Hw n Hn; try done.
  - destruct n; [simpl in Hn; lia|]. intros rest _. apply read_literal; auto.
  - destruct n; [destruct b; simpl in Hn; lia|]. intros rest _. apply read_literal; [done|]. destruct b; auto.
  - destruct (render_first _ Hw) as (c & r & E & _). rewrite E in Hn. destruct n; [simpl in Hn; lia|]. by apply read_int.
  - destruct n; [simpl in Hn; lia|]. intros rest _. simpl render. unfold quoted. rewrite string_cons_app, append_assoc, string_cons_app, string_nil_app.
    cbn [read_value]. change (Ascii.eqb QUOTE QUOTE) with true. cbv match. by rewrite read_escaped.
  - destruct n as [|n]; [simpl in Hn; lia|]. intros rest Hr. cbn [render] in Hn |- *. rewrite string_cons_app. cbn [read_value].
    change (Ascii.eqb LBRACKET QUOTE) with false. change (Ascii.eqb LBRACKET LBRACKET) with true. cbv match.
    destruct (decide (vs = [])) as [->|Hne]; [reflexivity|]. cbn [String.length] in Hn.
    destruct (items_bounds RBRACKET (map render vs)) as [Hcount Hlen]. rewrite length_map in Hcount.
    replace (CloudAdapter.strip_prefix _ _) with (@None string).
    + rewrite read_items_back; [done|done|lia|]. simpl in Hw. rewrite forallb_forall in Hw.
      apply Forall_under in Hlen. rewrite Forall_forall in *. intros w Hin. apply IH; [done|by apply Hw|].
      specialize (Hlen w Hin). simpl in Hlen. lia.
    + destruct vs as [|w vs]; [done|]. simpl in Hw. apply andb_true_iff in Hw as [Hw _].
      destruct (render_first w Hw) as (c & r & E & Hc). cbn [map]. rewrite items_first, E, append_assoc, string_cons_app. cbn [CloudAdapter.strip_prefix].
      by rewrite (proj2 (Ascii.eqb_neq _ _) (not_eq_sym Hc)).
  - destruct n as [|n]; [simpl in Hn; lia|]. intros rest Hr. change (render (JObject es)) with (String LBRACE (items RBRACE (map entry_text es))) in *.
    rewrite string_cons_app. cbn [read_value].
    change (Ascii.eqb LBRACE QUOTE) with false. change (Ascii.eqb LBRACE LBRACKET) with false. change (Ascii.eqb LBRACE LBRACE) with true. cbv match.
    destruct (decide (es = [])) as [->|Hne]; [reflexivity|]. cbn [String.length] in Hn.
    destruct (items_bounds RBRACE (map entry_text es)) as [Hcount Hlen]. rewrite length_map in Hcount.
    replace (CloudAdapter.strip_prefix _ _) with (@None string).
    + rewrite read_entries_back; [done|done|lia|]. simpl in Hw. rewrite forallb_forall in Hw.
      apply Forall_under in Hlen. rewrite Forall_forall in *. intros [k w] Hin. apply (IH (k, w)); [done| |].
      * apply Hw in Hin. by apply andb_true_iff in Hin as [_ ?].
      * specialize (Hlen _ Hin). pose proof (entry_length (k, w)). cbn [snd] in *. lia.
    + destruct es as [|[k w] es]; [done|]. cbn [map]. rewrite items_first. unfold entry_text at 1, quoted.
      by rewrite !append_assoc, !string_cons_app.
Qed.

Lemma items_size close xs : slen (items close xs) <= 1 + foldr (fun x acc => slen x + 1 + acc) 0 xs.
Proof.
  induction xs as [|x xs IH]; [done|]. rewrite items_first, slen_app. cbn [foldr]. unfold slen in *. cbn [String.length].
  case_decide; [subst; simpl; lia|lia].
Qed.

Lemma render_size v : writable v = true -> slen (render v) <= compact_size v.
Proof.
  induction v as [|b|z|t|s|vs IH|es IH] using json_nested_ind; intros Hw; try done.
  - by destruct b.
  - apply (decimal_size DIGITS).
  - simpl. by rewrite quoted_size.
  - cbn [render compact_size]. pose proof (items_size RBRACKET (map render vs)) as Hs.
    assert (Hf : foldr (fun x acc => slen x + 1 + acc) 0 (map render vs) <= foldr (fun w acc => compact_size w + 1 + acc) 0 vs).
    { clear Hs. simpl in Hw. induction IH as [|w vs Hv _ IHv]; [done|]. simpl in *. apply andb_true_iff in Hw as [Hw Hws].
      specialize (Hv Hw). specialize (IHv Hws). lia. }
    unfold slen in *. cbn [String.length]. lia.
  - change (render (JObject es)) with (String LBRACE (items RBRACE (map entry_text es))). cbn [compact_size].
    pose proof (items_size RBRACE (map entry_text es)) as Hs.
    assert (Hf : foldr (fun x acc => slen x + 1 + acc) 0 (map entry_text es) <=
                 foldr (fun e acc => string_size e.1 + compact_size e.2 + 2 + acc) 0 es).
    { clear Hs. simpl in Hw. induction IH as [|[k w] es Hv _ IHv]; [done|]. simpl in Hw, Hv.
      apply andb_true_iff in Hw as [[_ Hw]%andb_true_iff Hws]. specialize (Hv Hw). specialize (IHv Hws). cbn [map foldr fst snd].
      unfold entry_text at 1. rewrite slen_app, quoted_size. unfold slen in *. cbn [String.length fst snd]. lia. }
    unfold slen in *. cbn [String.length]. lia.
Qed.

(** ** The text is UTF-8 *)

Lemma utf8_app s : forall t, utf8_valid s = true -> utf8_valid t = true -> utf8_valid (s +:+ t) = true.
Proof.
  revert s. fix IH 1. intros [|a s1] t Hs Ht; [done|]. rewrite !string_cons_app. cbn [utf8_valid] in *.
  destruct (byte a <? 128); [by apply IH|]. destruct (in_range 194 223 (byte a)).
  { destruct s1 as [|b s2]; [done|]. apply andb_true_iff in Hs as [Hb Hs]. rewrite !string_cons_app. rewrite Hb. by apply IH. }
  destruct (in_range 224 239 (byte a)).
  { destruct s1 as [|b [|c s3]]; [done..|]. apply andb_true_iff in Hs as [[Hb Hc]%andb_true_iff Hs].
    rewrite !string_cons_app. rewrite Hb, Hc. by apply IH. }
  destruct (in_range 240 244 (byte a)); [|done]. destruct s1 as [|b [|c [|d s4]]]; [done..|].
  apply andb_true_iff in Hs as [[[Hb Hc]%andb_true_iff Hd]%andb_true_iff Hs]. rewrite !string_cons_app. rewrite Hb, Hc, Hd. by apply IH.
Qed.

Lemma escape_ascii c : byte c <? 128 = true -> utf8_valid (escape c) = true.
Proof. destruct c as [[] [] [] [] [] [] [] []]; vm_compute; intros Hc; (reflexivity || discriminate Hc). Qed.

(** A byte of a longer sequence stands for itself. *)
Lemma escape_high c : byte c <? 128 = false -> escape c = String c "".
Proof. destruct c as [[] [] [] [] [] [] [] []]; vm_compute; intros Hc; (done || discriminate Hc). Qed.

Lemma high_range a b c : in_range a b (byte c) = true -> 128 <= a -> byte c <? 128 = false.
Proof. unfold in_range. intros [?%Z.leb_le _]%andb_true_iff ?. apply Z.ltb_ge. lia. Qed.

Lemma high_cont c : cont c = true -> byte c <? 128 = false.
Proof. intros Hc. by apply (high_range 128 191). Qed.

Lemma escaped_utf8 s : utf8_valid s = true -> utf8_valid (escaped s) = true.
Proof.
  revert s. fix IH 1. intros [|a s1] Hs; [done|]. cbn [utf8_valid escaped] in *.
  destruct (byte a <? 128) eqn:Ea; [apply utf8_app; [by apply escape_ascii|by apply IH]|].
  rewrite (escape_high _ Ea). rewrite !string_cons_app, ?string_nil_app. cbn [utf8_valid]. rewrite Ea. destruct (in_range 194 223 (byte a)).
  { destruct s1 as [|b s2]; [done|]. apply andb_true_iff in Hs as [Hb Hs]. cbn [escaped]. rewrite (escape_high _ (high_cont _ Hb)).
    rewrite !string_cons_app, ?string_nil_app. rewrite Hb. by apply IH. }
  destruct (in_range 224 239 (byte a)).
  { destruct s1 as [|b [|c s3]]; [done..|]. apply andb_true_iff in Hs as [[Hb Hc]%andb_true_iff Hs]. cbn [escaped].
    assert (Hbh : byte b <? 128 = false).
    { destruct (byte a =? 224); [by apply (high_range 160 191)|]. destruct (byte a =? 237); [by apply (high_range 128 159)|by apply high_cont]. }
    rewrite (escape_high _ Hbh), (escape_high _ (high_cont _ Hc)). rewrite !string_cons_app, ?string_nil_app. rewrite Hb, Hc. by apply IH. }
  destruct (in_range 240 244 (byte a)); [|done]. destruct s1 as [|b [|c [|d s4]]]; [done..|].
  apply andb_true_iff in Hs as [[[Hb Hc]%andb_true_iff Hd]%andb_true_iff Hs]. cbn [escaped].
  assert (Hbh : byte b <? 128 = false).
  { destruct (byte a =? 240); [by apply (high_range 144 191)|]. destruct (byte a =? 244); [by apply (high_range 128 143)|by apply high_cont]. }
  rewrite (escape_high _ Hbh), (escape_high _ (high_cont _ Hc)), (escape_high _ (high_cont _ Hd)). rewrite !string_cons_app, ?string_nil_app.
  rewrite Hb, Hc, Hd. by apply IH.
Qed.

Lemma quoted_utf8 s : utf8_valid s = true -> utf8_valid (quoted s) = true.
Proof. intros Hs. apply (utf8_app (String QUOTE "")); [done|]. apply utf8_app; [by apply escaped_utf8|done]. Qed.

Lemma items_utf8 close xs : utf8_valid (String close "") = true -> Forall (fun x => utf8_valid x = true) xs -> utf8_valid (items close xs) = true.
Proof.
  intros Hc Hx. induction Hx as [|x xs Hx _ IH]; [done|]. rewrite items_first. case_decide; [by apply utf8_app|].
  apply utf8_app; [done|]. by apply (utf8_app (String COMMA "")).
Qed.

Lemma digit_utf8 k : 0 <= k < 10 -> utf8_valid (String (digit k) "") = true.
Proof.
  intros Hk. assert (Hn : 0 <= k < 16) by lia. apply below_16 in Hn. rewrite !elem_of_cons in Hn.
  repeat (destruct Hn as [-> | Hn]; [first [vm_compute; reflexivity|lia]|]); by apply not_elem_of_nil in Hn.
Qed.

Lemma decimal_utf8 fuel n : 0 <= n -> utf8_valid (decimal fuel n) = true.
Proof.
  revert n. induction fuel as [|fuel IH]; intros n Hn; [done|].
  change (decimal (S fuel) n) with (if n <? 10 then String (digit n) "" else decimal fuel (n / 10) +:+ String (digit (n mod 10)) "").
  destruct (n <? 10) eqn:E.
  - apply Z.ltb_lt in E. apply digit_utf8. lia.
  - apply utf8_app; [apply IH, Z.div_pos; lia|apply digit_utf8]. pose proof (Z.mod_pos_bound n 10). lia.
Qed.

Lemma render_utf8 v : writable v = true -> utf8_valid (render v) = true.
Proof.
  induction v as [|b|z|t|s|vs IH|es IH] using json_nested_ind; intros Hw; try done.
  - by destruct b.
  - apply decimal_utf8. simpl in Hw. apply andb_true_iff in Hw as [?%Z.leb_le _]. done.
  - by apply quoted_utf8.
  - apply (utf8_app (String LBRACKET "")); [done|]. apply items_utf8; [done|]. simpl in Hw.
    induction IH as [|w vs Hv _ IHv]; simpl in *; constructor; apply andb_true_iff in Hw as [Hw Hws]; auto.
  - apply (utf8_app (String LBRACE "")); [done|]. apply items_utf8; [done|]. simpl in Hw.
    induction IH as [|[k w] es Hv _ IHv]; simpl in *; constructor; apply andb_true_iff in Hw as [[Hk Hw]%andb_true_iff Hws]; [|auto].
    apply utf8_app; [by apply quoted_utf8|]. apply (utf8_app (String COLON "")); [done|auto].
Qed.

Lemma written_back v : writable v = true ->
  exists text, Some (render v) = Some text /\ slen text <= compact_size v /\ utf8_valid text = true /\ from_text text = Some v.
Proof.
  intros Hw. exists (render v). split; [done|]. split; [by apply render_size|]. split; [by apply render_utf8|]. unfold from_text.
  pose proof (read_back v Hw (S (String.length (render v))) ltac:(lia) "" I) as Hr.
  rewrite append_nil in Hr. by rewrite Hr.
Qed.

#[export] Instance json_text : JsonText :=
  {| json_to_vec := fun v => Some (render v); json_from_slice := from_text; json_written v Hw _ := written_back v Hw |}.
End Compact.
