(* ===== verification/LedgerWire.v ===== *)
(** * The durable records as JSON

    What serde makes of the declarations of the submit record (cloud_submit_ledger.rs), the lifecycle
    record (cloud_lifecycle_ledger.rs) and the login record (ledger.rs), with the hand-written
    implementations for their identities (cloud_runner_types.rs, login_types.rs): the field and variant
    names the attributes give, unknown fields denied where they say so, and a nil identity refused.
    Every record the recordings make reads back as itself, and has a text within the limit of its
    file. *)
From S2P Require Import Prelude DomainValues CloudTypes CloudAdapter SubmitLedger LifecycleLedger LoginTypes LoginLedger Json.
From stdpp Require Import base numbers list strings option.
From Stdlib Require Import ZArith Lia.
Import Ids Str.

Open Scope Z_scope.

(** ** Identities *)

Section Wire.
Context `{UuidText}.

(** [Serialize] and [Deserialize for CloudSubmitOperationId]. *)
Definition ser_operation (op : CloudSubmitOperationId) : Json := ser_uuid (op_uuid op).
Definition de_operation : Decoder CloudSubmitOperationId := fun v =>
  u ← de_uuid v; if is_nil u then None else Some (mkOp u).

(** [LoginOperationId::try_from_uuid], [Serialize] and [Deserialize for LoginOperationId]. *)
Definition login_try_from_uuid (u : Uuid) : option LoginOperationId := if is_nil u then None else Some (mkLoginOp u).
Definition ser_login_operation (op : LoginOperationId) : Json := ser_uuid (login_uuid op).
Definition de_login_operation : Decoder LoginOperationId := fun v => u ← de_uuid v; login_try_from_uuid u.

(** ** The identity of a process (ledger.rs) *)

Definition PROCESS_FIELDS : list string := ["pid"; "startTimeTicks"].
Definition ser_process (p : Sub.ProcessIdentity) : Json :=
  ser_struct PROCESS_FIELDS [JInt (Sub.pid p); JInt (Sub.start_time_ticks p)].
Definition de_process : Decoder Sub.ProcessIdentity := fun v =>
  fs ← de_fields true PROCESS_FIELDS v;
  pid ← required de_u32 0 fs; ticks ← required de_u64 1 fs;
  Some (Sub.mkProcess pid ticks).

(** ** The submit record *)

Definition cloud_phase_name (p : Sub.CloudLedgerPhase) : string :=
  match p with
  | Sub.Intent => "intent" | Sub.Authorized => "authorized" | Sub.Started => "started"
  | Sub.TaskRecorded => "taskRecorded" | Sub.FailedBeforeSpawn => "failedBeforeSpawn"
  | Sub.OutcomeUnknown => "outcomeUnknown" | Sub.ReconciliationObserved => "reconciliationObserved"
  | Sub.TaskAdopted => "taskAdopted" | Sub.ExplicitlyAbandoned => "explicitlyAbandoned"
  end.
Definition CLOUD_PHASES : list (string * Sub.CloudLedgerPhase) :=
  (fun p => (cloud_phase_name p, p)) <$>
    [Sub.Intent; Sub.Authorized; Sub.Started; Sub.TaskRecorded; Sub.FailedBeforeSpawn; Sub.OutcomeUnknown;
     Sub.ReconciliationObserved; Sub.TaskAdopted; Sub.ExplicitlyAbandoned].
Definition ser_cloud_phase (p : Sub.CloudLedgerPhase) : Json := JString (cloud_phase_name p).
Definition de_cloud_phase : Decoder Sub.CloudLedgerPhase := de_unit_variant CLOUD_PHASES.

Definition SUBMIT_FIELDS : list string :=
  ["schemaVersion"; "operationId"; "environment"; "branch"; "process"; "taskId"; "candidateTaskIds";
   "reconciliationComplete"; "history"].
Definition ser_submit (l : Sub.CloudSubmitLedger) : Json :=
  ser_struct SUBMIT_FIELDS
    [JInt (Sub.schema_version l); ser_operation (Sub.operation_id l); JString (Sub.environment l);
     JString (Sub.branch l); ser_option ser_process (Sub.process l); ser_option JString (Sub.task_id l);
     ser_vec JString (Sub.candidate_task_ids l); ser_option JBool (Sub.reconciliation_complete l);
     ser_vec ser_cloud_phase (Sub.history l)].
Definition de_submit : Decoder Sub.CloudSubmitLedger := fun v =>
  fs ← de_fields true SUBMIT_FIELDS v;
  schema_version ← required de_u8 0 fs;
  operation_id ← required de_operation 1 fs;
  environment ← required de_string 2 fs;
  branch ← required de_string 3 fs;
  process ← optional de_process 4 fs;
  task_id ← optional de_string 5 fs;
  candidate_task_ids ← required (de_vec de_string) 6 fs;
  reconciliation_complete ← optional de_bool 7 fs;
  history ← required (de_vec de_cloud_phase) 8 fs;
  Some (Sub.mkLedger schema_version operation_id environment branch process task_id candidate_task_ids
          reconciliation_complete history).

(** ** The lifecycle record *)

(** The variant with a field is an object under its name; the attribute renames variants, not fields,
    and does not deny unknown fields in it. *)
Definition CANCELED_FIELDS : list string := ["provider_may_continue"].
Definition lifecycle_phase_name (p : Life.CloudLifecyclePhase) : string :=
  match p with
  | Life.Submitting => "submitting" | Life.FailedBeforeSubmit => "failedBeforeSubmit"
  | Life.OutcomeUnknown => "outcomeUnknown" | Life.Pending => "pending" | Life.Ready => "ready"
  | Life.Applied => "applied" | Life.ProviderError => "providerError"
  | Life.CanceledLocally _ => "canceledLocally" | Life.AbandonedUnknown => "abandonedUnknown"
  end.
Definition LIFECYCLE_UNIT_PHASES : list (string * Life.CloudLifecyclePhase) :=
  (fun p => (lifecycle_phase_name p, p)) <$>
    [Life.Submitting; Life.FailedBeforeSubmit; Life.OutcomeUnknown; Life.Pending; Life.Ready; Life.Applied;
     Life.ProviderError; Life.AbandonedUnknown].
Definition ser_lifecycle_phase (p : Life.CloudLifecyclePhase) : Json :=
  match p with
  | Life.CanceledLocally provider_may_continue =>
      JObject [(lifecycle_phase_name p, ser_struct CANCELED_FIELDS [JBool provider_may_continue])]
  | _ => JString (lifecycle_phase_name p)
  end.
Definition de_lifecycle_phase : Decoder Life.CloudLifecyclePhase := fun v =>
  match v with
  | JObject [(name, w)] =>
      if String.eqb name "canceledLocally" then
        fs ← de_fields false CANCELED_FIELDS w; b ← required de_bool 0 fs; Some (Life.CanceledLocally b)
      else de_unit_variant LIFECYCLE_UNIT_PHASES v
  | _ => de_unit_variant LIFECYCLE_UNIT_PHASES v
  end.

Definition LIFECYCLE_FIELDS : list string :=
  ["schemaVersion"; "operationId"; "phase"; "taskId"; "reconciliationGeneration"; "candidateTaskIds";
   "reconciliationComplete"; "history"].
Definition ser_lifecycle_ledger (l : Life.CloudLifecycleLedger) : Json :=
  ser_struct LIFECYCLE_FIELDS
    [JInt (Life.schema_version l); ser_operation (Life.operation_id l); ser_lifecycle_phase (Life.phase l);
     ser_option JString (Life.task_id l); JInt (Life.reconciliation_generation l);
     ser_vec JString (Life.candidate_task_ids l); ser_option JBool (Life.reconciliation_complete l);
     ser_vec ser_lifecycle_phase (Life.history l)].
Definition de_lifecycle_ledger : Decoder Life.CloudLifecycleLedger := fun v =>
  fs ← de_fields true LIFECYCLE_FIELDS v;
  schema_version ← required de_u8 0 fs;
  operation_id ← required de_operation 1 fs;
  phase ← required de_lifecycle_phase 2 fs;
  task_id ← optional de_string 3 fs;
  reconciliation_generation ← required de_u64 4 fs;
  candidate_task_ids ← required (de_vec de_string) 5 fs;
  reconciliation_complete ← optional de_bool 6 fs;
  history ← required (de_vec de_lifecycle_phase) 7 fs;
  Some (Life.mkLedger schema_version operation_id phase task_id reconciliation_generation candidate_task_ids
          reconciliation_complete history).

(** ** The login record *)

Definition login_phase_name (p : LedgerPhase) : string :=
  match p with
  | LPIntent => "intent" | LPStarted => "started" | LPDeviceInstructions => "deviceInstructions"
  | LPLoggedIn => "loggedIn" | LPLoggedOut => "loggedOut" | LPFailed => "failed"
  | LPOutcomeUnknown => "outcomeUnknown"
  end.
Definition LOGIN_PHASES : list (string * LedgerPhase) :=
  (fun p => (login_phase_name p, p)) <$>
    [LPIntent; LPStarted; LPDeviceInstructions; LPLoggedIn; LPLoggedOut; LPFailed; LPOutcomeUnknown].
Definition ser_login_phase (p : LedgerPhase) : Json := JString (login_phase_name p).
Definition de_login_phase : Decoder LedgerPhase := de_unit_variant LOGIN_PHASES.

Definition LOGIN_FIELDS : list string := ["schemaVersion"; "operationId"; "process"; "history"].
Definition ser_login_ledger (l : Ledger.LoginLedger) : Json :=
  ser_struct LOGIN_FIELDS
    [JInt (Ledger.schema_version l); ser_login_operation (Ledger.operation_id l);
     ser_option ser_process (Ledger.process l); ser_vec ser_login_phase (Ledger.history l)].
Definition de_login_ledger : Decoder Ledger.LoginLedger := fun v =>
  fs ← de_fields true LOGIN_FIELDS v;
  schema_version ← required de_u8 0 fs;
  operation_id ← required de_login_operation 1 fs;
  process ← optional de_process 2 fs;
  history ← required (de_vec de_login_phase) 3 fs;
  Some (Ledger.mkLedger schema_version operation_id process history).

(** ** Reading back *)

(** The fields are in the range of their Rust types. *)
Definition process_typed (p : Sub.ProcessIdentity) : Prop := in_u32 (Sub.pid p) /\ in_u64 (Sub.start_time_ticks p).

Lemma process_back p : process_typed p -> de_process (ser_process p) = Some p.
Proof.
  intros [Hp Ht]. unfold de_process, ser_process. struct_back.
  field_back (de_unsigned_back _ _ Hp). field_back (de_unsigned_back _ _ Ht). by destruct p.
Qed.

Lemma process_option_back o : (forall p, o = Some p -> process_typed p) -> de_option de_process (ser_option ser_process o) = Some o.
Proof. intros Ho. apply de_option_back. intros p Hp. split; [done|]. by apply process_back, Ho. Qed.

Lemma operation_back op : in_uuid (op_uuid op) -> is_nil (op_uuid op) = false -> de_operation (ser_operation op) = Some op.
Proof. intros Hu Hn. unfold de_operation, ser_operation. rewrite de_uuid_back by done. simpl. rewrite Hn. by destruct op. Qed.

Lemma login_operation_back op : in_uuid (login_uuid op) -> is_nil (login_uuid op) = false ->
  de_login_operation (ser_login_operation op) = Some op.
Proof.
  intros Hu Hn. unfold de_login_operation, ser_login_operation, login_try_from_uuid. rewrite de_uuid_back by done. simpl.
  rewrite Hn. by destruct op.
Qed.

Lemma strings_back l : de_vec de_string (ser_vec JString l) = Some l.
Proof. apply de_vec_back. by apply Forall_true. Qed.

Lemma string_option_back o : de_option de_string (ser_option JString o) = Some o.
Proof. apply de_option_back. intros. done. Qed.

Lemma bool_option_back o : de_option de_bool (ser_option JBool o) = Some o.
Proof. apply de_option_back. intros. done. Qed.

Lemma cloud_phase_back p : reads_back ser_cloud_phase de_cloud_phase p.
Proof. by destruct p. Qed.

Lemma lifecycle_phase_back p : reads_back ser_lifecycle_phase de_lifecycle_phase p.
Proof. by destruct p. Qed.

Lemma login_phase_back p : reads_back ser_login_phase de_login_phase p.
Proof. by destruct p. Qed.

Lemma phases_back {A} (f : A -> Json) d l : (forall p, reads_back f d p) -> de_vec d (ser_vec f l) = Some l.
Proof. intros Hp. apply de_vec_back. by apply Forall_true. Qed.

Lemma u8_back z : z = 1 -> de_u8 (JInt z) = Some z.
Proof. by intros ->. Qed.

(** What the types of the fields say beyond the validators. *)
Record submit_typed (l : Sub.CloudSubmitLedger) : Prop := {
  st_operation : in_uuid (op_uuid (Sub.operation_id l));
  st_process : forall p, Sub.process l = Some p -> process_typed p;
  st_environment : utf8_valid (Sub.environment l) = true;
  st_branch : utf8_valid (Sub.branch l) = true }.

Record lifecycle_typed (l : Life.CloudLifecycleLedger) : Prop := {
  lt_operation : in_uuid (op_uuid (Life.operation_id l));
  lt_generation : in_u64 (Life.reconciliation_generation l) }.

Record login_typed (l : Ledger.LoginLedger) : Prop := {
  gt_operation : in_uuid (login_uuid (Ledger.operation_id l));
  gt_process : forall p, Ledger.process l = Some p -> process_typed p }.

Lemma submit_back l : Sub.validate l = Ok tt -> submit_typed l -> de_submit (ser_submit l) = Some l.
Proof.
  intros [Hs Ho _ _ _ _ _ _ _ _ _ _ _ _ _]%Sub.submit_validate_iff [Hu Hp _ _]. unfold de_submit, ser_submit. struct_back.
  field_back (u8_back _ Hs). field_back (operation_back _ Hu Ho). field_back (eq_refl : de_string (JString (Sub.environment l)) = _).
  field_back (eq_refl : de_string (JString (Sub.branch l)) = _). field_back (process_option_back _ Hp).
  field_back (string_option_back (Sub.task_id l)). field_back (strings_back (Sub.candidate_task_ids l)).
  field_back (bool_option_back (Sub.reconciliation_complete l)).
  field_back (phases_back _ _ (Sub.history l) cloud_phase_back). by destruct l.
Qed.

Lemma lifecycle_ledger_back l : Life.validate l = Ok tt -> lifecycle_typed l -> de_lifecycle_ledger (ser_lifecycle_ledger l) = Some l.
Proof.
  intros [Hs Ho _ _ _ _ _ _ _ _ _]%Life.validate_iff [Hu Hg]. unfold de_lifecycle_ledger, ser_lifecycle_ledger. struct_back.
  field_back (u8_back _ Hs). field_back (operation_back _ Hu Ho). field_back (lifecycle_phase_back (Life.phase l)).
  field_back (string_option_back (Life.task_id l)). field_back (de_unsigned_back _ _ Hg).
  field_back (strings_back (Life.candidate_task_ids l)). field_back (bool_option_back (Life.reconciliation_complete l)).
  field_back (phases_back _ _ (Life.history l) lifecycle_phase_back). by destruct l.
Qed.

Lemma login_validated l : Ledger.validate l = Ok tt ->
  Ledger.schema_version l = 1 /\ is_nil (login_uuid (Ledger.operation_id l)) = false /\ len (Ledger.history l) <= Ledger.MAX_HISTORY_ENTRIES.
Proof.
  unfold Ledger.validate. intros Hv. destruct (negb (Ledger.schema_version l =? _)) eqn:E1; [done|].
  destruct (is_nil _) eqn:E2; [done|]. destruct (bool_decide (_ = [])); [done|]. destruct (Z.ltb_spec Ledger.MAX_HISTORY_ENTRIES (len (Ledger.history l))); [done|].
  apply negb_false_iff, Z.eqb_eq in E1. done.
Qed.

Lemma login_ledger_back l : Ledger.validate l = Ok tt -> login_typed l -> de_login_ledger (ser_login_ledger l) = Some l.
Proof.
  intros (Hs & Ho & _)%login_validated [Hu Hp]. unfold de_login_ledger, ser_login_ledger. struct_back.
  field_back (u8_back _ Hs). field_back (login_operation_back _ Hu Ho). field_back (process_option_back _ Hp).
  field_back (phases_back _ _ (Ledger.history l) login_phase_back). by destruct l.
Qed.

(** ** Depths *)

Lemma phase_depth p : (json_depth (ser_lifecycle_phase p) <= 2)%nat.
Proof. by destruct p; simpl; lia. Qed.
Lemma process_depth p : (json_depth (ser_process p) <= 1)%nat.
Proof. done. Qed.

Lemma submit_depth l : (json_depth (ser_submit l) <= MAX_DEPTH)%nat.
Proof.
  unfold ser_submit. struct_depth 3%nat.
  1: apply depth_option; intros p; pose proof (process_depth p); lia.
  1,3: apply depth_option; intros; simpl; lia.
  all: apply (depth_vec _ _ 2%nat); intros; simpl; lia.
Qed.

Lemma lifecycle_ledger_depth l : (json_depth (ser_lifecycle_ledger l) <= MAX_DEPTH)%nat.
Proof.
  unfold ser_lifecycle_ledger. struct_depth 3%nat.
  - pose proof (phase_depth (Life.phase l)). lia.
  - apply depth_option; intros; simpl; lia.
  - apply (depth_vec _ _ 2%nat); intros; simpl; lia.
  - apply depth_option; intros; simpl; lia.
  - apply (depth_vec _ _ 2%nat), phase_depth.
Qed.

Lemma login_ledger_depth l : (json_depth (ser_login_ledger l) <= MAX_DEPTH)%nat.
Proof.
  unfold ser_login_ledger. struct_depth 3%nat.
  - apply depth_option; intros p; pose proof (process_depth p); lia.
  - apply (depth_vec _ _ 2%nat); intros; simpl; lia.
Qed.

(** ** Sizes *)

(** A value that can be written, in at most [k] bytes. *)
Definition fits (k : Z) (v : Json) : Prop := writable v = true /\ compact_size v <= k.

Lemma task_byte_plain c : task_id_byte c = true -> ascii_byte c && (char_size c =? 1) = true.
Proof. destruct c as [[] [] [] [] [] [] [] []]; vm_compute; intros Hc; (done || discriminate Hc). Qed.

Lemma task_fits s : valid_task (mkTask s) -> fits 130 (JString s).
Proof.
  intros (_ & Hl & Hb)%valid_task_facts. simpl in Hl, Hb. destruct (chars_size_plain s) as [Hs Hu].
  { revert Hb. apply all_bytes_impl. apply task_byte_plain. }
  split; [exact Hu|]. simpl. unfold string_size, MAX_TASK_ID_BYTES in *. lia.
Qed.

Lemma text_fits s k : utf8_valid s = true -> slen s <= k -> fits (2 + 6 * k) (JString s).
Proof. intros Hu Hk. split; [done|]. pose proof (chars_size_bounds s). simpl. unfold string_size. lia. Qed.

Lemma vec_fits {A} (f : A -> Json) k n l : Forall (fun x => fits k (f x)) l -> 0 <= k -> len l <= n -> fits (2 + (k + 1) * n) (ser_vec f l).
Proof.
  intros Hl Hk Hn. split; [apply writable_vec; eapply Forall_impl; [|exact Hl]; by intros x []|].
  pose proof (array_size_bound f k l) as Hs. unfold array_size in Hs. simpl.
  assert (Hb : Forall (fun x => compact_size (f x) <= k) l) by (eapply Forall_impl; [|exact Hl]; by intros x []). specialize (Hs Hb). nia.
Qed.

Lemma option_fits {A} (f : A -> Json) k o : (forall x, o = Some x -> fits k (f x)) -> 5 <= k -> fits k (ser_option f o).
Proof. intros Ho Hk. destruct o as [x|]; [by apply Ho|]. split; [done|]. simpl. lia. Qed.

Lemma int_fits z max : max <= u64_max -> 0 <= z <= max -> fits 20 (JInt z).
Proof. intros Hm [H1 H2]. split; [|done]. simpl. apply andb_true_iff. split; apply Z.leb_le; lia. Qed.

Lemma process_fits p : process_typed p -> fits 80 (ser_process p).
Proof.
  intros [Hp Ht]. destruct (int_fits _ u32_max ltac:(done) Hp) as [W1 _]. destruct (int_fits _ u64_max ltac:(done) Ht) as [W2 _].
  split; [|by vm_compute]. apply writable_struct; [by vm_compute|]. cbn [forallb]. by rewrite W1, W2.
Qed.

Lemma uuid_fits u : in_uuid u -> fits 38 (ser_uuid u).
Proof. intros Hu. destruct (writable_uuid u Hu) as [? E]. split; [done|by rewrite E]. Qed.

Lemma cloud_phase_fits p : fits 24 (ser_cloud_phase p).
Proof. by destruct p. Qed.
Lemma lifecycle_phase_fits p : fits 55 (ser_lifecycle_phase p).
Proof. by destruct p as [| | | | | | |[]|]. Qed.
Lemma login_phase_fits p : fits 20 (ser_login_phase p).
Proof. by destruct p. Qed.

(** The sizes of the parts of a struct, with its declared names. *)
Lemma struct_fits names vs ks : Forall2 fits ks vs -> forallb utf8_valid names = true -> length names = length ks ->
  fits (2 + foldr (fun e acc => string_size e.1 + e.2 + 2 + acc) 0 (zip names ks)) (ser_struct names vs).
Proof.
  intros Hf Hn Hl. split.
  - apply writable_struct; [done|]. clear Hn Hl. induction Hf as [|k v ks vs [Hw _] _ IH]; [done|]. simpl. by rewrite Hw.
  - cbn [ser_struct compact_size]. apply Z.add_le_mono_l. revert names Hn Hl.
    induction Hf as [|k v ks vs [_ Hk] _ IH]; intros [|name names] Hn Hl; try done.
    cbn [forallb] in Hn. apply andb_true_iff in Hn as [_ Hn]. injection Hl as Hl. specialize (IH names Hn Hl).
    cbn [zip_with foldr fst snd]. lia.
Qed.

Lemma submit_fits l : Sub.validate l = Ok tt -> submit_typed l -> slen (Sub.environment l) <= MAX_ENVIRONMENT_BYTES ->
  slen (Sub.branch l) <= MAX_BRANCH_BYTES -> fits (64 * 1024) (ser_submit l).
Proof.
  intros [Hs Ho Hlen _ _ _ _ _ _ Ht _ Hcl Hc _ _]%Sub.submit_validate_iff [Hu Hp He Hb] Hel Hbl.
  destruct (struct_fits SUBMIT_FIELDS
    [JInt (Sub.schema_version l); ser_operation (Sub.operation_id l); JString (Sub.environment l);
     JString (Sub.branch l); ser_option ser_process (Sub.process l); ser_option JString (Sub.task_id l);
     ser_vec JString (Sub.candidate_task_ids l); ser_option JBool (Sub.reconciliation_complete l);
     ser_vec ser_cloud_phase (Sub.history l)] [20; 38; 2 + 6 * 256; 2 + 6 * 255; 80; 130; 2 + 131 * 100; 5; 2 + 25 * 32])
    as [Hw Hk]; [|done|done|].
  - repeat apply Forall2_cons_2; try apply Forall2_nil_2.
    + by rewrite Hs.
    + by apply uuid_fits.
    + by apply text_fits.
    + by apply text_fits.
    + apply option_fits; [|lia]. intros p E. by apply process_fits, Hp.
    + apply option_fits; [|lia]. intros t E. by apply task_fits, Ht.
    + apply (vec_fits JString 130 100); [|lia|done]. eapply Forall_impl; [|exact Hc]. intros. by apply task_fits.
    + by apply option_fits.
    + apply (vec_fits ser_cloud_phase 24 32); [|lia|done]. apply Forall_true. apply cloud_phase_fits.
  - split; [exact Hw|]. etrans; [exact Hk|]. by vm_compute.
Qed.

Lemma lifecycle_fits l : Life.validate l = Ok tt -> lifecycle_typed l -> fits (64 * 1024) (ser_lifecycle_ledger l).
Proof.
  intros [Hs Ho Hlen _ _ _ Ht Hcl Hc _ _]%Life.validate_iff [Hu Hg].
  destruct (struct_fits LIFECYCLE_FIELDS
    [JInt (Life.schema_version l); ser_operation (Life.operation_id l); ser_lifecycle_phase (Life.phase l);
     ser_option JString (Life.task_id l); JInt (Life.reconciliation_generation l);
     ser_vec JString (Life.candidate_task_ids l); ser_option JBool (Life.reconciliation_complete l);
     ser_vec ser_lifecycle_phase (Life.history l)] [20; 38; 55; 130; 20; 2 + 131 * 100; 5; 2 + 56 * 32])
    as [Hw Hk]; [|done|done|].
  - repeat apply Forall2_cons_2; try apply Forall2_nil_2.
    + by rewrite Hs.
    + by apply uuid_fits.
    + apply lifecycle_phase_fits.
    + apply option_fits; [|lia]. intros t E. rewrite E in Ht. apply task_fits, Ht.
    + by apply (int_fits _ u64_max).
    + apply (vec_fits JString 130 100); [|lia|done]. eapply Forall_impl; [|exact Hc]. intros. by apply task_fits.
    + by apply option_fits.
    + apply (vec_fits ser_lifecycle_phase 55 32); [|lia|done]. apply Forall_true. apply lifecycle_phase_fits.
  - split; [exact Hw|]. etrans; [exact Hk|]. by vm_compute.
Qed.

Lemma login_fits l : Ledger.validate l = Ok tt -> login_typed l -> fits (64 * 1024) (ser_login_ledger l).
Proof.
  intros (Hs & Ho & Hlen)%login_validated [Hu Hp].
  destruct (struct_fits LOGIN_FIELDS
    [JInt (Ledger.schema_version l); ser_login_operation (Ledger.operation_id l);
     ser_option ser_process (Ledger.process l); ser_vec ser_login_phase (Ledger.history l)] [20; 38; 80; 2 + 21 * 32])
    as [Hw Hk]; [|done|done|].
  - repeat apply Forall2_cons_2; try apply Forall2_nil_2.
    + by rewrite Hs.
    + by apply uuid_fits.
    + apply option_fits; [|lia]. intros p E. by apply process_fits, Hp.
    + apply (vec_fits ser_login_phase 20 32); [|lia|done]. apply Forall_true. apply login_phase_fits.
  - split; [exact Hw|]. etrans; [exact Hk|]. by vm_compute.
Qed.
End Wire.
