(* ===== verification/LedgerFiles.v ===== *)
(** * The durable records as files of bytes

    Loading and persisting the three records at the level of bytes: the checks on the file, the limits
    on its size before and after reading, decoding, validation; and encoding, the temporary file, the
    rename and the sync of the directory (cloud_submit_ledger.rs, cloud_lifecycle_ledger.rs, ledger.rs).
    The three pairs of functions differ in their types and errors alone, which a [Format] holds.

    The models of the runner, the orchestrator and the broker keep a file as the record it decodes to.
    The last part shows that they may: the byte level refines them. *)
From S2P Require Import Prelude Effects DomainValues CloudTypes CloudAdapter SubmitLedger LifecycleLedger LoginTypes LoginLedger CloudRunner Orchestrator Json JsonCompact LedgerWire.
From stdpp Require Import base numbers list strings option.
From Stdlib Require Import ZArith Lia.
Import Ids Str.

Open Scope Z_scope.

(** What distinguishes the three kinds of file.  [fm_cleans]: the temporary file is removed when the
    replacement failed; the login record's is not. *)
Record Format (A E : Type) := mkFormat {
  fm_ser : A -> Json; fm_de : Decoder A; fm_validate : A -> result E unit; fm_invalid : E; fm_unavailable : E;
  fm_cleans : bool }.
Arguments fm_cleans {A E}. Arguments mkFormat {A E}. Arguments fm_ser {A E}. Arguments fm_de {A E}. Arguments fm_validate {A E}.
Arguments fm_invalid {A E}. Arguments fm_unavailable {A E}.

Definition MAX_FILE_BYTES : Z := 64 * 1024.

(** What the system answers while a file is read: an error of [open] other than a missing file, the
    metadata with the length, whether reading succeeds. *)
Record ReadOs := mkReadOs {
  ro_open : option Ledger.OpenError; ro_meta : option Ledger.FileMeta; ro_length : option Z; ro_read_ok : bool }.

(** And while one is replaced. *)
Record WriteOs := mkWriteOs {
  wo_open_ok : bool; wo_chmod_ok : bool; wo_meta : option Ledger.FileMeta; wo_write_ok : bool;
  wo_rename_ok : bool; wo_sync_ok : bool; wo_remove_ok : bool }.

(** The directory: the bytes of the record's file, and whether the temporary path the operation would
    use exists. *)
Record Dir := mkDir { d_file : option string; d_temporary : bool }.

Section Files.
Context `{JsonText} {A E : Type} (f : Format A E).

(** [validate_cloud_ledger_file], [validate_lifecycle_file], [validate_ledger_file]. *)
Definition validate_file (meta : option Ledger.FileMeta) (runner_uid : Z) : result E unit :=
  match meta with
  | None => Err (fm_unavailable f)
  | Some m =>
      if negb (Ledger.fm_is_file m) || negb (Ledger.fm_uid m =? runner_uid)
         || negb (Z.land (Ledger.fm_mode m) 4095 =? 384) || negb (Ledger.fm_nlink m =? 1)
      then Err (fm_invalid f) else Ok tt
  end.

(** [file.take(n).read_to_end]. *)
Definition take_bytes (n : Z) (content : string) : string := String.substring 0 (Z.to_nat n) content.

Definition decode (bytes : string) : option A := v ← json_from_slice bytes; fm_de f v.

(** [load_cloud_ledger], [load_lifecycle_ledger], [load_ledger]. *)
Definition load (os : ReadOs) (runner_uid : Z) (file : option string) : result E (option A) :=
  match ro_open os with
  | Some Ledger.OpenLoop => Err (fm_invalid f)
  | Some Ledger.OpenOther => Err (fm_unavailable f)
  | None =>
      match file with
      | None => Ok None
      | Some content =>
          let? _ := validate_file (ro_meta os) runner_uid in
          let? length := ok_or (ro_length os) (fm_unavailable f) in
          if MAX_FILE_BYTES <? length then Err (fm_invalid f)
          else if negb (ro_read_ok os) then Err (fm_unavailable f)
          else
          let bytes := take_bytes (MAX_FILE_BYTES + 1) content in
          if MAX_FILE_BYTES <? slen bytes then Err (fm_invalid f)
          else
          let? l := ok_or (decode bytes) (fm_invalid f) in
          let? _ := fm_validate f l in
          Ok (Some l)
      end
  end.

(** [persist_replacement], and the part of [persist_ledger] it is written out in. *)
Definition persist_replacement (os : WriteOs) (runner_uid : Z) (bytes : string) (d : Dir) : Dir * result E unit :=
  if d_temporary d || negb (wo_open_ok os) then (d, Err (fm_unavailable f))
  else
  let created := mkDir (d_file d) true in
  if negb (wo_chmod_ok os) then (created, Err (fm_unavailable f))
  else
  match validate_file (wo_meta os) runner_uid with
  | Err e => (created, Err e)
  | Ok _ =>
      if negb (wo_write_ok os) then (created, Err (fm_unavailable f))
      else if negb (wo_rename_ok os) then (created, Err (fm_unavailable f))
      else (mkDir (Some bytes) false, if wo_sync_ok os then Ok tt else Err (fm_unavailable f))
  end.

(** [persist_cloud_ledger], [persist_lifecycle_ledger], [persist_ledger]. *)
Definition persist (os : WriteOs) (runner_uid : Z) (l : A) (d : Dir) : Dir * result E unit :=
  match fm_validate f l with
  | Err e => (d, Err e)
  | Ok _ =>
      match json_to_vec (fm_ser f l) with
      | None => (d, Err (fm_invalid f))
      | Some bytes =>
          if MAX_FILE_BYTES <? slen bytes then (d, Err (fm_invalid f))
          else
          let '(d', result) := persist_replacement os runner_uid bytes d in
          (if fm_cleans f && is_err result && wo_remove_ok os then mkDir (d_file d') false else d', result)
      end
  end.

(** [remove_lifecycle_ledger]: open, the checks, [remove_file], the sync of the directory. *)
Definition remove (os : WriteOs) (runner_uid : Z) (d : Dir) : Dir * result E unit :=
  match d_file d with
  | None => (d, Err (fm_unavailable f))
  | Some _ =>
      if negb (wo_open_ok os) then (d, Err (fm_unavailable f))
      else
      match validate_file (wo_meta os) runner_uid with
      | Err e => (d, Err e)
      | Ok _ =>
          if negb (wo_remove_ok os) then (d, Err (fm_unavailable f))
          else (mkDir None (d_temporary d), if wo_sync_ok os then Ok tt else Err (fm_unavailable f))
      end
  end.

(** ** What a file holds *)

(** The file is missing, or decodes within its limit to a valid record. *)
Definition holds (file : option string) (record : option A) : Prop :=
  match file, record with
  | None, None => True
  | Some bytes, Some l => slen bytes <= MAX_FILE_BYTES /\ decode bytes = Some l /\ fm_validate f l = Ok tt
  | _, _ => False
  end.

(** A record that is valid, fits in its file, is not nested too deep and reads back. *)
Definition storable (l : A) : Prop :=
  fm_validate f l = Ok tt /\ (fits MAX_FILE_BYTES (fm_ser f l) /\ (json_depth (fm_ser f l) <= MAX_DEPTH)%nat) /\
  fm_de f (fm_ser f l) = Some l.

Lemma substring_length n content : slen (String.substring 0 n content) = Z.min (Z.of_nat n) (slen content).
Proof.
  revert n. unfold slen. induction content as [|c s IH]; intros [|n]; simpl; try lia. specialize (IH n). lia.
Qed.

Lemma short_take content : slen (take_bytes (MAX_FILE_BYTES + 1) content) <= MAX_FILE_BYTES ->
  take_bytes (MAX_FILE_BYTES + 1) content = content.
Proof.
  unfold take_bytes. rewrite substring_length. intros Hl.
  assert (Hn : (String.length content <= Z.to_nat (MAX_FILE_BYTES + 1))%nat) by (unfold slen, MAX_FILE_BYTES in *; lia).
  clear Hl. revert Hn. generalize (Z.to_nat (MAX_FILE_BYTES + 1)). induction content as [|c s IH]; intros [|n] Hn; simpl in *; try done; [lia|].
  f_equal. apply IH. lia.
Qed.

Lemma take_all content : slen content <= MAX_FILE_BYTES -> take_bytes (MAX_FILE_BYTES + 1) content = content.
Proof. intros Hl. apply short_take. unfold take_bytes. rewrite substring_length. lia. Qed.

(** What a load of a held record answers: the record, or an error the system caused. *)
Lemma load_held os uid file record : holds file record ->
  load os uid file = Ok record \/ load os uid file = Err (fm_invalid f) \/ load os uid file = Err (fm_unavailable f).
Proof.
  intros Hh. unfold load. destruct (ro_open os) as [[]|]; [auto..|]. destruct file as [bytes|], record as [l|]; try done; [|auto].
  destruct Hh as (Hl & Hd & Hv). unfold validate_file. destruct (ro_meta os) as [m|]; [|auto].
  destruct (_ || _); [auto|]. destruct (ro_length os) as [n|]; simpl; [|auto]. destruct (_ <? n); [auto|].
  destruct (ro_read_ok os); simpl; [|auto]. rewrite take_all by done. rewrite (proj2 (Z.ltb_ge _ _) Hl), Hd. simpl. rewrite Hv. auto.
Qed.

Lemma storable_bytes l : storable l -> exists bytes,
  json_to_vec (fm_ser f l) = Some bytes /\ slen bytes <= MAX_FILE_BYTES /\ holds (Some bytes) (Some l).
Proof.
  intros (Hv & [[Hw Hk] Hn] & Hd). destruct (json_written _ Hw Hn) as (bytes & Ht & Hs & _ & Hr).
  exists bytes. split; [done|]. split; [lia|]. split; [lia|]. split; [|done]. unfold decode. by rewrite Hr.
Qed.

(** How a replacement ends: before the rename with the file as it was, or after it. *)
Lemma persist_held os uid l d : storable l -> exists bytes t, holds (Some bytes) (Some l) /\
  (persist os uid l d = (mkDir (d_file d) t, Err (fm_invalid f)) \/ persist os uid l d = (mkDir (d_file d) t, Err (fm_unavailable f)) \/
   persist os uid l d = (mkDir (Some bytes) false, Ok tt) \/ persist os uid l d = (mkDir (Some bytes) false, Err (fm_unavailable f))).
Proof.
  intros Hs. destruct (storable_bytes l Hs) as (bytes & Ht & Hl & Hh).
  exists bytes, (d_temporary (fst (persist os uid l d))). split; [done|].
  unfold persist. destruct Hs as [Hv _]. rewrite Hv, Ht, (proj2 (Z.ltb_ge _ _) Hl). unfold persist_replacement, validate_file.
  destruct d as [file t]. simpl.
  destruct t, (wo_open_ok os), (wo_chmod_ok os), (wo_meta os) as [m|]; simpl; try (destruct (_ || _)); simpl;
    destruct (wo_write_ok os), (wo_rename_ok os), (wo_sync_ok os), (fm_cleans f), (wo_remove_ok os); simpl; auto.
Qed.

(** A replacement that removes its temporary file leaves none. *)
Lemma persist_cleans os uid l d : fm_cleans f = true -> wo_remove_ok os = true -> storable l ->
  d_temporary (fst (persist os uid l d)) = false.
Proof.
  intros Hc Hr Hs. destruct (storable_bytes l Hs) as (bytes & Ht & Hl & _). unfold persist. destruct Hs as [Hv _].
  rewrite Hv, Ht, (proj2 (Z.ltb_ge _ _) Hl), Hc, Hr. destruct (persist_replacement os uid bytes d) as [d' r] eqn:Ep.
  destruct r as [[]|]; [|done]. revert Ep. unfold persist_replacement. repeat case_match; intros Ep; simplify_eq; done.
Qed.

(** How a removal ends. *)
Lemma remove_held os uid d record : holds (d_file d) record -> record <> None ->
  remove os uid d = (d, Err (fm_invalid f)) \/ remove os uid d = (d, Err (fm_unavailable f)) \/
  remove os uid d = (mkDir None (d_temporary d), Ok tt) \/ remove os uid d = (mkDir None (d_temporary d), Err (fm_unavailable f)).
Proof.
  intros Hh Hn. unfold remove. destruct (d_file d) as [bytes|], record as [l|]; try done. unfold validate_file.
  destruct (wo_open_ok os), (wo_meta os) as [m|]; simpl; try (destruct (_ || _)); simpl; auto;
    destruct (wo_remove_ok os), (wo_sync_ok os); simpl; auto.
Qed.

(** Answers with which every step succeeds. *)
Definition good_meta (runner_uid : Z) : option Ledger.FileMeta := Some (Ledger.mkFileMeta true runner_uid 384 1).
Definition good_write (runner_uid : Z) : WriteOs := mkWriteOs true true (good_meta runner_uid) true true true true.
Definition good_read (runner_uid length : Z) : ReadOs := mkReadOs None (good_meta runner_uid) (Some length) true.

Lemma stored_and_loaded l uid file : storable l -> exists bytes,
  persist (good_write uid) uid l (mkDir file false) = (mkDir (Some bytes) false, Ok tt) /\ slen bytes <= MAX_FILE_BYTES /\
  load (good_read uid (slen bytes)) uid (Some bytes) = Ok (Some l).
Proof.
  intros Hs. destruct (storable_bytes l Hs) as (bytes & Ht & Hl & _ & Hd & Hv). exists bytes.
  assert (Hm : validate_file (good_meta uid) uid = Ok tt) by (simpl; by rewrite Z.eqb_refl). split_and!; [|done|].
  - unfold persist. rewrite Hv, Ht, (proj2 (Z.ltb_ge _ _) Hl). unfold persist_replacement. cbn [good_write wo_open_ok wo_chmod_ok wo_meta negb d_temporary orb].
    rewrite Hm. simpl. by rewrite andb_false_r.
  - unfold load. cbn [good_read ro_open ro_meta ro_length ro_read_ok negb]. rewrite Hm. cbn [ok_or].
    rewrite take_all, (proj2 (Z.ltb_ge _ _) Hl), Hd by done. cbn [ok_or]. by rewrite Hv.
Qed.
End Files.

(** A load that answers a record has read a file that holds it, whatever was in the file. *)
Lemma load_sound `{JsonText} {A E} (f : Format A E) os uid file record : load f os uid file = Ok record -> holds f file record.
Proof.
  unfold load. destruct (ro_open os) as [[]|]; try done. destruct file as [content|]; [|by intros [= <-]].
  destruct (validate_file f (ro_meta os) uid) as [[]|]; [|done]. destruct (ro_length os) as [n|]; simpl; [|done].
  destruct (_ <? n); [done|]. destruct (ro_read_ok os); simpl; [|done].
  destruct (MAX_FILE_BYTES <? slen (take_bytes _ content)) eqn:El; [done|]. apply Z.ltb_ge in El.
  assert (Hc : take_bytes (MAX_FILE_BYTES + 1) content = content) by (by apply short_take).
  rewrite Hc in *. destruct (decode f content) as [l|] eqn:Ed; simpl; [|done].
  destruct (fm_validate f l) as [[]|] eqn:Ev; [|done]. by intros [= <-].
Qed.

(** ** The three records *)

Section Records.
Context `{JsonText} `{UuidText}.

Definition submit_format : Format Sub.CloudSubmitLedger CloudRunnerError :=
  mkFormat ser_submit de_submit Sub.validate (run_err RunLedgerInvalid) (run_err RunLedgerUnavailable) true.
Definition lifecycle_format : Format Life.CloudLifecycleLedger CloudLifecycleError :=
  mkFormat ser_lifecycle_ledger de_lifecycle_ledger Life.validate Life.invalid_ledger Life.unavailable_ledger true.
Definition login_format : Format Ledger.LoginLedger LoginBrokerError :=
  mkFormat ser_login_ledger de_login_ledger Ledger.validate LBLedgerInvalid LBLedgerUnavailable false.

(** A submission's names are those a [CloudEnvironmentId] and a [CloudBranch] can have. *)
Record submit_value (l : Sub.CloudSubmitLedger) : Prop := {
  sv_typed : submit_typed l;
  sv_environment : slen (Sub.environment l) <= MAX_ENVIRONMENT_BYTES;
  sv_branch : slen (Sub.branch l) <= MAX_BRANCH_BYTES }.

Lemma submit_storable l : Sub.validate l = Ok tt -> submit_value l -> storable submit_format l.
Proof. intros Hv [Ht He Hb]. split_and!; [done|by apply submit_fits|apply submit_depth|by apply submit_back]. Qed.

Lemma lifecycle_storable l : Life.validate l = Ok tt -> lifecycle_typed l -> storable lifecycle_format l.
Proof. intros Hv Ht. split_and!; [done|by apply lifecycle_fits|apply lifecycle_ledger_depth|by apply lifecycle_ledger_back]. Qed.

Lemma login_storable l : Ledger.validate l = Ok tt -> login_typed l -> storable login_format l.
Proof. intros Hv Ht. split_and!; [done|by apply login_fits|apply login_ledger_depth|by apply login_ledger_back]. Qed.

(** ** The models above keep records *)

Definition submit_host (record : option Sub.CloudSubmitLedger) (w : Runner.WriteOutcome) (h : Runner.Host) (n : nat) : Runner.Host :=
  Runner.mkHost record (Runner.lifecycle_file h) (Runner.execs h) (w :: Runner.writes h) (S n).

Definition lifecycle_host (record : option Life.CloudLifecycleLedger) (w : Runner.WriteOutcome) (h : Runner.Host) (n : nat) : Runner.Host :=
  Runner.mkHost (Runner.submit_file h) record (Runner.execs h) (w :: Runner.writes h) (S n).

Definition login_host (record : option Ledger.LoginLedger) (w : Ledger.PersistOs) (h : Ledger.Host) (n : nat) : Ledger.Host :=
  Ledger.mkHost record (Ledger.temps h) (Ledger.active h) (Ledger.logins h) (Ledger.files h) (w :: Ledger.writes h) (S (S n)).

Definition login_load_os (os : ReadOs) (file : option string) : Ledger.LoadOs :=
  Ledger.mkLoadOs (ro_open os) (ro_meta os) (ro_length os)
    (if ro_read_ok os then Some (slen (take_bytes (MAX_FILE_BYTES + 1) (default "" file))) else None) true.

Definition login_persist_os (os : WriteOs) (bytes : string) : Ledger.PersistOs :=
  Ledger.mkPersistOs (slen bytes) (wo_open_ok os) (wo_chmod_ok os) (wo_meta os) (wo_write_ok os) (wo_rename_ok os) (wo_sync_ok os).

Lemma submit_load_refined os uid file record : holds submit_format file record ->
  exists c, forall a h, Runner.a_load_error a = c -> Runner.submit_file h = record ->
  Runner.load_cloud_ledger a h = Done (load submit_format os uid file) h.
Proof.
  intros Hh. assert (Hg : forall h, Runner.submit_file h = record -> match Runner.submit_file h with
    | None => ret (Ok None) | Some l => match Sub.validate l with Ok _ => ret (Ok (Some l)) | Err e => ret (Err e) end end h
    = Done (Ok record) h).
  { intros h ->. destruct record as [l|]; [|done]. destruct file as [b|]; [|done]. destruct Hh as (_ & _ & Hv). cbn in Hv. by rewrite Hv. }
  destruct (load_held submit_format os uid file record Hh) as [El|[El|El]].
  - exists None. intros a h Ha Hr. unfold Runner.load_cloud_ledger, bind, get. rewrite Ha, El. by apply Hg.
  - exists (Some RunLedgerInvalid). intros a h Ha Hr. unfold Runner.load_cloud_ledger, bind, get. by rewrite Ha, El.
  - exists (Some RunLedgerUnavailable). intros a h Ha Hr. unfold Runner.load_cloud_ledger, bind, get. by rewrite Ha, El.
Qed.

Lemma lifecycle_load_refined os uid file record : holds lifecycle_format file record ->
  exists c, forall a h, Runner.a_lifecycle_load_error a = c -> Runner.lifecycle_file h = record ->
  Runner.load_lifecycle_ledger a h = Done (load lifecycle_format os uid file) h.
Proof.
  intros Hh. assert (Hg : forall h, Runner.lifecycle_file h = record -> match Runner.lifecycle_file h with
    | None => ret (Ok None) | Some l => match Life.validate l with Ok _ => ret (Ok (Some l)) | Err e => ret (Err e) end end h
    = Done (Ok record) h).
  { intros h ->. destruct record as [l|]; [|done]. destruct file as [b|]; [|done]. destruct Hh as (_ & _ & Hv). cbn in Hv. by rewrite Hv. }
  destruct (load_held lifecycle_format os uid file record Hh) as [El|[El|El]].
  - exists None. intros a h Ha Hr. unfold Runner.load_lifecycle_ledger, bind, get. rewrite Ha, El. by apply Hg.
  - exists (Some ELedgerInvalid). intros a h Ha Hr. unfold Runner.load_lifecycle_ledger, bind, get. by rewrite Ha, El.
  - exists (Some ELedgerUnavailable). intros a h Ha Hr. unfold Runner.load_lifecycle_ledger, bind, get. by rewrite Ha, El.
Qed.

Lemma login_load_refined os uid file record : holds login_format file record ->
  Ledger.load_ledger record (login_load_os os file) uid = load login_format os uid file.
Proof.
  intros Hh. unfold Ledger.load_ledger, load, login_load_os. cbn [Ledger.lo_open Ledger.lo_meta Ledger.lo_length Ledger.lo_read Ledger.lo_decodes].
  destruct (ro_open os) as [[]|]; [done..|]. destruct file as [bytes|], record as [l|]; try done.
  destruct Hh as (Hl & Hd & Hv). change (validate_file login_format) with Ledger.validate_ledger_file.
  destruct (Ledger.validate_ledger_file _ _); [|done]. destruct (ro_length os) as [n|]; [|done]. cbn [ok_or].
  change Ledger.MAX_LEDGER_BYTES with MAX_FILE_BYTES. destruct (_ <? n); [done|]. destruct (ro_read_ok os); [|done]. cbn [ok_or negb default from_option]. change (id bytes) with bytes.
  rewrite !take_all by done. rewrite (proj2 (Z.ltb_ge _ _) Hl), Hd. done.
Qed.

Lemma submit_persist_refined os uid l d record : submit_value l -> holds submit_format (d_file d) record ->
  exists w, forall h n, exists h',
  Runner.persist_cloud_ledger l (submit_host record w h n) = Done (snd (persist submit_format os uid l d)) h' /\
  holds submit_format (d_file (fst (persist submit_format os uid l d))) (Runner.submit_file h').
Proof.
  intros Hsv Hh. unfold Runner.persist_cloud_ledger. destruct (Sub.validate l) as [[]|e] eqn:Ev.
  2:{ exists Runner.WOk. intros h n. eexists. unfold persist. cbn [submit_format fm_validate]. by rewrite Ev. }
  destruct (persist_held submit_format os uid l d (submit_storable l Ev Hsv)) as (bytes & t & Hb & [->|[->|[->| ->]]]).
  - exists (Runner.WFailBefore RunLedgerInvalid). intros h n. by eexists.
  - exists (Runner.WFailBefore RunLedgerUnavailable). intros h n. by eexists.
  - exists Runner.WOk. intros h n. by eexists.
  - exists Runner.WFailAfter. intros h n. by eexists.
Qed.

Lemma lifecycle_persist_refined os uid l d record : lifecycle_typed l -> holds lifecycle_format (d_file d) record ->
  exists w, forall h n, exists h',
  persist_lifecycle_ledger l (lifecycle_host record w h n) = Done (snd (persist lifecycle_format os uid l d)) h' /\
  holds lifecycle_format (d_file (fst (persist lifecycle_format os uid l d))) (Runner.lifecycle_file h').
Proof.
  intros Hsv Hh. unfold persist_lifecycle_ledger. destruct (Life.validate l) as [[]|e] eqn:Ev.
  2:{ exists Runner.WOk. intros h n. eexists. unfold persist. cbn [lifecycle_format fm_validate]. by rewrite Ev. }
  destruct (persist_held lifecycle_format os uid l d (lifecycle_storable l Ev Hsv)) as (bytes & t & Hb & [->|[->|[->| ->]]]).
  - exists (Runner.WFailBefore RunLedgerInvalid). intros h n. by eexists.
  - exists (Runner.WFailBefore RunLedgerUnavailable). intros h n. by eexists.
  - exists Runner.WOk. intros h n. by eexists.
  - exists Runner.WFailAfter. intros h n. by eexists.
Qed.

Lemma lifecycle_remove_refined os uid d record : holds lifecycle_format (d_file d) record ->
  exists w, forall h n, exists h',
  remove_lifecycle_ledger (lifecycle_host record w h n) = Done (snd (remove lifecycle_format os uid d)) h' /\
  holds lifecycle_format (d_file (fst (remove lifecycle_format os uid d))) (Runner.lifecycle_file h').
Proof.
  intros Hh. destruct record as [l|].
  2:{ exists Runner.WOk. intros h n. eexists. unfold remove. destruct (d_file d) as [bytes|] eqn:Ef; [done|]. split; [done|]. simpl. by rewrite Ef. }
  destruct (remove_held lifecycle_format os uid d (Some l) Hh) as [->|[->|[->| ->]]]; [done|..].
  - exists (Runner.WFailBefore RunLedgerInvalid). intros h n. by eexists.
  - exists (Runner.WFailBefore RunLedgerUnavailable). intros h n. by eexists.
  - exists Runner.WOk. intros h n. by eexists.
  - exists Runner.WFailAfter. intros h n. by eexists.
Qed.

(** The temporary paths the broker's model keeps, as this one's directory has the operation's. *)
Definition temporary_of (l : Ledger.LoginLedger) (h : Ledger.Host) : bool := bool_decide (Ledger.operation_id l ∈ Ledger.temps h).

Lemma login_persist_refined os uid l d record : login_typed l -> holds login_format (d_file d) record ->
  exists w, forall h n, temporary_of l h = d_temporary d -> exists h',
  Ledger.persist_ledger uid l (login_host record w h n) = Done (snd (persist login_format os uid l d)) h' /\
  holds login_format (d_file (fst (persist login_format os uid l d))) (Ledger.ledger_file h') /\
  temporary_of l h' = d_temporary (fst (persist login_format os uid l d)).
Proof.
  intros Hsv Hh. unfold Ledger.persist_ledger. destruct (Ledger.validate l) as [[]|e] eqn:Ev.
  2:{ exists (Ledger.good_persist uid). intros h n Ht. eexists. unfold persist. cbn [login_format fm_validate]. by rewrite Ev. }
  destruct (storable_bytes login_format l (login_storable l Ev Hsv)) as (bytes & Ht & Hl & Hb).
  exists (login_persist_os os bytes). intros h n Hn. unfold persist. cbn [login_format fm_validate fm_ser fm_cleans andb] in *. rewrite Ev, Ht.
  unfold persist_replacement. change (validate_file _) with Ledger.validate_ledger_file.
  unfold bind, Ledger.next_write, Ledger.effect, Ledger.create_temporary, ret.
  cbn [login_host Ledger.writes Ledger.fuel Ledger.temps login_persist_os Ledger.po_size Ledger.po_open_ok
    Ledger.po_chmod_ok Ledger.po_meta Ledger.po_write_ok Ledger.po_rename_ok Ledger.po_sync_ok].
  change Ledger.MAX_LEDGER_BYTES with MAX_FILE_BYTES. rewrite (proj2 (Z.ltb_ge _ _) Hl). cbn [Ledger.fuel Ledger.temps].
  fold (temporary_of l h). rewrite Hn.
  assert (Hnow : forall t a g x y k, temporary_of l (Ledger.mkHost t (Ledger.operation_id l :: Ledger.temps h) a g x y k) = true).
  { intros. apply bool_decide_eq_true. apply list_elem_of_here. }
  destruct (d_temporary d) eqn:Ed; [eexists; split_and!; [done|done|simpl; rewrite Ed; exact Hn]|]. simpl.
  destruct (wo_open_ok os); [|eexists; split_and!; [done|done|simpl; rewrite Ed; exact Hn]]. simpl.
  destruct (wo_chmod_ok os); [|eexists; split_and!; [done|done|apply Hnow]]. simpl.
  destruct (Ledger.validate_ledger_file _ _) as [[]|]; [|eexists; split_and!; [done|done|apply Hnow]].
  destruct (wo_write_ok os); [|eexists; split_and!; [done|done|apply Hnow]]. simpl.
  destruct (wo_rename_ok os); [|eexists; split_and!; [done|done|apply Hnow]]. simpl.
  eexists. split_and!; [done|exact Hb|]. apply bool_decide_eq_false. simpl. rewrite list_elem_of_filter. naive_solver.
Qed.

(** C10: A valid record always fits in its file and is read back.  Whatever a submit, lifecycle or login
    record holds, as long as it is valid and its fields have values of their types, the limit of 64 KiB
    never refuses it: with a system that does its part, persisting it succeeds and loading what was
    written gives exactly the record.  And however a persist of a Cloud record ends, it leaves no
    temporary file behind that it could remove, so one left by a crash costs one failed persist. *)
Theorem written_record_reads_back uid :
  (forall l file, Sub.validate l = Ok tt -> submit_value l -> exists bytes,
     persist submit_format (good_write uid) uid l (mkDir file false) = (mkDir (Some bytes) false, Ok tt) /\ slen bytes <= MAX_FILE_BYTES /\
     load submit_format (good_read uid (slen bytes)) uid (Some bytes) = Ok (Some l)) /\
  (forall l file, Life.validate l = Ok tt -> lifecycle_typed l -> exists bytes,
     persist lifecycle_format (good_write uid) uid l (mkDir file false) = (mkDir (Some bytes) false, Ok tt) /\ slen bytes <= MAX_FILE_BYTES /\
     load lifecycle_format (good_read uid (slen bytes)) uid (Some bytes) = Ok (Some l)) /\
  (forall l file, Ledger.validate l = Ok tt -> login_typed l -> exists bytes,
     persist login_format (good_write uid) uid l (mkDir file false) = (mkDir (Some bytes) false, Ok tt) /\ slen bytes <= MAX_FILE_BYTES /\
     load login_format (good_read uid (slen bytes)) uid (Some bytes) = Ok (Some l)) /\
  (forall os l d, Sub.validate l = Ok tt -> submit_value l -> wo_remove_ok os = true ->
     d_temporary (fst (persist submit_format os uid l d)) = false) /\
  (forall os l d, Life.validate l = Ok tt -> lifecycle_typed l -> wo_remove_ok os = true ->
     d_temporary (fst (persist lifecycle_format os uid l d)) = false).
Proof.
  split_and!; [intros l file Hv Ht; apply stored_and_loaded..|intros os l d Hv Ht Hr; apply persist_cleans; [done..|]
    |intros os l d Hv Ht Hr; apply persist_cleans; [done..|]];
    first [by apply submit_storable|by apply lifecycle_storable|by apply login_storable].
Qed.

(** C9: The models of the runner, the orchestrator and the broker, which keep a durable file as the
    record it decodes to, are right to.  For each of the three files: a load that succeeds has found a
    record that decodes within the limit and is valid, whatever the bytes were; and from a file that
    holds a record, every load, persist and removal of the byte level, whatever the system answers, is one
    of the record level with the same result, after which the file holds the record
    that level keeps. *)
Theorem record_level_is_sound :
  (forall os uid file record, load submit_format os uid file = Ok record -> holds submit_format file record) /\
  (forall os uid file record, load lifecycle_format os uid file = Ok record -> holds lifecycle_format file record) /\
  (forall os uid file record, load login_format os uid file = Ok record -> holds login_format file record) /\
  (forall os uid file record, holds submit_format file record -> exists c, forall a h,
     Runner.a_load_error a = c -> Runner.submit_file h = record ->
     Runner.load_cloud_ledger a h = Done (load submit_format os uid file) h) /\
  (forall os uid file record, holds lifecycle_format file record -> exists c, forall a h,
     Runner.a_lifecycle_load_error a = c -> Runner.lifecycle_file h = record ->
     Runner.load_lifecycle_ledger a h = Done (load lifecycle_format os uid file) h) /\
  (forall os uid file record, holds login_format file record ->
     Ledger.load_ledger record (login_load_os os file) uid = load login_format os uid file) /\
  (forall os uid l d record, submit_value l -> holds submit_format (d_file d) record -> exists w, forall h n, exists h',
     Runner.persist_cloud_ledger l (submit_host record w h n) = Done (snd (persist submit_format os uid l d)) h' /\
     holds submit_format (d_file (fst (persist submit_format os uid l d))) (Runner.submit_file h')) /\
  (forall os uid l d record, lifecycle_typed l -> holds lifecycle_format (d_file d) record -> exists w, forall h n, exists h',
     persist_lifecycle_ledger l (lifecycle_host record w h n) = Done (snd (persist lifecycle_format os uid l d)) h' /\
     holds lifecycle_format (d_file (fst (persist lifecycle_format os uid l d))) (Runner.lifecycle_file h')) /\
  (forall os uid d record, holds lifecycle_format (d_file d) record -> exists w, forall h n, exists h',
     remove_lifecycle_ledger (lifecycle_host record w h n) = Done (snd (remove lifecycle_format os uid d)) h' /\
     holds lifecycle_format (d_file (fst (remove lifecycle_format os uid d))) (Runner.lifecycle_file h')) /\
  (forall os uid l d record, login_typed l -> holds login_format (d_file d) record ->
     exists w, forall h n, temporary_of l h = d_temporary d -> exists h',
     Ledger.persist_ledger uid l (login_host record w h n) = Done (snd (persist login_format os uid l d)) h' /\
     holds login_format (d_file (fst (persist login_format os uid l d))) (Ledger.ledger_file h') /\
     temporary_of l h' = d_temporary (fst (persist login_format os uid l d))).
Proof.
  split_and!; intros; [eapply load_sound|eapply load_sound|eapply load_sound|apply submit_load_refined|apply lifecycle_load_refined
    |apply login_load_refined|apply submit_persist_refined|apply lifecycle_persist_refined|apply lifecycle_remove_refined|apply login_persist_refined]; eassumption.
Qed.

End Records.

(** ** The compact text satisfies the interface *)

Definition sample_submit : Sub.CloudSubmitLedger := Sub.sample_authorized.

Lemma sample_submit_value : submit_value sample_submit.
Proof. by repeat split. Qed.

#[local] Existing Instances Compact.json_text Compact.uuid_text.

(** The bytes of the first submission's record, as the compact writer leaves them. *)
Lemma written_record_reads_back_witness : exists bytes,
  persist submit_format (good_write 1000) 1000 sample_submit (mkDir None false) = (mkDir (Some bytes) false, Ok tt) /\
  load submit_format (good_read 1000 (slen bytes)) 1000 (Some bytes) = Ok (Some sample_submit) /\ slen bytes = 224.
Proof.
  destruct (proj1 (written_record_reads_back 1000) sample_submit None)
    as (bytes & Hp & _ & Hl); [vm_compute; reflexivity|exact sample_submit_value|].
  exists bytes. split; [exact Hp|]. split; [exact Hl|]. vm_compute in Hp. injection Hp as <-. vm_compute. reflexivity.
Defined.

(** A record whose directory could not be synced after the rename: the error is reported, and the file
    holds the new record. *)
Definition unsynced : WriteOs := mkWriteOs true true (good_meta 1000) true true false true.

Lemma record_level_is_sound_witness : exists h',
  Runner.persist_cloud_ledger sample_submit (submit_host None Runner.WFailAfter (Runner.mkHost None None [] [] 0) 4)
    = Done (Err (run_err RunLedgerUnavailable)) h' /\
  snd (persist submit_format unsynced 1000 sample_submit (mkDir None false)) = Err (run_err RunLedgerUnavailable) /\
  holds submit_format (d_file (fst (persist submit_format unsynced 1000 sample_submit (mkDir None false)))) (Runner.submit_file h').
Proof.
  destruct record_level_is_sound as (_ & _ & _ & _ & _ & _ & Hp & _).
  destruct (Hp unsynced 1000 sample_submit (mkDir None false) None sample_submit_value I) as [w Hw].
  destruct (Hw (Runner.mkHost None None [] [] 0) 4%nat) as (h' & Hd & Hh).
  assert (Hs : snd (persist submit_format unsynced 1000 sample_submit (mkDir None false)) = Err (run_err RunLedgerUnavailable)) by (vm_compute; reflexivity).
  rewrite Hs in Hd. assert (Hf : Runner.submit_file h' = Some sample_submit).
  { destruct (d_file (fst (persist submit_format unsynced 1000 sample_submit (mkDir None false)))) as [b|] eqn:Eb; [|vm_compute in Eb; discriminate Eb].
    destruct w; vm_compute in Hd; inversion Hd; subst h'; [exact (False_ind _ Hh)|reflexivity]. }
  eexists. split; [vm_compute; reflexivity|]. split; [exact Hs|]. rewrite Hf in Hh. exact Hh.
Defined.
