(* ===== verification/LoginBroker.v ===== *)
(** * The device-login broker

    Models [crates/codebox-agent-codex/src/broker.rs].  A call is a function of the host of
    [LoginLedger]; what the credential scope, the pinned CLI, the supervisor of a started login and
    [/proc] answer during the call is its [Answers].  [logins] is the ghost list of the operations
    whose supervisor was started, that is whose device-login command may have run.  A call that dies
    with its process, or that unwinds from the slice in the prompt parser, ends in [Crashed]; the
    login it was handling is no longer active then. *)
From S2P Require Import Prelude Effects DomainValues CloudTypes CloudAdapter SubmitLedger LoginTypes LoginParser LoginLedger.
From stdpp Require Import base numbers list strings.
From Stdlib Require Import ZArith Lia.
Import Ids Ledger Parser.

Open Scope Z_scope.

Module Broker.

(** [SupervisorEvent] (runtime.rs). *)
Inductive SupervisorEvent :=
| EvStarted (process : ProcessIdentity)
| EvInstructions (code : VerificationCode)
| EvExited (output : CapturedOutput)
| EvInstructionDeadline (output : CapturedOutput)
| EvOverallDeadline (output : CapturedOutput)
| EvCanceled (output : CapturedOutput)
| EvUncertain (error : LoginBrokerError)
| EvFailed (error : LoginBrokerError).

Record Answers := mkAnswers {
  a_scope : result CredentialScopeError unit;
  a_version : result LoginBrokerError unit;
  a_load : LoadOs;
  a_stat : ProcStat;
  a_preflight : result LoginBrokerError PinnedStatus;
  a_status : result LoginBrokerError PinnedStatus;
  a_operation_id : LoginOperationId;
  a_start : result LoginBrokerError unit;
  a_first : result LoginBrokerError SupervisorEvent;
  a_second : result LoginBrokerError SupervisorEvent;
  a_poll : result LoginBrokerError (option SupervisorEvent);
  a_cancel : result LoginBrokerError SupervisorEvent }.

Definition B (A : Type) : Type := M Host (result LoginBrokerError A).
Definition pure {A} (r : result LoginBrokerError A) : B A := ret r.

Section Broker.
Variable runner_uid : Z.

Notation persist := (persist_ledger runner_uid).

Definition set_active (a : option ActiveLogin) : M Host unit := fun h => Done tt (with_active a h).
Definition panic {A} : M Host A := fun h => Crashed h.

(** [runtime.start]: the supervisor exists only when it succeeds. *)
Definition start_supervisor (a : Answers) : B unit :=
  let! _ := effect in
  match a_start a with
  | Err e => ret (Err e)
  | Ok _ => fun h => Done (Ok tt) (with_login (a_operation_id a) h)
  end.

Definition load (a : Answers) : B (option LoginLedger) :=
  let! h := get in ret (load_ledger (ledger_file h) (a_load a) runner_uid).

Definition acquire_owned (a : Answers) : result LoginBrokerError unit := map_err LoginBrokerError_from (a_scope a).

(** The ledger as [mark_unknown] leaves it. *)
Definition mark_unknown (l : LoginLedger) : B LoginLedger :=
  if bool_decide (latest l <> LPOutcomeUnknown) then
    try! l := pure (append LPOutcomeUnknown l) in
    try! _ := persist l in
    ret (Ok l)
  else ret (Ok l).

Definition append_and_persist (p : LedgerPhase) (l : LoginLedger) : B LoginLedger :=
  try! l := pure (append p l) in
  try! _ := persist l in
  ret (Ok l).

Definition reconcile_ledger (a : Answers) (l : LoginLedger) : B LoginStatus :=
  match a_status a with
  | Ok LoggedIn => try! _ := append_and_persist LPLoggedIn l in ret (Ok LSLoggedIn)
  | Ok LoggedOut => try! _ := append_and_persist LPLoggedOut l in ret (Ok LSLoggedOut)
  | Err error => try! _ := mark_unknown l in ret (Err error)
  end.

Definition project_status (s : PinnedStatus) : result LoginBrokerError LoginStatus :=
  Ok match s with LoggedIn => LSLoggedIn | LoggedOut => LSLoggedOut end.

Definition resolve_terminal_event (a : Answers) (al : ActiveLogin) (event : SupervisorEvent) : B LoginStatus :=
  let l := al_ledger al in
  match event with
  | EvExited output =>
      match parse_login_completion output with
      | None => panic
      | Some (Err (LBOutputLimitExceeded as error)) | Some (Err (LBProviderOutputInvalid as error)) =>
          try! _ := mark_unknown l in ret (Err error)
      | Some _ => reconcile_ledger a l
      end
  | EvInstructionDeadline output | EvOverallDeadline output | EvCanceled output =>
      try! l := mark_unknown l in
      match parse_login_completion output with
      | None => panic
      | Some (Err LBOutputLimitExceeded) => ret (Err LBOutputLimitExceeded)
      | Some _ => reconcile_ledger a l
      end
  | EvUncertain error =>
      try! l := mark_unknown l in
      try! _ := reconcile_ledger a l in
      ret (Err error)
  | EvFailed error =>
      try! _ := append_and_persist LPFailed l in
      ret (Err error)
  | EvStarted _ | EvInstructions _ =>
      try! _ := mark_unknown l in ret (Err LBProviderOutputInvalid)
  end.

(** [start_device_login] from the first event on. *)
Definition after_started (a : Answers) (l : LoginLedger) : B LoginInteraction :=
  let op := a_operation_id a in
  match a_second a with
  | Ok (EvInstructions code) =>
      try! l := append_and_persist LPDeviceInstructions l in
      let! _ := set_active (Some (mkActive op l)) in
      ret (Ok (LoginInteraction_new op code))
  | Ok event =>
      try! s := resolve_terminal_event a (mkActive op l) event in
      ret (Err match s with LSLoggedIn => LBAlreadyLoggedIn | _ => LBLoginFailed end)
  | Err _ => try! _ := mark_unknown l in ret (Err LBOutcomeUnknown)
  end.

Definition after_start (a : Answers) (l : LoginLedger) : B LoginInteraction :=
  match a_first a with
  | Ok (EvStarted process) =>
      try! l := pure (record_started process l) in
      try! _ := persist l in
      after_started a l
  | Ok (EvFailed error) => try! _ := append_and_persist LPFailed l in ret (Err error)
  | Ok (EvUncertain error) =>
      let! r := resolve_terminal_event a (mkActive (a_operation_id a) l) (EvUncertain error) in
      ret match r with Err error => Err error | Ok _ => Err LBOutcomeUnknown end
  | Ok _ | Err _ => try! _ := mark_unknown l in ret (Err LBOutcomeUnknown)
  end.

Definition start_device_login (a : Answers) : B LoginInteraction :=
  let! h := get in
  match active h with
  | Some _ => ret (Err LBLoginAlreadyRunning)
  | None =>
      try! _ := pure (acquire_owned a) in
      try! _ := pure (a_version a) in
      try! existing := load a in
      if match existing with Some l => is_uncertain (latest l) | None => false end then ret (Err LBOutcomeUnknown)
      else
      try! s := pure (a_preflight a) in
      match s with
      | LoggedIn => ret (Err LBAlreadyLoggedIn)
      | LoggedOut =>
          let l := new (a_operation_id a) in
          try! _ := persist l in
          try! _ := start_supervisor a in
          after_start a l
      end
  end.

Definition reconcile_without_active (a : Answers) (wait_intent_grace : bool) : B LoginStatus :=
  try! _ := pure (acquire_owned a) in
  try! _ := pure (a_version a) in
  try! ledger := load a in
  match ledger with
  | Some l =>
      if is_uncertain (latest l) then
        match process l with
        | Some identity =>
            try! alive := pure (process_is_alive identity (a_stat a)) in
            if alive then ret (Ok (LSOutcomeUnknown (operation_id l))) else reconcile_ledger a l
        | None =>
            let! _ := (if wait_intent_grace then effect else ret tt) in
            reconcile_ledger a l
        end
      else try! s := pure (a_status a) in ret (project_status s)
  | None => try! s := pure (a_status a) in ret (project_status s)
  end.

Definition status (a : Answers) : B LoginStatus :=
  let! h := get in
  match active h with
  | Some al =>
      try! event := pure (a_poll a) in
      match event with
      | None | Some (EvInstructions _) => ret (Ok (LSDeviceLoginPending (al_operation_id al)))
      | Some event => let! _ := set_active None in resolve_terminal_event a al event
      end
  | None => reconcile_without_active a false
  end.

Definition reconcile (a : Answers) : B LoginStatus :=
  let! h := get in
  match active h with Some _ => status a | None => reconcile_without_active a true end.

Definition cancel (a : Answers) : B LoginStatus :=
  let! h := get in
  match active h with
  | None => reconcile_without_active a true
  | Some al =>
      let! _ := set_active None in
      try! l := mark_unknown (al_ledger al) in
      try! event := pure (a_cancel a) in
      resolve_terminal_event a (mkActive (al_operation_id al) l) event
  end.

(** [Drop for LoginBroker]. *)
Definition drop_broker : M Host unit :=
  let! h := get in
  match active h with
  | Some al => let! _ := set_active None in let! _ := mark_unknown (al_ledger al) in ret tt
  | None => ret tt
  end.

(** ** Runs *)

(** The calls of a broker, with what each was answered; the end of the process, after which the state
    directory is opened again by a broker with other answers to its writes. *)
Inductive Step :=
| Start (a : Answers) | Status (a : Answers) | Reconcile (a : Answers) | Cancel (a : Answers) | Drop
| Restart (ws : list PersistOs) (life : nat).

(** What is left when a call returned, died or unwound: no login is active in the last two cases. *)
Definition settle_run {A} (r : Run Host A) : Host :=
  match r with Done _ h => h | Crashed h => with_active None h end.

Definition step (h : Host) (s : Step) : Host :=
  match s with
  | Start a => settle_run (start_device_login a h)
  | Status a => settle_run (status a h)
  | Reconcile a => settle_run (reconcile a h)
  | Cancel a => settle_run (cancel a h)
  | Drop => settle_run (drop_broker h)
  | Restart ws n => mkHost (ledger_file h) (temps h) None (logins h) (files h) ws n
  end.

Definition run (h : Host) (steps : list Step) : Host := fold_left step steps h.

Definition fresh : Host := mkHost None [] None [] [] [] 0.

End Broker.
End Broker.
