(* ===== verification/LoginClaims.v ===== *)
(** * What the device-login broker guarantees

    An unsettled login blocks new ones, a status is never inferred, an interrupted login can be
    reconciled; and two records that no call can ever settle. *)
From S2P Require Import Prelude Effects DomainValues CloudTypes CloudAdapter SubmitLedger LoginTypes LoginParser LoginLedger LoginBroker.
From stdpp Require Import base numbers list strings sets.
From Stdlib Require Import ZArith Lia.
Import Ids Ledger Parser Broker.

Open Scope Z_scope.

Section Claims.
Variable runner_uid : Z.

Notation persist := (persist_ledger runner_uid).

(** ** One operation goes on *)

(** The record of the file's operation was at most extended; nothing else changed but what writes
    leave behind. *)
Record continues (h h' : Host) : Prop := mkContinues {
  co_file : forall l, ledger_file h = Some l -> valid l -> l ∈ files h ->
    exists l', ledger_file h' = Some l' /\ operation_id l' = operation_id l
               /\ history l `prefix_of` history l' /\ valid l' /\ l' ∈ files h';
  co_none : ledger_file h = None -> ledger_file h' = None;
  co_files : files h ⊆ files h';
  co_logins : logins h' = logins h;
  co_active : active h' = active h }.

Lemma continues_refl h : continues h h.
Proof. split; try done. intros l ? ? ?. exists l. done. Qed.

Lemma continues_trans h1 h2 h3 : continues h1 h2 -> continues h2 h3 -> continues h1 h3.
Proof.
  intros [F1 N1 S1 L1 A1] [F2 N2 S2 L2 A2]. split; [|auto|set_solver|congruence|congruence].
  intros l Hl Hv Hin. destruct (F1 l Hl Hv Hin) as (l2 & H2 & O2 & P2 & V2 & I2).
  destruct (F2 l2 H2 V2 I2) as (l3 & H3 & O3 & P3 & V3 & I3). exists l3. split_and!; auto; [congruence|by etrans].
Qed.

(** What a persist may change. *)
Record persisted (l : LoginLedger) (h h' : Host) : Prop := mkPersisted {
  pe_file : (ledger_file h' = ledger_file h /\ files h' = files h)
            \/ (ledger_file h' = Some l /\ valid l /\ files h' = l :: files h);
  pe_logins : logins h' = logins h;
  pe_active : active h' = active h }.

Lemma persisted_refl l h : persisted l h h.
Proof. split; auto. Qed.

Lemma effect_spec h (Q : unit -> Host -> Prop) (C : Host -> Prop) :
  (forall n, Q tt (mkHost (ledger_file h) (temps h) (active h) (logins h) (files h) (writes h) n)) -> C h ->
  spec effect h Q C.
Proof. intros HQ HC. unfold spec, effect. destruct (fuel h); auto. Qed.

Lemma next_write_spec h (Q : PersistOs -> Host -> Prop) (C : Host -> Prop) :
  (forall w ws, Q w (mkHost (ledger_file h) (temps h) (active h) (logins h) (files h) ws (fuel h))) ->
  spec (next_write runner_uid) h Q C.
Proof.
  intros HQ. unfold spec, next_write. destruct (writes h) as [|w ws] eqn:E; [|apply HQ].
  specialize (HQ (good_persist runner_uid) []). rewrite <- E in HQ. by destruct h.
Qed.

(** A return that wrote nothing. *)
Ltac unchanged := apply spec_ret; split; [by split; auto|done].

Lemma persist_spec l h :
  spec (persist l) h (fun r h' => persisted l h h' /\ (r = Ok tt -> ledger_file h' = Some l /\ valid l))
    (persisted l h).
Proof.
  unfold persist_ledger. destruct (validate l) as [[]|e] eqn:Ev; [|unchanged].
  spec_step. apply next_write_spec. intros w ws. destruct (_ <? _); [unchanged|].
  spec_step. apply effect_spec; [|by split; auto]. intros n. spec_step.
  unfold spec at 1, create_temporary. destruct (_ || _); [unchanged|].
  cbn [negb]. destruct (negb (po_chmod_ok w)); [unchanged|].
  destruct (validate_ledger_file _ _) as [[]|e]; [|unchanged].
  destruct (negb (po_write_ok w)); [unchanged|].
  spec_step. apply effect_spec; [|by split; auto]. intros m. destruct (negb (po_rename_ok w)); [unchanged|].
  spec_step. unfold spec at 1, rename_temporary. apply spec_ret. split; [|done]. split; [|done..]. by right.
Qed.

(** The file is this valid record. *)
Definition at_record (l : LoginLedger) (h : Host) : Prop := ledger_file h = Some l /\ valid l /\ l ∈ files h.

Lemma persisted_continues l0 l h h' : at_record l0 h -> operation_id l = operation_id l0 ->
  history l0 `prefix_of` history l -> persisted l h h' -> continues h h'.
Proof.
  intros (Hf & Hv & Hin) Ho Hp [[[E1 E2]|(E1 & V & E2)] L A]; split; rewrite ?E1, ?E2; try done; try congruence; try set_solver.
Qed.

Lemma persisted_ok_record l h h' : persisted l h h' -> l ∈ files h \/ ledger_file h <> Some l ->
  ledger_file h' = Some l -> valid l -> at_record l h'.
Proof.
  intros [[[E1 E2]|(E1 & V & E2)] _ _] Hin Hf Hv; split_and!; auto; rewrite E2; [|by left].
  destruct Hin as [?|Hn]; [done|]. congruence.
Qed.

Lemma append_and_persist_spec p l h : p <> LPStarted -> at_record l h ->
  spec (append_and_persist runner_uid p l) h
    (fun r h' => continues h h' /\ (forall l', r = Ok l' -> at_record l' h' /\ append p l = Ok l'))
    (continues h).
Proof.
  intros Hp Hr. unfold append_and_persist. spec_step. apply spec_ret.
  destruct (append p l) as [l1|e] eqn:Ea; [|split; [apply continues_refl|done]].
  pose proof (append_shape _ _ _ Ea) as (Ho & Hh & _). pose proof (append_valid _ _ _ Ea Hp (proj1 (proj2 Hr))) as Hv.
  assert (Hpre : history l `prefix_of` history l1) by (rewrite Hh; by apply prefix_app_r).
  assert (Hne : ledger_file h <> Some l1).
  { destruct Hr as (-> & _). intros [= ->]. by apply (f_equal length) in Hh; rewrite length_app in Hh; simpl in Hh; lia. }
  spec_step. eapply spec_mono; [apply persist_spec| |intros h' Hpe; by eapply persisted_continues].
  intros [[]|e] h' [Hpe Hok]; [apply spec_ret|]; (split; [by eapply persisted_continues|]); [|done].
  intros l' [= <-]. destruct (Hok eq_refl). split; [|done]. eapply persisted_ok_record; eauto.
Qed.

Lemma mark_unknown_spec l h : at_record l h ->
  spec (mark_unknown runner_uid l) h
    (fun r h' => continues h h' /\ (forall l', r = Ok l' -> at_record l' h' /\ latest l' = LPOutcomeUnknown
                                                         /\ history l `prefix_of` history l'))
    (continues h).
Proof.
  intros Hr. unfold mark_unknown. case_bool_decide as Hl.
  - eapply spec_mono; [apply (append_and_persist_spec LPOutcomeUnknown l h)| |]; [done|done| |done].
    intros r h' [Hc Hok]. split; [done|]. intros l' ->. destruct (Hok l' eq_refl) as [? Ha]. split; [done|].
    split; [by eapply latest_append|]. apply append_shape in Ha as (_ & -> & _). by apply prefix_app_r.
  - apply spec_ret. split; [apply continues_refl|]. intros l' [= <-]. done.
Qed.

(** ** Settling *)

Definition status_of (s : PinnedStatus) : LoginStatus := match s with LoggedIn => LSLoggedIn | LoggedOut => LSLoggedOut end.
Definition phase_of (s : PinnedStatus) : LedgerPhase := match s with LoggedIn => LPLoggedIn | LoggedOut => LPLoggedOut end.

(** A status that was returned is the one the CLI answered, and it is on disk. *)
Definition proved (a : Answers) (r : result LoginBrokerError LoginStatus) (h' : Host) : Prop :=
  forall s, r = Ok s -> exists p l, a_status a = Ok p /\ s = status_of p /\ at_record l h' /\ latest l = phase_of p.

Lemma reconcile_ledger_spec a l h : at_record l h ->
  spec (reconcile_ledger runner_uid a l) h (fun r h' => continues h h' /\ proved a r h') (continues h).
Proof.
  intros Hr. unfold reconcile_ledger, proved. destruct (a_status a) as [[]|e] eqn:Es.
  1,2: spec_step; eapply spec_mono; [by apply append_and_persist_spec| |done];
    intros [l'|e] h' [Hc Hok]; [apply spec_ret|]; (split; [done|]); [|done]; intros s [= <-];
    destruct (Hok l' eq_refl) as [? Ha]; eexists _, l'; (split_and!; [done|done|done|by eapply latest_append]).
  spec_step. eapply spec_mono; [by apply mark_unknown_spec| |done]. intros [l'|e'] h' [Hc Hok]; [apply spec_ret|]; done.
Qed.

(** A call that goes on from a record and answers [r]. *)
Definition goes_on {A} (h : Host) (Q : A -> Host -> Prop) (m : M Host A) : Prop :=
  spec m h (fun r h' => continues h h' /\ Q r h') (continues h).

Lemma goes_on_from {A} h1 h2 (Q : A -> Host -> Prop) m : continues h1 h2 -> goes_on h2 Q m ->
  spec m h2 (fun r h' => continues h1 h' /\ Q r h') (continues h1).
Proof.
  intros Hc Hg. eapply spec_mono; [apply Hg| |]; [intros r h' [? ?]; split; [|done]|intros h' ?]; by eapply continues_trans.
Qed.

Lemma after_mark_unknown {A} l h (k : LoginLedger -> B A) (Q : result LoginBrokerError A -> Host -> Prop) :
  at_record l h -> (forall e h', Q (Err e) h') ->
  (forall l' h', at_record l' h' -> latest l' = LPOutcomeUnknown -> history l `prefix_of` history l' -> goes_on h' Q (k l')) ->
  goes_on h Q (try! l' := mark_unknown runner_uid l in k l').
Proof.
  intros Hr He Hk. unfold goes_on. spec_step. eapply spec_mono; [by apply mark_unknown_spec| |done].
  intros [l'|e] h' [Hc Hok]; [|by split]. destruct (Hok l' eq_refl) as (? & ? & ?).
  eapply goes_on_from; [done|]. by apply Hk.
Qed.

Lemma goes_on_ret {A} h (a : A) (Q : A -> Host -> Prop) : Q a h -> goes_on h Q (ret a).
Proof. intros HQ. apply spec_ret. split; [apply continues_refl|done]. Qed.

Lemma goes_on_panic {A} h (Q : A -> Host -> Prop) : goes_on h Q panic.
Proof. apply continues_refl. Qed.

Lemma goes_on_reconcile a l h : at_record l h -> goes_on h (proved a) (reconcile_ledger runner_uid a l).
Proof. apply reconcile_ledger_spec. Qed.

Lemma proved_err a e h : proved a (Err e) h.
Proof. done. Qed.

Hint Resolve goes_on_reconcile goes_on_panic goes_on_ret proved_err : core.

Lemma goes_on_bind_err {A X} (Q : result LoginBrokerError A -> Host -> Prop) (P : result LoginBrokerError X -> Host -> Prop)
    (m : B X) (k : X -> LoginBrokerError) h :
  goes_on h P m -> (forall e h', Q (Err e) h') -> goes_on h Q (try! x := m in ret (Err (k x))).
Proof.
  intros Hm He. unfold goes_on. spec_step. eapply spec_mono; [apply Hm| |done].
  intros [x|e] h' [Hc _]; [apply spec_ret|]; by split.
Qed.

Lemma goes_on_append a p l h : p <> LPStarted -> at_record l h -> forall e : LoginBrokerError,
  goes_on h (proved a) (try! _ := append_and_persist runner_uid p l in ret (Err e)).
Proof.
  intros Hp Hr e. eapply (goes_on_bind_err _ (fun _ _ => True)); [|done].
  eapply spec_mono; [by apply append_and_persist_spec|by intros ? ? [? _]|done].
Qed.

Lemma resolve_spec a al event h : at_record (al_ledger al) h ->
  goes_on h (proved a) (resolve_terminal_event runner_uid a al event).
Proof.
  intros Hr. destruct event as [pr|code|out|out|out|out|e|e]; cbn [resolve_terminal_event].
  1,2: by apply after_mark_unknown; auto.
  1: destruct (parse_login_completion out) as [[[]|[]]|]; auto; by apply after_mark_unknown; auto.
  1,2,3: apply after_mark_unknown; auto; intros l' h' Hr' _ _; destruct (parse_login_completion out) as [[[]|[]]|]; auto.
  - apply after_mark_unknown; auto. intros l' h' Hr' _ _. eapply (goes_on_bind_err _ (proved a)); auto.
  - by apply goes_on_append.
Qed.
(** ** Starting *)

Lemma load_present file os uid l : file = Some l -> forall r, load_ledger file os uid = Ok r -> r = Some l.
Proof.
  intros -> r. unfold load_ledger. destruct (lo_open os) as [[]|]; try done.
  destruct (validate_ledger_file _ _); [|done]. simpl. destruct (lo_length os); [|done]. simpl. destruct (_ <? _); [done|].
  destruct (lo_read os); [|done]. simpl. destruct (_ <? _); [done|]. destruct (negb _); [done|].
  destruct (validate l); [|done]. by intros [= <-].
Qed.

(** Where a start that got as far as its supervisor leaves the host. *)
Definition started (h h' : Host) : Prop :=
  exists h0, continues h h0
    /\ (h' = h0 \/ exists al, h' = with_active (Some al) h0 /\ at_record (al_ledger al) h0
                            /\ al_operation_id al = operation_id (al_ledger al)).

Lemma goes_on_started {A} (m : M Host A) (Q : A -> Host -> Prop) h : goes_on h Q m -> spec m h (fun _ => started h) (continues h).
Proof. intros Hg. eapply spec_mono; [apply Hg| |done]. intros r h' [Hc _]. exists h'. auto. Qed.

Lemma marked_started {A} l h (e : LoginBrokerError) : at_record l h ->
  spec (try! _ := mark_unknown runner_uid l in ret (@Err _ A e)) h (fun _ => started h) (continues h).
Proof. intros Hr. eapply (goes_on_started _ (fun _ _ => True)), after_mark_unknown; auto. Qed.

Lemma after_started_spec a l h : at_record l h -> operation_id l = a_operation_id a ->
  spec (after_started runner_uid a l) h (fun _ => started h) (continues h).
Proof.
  intros Hr Ho. unfold after_started.
  assert (Hres : forall event, spec (try! s := resolve_terminal_event runner_uid a (mkActive (a_operation_id a) l) event in
      ret (@Err _ LoginInteraction match s with LSLoggedIn => LBAlreadyLoggedIn | _ => LBLoginFailed end))
      h (fun _ => started h) (continues h)).
  { intros event. eapply (goes_on_started _ (fun _ _ => True)), (goes_on_bind_err _ (proved a)); [|done]. by apply resolve_spec. }
  destruct (a_second a) as [[]|e]; auto; [|by apply marked_started].
  spec_step. eapply spec_mono; [by apply append_and_persist_spec| |done].
  intros [l'|e] h' [Hc Hok]; [|exists h'; auto]. destruct (Hok l' eq_refl) as [Hr' (Ho' & _)%append_shape].
  spec_step. apply spec_ret. exists h'. split; [done|]. right. eexists. split_and!; [done|done|]. simpl. congruence.
Qed.

Lemma started_from h1 h2 h' : continues h1 h2 -> started h2 h' -> started h1 h'.
Proof. intros Hc (h0 & Hc0 & Hs). exists h0. split; [by eapply continues_trans|done]. Qed.

Lemma after_start_spec a l h : at_record l h -> operation_id l = a_operation_id a ->
  spec (after_start runner_uid a l) h (fun _ => started h) (continues h).
Proof.
  intros Hr Ho. unfold after_start. destruct (a_first a) as [[pr| | | | | |e|e]|]; try by apply marked_started.
  - spec_step. apply spec_ret. destruct (record_started pr l) as [l1|] eqn:Es; [|exists h; auto using continues_refl].
    pose proof (record_started_shape _ _ _ Es) as (Ho1 & Hh1 & _).
    assert (Hv1 : valid l1) by (eapply record_started_valid; [done|apply Hr]).
    assert (Hc1 : forall h', persisted l1 h h' -> continues h h').
    { intros h'. eapply persisted_continues; [done|done|]. rewrite Hh1. by apply prefix_app_r. }
    spec_step. eapply spec_mono; [apply persist_spec| |by auto].
    intros [[]|e] h' [Hpe Hok]; [|exists h'; auto]. destruct (Hok eq_refl) as [Hf _].
    eapply spec_mono; [apply after_started_spec| |].
    + eapply persisted_ok_record; eauto. right. destruct Hr as (-> & _). intros [= ->].
      apply (f_equal length) in Hh1. rewrite length_app in Hh1. simpl in Hh1. lia.
    + congruence.
    + intros ? h2. apply started_from; auto.
    + intros h2 ?. eapply continues_trans; eauto.
  - spec_step. eapply spec_mono; [by apply (resolve_spec a (mkActive (a_operation_id a) l) (EvUncertain e))| |done].
    intros r h' [Hc _]. apply spec_ret. exists h'. auto.
  - eapply (goes_on_started _ (fun _ _ => True)), (goes_on_bind_err _ (fun _ _ => True)); [|done].
    eapply spec_mono; [by apply append_and_persist_spec|by intros ? ? [? _]|done].
Qed.

(** ** The invariant *)

Definition current (op : LoginOperationId) (h : Host) : Prop := exists l, ledger_file h = Some l /\ operation_id l = op.
(** A terminal phase of the operation was on disk. *)
Definition settled (op : LoginOperationId) (h : Host) : Prop :=
  exists l, l ∈ files h /\ operation_id l = op /\ is_uncertain (latest l) = false.

Record Inv (h : Host) : Prop := mkInv {
  inv_file : forall l, ledger_file h = Some l -> at_record l h;
  inv_active : forall al, active h = Some al ->
    at_record (al_ledger al) h /\ al_operation_id al = operation_id (al_ledger al);
  inv_logins : forall op, op ∈ logins h -> current op h \/ settled op h }.

Lemma settled_mono op h h' : files h ⊆ files h' -> settled op h -> settled op h'.
Proof. intros Hs (l & ? & ?). exists l. set_solver. Qed.

Lemma continues_inv h h' : Inv h -> active h = None -> continues h h' -> Inv h'.
Proof.
  intros [IF IA IL] Ha [CF CN CS CL CA]. split.
  - intros l' Hl'. destruct (ledger_file h) as [l|] eqn:El; [|by rewrite CN in Hl'].
    destruct (IF l eq_refl) as (_ & Hv & Hin). destruct (CF l eq_refl Hv Hin) as (k & Hk & _ & _ & ? & ?).
    replace l' with k by congruence. done.
  - intros al. rewrite CA, Ha. done.
  - intros op. rewrite CL. intros [(l & El & Eo)|Hs]%IL; [left|right; by eapply settled_mono].
    destruct (IF l El) as (_ & Hv & Hin). destruct (CF l El Hv Hin) as (k & Hk & Ho & _). exists k. split; congruence.
Qed.

Lemma started_inv h h' : Inv h -> active h = None -> started h h' -> Inv h'.
Proof.
  intros HI Ha (h0 & Hc & [->|(al & -> & Hr & Ho)]); [by eapply continues_inv|].
  destruct (continues_inv h h0 HI Ha Hc) as [IF IA IL]. split; [done| |done]. intros ? [= <-]. done.
Qed.

(** Nothing is unsettled: a new operation may take the file. *)
Definition clear (h : Host) : Prop := forall l, ledger_file h = Some l -> is_uncertain (latest l) = false.

Lemma clear_settles h op : Inv h -> clear h -> op ∈ logins h -> settled op h.
Proof.
  intros HI Hc Hop. destruct (inv_logins h HI op Hop) as [(l & El & Eo)|]; [|done].
  exists l. split_and!; auto. by apply (inv_file h HI).
Qed.

Lemma new_record_inv l h h' : Inv h -> active h = None -> clear h -> persisted l h h' -> Inv h'.
Proof.
  intros HI Ha Hc [[[E1 E2]|(E1 & V & E2)] L A].
  - destruct HI as [IF IA IL]. split; unfold at_record, current, settled in *; rewrite ?E1, ?E2, ?L, ?A; auto.
  - split.
    + intros k. rewrite E1. intros [= <-]. split_and!; auto. rewrite E2. by left.
    + intros al. by rewrite A, Ha.
    + intros op. rewrite L. intros Hop. right. eapply settled_mono; [|by apply clear_settles]. rewrite E2. set_solver.
Qed.

Lemma with_login_inv op h : Inv h -> current op h -> Inv (with_login op h).
Proof.
  intros [IF IA IL] Hcur. split; [done|done|]. intros op' [->|Hin]%elem_of_cons; [by left|]. by apply IL.
Qed.

(** What a start may do. *)
Record start_effect (a : Answers) (h h' : Host) : Prop := mkStartEffect {
  se_inv : Inv h';
  se_login : logins h' = logins h
    \/ (logins h' = a_operation_id a :: logins h /\ active h = None /\ clear h /\ a_preflight a = Ok LoggedOut) }.

Lemma settled_start a h h' : Inv h' -> logins h' = logins h -> start_effect a h h'.
Proof. by split; auto. Qed.

Lemma start_spec a h : Inv h ->
  spec (start_device_login runner_uid a) h (fun _ => start_effect a h) (fun h' => start_effect a h h' /\ active h' = None).
Proof.
  intros HI. assert (Hsame : start_effect a h h) by by apply settled_start.
  unfold start_device_login. spec_step. apply spec_ret. destruct (active h) as [al|] eqn:Ha; [by apply spec_ret|].
  spec_step. apply spec_ret. destruct (acquire_owned a); [|done].
  spec_step. apply spec_ret. destruct (a_version a); [|done].
  spec_step. unfold load. spec_step. apply spec_ret.
  destruct (load_ledger _ _ _) as [existing|] eqn:Hld; [|done].
  destruct (match existing with Some _ => _ | None => _ end) eqn:Hu; [by apply spec_ret|].
  assert (Hc : clear h) by (intros l El; by rewrite (load_present _ _ _ _ El _ Hld) in Hu).
  spec_step. apply spec_ret. destruct (a_preflight a) as [[]|] eqn:Ep; [by apply spec_ret| |done].
  spec_step. eapply spec_mono; [apply persist_spec| |].
  2:{ intros h' Hpe. split; [|by rewrite (pe_active _ _ _ Hpe)]. apply settled_start; [by eapply new_record_inv|apply Hpe]. }
  intros [[]|e] h1 [Hpe Hok]; [|apply settled_start; [by eapply new_record_inv|apply Hpe]].
  destruct (Hok eq_refl) as [Hf1 _]. pose proof (new_record_inv _ _ _ HI Ha Hc Hpe) as HI1.
  pose proof (pe_active _ _ _ Hpe) as Ha1. pose proof (pe_logins _ _ _ Hpe) as Hl1. rewrite Ha in Ha1.
  spec_step. unfold start_supervisor. spec_step. apply effect_spec.
  2:{ split; [by apply settled_start|done]. }
  intros n. set (h2 := mkHost _ _ _ _ _ _ _). assert (HI2 : Inv h2) by (destruct HI1; by split).
  destruct (a_start a); [|apply spec_ret; by apply settled_start].
  unfold spec at 1. set (h3 := with_login _ h2).
  assert (HI3 : Inv h3) by (apply with_login_inv; [done|eexists; split; [exact Hf1|done]]).
  assert (Hfin : forall h', Inv h' -> logins h' = logins h3 -> start_effect a h h').
  { intros h' HI' Hl'. split; [done|]. right. split_and!; auto. rewrite Hl'. cbn. by rewrite Hl1. }
  eapply spec_mono; [apply after_start_spec| |]; [by apply (inv_file h3 HI3)|done| |].
  - intros ? h' Hs. apply Hfin; [by eapply started_inv|]. destruct Hs as (h0 & Hco & [->|(al & -> & _)]); apply Hco.
  - intros h' Hco. split; [|by rewrite (co_active _ _ Hco)]. apply Hfin; [by eapply continues_inv|apply Hco].
Qed.
(** ** Observing *)

(** What a status says: the login this process supervises, an earlier one whose process still runs, or
    what the CLI answered, with nothing left unsettled on disk. *)
Definition reported (a : Answers) (h : Host) (r : result LoginBrokerError LoginStatus) (h' : Host) : Prop :=
  forall s, r = Ok s ->
    (exists al, active h = Some al /\ h' = h /\ s = LSDeviceLoginPending (al_operation_id al))
    \/ (exists l pr, ledger_file h = Some l /\ h' = h /\ is_uncertain (latest l) = true /\ process l = Some pr
                   /\ process_is_alive pr (a_stat a) = Ok true /\ s = LSOutcomeUnknown (operation_id l))
    \/ (exists p, a_status a = Ok p /\ s = status_of p /\ clear h').

Lemma proved_reported a h r h' : proved a r h' -> reported a h r h'.
Proof.
  intros Hp s Hs. destruct (Hp s Hs) as (p & l & ? & ? & (Hf & _) & Hl). right. right. exists p. split_and!; auto.
  intros k. rewrite Hf. intros [= <-]. rewrite Hl. by destruct p.
Qed.

Lemma observe_inactive a h w : Inv h -> active h = None ->
  spec (reconcile_without_active runner_uid a w) h (fun r h' => continues h h' /\ reported a h r h') (continues h).
Proof.
  intros HI Ha. assert (Herr : forall e, continues h h /\ reported a h (Err e) h) by (by split; [apply continues_refl|]).
  unfold reconcile_without_active. spec_step. apply spec_ret. destruct (acquire_owned a); [|done].
  spec_step. apply spec_ret. destruct (a_version a); [|done].
  spec_step. unfold load. spec_step. apply spec_ret. destruct (load_ledger _ _ _) as [existing|] eqn:Hld; [|done].
  assert (Hplain : clear h -> spec (try! s := pure (a_status a) in ret (project_status s)) h
      (fun r h' => continues h h' /\ reported a h r h') (continues h)).
  { intros Hc. spec_step. apply spec_ret. destruct (a_status a) as [p|] eqn:Ep; [|done]. apply spec_ret.
    split; [apply continues_refl|]. intros s [= <-]. right. right. exists p. by destruct p. }
  destruct (ledger_file h) as [l|] eqn:El; [|].
  2:{ assert (existing = None) as ->; [|by apply Hplain; intros l'; rewrite El].
      unfold load_ledger in Hld. destruct (lo_open (a_load a)) as [[]|]; congruence. }
  apply load_present with (l := l) in Hld as ->; [|done]. pose proof (inv_file h HI l El) as Hr.
  assert (Hrec : forall n, spec (reconcile_ledger runner_uid a l) (mkHost (ledger_file h) (temps h) (active h) (logins h) (files h) (writes h) n)
      (fun r h' => continues h h' /\ reported a h r h') (continues h)).
  { intros n. eapply spec_mono; [by apply reconcile_ledger_spec| |]; cbn.
    - intros r h' [Hc Hp]. split; [|by apply proved_reported]. destruct Hc; by split.
    - intros h' Hc. destruct Hc; by split. }
  destruct (is_uncertain (latest l)) eqn:Hu; [|by apply Hplain; intros k; rewrite El; intros [= <-]].
  destruct (process l) as [pr|] eqn:Epr.
  - spec_step. apply spec_ret. destruct (process_is_alive pr (a_stat a)) as [[]|] eqn:Eal; [| |done].
    + apply spec_ret. split; [apply continues_refl|]. intros s [= <-]. right. left. by exists l, pr.
    + specialize (Hrec (fuel h)). by destruct h.
  - spec_step. destruct w; [apply effect_spec; [apply Hrec|apply continues_refl]|]. apply spec_ret.
    specialize (Hrec (fuel h)). by destruct h.
Qed.

Lemma deactivated_inv h : Inv h -> Inv (with_active None h).
Proof. intros [IF IA IL]. by split. Qed.

Definition observes (a : Answers) (h : Host) (m : B LoginStatus) : Prop :=
  spec m h (fun r h' => Inv h' /\ logins h' = logins h /\ reported a h r h')
    (fun h' => Inv (with_active None h') /\ logins h' = logins h).

Lemma goes_on_observes a h h0 m : Inv h0 -> active h0 = None -> logins h0 = logins h ->
  spec m h0 (fun r h' => continues h0 h' /\ reported a h r h') (continues h0) ->
  spec m h0 (fun r h' => Inv h' /\ logins h' = logins h /\ reported a h r h')
    (fun h' => Inv (with_active None h') /\ logins h' = logins h).
Proof.
  intros HI Ha Hl Hm. eapply spec_mono; [apply Hm| |].
  - intros r h' [Hc Hr]. split_and!; [by eapply continues_inv| |done]. by rewrite (co_logins _ _ Hc).
  - intros h' Hc. split; [by apply deactivated_inv; eapply continues_inv|]. by rewrite (co_logins _ _ Hc).
Qed.

Lemma inactive_observes a h w : Inv h -> active h = None -> observes a h (reconcile_without_active runner_uid a w).
Proof. intros HI Ha. by apply goes_on_observes; auto using observe_inactive. Qed.

Lemma resolved_observes a h al event : Inv h -> active h = Some al ->
  spec (resolve_terminal_event runner_uid a al event) (with_active None h)
    (fun r h' => Inv h' /\ logins h' = logins h /\ reported a h r h')
    (fun h' => Inv (with_active None h') /\ logins h' = logins h).
Proof.
  intros HI Ha. apply goes_on_observes; [by apply deactivated_inv|done|done|].
  eapply spec_mono; [apply resolve_spec|by intros r h' [? ?]; split; [|apply proved_reported]|done].
  by apply (inv_active h HI).
Qed.

Lemma status_observes a h : Inv h -> observes a h (status runner_uid a).
Proof.
  intros HI. unfold observes, status. spec_step. apply spec_ret. destruct (active h) as [al|] eqn:Ha; [|by apply inactive_observes].
  spec_step. apply spec_ret. destruct (a_poll a) as [ev|]; [|done].
  assert (Hpend : spec (ret (Ok (LSDeviceLoginPending (al_operation_id al)))) h
     (fun r h' => Inv h' /\ logins h' = logins h /\ reported a h r h')
     (fun h' => Inv (with_active None h') /\ logins h' = logins h)).
  { apply spec_ret. split_and!; [done|done|]. intros s [= <-]. left. by exists al. }
  destruct ev as [[]|]; try done; spec_step; by apply resolved_observes.
Qed.

Lemma reconcile_observes a h : Inv h -> observes a h (reconcile runner_uid a).
Proof.
  intros HI. unfold observes, reconcile. spec_step. apply spec_ret.
  destruct (active h) as [al|] eqn:Ha; [by apply status_observes|by apply inactive_observes].
Qed.

Lemma cancel_observes a h : Inv h -> observes a h (cancel runner_uid a).
Proof.
  intros HI. unfold observes, cancel. spec_step. apply spec_ret.
  destruct (active h) as [al|] eqn:Ha; [|by apply inactive_observes]. spec_step.
  change (spec (set_active None) h) with (fun Q C => @spec Host unit (set_active None) h Q C). cbv beta.
  unfold spec at 1, set_active. apply goes_on_observes; [by apply deactivated_inv|done|done|].
  apply (after_mark_unknown (al_ledger al) (with_active None h) _ (fun r h' => reported a h r h')); [by apply (inv_active h HI)|done|].
  intros l' h' Hr' _ _. unfold goes_on. spec_step. apply spec_ret. destruct (a_cancel a) as [ev|]; [|by split; [apply continues_refl|]].
  eapply spec_mono; [by apply (resolve_spec a (mkActive (al_operation_id al) l'))| |done].
  intros r h2 [? ?]; split; [done|by apply proved_reported].
Qed.

Lemma drop_spec h : Inv h ->
  spec (drop_broker runner_uid) h (fun _ h' => Inv h' /\ logins h' = logins h) (fun h' => Inv (with_active None h') /\ logins h' = logins h).
Proof.
  intros HI. unfold drop_broker. spec_step. apply spec_ret. destruct (active h) as [al|] eqn:Ha; [|by apply spec_ret].
  spec_step. unfold spec at 1, set_active. pose proof (deactivated_inv h HI) as HI0.
  spec_step. eapply spec_mono; [apply mark_unknown_spec; by apply (inv_active h HI)| |].
  - intros r h' [Hc _]. apply spec_ret. split; [by eapply continues_inv|]. apply Hc.
  - intros h' Hc. split; [apply deactivated_inv; by eapply continues_inv|apply Hc].
Qed.

(** ** Runs *)

Lemma settle_spec {A} (m : M Host A) h (Q : Host -> Prop) :
  spec m h (fun _ => Q) (fun h' => Q (with_active None h')) -> Q (settle_run (m h)).
Proof. unfold spec, settle_run. by destruct (m h). Qed.

Lemma observed_settles a h (m : B LoginStatus) : observes a h m ->
  Inv (settle_run (m h)) /\ logins (settle_run (m h)) = logins h.
Proof. unfold observes, spec, settle_run. destruct (m h); tauto. Qed.

Lemma start_settles a h : Inv h -> start_effect a h (settle_run (start_device_login runner_uid a h)).
Proof.
  intros HI. apply (settle_spec _ h (start_effect a h)). eapply spec_mono; [by apply start_spec|done|].
  intros h' [[I L] Ha]. split; [by apply deactivated_inv|done].
Qed.

Lemma step_inv h s : Inv h -> Inv (step runner_uid h s).
Proof.
  intros HI. destruct s as [a|a|a|a| |ws n]; cbn [step].
  - apply (start_settles a h HI).
  - by apply (observed_settles a), status_observes.
  - by apply (observed_settles a), reconcile_observes.
  - by apply (observed_settles a), cancel_observes.
  - apply (settle_spec _ h Inv). eapply spec_mono; [by apply drop_spec| |]; naive_solver.
  - destruct HI. by split.
Qed.

Lemma run_inv h steps : Inv h -> Inv (run runner_uid h steps).
Proof. revert h. induction steps as [|s steps IH]; intros h HI; [done|]. by apply IH, step_inv. Qed.

Lemma fresh_inv : Inv fresh.
Proof. split; [done|done|]. intros op Hop. by apply not_elem_of_nil in Hop. Qed.

Lemma reached_inv steps : Inv (run runner_uid fresh steps).
Proof. apply run_inv, fresh_inv. Qed.

(** ** Records that stay *)

(** The file and the started logins are as they were, no login is active. *)
Record unchanged_by (h h' : Host) : Prop := mkUnchanged {
  un_file : ledger_file h' = ledger_file h;
  un_logins : logins h' = logins h;
  un_temps : temps h ⊆ temps h';
  un_active : active h' = None }.

Lemma unchanged_trans h1 h2 h3 : unchanged_by h1 h2 -> unchanged_by h2 h3 -> unchanged_by h1 h3.
Proof. intros [] []. split; [congruence|congruence|set_solver|done]. Qed.

Definition answers_of (s : Step) : option Answers :=
  match s with Start a | Status a | Reconcile a | Cancel a => Some a | _ => None end.

Section Stuck.
Variable (P : Answers -> Prop) (l : LoginLedger).
Hypothesis Hu : is_uncertain (latest l) = true.

(** The host is at the record, without an active login. *)
Definition stays (h : Host) (K : Host -> Prop) : Prop := ledger_file h = Some l /\ active h = None /\ K h.

Variable K : Host -> Prop.
Hypothesis Kmono : forall h h', K h -> temps h ⊆ temps h' -> K h'.
(** Settling the record fails and writes nothing. *)
Hypothesis Hstuck : forall a h, P a -> stays h K ->
  spec (reconcile_ledger runner_uid a l) h (fun r h' => unchanged_by h h' /\ exists e, r = Err e) (unchanged_by h).

Lemma stays_unchanged h h' : stays h K -> unchanged_by h h' -> stays h' K.
Proof. intros (? & ? & ?) []. split_and!; [congruence|done|eauto]. Qed.

Lemma unchanged_refl h : stays h K -> unchanged_by h h.
Proof. intros (? & ? & ?). by split. Qed.

Lemma inactive_stuck a h w : P a -> stays h K ->
  spec (reconcile_without_active runner_uid a w) h
    (fun r h' => unchanged_by h h' /\ forall s, r = Ok s -> s = LSOutcomeUnknown (operation_id l) /\ is_Some (process l)) (unchanged_by h).
Proof.
  intros HP Hs. pose proof (unchanged_refl h Hs) as Hrefl. pose proof Hs as (El & Ha & HK).
  unfold reconcile_without_active. spec_step. apply spec_ret. destruct (acquire_owned a); [|done].
  spec_step. apply spec_ret. destruct (a_version a); [|done].
  spec_step. unfold load. spec_step. apply spec_ret. destruct (load_ledger _ _ _) as [existing|] eqn:Hld; [|done].
  apply load_present with (l := l) in Hld as ->; [|done]. rewrite Hu.
  assert (Hrec : forall h1, unchanged_by h h1 -> spec (reconcile_ledger runner_uid a l) h1
    (fun r h' => unchanged_by h h' /\ forall s, r = Ok s -> s = LSOutcomeUnknown (operation_id l) /\ is_Some (process l)) (unchanged_by h)).
  { intros h1 H1. eapply spec_mono; [apply Hstuck; [done|by eapply stays_unchanged]| |].
    - intros r h' [Hun [e ->]]. split; [by eapply unchanged_trans|done].
    - intros h' Hun. by eapply unchanged_trans. }
  destruct (process l) as [pr|] eqn:Epr.
  - spec_step. apply spec_ret. destruct (process_is_alive pr (a_stat a)) as [[]|]; [| |done]; [|by apply Hrec].
    apply spec_ret. split; [done|]. intros s [= <-]. eauto.
  - spec_step. destruct w; [|by apply Hrec]. apply effect_spec; [|done]. intros n. apply Hrec. by split.
Qed.

Lemma unchanged_deactivated h h' : unchanged_by h h' -> unchanged_by h (with_active None h').
Proof. by intros []. Qed.

Lemma step_stuck h s : (forall a, answers_of s = Some a -> P a) -> stays h K -> unchanged_by h (step runner_uid h s).
Proof.
  intros HP Hs. pose proof (unchanged_refl h Hs) as Hrefl. pose proof Hs as (El & Ha & HK).
  assert (Hin : forall a w, P a -> unchanged_by h (settle_run (reconcile_without_active runner_uid a w h))).
  { intros a w Pa. apply (settle_spec _ h (unchanged_by h)). eapply spec_mono; [by apply inactive_stuck|by intros ? ? [? _]|].
    intros h'. apply unchanged_deactivated. }
  destruct s as [a|a|a|a| |ws n]; cbn [step].
  2,3,4: specialize (HP a eq_refl); unfold status, reconcile, cancel, bind, get; rewrite Ha; by apply Hin.
  - apply (settle_spec _ h (unchanged_by h)). unfold start_device_login. spec_step. apply spec_ret. rewrite Ha.
    spec_step. apply spec_ret. destruct (acquire_owned a); [|done].
    spec_step. apply spec_ret. destruct (a_version a); [|done].
    spec_step. unfold load. spec_step. apply spec_ret. destruct (load_ledger _ _ _) as [existing|] eqn:Hld; [|done].
    apply load_present with (l := l) in Hld as ->; [|done]. rewrite Hu. by apply spec_ret.
  - unfold drop_broker, bind, get. by rewrite Ha.
  - by split.
Qed.

Lemma run_stuck h steps : Forall (fun s => forall a, answers_of s = Some a -> P a) steps -> stays h K ->
  unchanged_by h (run runner_uid h steps).
Proof.
  intros Hall. revert h. induction Hall as [|s steps Hs _ IH]; intros h Hst; [by apply unchanged_refl|].
  pose proof (step_stuck h s Hs Hst) as H1. eapply unchanged_trans; [done|]. apply IH. by eapply stays_unchanged.
Qed.
End Stuck.

Lemma intent_stuck l a h K : history l = [LPIntent] -> (exists p, a_status a = Ok p) -> stays l h K ->
  spec (reconcile_ledger runner_uid a l) h (fun r h' => unchanged_by h h' /\ exists e, r = Err e) (unchanged_by h).
Proof.
  intros Hh [p Hp] (? & ? & _). unfold reconcile_ledger. rewrite Hp.
  assert (Ha : append (phase_of p) l = Err LBLedgerInvalid) by (unfold append, latest; rewrite Hh; by destruct p).
  destruct p; spec_step; unfold append_and_persist; spec_step; apply spec_ret; cbn in Ha; rewrite Ha; split; eauto; by split.
Qed.

Lemma blocked_persist l h : operation_id l ∈ temps h -> active h = None ->
  spec (persist l) h (fun r h' => unchanged_by h h' /\ exists e, r = Err e) (unchanged_by h).
Proof.
  intros Ht Ha. assert (forall ws n, unchanged_by h (mkHost (ledger_file h) (temps h) (active h) (logins h) (files h) ws n)) by by split.
  unfold persist_ledger. destruct (validate l) as [[]|e]; [|apply spec_ret; split; [by split|by eexists]].
  spec_step. apply next_write_spec. intros w ws. destruct (_ <? _); [apply spec_ret; split; [done|by eexists]|].
  spec_step. apply effect_spec; [|done]. intros n. spec_step. unfold spec at 1, create_temporary.
  rewrite bool_decide_eq_true_2 by done. apply spec_ret. split; [done|by eexists].
Qed.

Lemma blocked_append p l h : operation_id l ∈ temps h -> active h = None ->
  spec (append_and_persist runner_uid p l) h (fun r h' => unchanged_by h h' /\ exists e, r = Err e) (unchanged_by h).
Proof.
  intros Ht Ha. unfold append_and_persist. spec_step. apply spec_ret.
  destruct (append p l) as [l1|e] eqn:Eap; [|split; [by split|by eexists]].
  apply append_shape in Eap as (Ho & _). spec_step.
  eapply spec_mono; [apply blocked_persist; [by rewrite Ho|done]| |done]. intros r h' [Hun [e ->]]. split; [done|by eexists].
Qed.

Lemma temporary_stuck l a h : stays l h (fun h => operation_id l ∈ temps h) ->
  spec (reconcile_ledger runner_uid a l) h (fun r h' => unchanged_by h h' /\ exists e, r = Err e) (unchanged_by h).
Proof.
  intros (El & Ha & Ht). assert (Hb : forall p (s : LoginStatus), spec (try! _ := append_and_persist runner_uid p l in ret (Ok s)) h
    (fun r h' => unchanged_by h h' /\ exists e, r = Err e) (unchanged_by h)).
  { intros p s. spec_step. eapply spec_mono; [by apply blocked_append| |done]. intros r h' [Hun [e ->]]. split; [done|by eexists]. }
  unfold reconcile_ledger. destruct (a_status a) as [[]|e]; [by apply Hb..|].
  spec_step. unfold mark_unknown. case_bool_decide.
  - eapply spec_mono; [by apply (blocked_append LPOutcomeUnknown)| |done]. intros r h' [Hun [e' ->]]. split; [done|by eexists].
  - apply spec_ret. apply spec_ret. split; [by split|by eexists].
Qed.

(** ** Claims *)

(** C13: Over any sequence of broker calls, drops, restarts, process deaths and failed writes from an
    empty state directory, every operation whose device-login command may have run is the one the
    ledger file records or has had a terminal phase on disk; and a call starts a command only when no
    login is active, every earlier one was settled on disk and the status command said that nobody is
    logged in, with the record of the new operation on disk. *)
Theorem unsettled_login_blocks_new_logins (steps : list Step) (a : Answers) :
  let h := run runner_uid fresh steps in
  let h' := step runner_uid h (Start a) in
  (forall op, op ∈ logins h -> current op h \/ settled op h)
  /\ (logins h' = logins h
      \/ (logins h' = a_operation_id a :: logins h /\ active h = None /\ a_preflight a = Ok LoggedOut
          /\ forall op, op ∈ logins h -> settled op h))
  /\ (forall op, op ∈ logins h' -> current op h' \/ settled op h').
Proof.
  intros h h'. pose proof (reached_inv steps : Inv h) as HI. destruct (start_settles a h HI) as [HI' Hl].
  split_and!; [apply HI| |apply HI']. destruct Hl as [Hl|(Hl & Ha & Hc & Hp)]; [by left|right].
  split_and!; auto. intros op. by apply clear_settles.
Qed.

(** In every reachable state, a status that [status], [reconcile] or [cancel] returns is the login
    this process supervises, an earlier login whose recorded process is still alive, or what the fixed
    status command answered in this call, and then no unsettled login is left on disk. *)
Theorem reported_status_is_proved (steps : list Step) (a : Answers) (s : LoginStatus) (h' : Host) :
  let h := run runner_uid fresh steps in
  status runner_uid a h = Done (Ok s) h' \/ reconcile runner_uid a h = Done (Ok s) h' \/ cancel runner_uid a h = Done (Ok s) h' ->
  reported a h (Ok s) h'.
Proof.
  intros h Hcall. pose proof (reached_inv steps : Inv h) as HI.
  destruct Hcall as [E|[E|E]].
  - exact (proj2 (proj2 (spec_elim _ _ _ _ _ (status_observes a h HI) E))).
  - exact (proj2 (proj2 (spec_elim _ _ _ _ _ (reconcile_observes a h HI) E))).
  - exact (proj2 (proj2 (spec_elim _ _ _ _ _ (cancel_observes a h HI) E))).
Qed.

(** C37: A record that stopped at [Intent] (the supervisor could not be started, or the process died
    before [Started] was on disk) is never settled while the status command works: no sequence of calls,
    drops and restarts changes it or starts a login, and no status or reconciliation succeeds.  The
    specification says that such a record is reconciled through the status command. *)
Theorem intent_record_is_never_settled (l : LoginLedger) (h : Host) (steps : list Step) (a : Answers) :
  ledger_file h = Some l -> history l = [LPIntent] -> process l = None -> active h = None ->
  Forall (fun s => forall b, answers_of s = Some b -> exists p, a_status b = Ok p) steps ->
  (exists p, a_status a = Ok p) ->
  let h' := run runner_uid h steps in
  ledger_file h' = Some l /\ logins h' = logins h
  /\ forall s h2, status runner_uid a h' <> Done (Ok s) h2 /\ reconcile runner_uid a h' <> Done (Ok s) h2.
Proof.
  intros El Hh Hp Ha Hall Hst h'. pose (K := fun _ : Host => True).
  assert (Hu : is_uncertain (latest l) = true) by (unfold latest; by rewrite Hh).
  assert (Hrec : forall b k, (exists p, a_status b = Ok p) -> stays l k K -> spec (reconcile_ledger runner_uid b l) k
    (fun r k' => unchanged_by k k' /\ exists e, r = Err e) (unchanged_by k)) by (intros b k; by apply intent_stuck).
  assert (Hun : unchanged_by h h') by (by apply (run_stuck _ l Hu K ltac:(done) Hrec h steps Hall)).
  destruct Hun as [F L T A]. split_and!; [congruence|done|]. intros s h2.
  assert (Hno : forall w, reconcile_without_active runner_uid a w h' <> Done (Ok s) h2).
  { intros w' E. assert (Hs : stays l h' K) by (split_and!; [congruence|done|done]).
    destruct (spec_elim _ _ _ _ _ (inactive_stuck _ l Hu K ltac:(done) Hrec a h' w' Hst Hs) E) as [_ Hres].
    destruct (Hres s eq_refl) as [_ []]. congruence. }
  unfold status, reconcile, bind, get. rewrite A. split; apply Hno.
Qed.

(** C38: A temporary file that a failed or interrupted persist left behind blocks its operation for ever:
    while the record of that operation is unsettled, no sequence of calls, drops and restarts changes it
    or starts a login, and no status or reconciliation reports anything but the unknown outcome. *)
Theorem leftover_temporary_blocks_settling (l : LoginLedger) (h : Host) (steps : list Step) (a : Answers) :
  ledger_file h = Some l -> is_uncertain (latest l) = true -> active h = None -> operation_id l ∈ temps h ->
  let h' := run runner_uid h steps in
  ledger_file h' = Some l /\ logins h' = logins h
  /\ forall s h2, status runner_uid a h' = Done (Ok s) h2 \/ reconcile runner_uid a h' = Done (Ok s) h2 ->
       s = LSOutcomeUnknown (operation_id l).
Proof.
  intros El Hu Ha Ht h'. pose (K := fun h : Host => operation_id l ∈ temps h). pose (P := fun _ : Answers => True).
  assert (Hmono : forall k k', K k -> temps k ⊆ temps k' -> K k') by (unfold K; set_solver).
  assert (Hrec : forall b k, P b -> stays l k K -> spec (reconcile_ledger runner_uid b l) k
    (fun r k' => unchanged_by k k' /\ exists e, r = Err e) (unchanged_by k)) by (intros b k _; apply temporary_stuck).
  assert (Hall : Forall (fun s => forall b, answers_of s = Some b -> P b) steps) by (by apply Forall_forall).
  assert (Hun : unchanged_by h h') by (by apply (run_stuck P l Hu K Hmono Hrec h steps Hall)).
  destruct Hun as [F L T A]. split_and!; [congruence|done|]. intros s h2.
  assert (Hno : forall w, reconcile_without_active runner_uid a w h' = Done (Ok s) h2 -> s = LSOutcomeUnknown (operation_id l)).
  { intros w E. assert (Hs : stays l h' K) by (split_and!; [congruence|done|unfold K; set_solver]).
    destruct (spec_elim _ _ _ _ _ (inactive_stuck P l Hu K Hmono Hrec a h' w I Hs) E) as [_ Hres].
    by destruct (Hres s eq_refl). }
  unfold status, reconcile, bind, get. rewrite A. intros [E|E]; by eapply Hno.
Qed.

(** ** A login that can be settled *)

Definition good_load (os : LoadOs) : Prop :=
  lo_open os = None /\ validate_ledger_file (lo_meta os) runner_uid = Ok tt
  /\ (exists n, lo_length os = Some n /\ n <= MAX_LEDGER_BYTES) /\ (exists n, lo_read os = Some n /\ n <= MAX_LEDGER_BYTES)
  /\ lo_decodes os = true.

Lemma load_good os l : good_load os -> valid l -> load_ledger (Some l) os runner_uid = Ok (Some l).
Proof.
  intros (Ho & Hm & (n & Hn & Hn') & (k & Hk & Hk') & Hd) Hv. unfold load_ledger. rewrite Ho, Hm. simpl. rewrite Hn, Hk. simpl.
  rewrite !(proj2 (Z.ltb_ge _ _)) by done. rewrite Hd. simpl. unfold valid in Hv. by rewrite Hv.
Qed.

Lemma persist_succeeds l h n : valid l -> writes h = [] -> fuel h = S (S n) -> operation_id l ∉ temps h ->
  exists h', persist l h = Done (Ok tt) h' /\ ledger_file h' = Some l.
Proof.
  intros Hv Hw Hf Ht. unfold persist_ledger. unfold valid in Hv. rewrite Hv. unfold bind at 1, next_write. rewrite Hw. simpl.
  unfold bind at 1, effect. rewrite Hf. unfold bind at 1, create_temporary. cbn [temps].
  rewrite bool_decide_eq_false_2 by done. cbn. rewrite Z.eqb_refl. cbn. eauto.
Qed.

(** The record can take the phase that the status command settles it with. *)
Definition can_settle (l : LoginLedger) : bool :=
  negb (bool_decide (latest l = LPIntent)) && (len (history l) <? MAX_HISTORY_ENTRIES).

Lemma can_settle_append l p : is_uncertain (latest l) = true ->
  if can_settle l then exists l', append (phase_of p) l = Ok l' else append (phase_of p) l = Err LBLedgerInvalid.
Proof.
  intros Hu. unfold can_settle, append. destruct (Z.ltb_spec (len (history l)) MAX_HISTORY_ENTRIES) as [Hl|Hl].
  - rewrite (proj2 (Z.leb_gt _ _)) by done. destruct (latest l); try done; destruct p; simpl; eauto.
  - rewrite andb_false_r, (proj2 (Z.leb_le _ _)) by done. done.
Qed.

(** C32: When the process of an unsettled login is gone, the status command answers and the writes
    succeed, one reconciliation settles it exactly when its record got past [Intent] and its history has
    room: then [reconcile] returns that answer, appends the terminal phase to the record, and nothing is
    left that would block a new login.  Otherwise (the supervisor was never recorded as started, or
    thirty-two entries are used up) it fails with [LedgerInvalid] and leaves the record as it is. *)
Theorem interrupted_login_reconciles (l : LoginLedger) (h : Host) (a : Answers) (p : PinnedStatus) (n : nat) :
  ledger_file h = Some l -> valid l -> is_uncertain (latest l) = true ->
  active h = None -> operation_id l ∉ temps h -> writes h = [] -> fuel h = S (S (S n)) ->
  a_scope a = Ok tt -> a_version a = Ok tt -> good_load (a_load a) -> a_status a = Ok p ->
  (forall pr, process l = Some pr -> process_is_alive pr (a_stat a) = Ok false) ->
  if can_settle l then
    exists h' l', reconcile runner_uid a h = Done (Ok (status_of p)) h' /\ ledger_file h' = Some l'
      /\ operation_id l' = operation_id l /\ history l' = history l ++ [phase_of p] /\ clear h'
  else exists h', reconcile runner_uid a h = Done (Err LBLedgerInvalid) h' /\ ledger_file h' = Some l.
Proof.
  intros El Hv Hu Ha Ht Hw Hf Hsc Hve Hld Hst Hal.
  assert (Hto : exists k m, reconcile runner_uid a h = reconcile_ledger runner_uid a l k /\ ledger_file k = Some l /\
    writes k = [] /\ operation_id l ∉ temps k /\ fuel k = S (S m)).
  { unfold reconcile, reconcile_without_active, acquire_owned, bind_result, load, bind, pure, ret, get. rewrite Ha, Hsc, Hve. simpl.
    rewrite El, (load_good _ _ Hld Hv), Hu. destruct (process l) as [pr|].
    - rewrite (Hal pr eq_refl). exists h, (S n). by split_and!.
    - unfold effect. rewrite Hf. eexists _, n. split; [reflexivity|]. by split_and!. }
  destruct Hto as (k & m & -> & Ek & Hwk & Htk & Hfk). pose proof (can_settle_append l p Hu) as Hap.
  unfold reconcile_ledger. rewrite Hst. destruct (can_settle l).
  - destruct Hap as [l' Hap]. pose proof (append_shape _ _ _ Hap) as (Ho & Hh & _).
    destruct (persist_succeeds l' k m) as (h' & Hp & Hf'); [eapply append_valid; [done|by destruct p|done]|done..|by rewrite Ho|].
    exists h', l'. split_and!; try done.
    + destruct p; unfold append_and_persist, bind_result, bind, pure, ret; cbn in Hap; by rewrite Hap, Hp.
    + intros k'. rewrite Hf'. intros [= <-]. rewrite (latest_append _ _ _ Hap). by destruct p.
  - exists k. split; [|done]. destruct p; unfold append_and_persist, bind_result, bind, pure, ret; cbn in Hap; by rewrite Hap.
Qed.

End Claims.

(** ** Witnesses *)

Module LoginWitness.

Definition op : LoginOperationId := mkLoginOp 7.
Definition identity : ProcessIdentity := Sub.mkProcess 10 20.
Definition os : LoadOs := mkLoadOs None (Some (mkFileMeta true 1000 384 1)) (Some 200) (Some 200) true.
Definition code : VerificationCode := mkCode DEVICE_CODE_PLACEHOLDER.

(** The supervisor of a login, and the status its reconciliation gets. *)
Definition answers (started : result LoginBrokerError unit) (s : PinnedStatus) : Answers :=
  mkAnswers (Ok tt) (Ok tt) os StatMissing (Ok LoggedOut) (Ok s) op started (Ok (EvStarted identity))
    (Ok (EvInstructions code)) (Ok None) (Err LBProcess).

(** The supervisor thread could not be created: the record stays at [Intent]. *)
Definition intent_host : Host := run 1000 fresh [Restart [] 20; Start (answers (Err LBProcess) LoggedOut)].
(** The third write fails after its temporary file was created. *)
Definition full_disk : PersistOs := mkPersistOs 0 true true (Some (mkFileMeta true 1000 384 1)) false true true.
Definition temporary_host : Host :=
  run 1000 fresh [Restart [good_persist 1000; good_persist 1000; full_disk] 20; Start (answers (Ok tt) LoggedOut)].
(** The process ended while a login was pending. *)
Definition interrupted : list Step := [Restart [] 20; Start (answers (Ok tt) LoggedIn); Restart [] 20].
Definition pending_ledger : LoginLedger := mkLedger 1 op (Some identity) [LPIntent; LPStarted; LPDeviceInstructions].

Lemma intent_record_witness :
  let a := answers (Ok tt) LoggedOut in
  let h' := run 1000 intent_host [Reconcile a; Status a; Restart [] 20; Start a] in
  ledger_file h' = Some (new op) /\ logins h' = logins intent_host
  /\ forall s h2, status 1000 a h' <> Done (Ok s) h2 /\ reconcile 1000 a h' <> Done (Ok s) h2.
Proof.
  apply (intent_record_is_never_settled 1000 (new op) intent_host); try (vm_compute; reflexivity).
  - repeat constructor; intros b [= <-]; eexists; reflexivity.
  - eexists. reflexivity.
Defined.

Lemma leftover_temporary_witness :
  let a := answers (Ok tt) LoggedOut in
  let h' := run 1000 temporary_host [Restart [] 20; Reconcile a; Start a] in
  ledger_file h' = Some (mkLedger 1 op (Some identity) [LPIntent; LPStarted]) /\ logins h' = [op]
  /\ forall s h2, status 1000 a h' = Done (Ok s) h2 \/ reconcile 1000 a h' = Done (Ok s) h2 -> s = LSOutcomeUnknown op.
Proof.
  apply (leftover_temporary_blocks_settling 1000 (mkLedger 1 op (Some identity) [LPIntent; LPStarted]) temporary_host);
    [vm_compute; reflexivity..|]. vm_compute. left.
Defined.

Lemma interrupted_login_witness :
  exists h' l', reconcile 1000 (answers (Ok tt) LoggedIn) (run 1000 fresh interrupted) = Done (Ok LSLoggedIn) h'
    /\ ledger_file h' = Some l' /\ operation_id l' = op
    /\ history l' = [LPIntent; LPStarted; LPDeviceInstructions; LPLoggedIn] /\ clear h'.
Proof.
  apply (interrupted_login_reconciles 1000 pending_ledger (run 1000 fresh interrupted) (answers (Ok tt) LoggedIn) LoggedIn 17);
    try (vm_compute; reflexivity); try (vm_compute; done).
  - vm_compute. intros H. inversion H.
  - repeat split; [exists 200|exists 200]; done.
Defined.

Lemma reported_status_witness :
  reported (answers (Ok tt) LoggedIn) (run 1000 fresh interrupted) (Ok LSLoggedIn)
    (settle_run (reconcile 1000 (answers (Ok tt) LoggedIn) (run 1000 fresh interrupted))).
Proof. apply (reported_status_is_proved 1000 interrupted). right. left. vm_compute. reflexivity. Defined.

End LoginWitness.
