(* ===== verification/Scope.v ===== *)
(** * The credential scope

    Models [crates/codebox-agent-codex/src/scope.rs] and [invocation.rs]: the policy on the four
    configured paths, the lease file with its lock, and the fixed process policies.  A path is what
    [std::path] compares: whether it is absolute, and its components.  The file system is an oracle of
    one moment: what [symlink_metadata] and [canonicalize] answer for a path.  The lock of a lease is
    kept by the kernel for the open file that holds it. *)
From S2P Require Import Prelude DomainValues CloudTypes CloudAdapter LoginTypes LoginLedger.
From stdpp Require Import base numbers list strings sets gmap.
From Stdlib Require Import ZArith Lia.
Import Ledger.

Open Scope Z_scope.

Module Scope.

(** ** Paths *)

Record Path := mkPath { is_absolute : bool; components : list string }.
#[export] Instance Path_eq_dec : EqDecision Path.
Proof. solve_decision. Defined.

Definition parent (p : Path) : option Path :=
  match components p with [] => None | _ => Some (mkPath (is_absolute p) (removelast (components p))) end.

(** [Path::ancestors]: the path, its parent, and so on. *)
Fixpoint ancestors_from (n : nat) (p : Path) : list Path :=
  p :: match n, parent p with S n, Some q => ancestors_from n q | _, _ => [] end.
Definition ancestors (p : Path) : list Path := ancestors_from (length (components p)) p.

Definition join (p : Path) (name : string) : Path := mkPath (is_absolute p) (components p ++ [name]).

Definition starts_with (p base : Path) : bool :=
  eqb (is_absolute p) (is_absolute base) && bool_decide (components base `prefix_of` components p).

(** ** The file system *)

Inductive FileType := RegularFile | Directory | Symlink | OtherFile.
#[export] Instance FileType_eq_dec : EqDecision FileType.
Proof. solve_decision. Defined.

Inductive LStat := LMissing | LError | LMeta (kind : FileType) (uid mode : Z).

Record Fs := mkFs { symlink_metadata : Path -> LStat; canonicalize : Path -> option Path }.

Definition EXECUTE_BITS : Z := 73. (* 0o111 *)
Definition SHARED_WRITE_BITS : Z := 18. (* 0o022 *)
Definition SPECIAL_BITS : Z := 3584. (* 0o7000 *)
Definition MODE_BITS : Z := 4095. (* 0o7777 *)
Definition DIRECTORY_MODE : Z := 448. (* 0o700 *)
Definition LEASE_MODE : Z := 384. (* 0o600 *)

Definition owner_is_allowed (actual_uid runner_uid : Z) (root_is_allowed : bool) : bool :=
  (actual_uid =? runner_uid) || (root_is_allowed && (actual_uid =? 0)).

Definition executable_ancestry_start (p : Path) : Path := match parent p with Some q => q | None => p end.

Definition paths_overlap (left right : Path) : bool :=
  bool_decide (left = right) || starts_with left right || starts_with right left.

Section Policy.
Variable fs : Fs.

Definition validate_executable (path : Path) (runner_uid : Z) : result CredentialScopeError unit :=
  if negb (is_absolute path) then Err (SEExecutableUnsafe EVNotAbsolute)
  else
  match symlink_metadata fs path with
  | LMissing | LError => Err SEExecutableUnavailable
  | LMeta kind uid mode =>
      if bool_decide (kind = Symlink) then Err (SEExecutableUnsafe EVSymlink)
      else if negb (bool_decide (kind = RegularFile)) then Err (SEExecutableUnsafe EVNotRegularFile)
      else if negb (owner_is_allowed uid runner_uid true) then Err (SEExecutableUnsafe EVWrongOwner)
      else if (Z.land mode EXECUTE_BITS =? 0) || negb (Z.land mode SHARED_WRITE_BITS =? 0)
              || negb (Z.land mode SPECIAL_BITS =? 0)
      then Err (SEExecutableUnsafe EVPermissions)
      else
      match canonicalize fs path with
      | None => Err SEExecutableUnavailable
      | Some canonical => if bool_decide (canonical <> path) then Err (SEExecutableUnsafe EVNotCanonical) else Ok tt
      end
  end.

Definition validate_directory (path : Path) (directory : CredentialDirectory) (runner_uid : Z)
  : result CredentialScopeError unit :=
  if negb (is_absolute path) then Err (SEDirectoryUnsafe directory DVNotAbsolute)
  else
  match symlink_metadata fs path with
  | LMissing | LError => Err (SEDirectoryUnavailable directory)
  | LMeta kind uid mode =>
      if bool_decide (kind = Symlink) then Err (SEDirectoryUnsafe directory DVSymlink)
      else if negb (bool_decide (kind = Directory)) then Err (SEDirectoryUnsafe directory DVNotDirectory)
      else if negb (owner_is_allowed uid runner_uid false) then Err (SEDirectoryUnsafe directory DVWrongOwner)
      else if negb (Z.land mode MODE_BITS =? DIRECTORY_MODE) then Err (SEDirectoryUnsafe directory DVPermissions)
      else
      match canonicalize fs path with
      | None => Err (SEDirectoryUnavailable directory)
      | Some canonical =>
          if bool_decide (canonical <> path) then Err (SEDirectoryUnsafe directory DVNotCanonical) else Ok tt
      end
  end.

(** The loop over the ancestors. *)
Fixpoint reject_markers (ps : list Path) (configured : CredentialPath) : result CredentialScopeError unit :=
  match ps with
  | [] => Ok tt
  | p :: rest =>
      match symlink_metadata fs (join p ".git") with
      | LMeta _ _ _ => Err (SERepositoryPathRejected configured)
      | LMissing => reject_markers rest configured
      | LError => Err (SERepositoryInspectionUnavailable configured)
      end
  end.

Definition reject_repository_ancestry (start : Path) (configured : CredentialPath) : result CredentialScopeError unit :=
  reject_markers (ancestors start) configured.

Record CredentialScopeConfig := mkScopeConfig {
  executable : Path; codex_home : Path; state_dir : Path; working_dir : Path }.

Record CredentialScope := mkScope { scope_paths : CredentialScopeConfig; runner_uid : Z }.

(** [revalidate], and [revalidate_owned] on a lease: the checks every use repeats. *)
Definition revalidate (s : CredentialScope) : result CredentialScopeError unit :=
  let c := scope_paths s in
  let? _ := validate_executable (executable c) (runner_uid s) in
  let? _ := validate_directory (codex_home c) DirCodexHome (runner_uid s) in
  let? _ := validate_directory (state_dir c) DirState (runner_uid s) in
  let? _ := validate_directory (working_dir c) DirWorking (runner_uid s) in
  let? _ := reject_repository_ancestry (executable_ancestry_start (executable c)) PathExecutable in
  let? _ := reject_repository_ancestry (codex_home c) PathCodexHome in
  let? _ := reject_repository_ancestry (state_dir c) PathState in
  reject_repository_ancestry (working_dir c) PathWorking.

Definition validate_scope (config : CredentialScopeConfig) (effective_uid : Z) : result CredentialScopeError CredentialScope :=
  let? _ := validate_executable (executable config) effective_uid in
  let? _ := validate_directory (codex_home config) DirCodexHome effective_uid in
  let? _ := validate_directory (state_dir config) DirState effective_uid in
  let? _ := validate_directory (working_dir config) DirWorking effective_uid in
  let? _ := reject_repository_ancestry (executable_ancestry_start (executable config)) PathExecutable in
  let? _ := reject_repository_ancestry (codex_home config) PathCodexHome in
  let? _ := reject_repository_ancestry (state_dir config) PathState in
  let? _ := reject_repository_ancestry (working_dir config) PathWorking in
  if paths_overlap (codex_home config) (state_dir config)
     || paths_overlap (codex_home config) (working_dir config)
     || paths_overlap (state_dir config) (working_dir config)
  then Err SEDirectoryOverlap
  else Ok (mkScope config effective_uid).
End Policy.

(** ** The lease *)

Inductive LeaseOpenError := LeaseLoop | LeaseOther.

Definition map_lease_open_error (e : LeaseOpenError) : CredentialScopeError :=
  match e with LeaseLoop => SELeaseUnsafe LVSymlink | LeaseOther => SELeaseUnavailable end.

(** [create_new]: the file is created, exists, or the call fails. *)
Inductive LeaseCreate := LeaseCreated (chmod_ok : bool) | LeaseExists (reopen : option LeaseOpenError) | LeaseCreateError (e : LeaseOpenError).

Definition open_lease (os : LeaseCreate) : result CredentialScopeError unit :=
  match os with
  | LeaseCreated true => Ok tt
  | LeaseCreated false => Err SELeaseUnavailable
  | LeaseExists None => Ok tt
  | LeaseExists (Some e) | LeaseCreateError e => Err (map_lease_open_error e)
  end.

Definition validate_lease (meta : option FileMeta) (uid : Z) : result CredentialScopeError unit :=
  match meta with
  | None => Err SELeaseUnavailable
  | Some m =>
      if negb (fm_is_file m) then Err (SELeaseUnsafe LVNotRegularFile)
      else if negb (fm_uid m =? uid) then Err (SELeaseUnsafe LVWrongOwner)
      else if negb (Z.land (fm_mode m) MODE_BITS =? LEASE_MODE) then Err (SELeaseUnsafe LVPermissions)
      else if negb (fm_nlink m =? 1) then Err (SELeaseUnsafe LVMultipleLinks)
      else Ok tt
  end.

(** The kernel's lock on the lease file: the holder, by the number of its open file. *)
Record Kernel := mkKernel { lock_holder : option nat; next_file : nat }.

Record LeaseOs := mkLeaseOs { le_fs : Fs; le_open : LeaseCreate; le_meta : option FileMeta; le_flock_error : bool }.

(** [flock(LOCK_EX | LOCK_NB)]: granted when nobody holds the lock. *)
Definition acquire_lock (error : bool) (file : nat) (k : Kernel) : result CredentialScopeError unit * Kernel :=
  if error then (Err SELeaseUnavailable, k)
  else match lock_holder k with
  | Some _ => (Err SELoginAlreadyRunning, k)
  | None => (Ok tt, mkKernel (Some file) (next_file k))
  end.

(** [acquire_lock_file], with [try_acquire] and [acquire_owned]: the lease is the open file. *)
Definition acquire_lock_file (s : CredentialScope) (os : LeaseOs) (k : Kernel) : result CredentialScopeError nat * Kernel :=
  match revalidate (le_fs os) s with
  | Err e => (Err e, k)
  | Ok _ =>
      match open_lease (le_open os) with
      | Err e => (Err e, k)
      | Ok _ =>
          let file := next_file k in
          let k := mkKernel (lock_holder k) (S file) in
          match validate_lease (le_meta os) (runner_uid s) with
          | Err e => (Err e, k)
          | Ok _ => let (r, k) := acquire_lock (le_flock_error os) file k in (let? _ := r in Ok file, k)
          end
      end
  end.

(** [release_lock], when a lease is dropped or its process dies. *)
Definition release_lock (file : nat) (k : Kernel) : Kernel :=
  mkKernel (if bool_decide (lock_holder k = Some file) then None else lock_holder k) (next_file k).

(** ** Process policies *)

Inductive CodexCommand := CmdVersion | CmdLoginStatus | CmdDeviceLogin.

Definition quoted (s : string) : string :=
  (String (Ascii.ascii_of_nat 34) (s ++ String (Ascii.ascii_of_nat 34) EmptyString))%string.
Definition VERSION_ARGS : list string := ["--version"].
Definition STATUS_ARGS : list string :=
  ["-c"; ("forced_login_method=" ++ quoted "chatgpt")%string; "-c"; ("cli_auth_credentials_store=" ++ quoted "file")%string; "login"; "status"].
Definition DEVICE_LOGIN_ARGS : list string :=
  ["-c"; ("forced_login_method=" ++ quoted "chatgpt")%string; "-c"; ("cli_auth_credentials_store=" ++ quoted "file")%string; "login"; "--device-auth"].

Record CodexInvocation := mkCodexInvocation {
  ci_executable : Path; ci_working_dir : Path; ci_codex_home : Path; ci_args : list string }.

Definition CodexInvocation_new (c : CredentialScopeConfig) (command : CodexCommand) : CodexInvocation :=
  mkCodexInvocation (executable c) (working_dir c) (codex_home c)
    match command with
    | CmdVersion => VERSION_ARGS
    | CmdLoginStatus => STATUS_ARGS
    | CmdDeviceLogin => DEVICE_LOGIN_ARGS
    end.

Definition invocation (fs : Fs) (s : CredentialScope) (command : CodexCommand) : result CredentialScopeError CodexInvocation :=
  let? _ := revalidate fs s in Ok (CodexInvocation_new (scope_paths s) command).

(** [cloud_invocation]: the same boundary around one Cloud argv. *)
Definition cloud_invocation (fs : Fs) (s : CredentialScope) (command : CloudInvocation)
  : result CredentialScopeError CodexInvocation :=
  let? _ := revalidate fs s in
  Ok (mkCodexInvocation (executable (scope_paths s)) (working_dir (scope_paths s)) (codex_home (scope_paths s)) (inv_args command)).

(** ** Paths, components *)

Lemma starts_with_iff p base :
  starts_with p base = true <-> is_absolute p = is_absolute base /\ components base `prefix_of` components p.
Proof. unfold starts_with. by rewrite andb_true_iff, eqb_true_iff, bool_decide_eq_true. Qed.

Lemma prefix_snoc_cases {A} (l k : list A) x : l `prefix_of` k ++ [x] -> l = k ++ [x] \/ l `prefix_of` k.
Proof.
  intros [r Hr]. destruct r as [|y r _] using rev_ind; [left; by rewrite app_nil_r in Hr|right].
  rewrite app_assoc in Hr. apply app_inj_tail in Hr as [-> _]. by exists r.
Qed.

Lemma ancestors_root n b : ancestors_from n (mkPath b []) = [mkPath b []].
Proof. by destruct n. Qed.

Lemma ancestors_snoc n b cs x :
  ancestors_from (S n) (mkPath b (cs ++ [x])) = mkPath b (cs ++ [x]) :: ancestors_from n (mkPath b cs).
Proof. cbn [ancestors_from]. unfold parent. cbn [components is_absolute]. rewrite removelast_last. by destruct cs. Qed.

(** The ancestors of a path are the paths it starts with. *)
Lemma ancestors_from_iff n p q : (length (components p) <= n)%nat -> q ∈ ancestors_from n p <-> starts_with p q = true.
Proof.
  rewrite starts_with_iff. destruct p as [b cs], q as [b' ds]. cbn [components is_absolute]. revert n.
  induction cs as [|x cs IH] using rev_ind; intros n Hn.
  - rewrite ancestors_root, list_elem_of_singleton. split; [intros [= -> ->]; done|]. by intros [-> ->%prefix_nil_inv].
  - rewrite length_app in Hn. destruct n as [|n]; [simpl in Hn; lia|].
    rewrite ancestors_snoc, elem_of_cons, IH by (simpl in Hn; lia). split.
    + intros [[= -> ->]|[-> Hp]]; [done|]. split; [done|]. by apply prefix_app_r.
    + intros [-> [->|Hp]%prefix_snoc_cases]; auto.
Qed.

Lemma ancestors_iff p q : q ∈ ancestors p <-> starts_with p q = true.
Proof. by apply ancestors_from_iff. Qed.

Lemma disjoint_directories a b p : paths_overlap a b = false -> starts_with p a = true -> starts_with p b = true -> False.
Proof.
  unfold paths_overlap. rewrite !orb_false_iff. intros [[_ Hab] Hba] [Ea Pa]%starts_with_iff [Eb Pb]%starts_with_iff.
  destruct (prefix_weak_total _ _ _ Pa Pb) as [H|H].
  - apply not_true_iff_false in Hba. apply Hba, starts_with_iff. split; [congruence|done].
  - apply not_true_iff_false in Hab. apply Hab, starts_with_iff. split; [congruence|done].
Qed.

Lemma no_marker fs ps c r : reject_markers fs ps c = Ok tt -> r ∈ ps -> symlink_metadata fs (join r ".git") = LMissing.
Proof.
  induction ps as [|p ps IH]; [by intros _ ?%not_elem_of_nil|]. cbn [reject_markers].
  destruct (symlink_metadata fs (join p ".git")) eqn:E; try done. intros Hr [->|Hin]%elem_of_cons; auto.
Qed.

Lemma no_repository_above fs start c r : reject_repository_ancestry fs start c = Ok tt -> starts_with start r = true ->
  symlink_metadata fs (join r ".git") = LMissing.
Proof. intros Hr Hs%ancestors_iff. by eapply no_marker. Qed.

(** What the file system says of an accepted directory. *)
Definition private_directory (fs : Fs) (p : Path) (uid : Z) : Prop :=
  is_absolute p = true /\ canonicalize fs p = Some p
  /\ exists mode, symlink_metadata fs p = LMeta Directory uid mode /\ Z.land mode MODE_BITS = DIRECTORY_MODE.

Lemma validate_directory_private fs p d uid : validate_directory fs p d uid = Ok tt -> private_directory fs p uid.
Proof.
  unfold validate_directory. destruct (is_absolute p) eqn:Ea; [|done]. simpl. destruct (symlink_metadata fs p) as [| |k u mode] eqn:Em; try done.
  case_bool_decide; [done|]. case_bool_decide as Hk; [|done]. simpl. unfold owner_is_allowed. simpl. rewrite orb_false_r.
  destruct (u =? uid) eqn:Eu; [|done]. apply Z.eqb_eq in Eu as ->. simpl. destruct (_ =? DIRECTORY_MODE) eqn:Ed; [|done].
  simpl. apply Z.eqb_eq in Ed. destruct (canonicalize fs p) as [q|] eqn:Ec; [|done]. case_bool_decide as Hq; [done|].
  intros _. subst. unfold private_directory. eauto.
Qed.

(** C28: A validated scope keeps its directories apart and away from repositories: each of the three is an
    absolute canonical directory of the runner with mode 0700, no path lies in two of them, no
    repository marker stands in a directory that holds one of them or the executable, and the scope
    passes the checks that every use repeats. *)
Theorem validated_scope_is_isolated (fs : Fs) (c : CredentialScopeConfig) (uid : Z) (s : CredentialScope) :
  validate_scope fs c uid = Ok s ->
  s = mkScope c uid /\ revalidate fs s = Ok tt
  /\ Forall (fun d => private_directory fs d uid) [codex_home c; state_dir c; working_dir c]
  /\ (forall p, (starts_with p (codex_home c) = true -> starts_with p (state_dir c) = false /\ starts_with p (working_dir c) = false)
              /\ (starts_with p (state_dir c) = true -> starts_with p (working_dir c) = false))
  /\ (forall repository, symlink_metadata fs (join repository ".git") <> LMissing ->
       Forall (fun d => starts_with d repository = false)
         [executable_ancestry_start (executable c); codex_home c; state_dir c; working_dir c]).
Proof.
  unfold validate_scope, revalidate.
  destruct (validate_executable _ _ _) as [[]|] eqn:V0; [|done]. destruct (validate_directory _ _ DirCodexHome _) as [[]|] eqn:V1; [|done].
  destruct (validate_directory _ _ DirState _) as [[]|] eqn:V2; [|done]. destruct (validate_directory _ _ DirWorking _) as [[]|] eqn:V3; [|done].
  destruct (reject_repository_ancestry _ _ PathExecutable) as [[]|] eqn:R0; [|done]. destruct (reject_repository_ancestry _ _ PathCodexHome) as [[]|] eqn:R1; [|done].
  destruct (reject_repository_ancestry _ _ PathState) as [[]|] eqn:R2; [|done]. destruct (reject_repository_ancestry _ _ PathWorking) as [[]|] eqn:R3; [|done].
  simpl. destruct (_ || _) eqn:Eo; [done|]. intros [= <-]. rewrite !orb_false_iff in Eo. destruct Eo as ((O1 & O2) & O3).
  cbn [scope_paths runner_uid]. rewrite V0, V1, V2, V3, R0, R1, R2, R3. split_and!; [done|done| | |].
  - rewrite !Forall_cons, Forall_nil. split_and!; [by eapply validate_directory_private..|done].
  - intros p. split; [intros H1; split|intros H1]; apply not_true_iff_false; intros H2;
    [exact (disjoint_directories _ _ p O1 H1 H2)|exact (disjoint_directories _ _ p O2 H1 H2)|exact (disjoint_directories _ _ p O3 H1 H2)].
  - intros r Hr. rewrite !Forall_cons, Forall_nil. split_and!; [..|done];
    apply not_true_iff_false; intros Hs; apply Hr;
    [exact (no_repository_above _ _ _ r R0 Hs)|exact (no_repository_above _ _ _ r R1 Hs)
    |exact (no_repository_above _ _ _ r R2 Hs)|exact (no_repository_above _ _ _ r R3 Hs)].
Qed.

(** ** Leases *)

(** The life of the leases of one scope, of any process: acquisitions, and the end of a lease. *)
Inductive LeaseStep := Acquire (s : CredentialScope) (os : LeaseOs) | DropLease (file : nat).

Definition lease_step (st : Kernel * list nat) (x : LeaseStep) : Kernel * list nat :=
  let (k, leases) := st in
  match x with
  | Acquire s os => match acquire_lock_file s os k with (Ok file, k) => (k, file :: leases) | (Err _, k) => (k, leases) end
  | DropLease file => if bool_decide (file ∈ leases) then (release_lock file k, filter (fun f => f <> file) leases) else (k, leases)
  end.

Definition lease_run (xs : list LeaseStep) : Kernel * list nat := fold_left lease_step xs (mkKernel None 0, []).

Definition lease_inv (st : Kernel * list nat) : Prop := snd st = match lock_holder (fst st) with Some f => [f] | None => [] end.

Lemma lease_step_inv st x : lease_inv st -> lease_inv (lease_step st x).
Proof.
  destruct st as [k leases]. unfold lease_inv. cbn [fst snd]. intros Hi. destruct x as [s os|file]; cbn [lease_step].
  - unfold acquire_lock_file. destruct (revalidate _ _); [|done]. destruct (open_lease _); [|done].
    destruct (validate_lease _ _); [|done]. unfold acquire_lock. destruct (le_flock_error os); [done|]. cbn [lock_holder].
    destruct (lock_holder k) eqn:El; cbn; by subst.
  - case_bool_decide as Hin; [|done]. cbn [fst snd release_lock lock_holder]. unfold release_lock. cbn [lock_holder].
    destruct (lock_holder k) as [f|] eqn:El; subst; [|by apply not_elem_of_nil in Hin].
    apply list_elem_of_singleton in Hin as ->. rewrite bool_decide_eq_true_2 by done.
    rewrite filter_cons_False by (intros Hn; by apply Hn). done.
Qed.

(** At most one lease of a scope exists at a time: over any sequence of acquisitions, failures and
    ends of leases, the leases that were granted and not ended are none or the one that holds the
    kernel's lock, and while it exists every further acquisition fails without changing the holder. *)
Theorem lease_is_exclusive (xs : list LeaseStep) :
  let (k, leases) := lease_run xs in
  leases = match lock_holder k with Some f => [f] | None => [] end
  /\ forall s os, leases <> [] ->
       exists e k', acquire_lock_file s os k = (Err e, k') /\ lock_holder k' = lock_holder k.
Proof.
  assert (Hi : lease_inv (lease_run xs)).
  { unfold lease_run. assert (H0 : lease_inv (mkKernel None 0, [])) by done. revert H0. generalize (mkKernel None 0, [] : list nat).
    induction xs as [|x xs IH]; intros st Hst; [done|]. by apply IH, lease_step_inv. }
  destruct (lease_run xs) as [k leases]. unfold lease_inv in Hi. cbn [fst snd] in Hi. split; [done|]. intros s os Hne.
  unfold acquire_lock_file. destruct (revalidate _ _); [|by eexists _, _]. destruct (open_lease _); [|by eexists _, _].
  destruct (validate_lease _ _); [|by eexists _, _]. unfold acquire_lock. cbn [lock_holder].
  destruct (lock_holder k) as [f|] eqn:El; [|by subst]. destruct (le_flock_error os); eexists _, _; by split.
Qed.

(** ** Witness *)

Module ScopeWitness.
Definition path (cs : list string) : Path := mkPath true cs.
Definition config : CredentialScopeConfig :=
  mkScopeConfig (path ["opt"; "codex"]) (path ["srv"; "home"]) (path ["srv"; "state"]) (path ["srv"; "work"]).
Definition fs : Fs :=
  mkFs (fun p => if bool_decide (p = path ["opt"; "codex"]) then LMeta RegularFile 0 493
                 else if bool_decide (p ∈ [path ["srv"; "home"]; path ["srv"; "state"]; path ["srv"; "work"]]) then LMeta Directory 1000 16832
                 else LMissing) Some.

Lemma validated_scope_witness :
  validate_scope fs config 1000 = Ok (mkScope config 1000)
  /\ (mkScope config 1000 = mkScope config 1000 /\ revalidate fs (mkScope config 1000) = Ok tt
      /\ Forall (fun d => private_directory fs d 1000) [codex_home config; state_dir config; working_dir config]
      /\ (forall p, (starts_with p (codex_home config) = true -> starts_with p (state_dir config) = false /\ starts_with p (working_dir config) = false)
                  /\ (starts_with p (state_dir config) = true -> starts_with p (working_dir config) = false))
      /\ (forall repository, symlink_metadata fs (join repository ".git") <> LMissing ->
           Forall (fun d => starts_with d repository = false)
             [executable_ancestry_start (executable config); codex_home config; state_dir config; working_dir config])).
Proof. split; [vm_compute; reflexivity|]. apply (validated_scope_is_isolated fs config 1000). vm_compute. reflexivity. Defined.
End ScopeWitness.

End Scope.
