(* ===== verification/ChildProcess.v ===== *)
(** * How a Codex process is built and bound to its parent

    Models the lease a call holds ([OwnedCredentialScopeLease], scope.rs), the command it builds from
    it ([CommandSpec], runtime.rs) and what happens between [fork] and [exec]: the closure given to
    [Command::pre_exec] makes the child lead its own process group, asks the kernel to kill it when
    its parent dies, and then looks whether the parent is still there.  The parent can die at any of
    these moments, so a spawn is a step relation of the parent and the child.

    Of [std::process::Command] the fields the code sets are kept; of the kernel, what [setpgid],
    [prctl(PR_SET_PDEATHSIG)] and [getppid] are documented to do to a child whose parent dies: it is
    reparented, and killed when it had asked for it, also after [exec].  The thread that called
    [spawn] waits in it until [exec], and afterwards owns the child, so parent and thread are one. *)
From S2P Require Import Prelude CloudTypes CloudAdapter LoginTypes Scope.
From stdpp Require Import base numbers list strings.
From Stdlib Require Import ZArith Lia.

Open Scope Z_scope.

Module Child.
Import Scope.

(** ** The lease of a call *)

Record OwnedCredentialScopeLease := mkOwned { ow_scope : CredentialScope; ow_lock : nat }.

(** [acquire_owned]: the lock of the lease file, with copies of the scope's paths. *)
Definition acquire_owned (s : CredentialScope) (os : LeaseOs) (k : Kernel)
  : result CredentialScopeError OwnedCredentialScopeLease * Kernel :=
  let (r, k) := acquire_lock_file s os k in (let? file := r in Ok (mkOwned s file), k).

(** [revalidate_owned] *)
Definition revalidate_owned (fs : Fs) (lease : OwnedCredentialScopeLease) : result CredentialScopeError unit :=
  let c := scope_paths (ow_scope lease) in
  let uid := runner_uid (ow_scope lease) in
  let? _ := validate_executable fs (executable c) uid in
  let? _ := validate_directory fs (codex_home c) DirCodexHome uid in
  let? _ := validate_directory fs (state_dir c) DirState uid in
  let? _ := validate_directory fs (working_dir c) DirWorking uid in
  let? _ := reject_repository_ancestry fs (executable_ancestry_start (executable c)) PathExecutable in
  let? _ := reject_repository_ancestry fs (codex_home c) PathCodexHome in
  let? _ := reject_repository_ancestry fs (state_dir c) PathState in
  reject_repository_ancestry fs (working_dir c) PathWorking.

(** [OwnedCredentialScopeLease::invocation] and [::cloud_invocation] *)
Definition owned_invocation (fs : Fs) (lease : OwnedCredentialScopeLease) (command : CodexCommand)
  : result CredentialScopeError CodexInvocation :=
  let? _ := revalidate_owned fs lease in Ok (CodexInvocation_new (scope_paths (ow_scope lease)) command).

Definition owned_cloud_invocation (fs : Fs) (lease : OwnedCredentialScopeLease) (command : CloudInvocation)
  : result CredentialScopeError CodexInvocation :=
  let c := scope_paths (ow_scope lease) in
  let? _ := revalidate_owned fs lease in
  Ok (mkCodexInvocation (executable c) (working_dir c) (codex_home c) (inv_args command)).

(** [Drop for OwnedCredentialScopeLease] *)
Definition drop_owned (lease : OwnedCredentialScopeLease) (k : Kernel) : Kernel := release_lock (ow_lock lease) k.

(** ** Commands *)

Record CommandSpec := mkSpec {
  sp_executable : Path; sp_working_dir : Path; sp_codex_home : Path; sp_args : list string }.

(** [from_invocation] and [from_cloud]: both kinds of invocation carry the same four values. *)
Definition from_invocation (i : CodexInvocation) : CommandSpec :=
  mkSpec (ci_executable i) (ci_working_dir i) (ci_codex_home i) (ci_args i).

Inductive Stdio := Inherit | Null | Piped.

(** [std::process::Command]: [env] holds what is set on top of the parent's environment, or of
    nothing after [env_clear]; [expected_parent] is what the [pre_exec] closure captured. *)
Record Command := mkCommand {
  program : Path; cmd_args : list string; cwd : option Path;
  env_cleared : bool; env : list (string * Path);
  stdin : Stdio; stdout : Stdio; stderr : Stdio; expected_parent : option Z }.

Definition Command_new (program : Path) : Command :=
  mkCommand program [] None false [] Inherit Inherit Inherit None.

(** Its builder methods. *)
Definition args (xs : list string) (c : Command) : Command :=
  mkCommand (program c) (cmd_args c ++ xs) (cwd c) (env_cleared c) (env c) (stdin c) (stdout c) (stderr c) (expected_parent c).
Definition current_dir (d : Path) (c : Command) : Command :=
  mkCommand (program c) (cmd_args c) (Some d) (env_cleared c) (env c) (stdin c) (stdout c) (stderr c) (expected_parent c).
Definition env_clear (c : Command) : Command :=
  mkCommand (program c) (cmd_args c) (cwd c) true [] (stdin c) (stdout c) (stderr c) (expected_parent c).
Definition set_env (k : string) (v : Path) (c : Command) : Command :=
  mkCommand (program c) (cmd_args c) (cwd c) (env_cleared c) (env c ++ [(k, v)]) (stdin c) (stdout c) (stderr c) (expected_parent c).
Definition set_stdio (i o e : Stdio) (c : Command) : Command :=
  mkCommand (program c) (cmd_args c) (cwd c) (env_cleared c) (env c) i o e (expected_parent c).
Definition pre_exec (parent_pid : Z) (c : Command) : Command :=
  mkCommand (program c) (cmd_args c) (cwd c) (env_cleared c) (env c) (stdin c) (stdout c) (stderr c) (Some parent_pid).

Definition command_with_parent_pid (spec : CommandSpec) (parent_pid : Z) : Command :=
  let c := Command_new (sp_executable spec) in
  let c := current_dir (sp_working_dir spec) (args (sp_args spec) c) in
  let c := set_env "CODEX_HOME" (sp_codex_home spec) (env_clear c) in
  let c := set_stdio Null Piped Piped c in
  pre_exec parent_pid c.

(** [command]: the process that builds it is the parent to be. *)
Definition command (spec : CommandSpec) (getpid : Z) : Command := command_with_parent_pid spec getpid.

(** ** From [fork] to [exec] *)

(** The calls of the [pre_exec] closure, in order. *)
Inductive Call := SetPgid | SetDeathSignal | CheckParent.
Definition pre_exec_calls : list Call := [SetPgid; SetDeathSignal; CheckParent].

Inductive ChildState :=
| PreExec (todo : list Call)
| Running (image : Command)
| Refused
| Gone.

Record Process := mkProcess {
  pid : Z; ppid : Z; pgid : Z; death_signal : bool; state : ChildState }.

(** The parent's identity, whether it lives, and its child once forked. *)
Record System := mkSystem { parent : Z; parent_alive : bool; child : option Process }.

Definition with_state (x : ChildState) (p : Process) : Process := mkProcess (pid p) (ppid p) (pgid p) (death_signal p) x.

(** One call of the closure, [ok] unless the kernel refuses it; an [Err] ends the child before [exec]. *)
Definition pre_exec_call (c : Command) (x : Call) (ok : bool) (p : Process) : option Process :=
  match x with
  | SetPgid => if ok then Some (mkProcess (pid p) (ppid p) (pid p) (death_signal p) (state p)) else None
  | SetDeathSignal => if ok then Some (mkProcess (pid p) (ppid p) (pgid p) true (state p)) else None
  | CheckParent => if bool_decide (Some (ppid p) = expected_parent c) then Some p else None
  end.

Inductive Event :=
| Fork (pid : Z)
| ChildCall (ok : bool)
| Exec (ok : bool)
| ParentDies (reaper : Z)
| ChildEnds.

(** [spawn] forks while its caller lives; a new child has its parent's group and no death signal. *)
Definition step (c : Command) (e : Event) (s : System) : option System :=
  match e, child s with
  | Fork pid, None =>
      if parent_alive s then
        Some (mkSystem (parent s) true (Some (mkProcess pid (parent s) (parent s) false (PreExec pre_exec_calls))))
      else None
  | ChildCall ok, Some p =>
      match state p with
      | PreExec (x :: todo) =>
          Some (mkSystem (parent s) (parent_alive s)
            (Some match pre_exec_call c x ok p with
                  | Some p => with_state (PreExec todo) p
                  | None => with_state Refused p
                  end))
      | _ => None
      end
  | Exec ok, Some p =>
      match state p with
      | PreExec [] => Some (mkSystem (parent s) (parent_alive s) (Some (with_state (if ok then Running c else Refused) p)))
      | _ => None
      end
  | ParentDies reaper, _ =>
      if parent_alive s && negb (reaper =? parent s) then
        Some (mkSystem (parent s) false
          (match child s with
           | Some p =>
               Some (mkProcess (pid p) reaper (pgid p) (death_signal p)
                       match state p with
                       | (PreExec _ | Running _) as x => if death_signal p then Gone else x
                       | x => x
                       end)
           | None => None
           end))
      else None
  | ChildEnds, Some p =>
      match state p with
      | PreExec _ | Running _ => Some (mkSystem (parent s) (parent_alive s) (Some (with_state Gone p)))
      | _ => None
      end
  | _, _ => None
  end.

Fixpoint run (c : Command) (es : list Event) (s : System) : option System :=
  match es with
  | [] => Some s
  | e :: es => match step c e s with Some s => run c es s | None => None end
  end.

(** [spawn_bound_child]: what the parent gets once the child has executed or given up. *)
Definition spawn_bound_child (s : System) : option (result LoginBrokerError Z) :=
  match child s with
  | Some p =>
      match state p with
      | Running _ => Some (Ok (pid p))
      | Refused => Some (Err LBProcess)
      | PreExec _ | Gone => None
      end
  | None => None
  end.

(** ** Nothing outlives its parent *)

(** A system in which the caller of [spawn] lives and has not forked. *)
Definition ready (me : Z) : System := mkSystem me true None.

(** How far the closure has come, and what that guarantees. *)
Definition bound (c : Command) (s : System) (p : Process) : Prop :=
  (parent_alive s = false -> ppid p <> parent s) /\
  match state p with
  | PreExec todo =>
      (todo = pre_exec_calls /\ death_signal p = false) \/
      (todo = [SetDeathSignal; CheckParent] /\ pgid p = pid p /\ death_signal p = false) \/
      (todo = [CheckParent] /\ pgid p = pid p /\ death_signal p = true) \/
      (todo = [] /\ pgid p = pid p /\ death_signal p = true /\ parent_alive s = true)
  | Running image => image = c /\ pgid p = pid p /\ death_signal p = true /\ parent_alive s = true
  | Refused | Gone => True
  end.

Definition child_inv (c : Command) (s : System) : Prop :=
  expected_parent c = Some (parent s) /\ forall p, child s = Some p -> bound c s p.

Lemma call_bound c x todo ok s p p' : expected_parent c = Some (parent s) -> bound c s p -> state p = PreExec (x :: todo) ->
  pre_exec_call c x ok p = Some p' -> bound c s (with_state (PreExec todo) p').
Proof.
  intros Hme [Hpp Hb] Es Hc. rewrite Es in Hb. unfold bound, pre_exec_calls in *. simpl.
  destruct Hb as [[E Hd]|[(E & Hg & Hd)|[(E & Hg & Hd)|(E & _)]]]; simplify_eq/=; try destruct ok; simplify_eq/=.
  1: split; [done|]; by right; left.
  1: split; [done|]; by right; right; left.
  all: case_bool_decide as Ep; simplify_eq/=; split; [done|]; right; right; right; split_and!; try done.
  all: destruct (parent_alive s); [done|]; rewrite Hme in Ep; injection Ep as Ep; by destruct (Hpp eq_refl).
Qed.

Lemma child_step_inv c e s s' : child_inv c s -> step c e s = Some s' -> child_inv c s'.
Proof.
  intros [Hme HI] H. unfold step in H. destruct e as [q|ok|ok|r|], (child s) as [p|] eqn:Ec; try done;
    try (destruct (HI p eq_refl) as [Hpp Hb]).
  - destruct (parent_alive s) eqn:Ea; simplify_eq. split; [done|]. intros p [= <-]. split; [by simpl|]. by left.
  - destruct (state p) as [[|x todo]| | |] eqn:Es; simplify_eq. split; [done|]. intros q [= <-].
    destruct (pre_exec_call c x ok p) as [p'|] eqn:Ep; [|by split].
    exact (call_bound c x todo ok s p p' Hme (HI p eq_refl) Es Ep).
  - destruct (state p) as [[|]| | |] eqn:Es; simplify_eq. split; [done|]. intros q [= <-]. split; [done|].
    destruct Hb as [[E _]|[(E & _)|[(E & _)|(_ & Hb)]]]; try done. by destruct ok.
  - destruct (parent_alive s && _) eqn:Ea; simplify_eq. apply andb_true_iff in Ea as [Ea Er]. split; [done|].
    intros q [= <-]. unfold bound. simpl. split; [intros _; lia|].
    destruct (state p); try done; destruct (death_signal p) eqn:Ed; naive_solver.
  - destruct (parent_alive s && _) eqn:Ea; simplify_eq. done.
  - destruct (state p) eqn:Es; simplify_eq; (split; [done|]); intros q [= <-]; by split.
Qed.

Lemma child_run_inv c es s s' : child_inv c s -> run c es s = Some s' -> child_inv c s'.
Proof.
  revert s. induction es as [|e es IH]; simpl; intros s HI H; [by simplify_eq|].
  destruct (step c e s) as [s1|] eqn:E; [|done]. by eapply IH, H; eapply child_step_inv.
Qed.

(** C15: no Codex process outlives the process that started it, and none sees more than its policy.
    Whatever the kernel answers and whenever the parent dies, also between [fork], the calls of the
    [pre_exec] closure and [exec]: a child that runs Codex has a living parent, leads its own process
    group and will be killed with its parent; it runs exactly the invocation of the confirmed scope,
    in the scope's working directory, with [CODEX_HOME] as its only variable, no input, and its
    output in pipes.  So when the parent is dead, nothing it spawned runs Codex. *)
Theorem no_command_outlives_its_parent me i es s p image :
  run (command (from_invocation i) me) es (ready me) = Some s -> child s = Some p -> state p = Running image ->
  parent_alive s = true /\ pgid p = pid p /\ death_signal p = true /\ spawn_bound_child s = Some (Ok (pid p)) /\
  program image = ci_executable i /\ cmd_args image = ci_args i /\ cwd image = Some (ci_working_dir i) /\
  env_cleared image = true /\ env image = [("CODEX_HOME", ci_codex_home i)] /\
  stdin image = Null /\ stdout image = Piped /\ stderr image = Piped.
Proof.
  intros Hr Hp Hs. apply child_run_inv in Hr as [_ HI]; [|by split]. destruct (HI p Hp) as [_ Hb]. rewrite Hs in Hb.
  destruct Hb as (-> & Hg & Hd & Ha). split_and!; try done. unfold spawn_bound_child. by rewrite Hp, Hs.
Qed.

Definition demo_invocation : CodexInvocation :=
  mkCodexInvocation (mkPath true ["opt"; "codex"]) (mkPath true ["work"]) (mkPath true ["home"]) VERSION_ARGS.

Definition demo_spawn : list Event := [Fork 42; ChildCall true; ChildCall true; ChildCall true; Exec true].

Definition demo_running : System :=
  default (ready 7) (run (command (from_invocation demo_invocation) 7) demo_spawn (ready 7)).
Definition demo_child : Process := default (mkProcess 0 0 0 false Gone) (child demo_running).

Lemma no_command_outlives_its_parent_witness :
  spawn_bound_child demo_running = Some (Ok 42) /\ parent_alive demo_running = true /\ death_signal demo_child = true.
Proof.
  split; [vm_compute; reflexivity|].
  destruct (no_command_outlives_its_parent 7 demo_invocation demo_spawn demo_running demo_child
    (command (from_invocation demo_invocation) 7)) as (Ha & _ & Hd & _); [vm_compute; reflexivity..|].
  split; [exact Ha|exact Hd].
Defined.

(** A parent that dies right after [fork], before the child asked for the signal: the check refuses
    the child, and Codex never runs. *)
Example orphan_before_signal_never_runs :
  (fun s => state <$> child s) <$>
    run (command (from_invocation demo_invocation) 7)
      [Fork 42; ChildCall true; ParentDies 1; ChildCall true; ChildCall true] (ready 7) = Some (Some Refused).
Proof. vm_compute. reflexivity. Qed.

(** ** Leases *)

(** A lease gives the invocations of its scope. *)
Lemma owned_invocation_scope fs lease c :
  owned_invocation fs lease c = invocation fs (ow_scope lease) c.
Proof. done. Qed.
Lemma owned_cloud_invocation_scope fs lease c :
  owned_cloud_invocation fs lease c = cloud_invocation fs (ow_scope lease) c.
Proof. done. Qed.
End Child.
