(* ===== verification/LoginSupervisor.v ===== *)
(** * The supervisor of a login command

    Models [crates/codebox-agent-codex/src/runtime.rs]: the bounded capture of a stream, the end of a
    process group, the short commands, the thread that supervises a device login and the handle the
    broker reads its events from.  What the system answers is data: a [KillOs] for one termination, a
    [Tick] for one turn of a polling loop.  A turn's [t_elapsed] is the time since the start in
    milliseconds.  The loop takes fuel; [supervision_ends] shows how much is enough. *)
From S2P Require Import Prelude Effects DomainValues CloudTypes CloudAdapter SubmitLedger LoginTypes LoginParser LoginLedger LoginBroker Scope.
From stdpp Require Import base numbers list strings.
From Stdlib Require Import ZArith Lia.
Import Ledger Parser Broker.

Open Scope Z_scope.

Module Supervisor.

Definition MAX_CAPTURE_BYTES : nat := 16 * 1024.
Definition SHORT_COMMAND_TIMEOUT : Z := 5000.
Definition INSTRUCTION_TIMEOUT : Z := 30000.
Definition OVERALL_LOGIN_TIMEOUT : Z := 16 * 60 * 1000.

(** ** Captures *)

Record BoundedCapture := mkBounded { bc_bytes : list Ascii.ascii; bc_overflow : bool; bc_limit : nat }.

Definition with_limit (limit : nat) : BoundedCapture := mkBounded [] false limit.

Definition push (bytes : list Ascii.ascii) (c : BoundedCapture) : BoundedCapture :=
  let remaining := (bc_limit c - length (bc_bytes c))%nat in
  mkBounded (bc_bytes c ++ take (Nat.min (length bytes) remaining) bytes)
    (if Nat.ltb remaining (length bytes) then true else bc_overflow c) (bc_limit c).

(** How a drainer ends. *)
Inductive DrainEnd := DrainOk | DrainPanicked | DrainError.

(** The reads of a stream: chunks until an empty one or an error. *)
Fixpoint drain_stream (reads : list (option (list Ascii.ascii))) (c : BoundedCapture) : BoundedCapture * DrainEnd :=
  match reads with
  | [] | Some [] :: _ => (c, DrainOk)
  | None :: _ => (c, DrainError)
  | Some chunk :: rest => drain_stream rest (push chunk c)
  end.

Definition snapshot (c : BoundedCapture) : string * bool := (String.string_of_list_ascii (bc_bytes c), bc_overflow c).

Definition join_drain (d : DrainEnd) : result LoginBrokerError unit :=
  match d with DrainOk => Ok tt | DrainPanicked | DrainError => Err LBProcess end.

(** An exit status is the code it carries, none after a signal; an error is an [io::Error]. *)
Definition ExitStatus : Type := option Z.

Definition finish_capture (status : result unit ExitStatus) (stdout stderr : BoundedCapture)
    (stdout_thread stderr_thread : DrainEnd) : result LoginBrokerError CapturedOutput :=
  let stdout_result := join_drain stdout_thread in
  let stderr_result := join_drain stderr_thread in
  let? status := map_err (fun _ => LBProcess) status in
  let? _ := stdout_result in
  let? _ := stderr_result in
  let (out, out_overflow) := snapshot stdout in
  let (err, err_overflow) := snapshot stderr in
  Ok (mkCapture out err out_overflow err_overflow status).

(** ** Ending a process group *)

Inductive SignalResult := SigOk | SigNoProcess | SigError.

Definition signal_group (pid : Z) (r : SignalResult) : result unit unit :=
  if 2 ^ 31 - 1 <? pid then Err tt else match r with SigOk | SigNoProcess => Ok tt | SigError => Err tt end.

(** The polls within the grace, then the kill and the wait. *)
Record KillOs := mkKillOs {
  ko_term : SignalResult; ko_polls : list (result unit (option ExitStatus)); ko_kill : SignalResult;
  ko_wait : result unit ExitStatus }.

Fixpoint grace_loop (polls : list (result unit (option ExitStatus))) : option (result unit ExitStatus) :=
  match polls with
  | [] => None
  | Err e :: _ => Some (Err e)
  | Ok (Some status) :: _ => Some (Ok status)
  | Ok None :: rest => grace_loop rest
  end.

Definition terminate_group (pid : Z) (os : KillOs) : result unit ExitStatus :=
  let? _ := signal_group pid (ko_term os) in
  match grace_loop (ko_polls os) with
  | Some r => r
  | None => let? _ := signal_group pid (ko_kill os) in ko_wait os
  end.

(** ** One turn of a polling loop *)

Record Tick := mkTick {
  t_cancel : bool;
  t_wait : result unit (option ExitStatus);
  t_stdout : BoundedCapture;
  t_stderr : BoundedCapture;
  t_received : bool;
  t_elapsed : Z;
  t_kill : KillOs;
  t_drained : (BoundedCapture * DrainEnd) * (BoundedCapture * DrainEnd) }.

(** [finish_capture] on what the drainers hold when they are joined. *)
Definition finish_tick (t : Tick) (status : result unit ExitStatus) : result LoginBrokerError CapturedOutput :=
  let '((out, out_end), (err, err_end)) := t_drained t in finish_capture status out err out_end err_end.

(** ** Short commands *)

Inductive ShortEnd := ShortStatus (timed_out : bool) (status : result unit ExitStatus).

(** [None]: out of fuel. *)
Fixpoint short_loop (fuel : nat) (n : nat) (pid : Z) (ticks : nat -> Tick) (timeout : Z) : option (Tick * ShortEnd) :=
  match fuel with
  | O => None
  | S fuel =>
      let t := ticks n in
      match t_wait t with
      | Ok (Some status) => Some (t, ShortStatus false (Ok status))
      | Ok None =>
          if t_elapsed t <? timeout then short_loop fuel (S n) pid ticks timeout
          else Some (t, ShortStatus true (terminate_group pid (t_kill t)))
      | Err e => Some (t, ShortStatus false (Err e))
      end
  end.

Definition run_short_command (fuel : nat) (spawned : result LoginBrokerError Z) (piped : bool) (ticks : nat -> Tick)
    (timeout : Z) : option (result LoginBrokerError CapturedOutput) :=
  match spawned with
  | Err e => Some (Err e)
  | Ok pid =>
      if negb piped then Some (Err LBProcess)
      else
      match short_loop fuel 0 pid ticks timeout with
      | None => None
      | Some (t, ShortStatus timed_out status) =>
          Some (let? output := finish_tick t status in
                if timed_out then Err LBStatusUnavailable else Ok output)
      end
  end.

(** ** [ProcessRuntime] *)

(** What the system answers to one short command. *)
Record ShortOs := mkShortOs { so_fs : Scope.Fs; so_spawn : result LoginBrokerError Z; so_piped : bool; so_ticks : nat -> Tick }.

Definition short_output (fuel : nat) (s : Scope.CredentialScope) (command : Scope.CodexCommand) (os : ShortOs)
  : option (result LoginBrokerError CapturedOutput) :=
  match Scope.invocation (so_fs os) s command with
  | Err e => Some (Err (LoginBrokerError_from e))
  | Ok _ => run_short_command fuel (so_spawn os) (so_piped os) (so_ticks os) SHORT_COMMAND_TIMEOUT
  end.

Definition verify_version (fuel : nat) (s : Scope.CredentialScope) (os : ShortOs) : option (result LoginBrokerError unit) :=
  match short_output fuel s Scope.CmdVersion os with
  | Some r => Some (let? output := r in parse_version output)
  | None => None
  end.

Definition login_status (fuel : nat) (s : Scope.CredentialScope) (os : ShortOs) : option (result LoginBrokerError PinnedStatus) :=
  match short_output fuel s Scope.CmdLoginStatus os with
  | Some r => Some (let? output := r in parse_status output)
  | None => None
  end.

(** [start]: the supervisor thread is created after the boundary was confirmed. *)
Definition start_login (fs : Scope.Fs) (s : Scope.CredentialScope) (thread_created : bool) : result LoginBrokerError Scope.CodexInvocation :=
  let? i := map_err LoginBrokerError_from (Scope.invocation fs s Scope.CmdDeviceLogin) in
  if thread_created then Ok i else Err LBProcess.

(** ** The supervisor thread *)

(** What became of the child when the thread ended. *)
Inductive ChildEnd :=
| NoChild
| ChildExited (status : ExitStatus)
| ChildTerminated (status : result unit ExitStatus)
| ThreadUnwound.

Record Supervision := mkSupervision {
  s_spawn : result LoginBrokerError Z;
  s_stat : ProcStat;
  s_kill : KillOs;
  s_started_received : bool;
  s_stdout_piped : bool;
  s_stderr_piped : bool;
  s_ticks : nat -> Tick }.

Definition or_uncertain (f : CapturedOutput -> SupervisorEvent) (r : result LoginBrokerError CapturedOutput) : SupervisorEvent :=
  match r with Ok output => f output | Err error => EvUncertain error end.

(** The loop, with the events it sends. *)
Fixpoint supervise_loop (fuel n : nat) (pid : Z) (ticks : nat -> Tick) (instruction_timeout overall_timeout : Z)
    (instructions_sent : bool) : option (list SupervisorEvent * ChildEnd) :=
  match fuel with
  | O => None
  | S fuel =>
      let t := ticks n in
      let killed := terminate_group pid (t_kill t) in
      let ended f := Some ([or_uncertain f (finish_tick t killed)], ChildTerminated killed) in
      let uncertain e := Some ([EvUncertain e], ChildTerminated killed) in
      let rest sent :=
        if negb sent && (instruction_timeout <=? t_elapsed t) then ended EvInstructionDeadline
        else if overall_timeout <=? t_elapsed t then ended EvOverallDeadline
        else supervise_loop fuel (S n) pid ticks instruction_timeout overall_timeout sent in
      if t_cancel t then ended EvCanceled
      else
      match t_wait t with
      | Ok (Some status) => Some ([or_uncertain EvExited (finish_tick t (Ok status))], ChildExited status)
      | Err _ => uncertain LBProcess
      | Ok None =>
          if instructions_sent then rest true
          else
          let (stdout_bytes, stdout_overflow) := snapshot (t_stdout t) in
          let (_, stderr_overflow) := snapshot (t_stderr t) in
          if stderr_overflow then uncertain LBOutputLimitExceeded
          else
          match parse_device_prompt stdout_bytes stdout_overflow with
          | None => Some ([], ThreadUnwound)
          | Some (Ok code) =>
              if t_received t then
                match rest true with Some (events, e) => Some (EvInstructions code :: events, e) | None => None end
              else Some ([], ChildTerminated killed)
          | Some (Err Incomplete) => rest false
          | Some (Err (Terminal error)) => uncertain error
          end
      end
  end.

Definition supervise_device_login (fuel : nat) (s : Supervision) (instruction_timeout overall_timeout : Z)
  : option (list SupervisorEvent * ChildEnd) :=
  match s_spawn s with
  | Err error => Some ([EvFailed error], NoChild)
  | Ok pid =>
      let killed := terminate_group pid (s_kill s) in
      match read_process_identity pid (s_stat s) with
      | Err error => Some ([EvUncertain error], ChildTerminated killed)
      | Ok process =>
          if negb (s_started_received s) then Some ([], ChildTerminated killed)
          else if negb (s_stdout_piped s) || negb (s_stderr_piped s) then
            Some ([EvStarted process; EvUncertain LBProcess], ChildTerminated killed)
          else
          match supervise_loop fuel 0 pid (s_ticks s) instruction_timeout overall_timeout false with
          | None => None
          | Some (events, e) => Some (EvStarted process :: events, e)
          end
      end
  end.

(** ** The broker's handle *)

Definition event_finishes_supervisor (e : SupervisorEvent) : bool :=
  match e with EvStarted _ | EvInstructions _ => false | _ => true end.

(** The events not yet read, whether the thread has ended (and how), and [finished]. *)
Record ProcessSupervisor := mkHandle {
  ps_queue : list SupervisorEvent; ps_ended : bool; ps_panicked : bool; ps_joined : bool; ps_finished : bool }.

(** [finish_thread]: joins the thread the first time. *)
Definition finish_thread (p : ProcessSupervisor) : result LoginBrokerError unit * ProcessSupervisor :=
  (if negb (ps_joined p) && ps_panicked p then Err LBProcess else Ok tt,
   mkHandle (ps_queue p) (ps_ended p) (ps_panicked p) true true).

Definition take_event (e : SupervisorEvent) (rest : list SupervisorEvent) (p : ProcessSupervisor)
  : result LoginBrokerError SupervisorEvent * ProcessSupervisor :=
  let p := mkHandle rest (ps_ended p) (ps_panicked p) (ps_joined p) (ps_finished p) in
  if event_finishes_supervisor e then
    let (r, p) := finish_thread p in (let? _ := r in Ok e, p)
  else (Ok e, p).

(** With no event waiting, [recv_timeout] times out or sees the channel closed. *)
Definition receive (p : ProcessSupervisor) : result LoginBrokerError SupervisorEvent * ProcessSupervisor :=
  match ps_queue p with
  | e :: rest => take_event e rest p
  | [] => (Err (if ps_ended p then LBProcess else LBStatusUnavailable), p)
  end.

Definition try_receive (p : ProcessSupervisor) : result LoginBrokerError (option SupervisorEvent) * ProcessSupervisor :=
  match ps_queue p with
  | e :: rest => let (r, p) := take_event e rest p in (let? e := r in Ok (Some e), p)
  | [] => (if ps_ended p && negb (ps_finished p) then Err LBProcess else Ok None, p)
  end.

(** The loop of [cancel] over the events that arrive before a timeout; it stops at the first that ends the supervisor. *)
Fixpoint cancel_loop (queue : list SupervisorEvent) (p : ProcessSupervisor)
  : result LoginBrokerError SupervisorEvent * ProcessSupervisor :=
  match queue with
  | [] => receive (mkHandle [] (ps_ended p) (ps_panicked p) (ps_joined p) (ps_finished p))
  | e :: rest =>
      let (r, p) := take_event e rest p in
      match r with
      | Err error => (Err error, p)
      | Ok e => if event_finishes_supervisor e then (Ok e, p) else cancel_loop rest p
      end
  end.

Definition cancel (sent : bool) (p : ProcessSupervisor) : result LoginBrokerError SupervisorEvent * ProcessSupervisor :=
  if negb sent then (Err LBProcess, p) else cancel_loop (ps_queue p) p.

(** ** Captures hold a prefix *)

(** The capture of all the bytes of a stream. *)
Definition capture_of (limit : nat) (bytes : list Ascii.ascii) : BoundedCapture :=
  mkBounded (take limit bytes) (Nat.ltb limit (length bytes)) limit.

Lemma push_capture limit bytes chunk : push chunk (capture_of limit bytes) = capture_of limit (bytes ++ chunk).
Proof.
  unfold push, capture_of. cbn [bc_bytes bc_overflow bc_limit]. rewrite length_take, length_app. f_equal.
  - rewrite take_app. f_equal. rewrite <- (firstn_all chunk) at 3. rewrite take_take. f_equal. lia.
  - destruct (Nat.ltb_spec (limit - Nat.min limit (length bytes)) (length chunk)); symmetry.
    + apply Nat.ltb_lt. lia.
    + destruct (Nat.ltb_spec limit (length bytes)); [apply Nat.ltb_lt|apply Nat.ltb_ge]; lia.
Qed.

(** C33: A drained stream is captured as if it had been read in one piece: whatever the chunks, the capture
    holds the first bytes up to its limit, the overflow flag says whether there were more, and the reader
    goes on to the end of the stream after the limit. *)
Theorem capture_ignores_chunking (limit : nat) (chunks : list (list Ascii.ascii)) :
  Forall (fun c => c <> []) chunks ->
  drain_stream (map Some chunks) (with_limit limit) = (capture_of limit (concat chunks), DrainOk).
Proof.
  intros Hne. assert (Hgen : forall bytes, drain_stream (map Some chunks) (capture_of limit bytes)
    = (capture_of limit (bytes ++ concat chunks), DrainOk)).
  { induction Hne as [|c chunks Hc _ IH]; intros bytes; simpl; [by rewrite app_nil_r|].
    destruct c as [|b c]; [done|]. rewrite push_capture, IH. by rewrite <- app_assoc. }
  specialize (Hgen []). unfold capture_of in Hgen at 1. by rewrite take_nil in Hgen.
Qed.

Lemma capture_ignores_chunking_witness :
  drain_stream [Some (String.list_ascii_of_string "Logged "); Some (String.list_ascii_of_string "in")] (with_limit 8)
  = (capture_of 8 (String.list_ascii_of_string "Logged in"), DrainOk).
Proof. apply (capture_ignores_chunking 8 [String.list_ascii_of_string "Logged "; String.list_ascii_of_string "in"]). by repeat constructor. Defined.

(** ** Short commands *)

Lemma short_loop_status fuel n pid ticks timeout t status : short_loop fuel n pid ticks timeout = Some (t, ShortStatus false (Ok status)) ->
  exists k, t = ticks k /\ t_wait t = Ok (Some status).
Proof.
  revert n. induction fuel as [|fuel IH]; intros n; [done|]. cbn [short_loop].
  destruct (t_wait (ticks n)) as [[st|]|] eqn:E; [intros [= <- <-]; eauto| |done]. destruct (_ <? _); [apply IH|done].
Qed.

(** A login status is only read from a command that ended by itself: with code 0 for a login, with code 1
    for its absence, never from one that was killed at its limit. *)
Lemma login_status_from_exit fuel s os p : login_status fuel s os = Some (Ok p) ->
  exists k, t_wait (so_ticks os k) = Ok (Some (Some match p with LoggedIn => 0 | LoggedOut => 1 end)).
Proof.
  unfold login_status, short_output. destruct (Scope.invocation _ _ _); [|done]. unfold run_short_command.
  destruct (so_spawn os) as [pid|]; [|done]. destruct (negb _); [done|].
  destruct (short_loop _ _ _ _ _) as [[t [late status]]|] eqn:El; [|done]. unfold finish_tick, finish_capture.
  destruct (t_drained t) as [[out oe] [err ee]]. destruct status as [status|]; [|done]. simpl.
  destruct oe; [|done..]. destruct ee; [|done..]. simpl. destruct late; [done|]. simpl.
  intros [= Hp]. apply short_loop_status in El as (k & -> & Hw). exists k. rewrite Hw. do 2 f_equal. revert Hp.
  unfold parse_status. destruct (reject_overflow _); [|done]. simpl. destruct (negb _); [done|].
  destruct (normalize_plain_stream _); [|done]. simpl. destruct status as [code|]; [|done].
  destruct (Z.eqb_spec code 0) as [->|]; simpl.
  - destruct (String.eqb _ _); [by intros [= <-]|done].
  - destruct (Z.eqb_spec code 1) as [->|]; simpl; [|done]. destruct (String.eqb _ _); [by intros [= <-]|done].
Qed.

(** ** The events of a supervision *)

(** At most one event that ends the supervisor, none exactly when nobody listens or the thread unwound;
    and the child was waited for. *)
Definition closing (events : list SupervisorEvent) (e : ChildEnd) : Prop :=
  (exists fin, events = [fin] /\ event_finishes_supervisor fin = true /\ (forall err, fin <> EvFailed err)
               /\ e <> NoChild /\ e <> ThreadUnwound)
  \/ (events = [] /\ ((exists st, e = ChildTerminated st) \/ e = ThreadUnwound)).

Lemma or_uncertain_closing f r e : (forall o, event_finishes_supervisor (f o) = true /\ forall err, f o <> EvFailed err) ->
  e <> NoChild -> e <> ThreadUnwound -> closing [or_uncertain f r] e.
Proof. intros Hf He He'. left. destruct r as [o|err]; eexists; split_and!; try done; apply Hf. Qed.

Lemma uncertain_closing err st : closing [EvUncertain err] (ChildTerminated st).
Proof. left. eexists. by split_and!. Qed.

#[local] Hint Resolve uncertain_closing : core.

Lemma loop_after_instructions fuel n pid ticks it ot events e :
  supervise_loop fuel n pid ticks it ot true = Some (events, e) -> closing events e.
Proof.
  revert n. induction fuel as [|fuel IH]; intros n; [done|]. cbn [supervise_loop].
  destruct (t_cancel (ticks n)); [intros [= <- <-]; by apply or_uncertain_closing|].
  destruct (t_wait (ticks n)) as [[st|]|]; [intros [= <- <-]; by apply or_uncertain_closing| |by intros [= <- <-]].
  cbn [negb andb]. destruct (ot <=? _); [intros [= <- <-]; by apply or_uncertain_closing|]. apply IH.
Qed.

(** Before the instructions: they are sent at most once, with the code of a complete pinned prompt. *)
Definition instructed (events : list SupervisorEvent) (e : ChildEnd) : Prop :=
  closing events e
  \/ exists code rest, events = EvInstructions code :: rest /\ valid_device_code (code_str code) = true /\ closing rest e.

Lemma loop_events fuel n pid ticks it ot events e :
  supervise_loop fuel n pid ticks it ot false = Some (events, e) -> instructed events e.
Proof.
  revert n events e. induction fuel as [|fuel IH]; intros n events e; [done|]. cbn [supervise_loop].
  destruct (t_cancel (ticks n)); [intros [= <- <-]; left; by apply or_uncertain_closing|].
  destruct (t_wait (ticks n)) as [[st|]|]; [intros [= <- <-]; left; by apply or_uncertain_closing| |by intros [= <- <-]; left].
  destruct (snapshot (t_stdout _)) as [out ov]. destruct (snapshot (t_stderr _)) as [? eov].
  destruct eov; [intros [= <- <-]; by left|].
  destruct (parse_device_prompt out ov) as [[code|[|err]]|] eqn:Ep.
  - destruct (t_received _); [|intros [= <- <-]; left; right; eauto].
    intros Hr. right. exists code. apply parsed_code_valid in Ep. cbn [negb andb] in Hr.
    destruct (ot <=? _).
    + injection Hr as <- <-. eexists. split_and!; [done|done|]. by apply or_uncertain_closing.
    + destruct (supervise_loop _ _ _ _ _ _ _) as [[evs e']|] eqn:El; [|done]. injection Hr as <- <-.
      eexists. split_and!; [done|done|]. by eapply loop_after_instructions.
  - cbn [negb andb]. destruct (it <=? _); [intros [= <- <-]; left; by apply or_uncertain_closing|].
    destruct (ot <=? _); [intros [= <- <-]; left; by apply or_uncertain_closing|]. apply IH.
  - intros [= <- <-]. by left.
  - intros [= <- <-]. left. right. auto.
Qed.

Lemma identity_pid pid st process : read_process_identity pid st = Ok process -> Sub.pid process = pid.
Proof.
  unfold read_process_identity, read_process_stat, parse_process_stat. destruct st as [| |text]; [done..|].
  destruct (after_last_paren text); [|done]. simpl. destruct (ok_or _ _); [|done]. simpl. destruct (ok_or _ _); [|done]. simpl.
  destruct (ok_or _ _); [|done]. by intros [= <-].
Qed.

(** C27: What a supervision that ended has sent: [Failed] alone exactly when no child was spawned, so a
    record at [Failed] is of a login whose command never ran; otherwise at most one [Started], with the
    child's own identity, then at most one [Instructions] with a code of the pinned shape, then at most
    one event that ends the supervisor, sent after the child was waited for or its group was terminated.
    The last event is missing only if nobody listens any more or the thread unwound. *)
Theorem supervision_protocol (fuel : nat) (s : Supervision) (it ot : Z) (events : list SupervisorEvent) (e : ChildEnd) :
  supervise_device_login fuel s it ot = Some (events, e) ->
  match s_spawn s with
  | Err error => events = [EvFailed error] /\ e = NoChild
  | Ok pid => closing events e
              \/ exists process rest, events = EvStarted process :: rest /\ Sub.pid process = pid /\ instructed rest e
  end.
Proof.
  unfold supervise_device_login. destruct (s_spawn s) as [pid|error]; [|by intros [= <- <-]].
  destruct (read_process_identity pid (s_stat s)) as [process|error] eqn:Ei; [|intros [= <- <-]; auto].
  apply identity_pid in Ei. destruct (negb (s_started_received s)); [intros [= <- <-]; left; right; eauto|].
  destruct (_ || _); [intros [= <- <-]; right; exists process; eexists; split_and!; [done|done|]; by left|].
  destruct (supervise_loop _ _ _ _ _ _ _) as [[evs e']|] eqn:El; [|done]. intros [= <- <-].
  right. exists process, evs. split_and!; [done|done|]. by eapply loop_events.
Qed.

Lemma loop_ends fuel k n pid ticks it ot sent : (k + fuel = S n)%nat -> (k <= n)%nat -> ot <= t_elapsed (ticks n) ->
  is_Some (supervise_loop fuel k pid ticks it ot sent).
Proof.
  revert k sent. induction fuel as [|fuel IH]; intros k sent Hk Hle Hot; [lia|]. cbn [supervise_loop].
  destruct (t_cancel (ticks k)); [by eexists|]. destruct (t_wait (ticks k)) as [[st|]|]; [by eexists| |by eexists].
  assert (Hrest : forall b, is_Some (if ot <=? t_elapsed (ticks k)
      then Some ([or_uncertain EvOverallDeadline (finish_tick (ticks k) (terminate_group pid (t_kill (ticks k))))],
                 ChildTerminated (terminate_group pid (t_kill (ticks k))))
      else supervise_loop fuel (S k) pid ticks it ot b)).
  { intros b. destruct (Z.leb_spec ot (t_elapsed (ticks k))) as [|Hlt]; [by eexists|]. apply IH; [lia| |done].
    destruct (decide (k = n)) as [->|]; lia. }
  destruct sent; [apply Hrest|].
  destruct (snapshot (t_stdout _)) as [out ov]. destruct (snapshot (t_stderr _)) as [? eov].
  destruct eov; [by eexists|]. destruct (parse_device_prompt out ov) as [[code|[|err]]|]; [| |by eexists..].
  - destruct (t_received _); [|by eexists]. cbn [negb andb]. destruct (Hrest true) as [[evs e] ->]. by eexists.
  - cbn [negb andb]. destruct (it <=? _); [by eexists|]. apply Hrest.
Qed.

(** A supervision ends: once the clock of some turn has passed the overall limit, that turn is the
    last one at the latest, whatever the child, the streams and the broker do. *)
Theorem supervision_ends (s : Supervision) (it ot : Z) (n : nat) :
  ot <= t_elapsed (s_ticks s n) -> is_Some (supervise_device_login (S n) s it ot).
Proof.
  intros Hot. unfold supervise_device_login. destruct (s_spawn s) as [pid|]; [|by eexists].
  destruct (read_process_identity pid (s_stat s)); [|by eexists]. destruct (negb _); [by eexists|].
  destruct (_ || _); [by eexists|]. destruct (loop_ends (S n) 0 n pid (s_ticks s) it ot false) as [[evs e] ->]; [lia|lia|done|].
  by eexists.
Qed.

(** ** Witnesses *)

Definition calm_kill : KillOs := mkKillOs SigOk [Ok None] SigOk (Ok None).
(** The command prints its prompt, then waits until the overall limit. *)
Definition prompt_capture : BoundedCapture := capture_of MAX_CAPTURE_BYTES (String.list_ascii_of_string DEVICE_PROMPT_FIXTURE).
Definition waiting (n : nat) : Tick :=
  let quiet := capture_of MAX_CAPTURE_BYTES [] in
  mkTick false (Ok None) prompt_capture quiet true (Z.of_nat n * 480000) calm_kill ((prompt_capture, DrainOk), (quiet, DrainOk)).
Definition waiting_login : Supervision :=
  mkSupervision (Ok 10) (Stat "10 (codex) S 1 1 1 0 -1 4194304 0 0 0 0 0 0 0 0 20 0 1 0 5150 0 0") calm_kill true true true waiting.

Lemma supervision_protocol_witness :
  exists events, supervise_device_login 3 waiting_login INSTRUCTION_TIMEOUT OVERALL_LOGIN_TIMEOUT
      = Some (events, ChildTerminated (Ok None))
    /\ length events = 3%nat
    /\ (closing events (ChildTerminated (Ok None))
        \/ exists process rest, events = EvStarted process :: rest /\ Sub.pid process = 10
                               /\ instructed rest (ChildTerminated (Ok None))).
Proof.
  eexists. split; [vm_compute; reflexivity|]. split; [reflexivity|].
  refine (supervision_protocol 3 waiting_login INSTRUCTION_TIMEOUT OVERALL_LOGIN_TIMEOUT _ _ _). vm_compute. reflexivity.
Defined.

Lemma supervision_ends_witness : is_Some (supervise_device_login 3 waiting_login INSTRUCTION_TIMEOUT OVERALL_LOGIN_TIMEOUT).
Proof. apply (supervision_ends waiting_login INSTRUCTION_TIMEOUT OVERALL_LOGIN_TIMEOUT 2). vm_compute. discriminate. Defined.

End Supervisor.
