(* ===== verification/CloudProcess.v ===== *)
(** * The process behind a Cloud command

    Models [ProcessCloudRuntime] and [ProcessCloudSupervisor] of
    [crates/codebox-agent-codex/src/cloud_runner.rs], over the scope, the captures and the process
    groups of the login runtime, and shows that they are what the runner's model takes them for: the
    answer to [start] that [Runner.Answers] carries. *)
From S2P Require Import Prelude Effects DomainValues CloudTypes CloudAdapter SubmitLedger LoginTypes CloudRunner LoginParser LoginLedger LoginBroker LoginSupervisor Scope.
From stdpp Require Import base numbers list strings.
From Stdlib Require Import ZArith Lia.
Import Ledger Supervisor.

Open Scope Z_scope.

Module CloudProcess.

Definition CLOUD_CAPTURE_BYTES : nat := 64 * 1024.
Definition DIFF_CAPTURE_BYTES : nat := 2 * 1024 * 1024.
Definition SUBMIT_TIMEOUT : Z := 60000.

Record CloudCaptureLimits := mkLimits { lim_stdout : nat; lim_stderr : nat }.
Definition standard : CloudCaptureLimits := mkLimits CLOUD_CAPTURE_BYTES CLOUD_CAPTURE_BYTES.
Definition diff_limits : CloudCaptureLimits := mkLimits DIFF_CAPTURE_BYTES CLOUD_CAPTURE_BYTES.

(** What the system answers to one command: the boundary, the spawn, [/proc], the turns of the polling
    loop, and whether an error of [try_wait] was a timeout. *)
Record Os := mkOs {
  o_fs : Scope.Fs; o_spawn : result LoginBrokerError Z; o_stat : ProcStat; o_kill : KillOs;
  o_stdout_piped : bool; o_stderr_piped : bool; o_ticks : nat -> Tick; o_error_timed_out : nat -> bool }.

Record ProcessCloudSupervisor := mkProc {
  cp_pid : Z; cp_process : ProcessIdentity; cp_threads : bool; cp_timeout : Z; cp_finished : bool }.

Definition start (os : Os) (s : Scope.CredentialScope) (i : CloudInvocation) (timeout : Z)
  : result Runner.CloudStartFailure ProcessCloudSupervisor :=
  let? _ := map_err (fun e => Runner.mkStartFailure (Runner.map_scope_error e) false) (Scope.cloud_invocation (o_fs os) s i) in
  let? pid := map_err (fun e => Runner.mkStartFailure (Runner.map_runtime_error e) false) (o_spawn os) in
  let? process := map_err (fun e => Runner.mkStartFailure (Runner.map_runtime_error e) true) (read_process_identity pid (o_stat os)) in
  if negb (o_stdout_piped os) || negb (o_stderr_piped os) then Err (Runner.mkStartFailure (run_err RunProcess) true)
  else Ok (mkProc pid process true timeout false).

(** [complete] with what the drainers of turn [t] hold. *)
Definition complete (end_ : Runner.CloudCommandEnd) (status : result unit ExitStatus) (t : Tick) (p : ProcessCloudSupervisor)
  : result CloudRunnerError Runner.CloudCommandCompletion * ProcessCloudSupervisor :=
  if negb (cp_threads p) then (Err (run_err RunProcess), p)
  else
  let p := mkProc (cp_pid p) (cp_process p) false (cp_timeout p) (cp_finished p) in
  match map_err Runner.map_runtime_error (finish_tick t status) with
  | Err e => (Err e, p)
  | Ok output => (Ok (Runner.mkCompletion end_ output), mkProc (cp_pid p) (cp_process p) false (cp_timeout p) true)
  end.

(** The loop of [wait]; [None] out of fuel. *)
Fixpoint wait_loop (fuel n : nat) (os : Os) (p : ProcessCloudSupervisor)
  : option (result CloudRunnerError Runner.CloudCommandCompletion * ProcessCloudSupervisor) :=
  match fuel with
  | O => None
  | S fuel =>
      let t := o_ticks os n in
      let killed := terminate_group (cp_pid p) (t_kill t) in
      if t_cancel t then Some (complete Runner.Canceled killed t p)
      else
      match t_wait t with
      | Ok (Some status) => Some (complete Runner.Exited (Ok status) t p)
      | Ok None => if t_elapsed t <? cp_timeout p then wait_loop fuel (S n) os p
                   else Some (complete Runner.TimedOut killed t p)
      | Err _ => Some (Err (run_err (if o_error_timed_out os n then RunTimeout else RunProcess)), p)
      end
  end.

Definition cancel_and_wait (t : Tick) (p : ProcessCloudSupervisor)
  : result CloudRunnerError Runner.CloudCommandCompletion * ProcessCloudSupervisor :=
  complete Runner.Canceled (terminate_group (cp_pid p) (t_kill t)) t p.

(** [Drop]: a command that was not finished is terminated and completed. *)
Definition drop_supervisor (t : Tick) (p : ProcessCloudSupervisor) : ProcessCloudSupervisor :=
  if cp_finished p then p else snd (cancel_and_wait t p).

(** ** What the runner sees *)

(** [start] followed by [wait], as the runner's model has it. *)
Definition runner_start (fuel : nat) (os : Os) (s : Scope.CredentialScope) (i : CloudInvocation) (timeout : Z)
  : option (result Runner.CloudStartFailure Runner.Supervisor) :=
  match start os s i timeout with
  | Err f => Some (Err f)
  | Ok p =>
      match wait_loop fuel 0 os p with
      | Some (r, _) => Some (Ok (Runner.mkSupervisor (cp_process p) r))
      | None => None
      end
  end.

(** A child exists: the boundary was confirmed and the spawn succeeded. *)
Definition spawned (os : Os) (s : Scope.CredentialScope) : bool :=
  match Scope.revalidate (o_fs os) s, o_spawn os with Ok _, Ok _ => true | _, _ => false end.

Lemma start_spawned os s i timeout :
  spawned os s = match start os s i timeout with Ok _ => true | Err f => Runner.may_have_started f end.
Proof.
  unfold spawned, start, Scope.cloud_invocation. destruct (Scope.revalidate _ _); [|done]. simpl.
  destruct (o_spawn os); [|done]. simpl. destruct (read_process_identity _ _); [|done]. simpl. by destruct (_ || _).
Qed.

Lemma runner_start_spawned fuel os s i timeout r : runner_start fuel os s i timeout = Some r ->
  spawned os s = match r with Ok _ => true | Err f => Runner.may_have_started f end.
Proof.
  rewrite (start_spawned os s i timeout). unfold runner_start. destruct (start os s i timeout) as [p|f]; [|by intros [= <-]].
  destruct (wait_loop _ _ _ _) as [[c p']|]; [|done]. by intros [= <-].
Qed.

(** C26: The runner's account of started commands is exact for the real process runtime: when the answer
    to [start] comes from it, the command is entered in the log exactly when a child process was
    spawned, so a failure that is recorded as before the spawn left no process behind. *)
Theorem exec_log_is_exact (fuel : nat) (os : Os) (s : Scope.CredentialScope) (timeout : Z) (op : CloudSubmitOperationId)
    (i : CloudInvocation) (a : Runner.Answers) (h : Runner.Host) (life : nat) :
  runner_start fuel os s i timeout = Some (Runner.a_start a) -> Runner.fuel h = S life ->
  exists h', Runner.start_exec op i a h = Done (Runner.a_start a) h'
    /\ Runner.execs h' = Runner.execs h ++ (if spawned os s then [(op, i)] else []).
Proof.
  intros Hr Hf. rewrite (runner_start_spawned _ _ _ _ _ _ Hr). unfold Runner.start_exec, bind, Runner.effect. rewrite Hf.
  destruct (Runner.a_start a) as [sup|f]; [by eexists|]. destruct (Runner.may_have_started f); eexists; (split; [done|]); [done|].
  by rewrite app_nil_r.
Qed.

Lemma wait_ends fuel k n os p : (k + fuel = S n)%nat -> (k <= n)%nat -> cp_timeout p <= t_elapsed (o_ticks os n) ->
  is_Some (wait_loop fuel k os p).
Proof.
  revert k. induction fuel as [|fuel IH]; intros k Hk Hle Ht; [lia|]. cbn [wait_loop].
  destruct (t_cancel _); [by eexists|]. destruct (t_wait _) as [[st|]|]; [by eexists| |by eexists].
  destruct (Z.ltb_spec (t_elapsed (o_ticks os k)) (cp_timeout p)); [|by eexists].
  apply IH; [lia| |done]. destruct (decide (k = n)) as [->|]; lia.
Qed.

(** A Cloud command ends: once the clock of some turn has reached the command's limit, the runner has
    its answer after that turn at the latest. *)
Theorem cloud_command_ends (os : Os) (s : Scope.CredentialScope) (i : CloudInvocation) (timeout : Z) (n : nat) :
  timeout <= t_elapsed (o_ticks os n) -> is_Some (runner_start (S n) os s i timeout).
Proof.
  intros Ht. unfold runner_start. destruct (start os s i timeout) as [p|f] eqn:Es; [|by eexists].
  assert (cp_timeout p = timeout) as Hp.
  { revert Es. unfold start. destruct (map_err _ _); [|done]. simpl. destruct (map_err _ _); [|done]. simpl.
    destruct (map_err _ _); [|done]. simpl. destruct (_ || _); [done|]. by intros [= <-]. }
  destruct (wait_ends (S n) 0 n os p) as [[r p'] ->]; [lia|lia|by rewrite Hp|by eexists].
Qed.

(** Why turn [t] ended the command, with the exit status [code]. *)
Definition end_reason (p : ProcessCloudSupervisor) (t : Tick) (e : Runner.CloudCommandEnd) (code : ExitStatus) : Prop :=
  match e with
  | Runner.Exited => t_cancel t = false /\ t_wait t = Ok (Some code)
  | Runner.Canceled => t_cancel t = true /\ terminate_group (cp_pid p) (t_kill t) = Ok code
  | Runner.TimedOut => t_cancel t = false /\ t_wait t = Ok None /\ cp_timeout p <= t_elapsed t
                       /\ terminate_group (cp_pid p) (t_kill t) = Ok code
  end.

(** The capture is what both drained streams of turn [t] hold. *)
Definition captured (t : Tick) (c : CloudCapture) : Prop :=
  let '((out, out_end), (err, err_end)) := t_drained t in
  out_end = DrainOk /\ err_end = DrainOk
  /\ (stdout c, stdout_overflow c) = snapshot out /\ (stderr c, stderr_overflow c) = snapshot err.

(** What a completion says of the child. *)
Definition faithful (os : Os) (p : ProcessCloudSupervisor) (c : Runner.CloudCommandCompletion) : Prop :=
  exists k, captured (o_ticks os k) (Runner.capture c)
    /\ end_reason p (o_ticks os k) (Runner.end_ c) (exit_code (Runner.capture c)).

Lemma complete_faithful os p n end_ status c p' : complete end_ status (o_ticks os n) p = (Ok c, p') ->
  (forall code, status = Ok code -> end_reason p (o_ticks os n) end_ code) -> faithful os p c.
Proof.
  unfold complete. destruct (negb _); [done|]. intros Hc Hr. exists n. revert Hc. unfold finish_tick, finish_capture, captured.
  destruct (t_drained _) as [[out oe] [err ee]]. destruct status as [st|]; [|done]. simpl.
  destruct oe; [|done..]. destruct ee; [|done..]. simpl. intros [= <- _]. split; [done|]. by apply Hr.
Qed.

(** A command that is reported as exited did exit with that code and was neither cancelled nor
    killed before; one reported as cancelled or timed out was asked to end, or had reached its limit,
    and its process group was terminated; and in every case the output is what both drained streams
    held. *)
Theorem completion_is_faithful (fuel : nat) (os : Os) (p : ProcessCloudSupervisor) (c : Runner.CloudCommandCompletion)
    (p' : ProcessCloudSupervisor) :
  wait_loop fuel 0 os p = Some (Ok c, p') -> faithful os p c.
Proof.
  generalize 0%nat as n. revert p'. induction fuel as [|fuel IH]; intros p' n; [done|]. cbn [wait_loop].
  destruct (t_cancel (o_ticks os n)) eqn:Ec.
  { intros [= Hc]. eapply complete_faithful; [done|]. by split. }
  destruct (t_wait (o_ticks os n)) as [[st|]|] eqn:Ew; [| |done].
  { intros [= Hc]. eapply complete_faithful; [done|]. intros code [= ->]. by split. }
  destruct (Z.ltb_spec (t_elapsed (o_ticks os n)) (cp_timeout p)) as [|Ht]; [by apply IH|].
  intros [= Hc]. eapply complete_faithful; [done|]. intros code Hcode. by split_and!.
Qed.

(** ** Witnesses *)

Module ProcessWitness.
Definition url : BoundedCapture := capture_of CLOUD_CAPTURE_BYTES (String.list_ascii_of_string "https://chatgpt.com/codex/tasks/task_e_1").
Definition quiet : BoundedCapture := capture_of CLOUD_CAPTURE_BYTES [].
(** The command runs for two turns and exits. *)
Definition ticks (n : nat) : Tick :=
  mkTick false (Ok (if Nat.ltb n 2 then None else Some (Some 0))) url quiet true (Z.of_nat n * 30000) calm_kill ((url, DrainOk), (quiet, DrainOk)).
Definition os : Os :=
  mkOs Scope.ScopeWitness.fs (Ok 10) (Stat "10 (codex) S 1 1 1 0 -1 4194304 0 0 0 0 0 0 0 0 20 0 1 0 5150 0 0") calm_kill true true
    ticks (fun _ => false).
Definition scope : Scope.CredentialScope := Scope.mkScope Scope.ScopeWitness.config 1000.
Definition command : CloudInvocation := inv_version.
Definition process : ProcessCloudSupervisor := mkProc 10 (Sub.mkProcess 10 5150) true SUBMIT_TIMEOUT false.
Definition completion : Runner.CloudCommandCompletion :=
  Runner.mkCompletion Runner.Exited (mkCapture "https://chatgpt.com/codex/tasks/task_e_1" "" false false (Some 0)).
Definition sup : Runner.Supervisor := Runner.mkSupervisor (Sub.mkProcess 10 5150) (Ok completion).
Definition sentinel : Runner.SentinelOs := Runner.mkSentinelOs Runner.Found Runner.Created true (Some (Some (Runner.mkMeta true 1000 448))).
Definition answers : Runner.Answers :=
  Runner.mkAnswers (Ok tt) None None (Ok tt) (Ok None) (Ok LoggedIn) sentinel sentinel false false (Ok sup) (fun _ => false)
    (fun _ _ => Runner.mkPageAnswer sentinel (Ok sup)).
Definition host : Runner.Host := Runner.mkHost None None [] [] 5.
Definition op : CloudSubmitOperationId := mkOp 7.

Lemma exec_log_witness :
  exists h', Runner.start_exec op command answers host = Done (Ok sup) h' /\ Runner.execs h' = [(op, command)].
Proof. apply (exec_log_is_exact 3 os scope SUBMIT_TIMEOUT op command answers host 4); vm_compute; reflexivity. Defined.

Lemma cloud_command_ends_witness : is_Some (runner_start 3 os scope command SUBMIT_TIMEOUT).
Proof. apply (cloud_command_ends os scope command SUBMIT_TIMEOUT 2). vm_compute. discriminate. Defined.

Lemma completion_witness : faithful os process completion.
Proof.
  apply (completion_is_faithful 3 os process completion
    (mkProc 10 (Sub.mkProcess 10 5150) false SUBMIT_TIMEOUT true)); vm_compute; reflexivity.
Defined.
End ProcessWitness.

End CloudProcess.
