(* ===== verification/HttpTypes.v ===== *)
(** * HTTP responses of the control plane

    Models [apps/control-plane/src/error.rs] (the safe errors and the mapping of every lower error),
    [transport.rs] (responses and their headers) and the request types of [types.rs].  Serialization
    is serde_json's: the class [SerdeJson] has the two encodings the code asks for; header values are
    taken to be constructible, as the texts the code builds are. *)
From S2P Require Import Prelude DomainValues CloudTypes SessionTypes LoginTypes CloudAdapter.
From stdpp Require Import base numbers list strings sets.
From Stdlib Require Import ZArith Lia.
Import Ids.

Open Scope Z_scope.

(** ** Status codes *)

Definition OK : Z := 200.
Definition CREATED : Z := 201.
Definition ACCEPTED : Z := 202.
Definition NO_CONTENT : Z := 204.
Definition BAD_REQUEST : Z := 400.
Definition UNAUTHORIZED : Z := 401.
Definition FORBIDDEN : Z := 403.
Definition NOT_FOUND : Z := 404.
Definition METHOD_NOT_ALLOWED : Z := 405.
Definition CONFLICT : Z := 409.
Definition PAYLOAD_TOO_LARGE : Z := 413.
Definition UNSUPPORTED_MEDIA_TYPE : Z := 415.
Definition UNPROCESSABLE_ENTITY : Z := 422.
Definition UPGRADE_REQUIRED : Z := 426.
Definition TOO_MANY_REQUESTS : Z := 429.
Definition SERVICE_UNAVAILABLE : Z := 503.
Definition GATEWAY_TIMEOUT : Z := 504.

(** ** Errors (error.rs) *)
Module Api.

(** [ApiError] with its [ApiErrorBody] flattened. *)
Record ApiError := mkApiError {
  status : Z; code : string; message : string; operation_id : option CloudSubmitOperationId }.
#[export] Instance ApiError_eq_dec : EqDecision ApiError.
Proof. solve_decision. Defined.

Definition new (status : Z) (code message : string) : ApiError := mkApiError status code message None.
Definition with_operation (e : ApiError) (op : option CloudSubmitOperationId) : ApiError :=
  mkApiError (status e) (code e) (message e) op.

Definition authentication_required : ApiError :=
  new UNAUTHORIZED "authentication_required" "operator authentication is required".
Definition origin_forbidden : ApiError :=
  new FORBIDDEN "origin_forbidden" "request origin is not allowed".
Definition service_unavailable : ApiError :=
  new SERVICE_UNAVAILABLE "service_unavailable" "control-plane service is unavailable".
Definition invalid_request : ApiError :=
  new UNPROCESSABLE_ENTITY "invalid_request" "request schema is invalid".
Definition invalid_value : ApiError :=
  new UNPROCESSABLE_ENTITY "invalid_value" "request value is invalid".

Inductive LoginPortError := Lower (error : LoginBrokerError) | Unavailable.

Definition map_broker_error (e : LoginBrokerError) : ApiError :=
  match e with
  | LBCredentialScope _ =>
      new SERVICE_UNAVAILABLE "login_unavailable" "login credential scope is unavailable"
  | LBVersionMismatch =>
      new SERVICE_UNAVAILABLE "login_version_mismatch" "accepted login provider version is unavailable"
  | LBLoginAlreadyRunning => new CONFLICT "login_already_running" "a device login is already running"
  | LBAlreadyLoggedIn => new CONFLICT "already_logged_in" "operator is already logged in"
  | LBProviderOutputInvalid =>
      new SERVICE_UNAVAILABLE "login_provider_drift" "login provider response is unavailable"
  | LBOutputLimitExceeded =>
      new SERVICE_UNAVAILABLE "login_output_limit" "login provider response exceeded its limit"
  | LBStatusUnavailable =>
      new SERVICE_UNAVAILABLE "login_status_unavailable" "login status is unavailable"
  | LBLoginFailed => new CONFLICT "login_failed" "device login did not complete"
  | LBOutcomeUnknown =>
      new CONFLICT "login_outcome_unknown" "device login outcome requires reconciliation"
  | LBProcess => new SERVICE_UNAVAILABLE "login_process_unavailable" "login process is unavailable"
  | LBLedgerUnavailable =>
      new SERVICE_UNAVAILABLE "login_state_unavailable" "login state is unavailable"
  | LBLedgerInvalid =>
      new SERVICE_UNAVAILABLE "login_state_invalid" "login state requires operator repair"
  end.

Definition map_login_error (e : LoginPortError) : ApiError :=
  match e with Lower e => map_broker_error e | Unavailable => service_unavailable end.

Definition map_session_category (c : Errors.P0SessionErrorCategory) : option ApiError :=
  match c with
  | Errors.InvalidConfig =>
      Some (new SERVICE_UNAVAILABLE "session_config_invalid" "session configuration is unavailable")
  | Errors.TurnAlreadyRunning => Some (new CONFLICT "turn_already_running" "a turn is already active")
  | Errors.NoCurrentTurn => Some (new CONFLICT "no_current_turn" "no current turn is available")
  | Errors.WrongState =>
      Some (new CONFLICT "session_wrong_state" "session state does not allow this operation")
  | Errors.WrongSession =>
      Some (new CONFLICT "session_changed" "session identity changed; refresh before retry")
  | Errors.WrongOperation =>
      Some (new CONFLICT "operation_changed" "current operation changed; refresh before retry")
  | Errors.RuntimeStopped => Some (new SERVICE_UNAVAILABLE "session_stopped" "session runtime is stopped")
  | Errors.HistoryGap => Some (new CONFLICT "history_gap" "requested session history is no longer retained")
  | Errors.FutureCursor => Some (new CONFLICT "future_cursor" "requested session cursor is in the future")
  | Errors.SubscriberLimit =>
      Some (new SERVICE_UNAVAILABLE "subscriber_limit" "session subscriber limit reached")
  | Errors.SequenceExhausted =>
      Some (new SERVICE_UNAVAILABLE "session_sequence_exhausted" "session event sequence is exhausted")
  | Errors.LowerConflict => Some (new CONFLICT "provider_state_conflict" "provider state changed incompatibly")
  | Errors.CloudLifecycleFailed | Errors.CloudDiffFailed => None
  end.

Definition map_cloud_lifecycle_error (c : CloudLifecycleErrorCategory)
    (op : option CloudSubmitOperationId) : ApiError :=
  with_operation
  match c with
  | EScope =>
      new SERVICE_UNAVAILABLE "provider_scope_unavailable" "provider credential scope is unavailable"
  | EBusy => new SERVICE_UNAVAILABLE "provider_busy" "provider operation is busy"
  | ETurnAlreadyRunning => new CONFLICT "provider_turn_running" "a provider turn is already active"
  | ENoCurrentOperation => new CONFLICT "no_current_operation" "no provider operation is available"
  | EWrongState => new CONFLICT "provider_wrong_state" "provider state does not allow this operation"
  | EStaleDecision => new CONFLICT "recovery_decision_stale" "recovery decision is stale"
  | ETaskNotListed =>
      new UNPROCESSABLE_ENTITY "task_not_listed" "task is not in the complete recovery set"
  | EAcknowledgementRequired =>
      new UNPROCESSABLE_ENTITY "acknowledgement_required" "duplicate-task-risk acknowledgement is required"
  | ELowerRunner =>
      new SERVICE_UNAVAILABLE "provider_runner_unavailable" "provider runner is unavailable"
  | EProviderRead => new SERVICE_UNAVAILABLE "provider_read_unavailable" "provider state cannot be read"
  | EOperationConflict =>
      new CONFLICT "provider_operation_conflict" "another provider operation owns current state"
  | EOutcomeUnknown =>
      new CONFLICT "provider_outcome_unknown" "provider outcome requires explicit recovery"
  | ELedgerInvalid =>
      new SERVICE_UNAVAILABLE "provider_state_invalid" "provider state requires operator repair"
  | ELedgerUnavailable =>
      new SERVICE_UNAVAILABLE "provider_state_unavailable" "provider state is unavailable"
  | ERecoveryRequired =>
      new CONFLICT "provider_recovery_required" "provider recovery requires operator action"
  end op.

Definition map_cloud_diff_error (c : CloudDiffReadErrorCategory) : ApiError :=
  match c with
  | DIneligibleLifecycle =>
      new CONFLICT "diff_not_ready" "current task is not eligible for diff retrieval"
  | DAuthorityMismatch =>
      new CONFLICT "diff_authority_changed" "current task changed; refresh before retry"
  | DScope => new SERVICE_UNAVAILABLE "diff_scope_unavailable" "diff credential scope is unavailable"
  | DBusy => new SERVICE_UNAVAILABLE "diff_busy" "diff provider operation is busy"
  | DVersion =>
      new SERVICE_UNAVAILABLE "diff_version_mismatch" "accepted diff provider version is unavailable"
  | DDiagnosticBoundary =>
      new SERVICE_UNAVAILABLE "diff_boundary_unavailable" "diff diagnostic boundary is unavailable"
  | DProcess => new SERVICE_UNAVAILABLE "diff_process_unavailable" "diff process is unavailable"
  | DTimeout => new GATEWAY_TIMEOUT "diff_timeout" "diff retrieval timed out"
  | DCanceled => new CONFLICT "diff_canceled" "diff retrieval was canceled"
  | DOutputLimit => new SERVICE_UNAVAILABLE "diff_output_limit" "diff exceeded its output limit"
  | DProviderDrift =>
      new SERVICE_UNAVAILABLE "diff_provider_drift" "diff provider response is unavailable"
  | DInvalidDiff => new SERVICE_UNAVAILABLE "diff_invalid" "diff display data is invalid"
  end.

Definition map_p0_session_error (e : Errors.P0SessionError) : ApiError :=
  match Errors.category e with
  | Errors.CloudLifecycleFailed =>
      default service_unavailable
        ((fun c => map_cloud_lifecycle_error c (Errors.operation_id e)) <$> Errors.cloud_lifecycle e)
  | Errors.CloudDiffFailed => default service_unavailable (map_cloud_diff_error <$> Errors.cloud_diff e)
  | c => default service_unavailable (map_session_category c)
  end.

(** [map_session_error]: outside tests a [SessionPortError] is the lower error. *)
Definition map_session_error (e : Errors.P0SessionError) : ApiError := map_p0_session_error e.

Inductive P0HttpShutdownErrorCategory := Session | Login | Worker.
#[export] Instance P0HttpShutdownErrorCategory_eq_dec : EqDecision P0HttpShutdownErrorCategory.
Proof. solve_decision. Defined.

End Api.

(** ** Values that are serialized *)

Inductive LoginStatusResponse :=
| RLoggedOut | RDeviceLoginPending (operation_id : LoginOperationId) | RLoggedIn
| ROutcomeUnknown (operation_id : LoginOperationId).

(** [From<LoginStatus>]. *)
Definition LoginStatusResponse_from (value : LoginStatus) : LoginStatusResponse :=
  match value with
  | LSLoggedOut => RLoggedOut
  | LSDeviceLoginPending op => RDeviceLoginPending op
  | LSLoggedIn => RLoggedIn
  | LSOutcomeUnknown op => ROutcomeUnknown op
  end.

Record BootstrapResponse := mkBootstrap {
  actor : string; bs_expires_in_seconds : Z; p0_session_id : SessionId; bs_instance_id : P0InstanceId }.

Definition BootstrapResponse_new (identity : P0SessionIdentity) (expires_in_seconds : Z) : BootstrapResponse :=
  mkBootstrap "operator" expires_in_seconds (session_id identity) (instance_id identity).

Record DeviceLoginResponse := mkDeviceLogin {
  dl_operation_id : LoginOperationId; verification_url : string; verification_code : string;
  dl_expires_in_seconds : Z }.

Inductive ResponseValue :=
| VBootstrap (v : BootstrapResponse)
| VLoginStatus (v : LoginStatusResponse)
| VDeviceLogin (v : DeviceLoginResponse)
| VReceipt (v : P0TurnReceipt)
| VSnapshot (v : P0SessionSnapshot)
| VCandidates (v : P0RecoveryCandidates).

Class SerdeJson := {
  to_vec : ResponseValue -> option string;
  error_to_vec : Api.ApiError -> option string }.

(** ** Responses (transport.rs) *)
Section Transport.
Context `{SerdeJson}.

Record CachedResponse := mkResponse { rs_status : Z; rs_headers : list (string * string); rs_body : string }.

Definition common_headers (content_type : option string) : list (string * string) :=
  [("cache-control", "no-store"); ("x-content-type-options", "nosniff")]
  ++ match content_type with Some c => [("content-type", c)] | None => [] end.

Definition response_json (status : Z) (value : ResponseValue) : result Api.ApiError CachedResponse :=
  let? body := ok_or (to_vec value) Api.service_unavailable in
  Ok (mkResponse status (common_headers (Some "application/json")) body).

(** The text of the fallback body, with its quotes as a byte. *)
Definition quote : string := String (Ascii.ascii_of_nat 34) EmptyString.
Definition quoted (s : string) : string := (quote ++ s ++ quote)%string.
Definition FALLBACK_BODY : string :=
  ("{" ++ quoted "error" ++ ":{" ++ quoted "code" ++ ":" ++ quoted "service_unavailable" ++ ","
   ++ quoted "message" ++ ":" ++ quoted "control-plane service is unavailable" ++ "}}")%string.

Definition response_error (e : Api.ApiError) : CachedResponse :=
  match error_to_vec e with
  | Some body => mkResponse (Api.status e) (common_headers (Some "application/json")) body
  | None => mkResponse SERVICE_UNAVAILABLE (common_headers (Some "application/json")) FALLBACK_BODY
  end.

Definition empty_logout (cookie : string) : CachedResponse :=
  mkResponse NO_CONTENT (common_headers None ++ [("set-cookie", cookie)]) "".

Definition bootstrap (value : ResponseValue) (cookie : string) : result Api.ApiError CachedResponse :=
  let? r := response_json CREATED value in
  Ok (mkResponse (rs_status r) (rs_headers r ++ [("set-cookie", cookie)]) (rs_body r)).

Definition diff (value : string) : CachedResponse :=
  mkResponse OK
    (common_headers (Some "text/plain; charset=utf-8")
     ++ [("content-security-policy", "default-src 'none'; sandbox"); ("content-disposition", "inline")])
    value.

Definition response_storage_bytes (r : CachedResponse) : Z :=
  foldl (fun total '(name, value) =>
           usize_saturating_add (usize_saturating_add total (Z.of_nat (String.length name)))
             (Z.of_nat (String.length value)))
    (usize_saturating_add 64 (Z.of_nat (String.length (rs_body r)))) (rs_headers r).

Definition into_result (r : result Api.ApiError CachedResponse) : CachedResponse :=
  match r with Ok r => r | Err e => response_error e end.
End Transport.

(** ** Requests (types.rs) *)

Inductive Mutation :=
| MLogout (cookie : string) (session_seq : Z)
| MStartDeviceLogin
| MCancelLogin
| MStartTurn (prompt : CloudPrompt)
| MCancelTurn
| MReconcile
| MAdopt (operation_id : CloudSubmitOperationId) (task_id : CloudTaskId)
| MAbandon (operation_id : CloudSubmitOperationId).

Record RequestIdentity := mkIdentity {
  ri_method : string; ri_route : string; ri_body : string; ri_instance_id : P0InstanceId;
  ri_logout_session_seq : option Z }.
#[export] Instance P0InstanceId_eq_dec : EqDecision P0InstanceId.
Proof. solve_decision. Defined.
#[export] Instance RequestIdentity_eq_dec : EqDecision RequestIdentity.
Proof. solve_decision. Defined.

Definition identity_storage_bytes (i : RequestIdentity) : Z :=
  let add x y := usize_saturating_add x (Z.of_nat (String.length y)) in
  usize_saturating_add (add (add (add 64 (ri_method i)) (ri_route i)) (ri_body i))
    match ri_logout_session_seq i with Some _ => 8 | None => 0 end.

(** ** What the responses guarantee *)

Definition uncacheable (r : CachedResponse) : Prop :=
  ("cache-control", "no-store") ∈ rs_headers r /\ ("x-content-type-options", "nosniff") ∈ rs_headers r.

Lemma common_uncacheable c hs s b : uncacheable (mkResponse s (common_headers c ++ hs) b).
Proof. split; simpl; set_solver. Qed.

Lemma into_result_uncacheable `{SerdeJson} r :
  (forall x, r = Ok x -> uncacheable x) -> uncacheable (into_result r).
Proof.
  intros Hr. destruct r as [x|e]; simpl; [by apply Hr|]. unfold response_error.
  destruct (error_to_vec e); split; simpl; set_solver.
Qed.

(** What a lower session error is about. *)
Definition error_kind (e : Errors.P0SessionError)
  : Errors.P0SessionErrorCategory + (CloudLifecycleErrorCategory + CloudDiffReadErrorCategory) :=
  match Errors.category e, Errors.cloud_lifecycle e, Errors.cloud_diff e with
  | Errors.CloudLifecycleFailed, Some c, _ => inr (inl c)
  | Errors.CloudDiffFailed, _, Some c => inr (inr c)
  | c, _, _ => inl c
  end.

(** A lower error carries the category it was built from. *)
Definition error_wf (e : Errors.P0SessionError) : Prop :=
  match Errors.category e with
  | Errors.CloudLifecycleFailed => is_Some (Errors.cloud_lifecycle e)
  | Errors.CloudDiffFailed => is_Some (Errors.cloud_diff e)
  | _ => True
  end.

(** The code each kind is reported with. *)
Definition kind_error
    (k : Errors.P0SessionErrorCategory + (CloudLifecycleErrorCategory + CloudDiffReadErrorCategory))
    (op : option CloudSubmitOperationId) : option Api.ApiError :=
  match k with
  | inl c => Api.map_session_category c
  | inr (inl c) => Some (Api.map_cloud_lifecycle_error c op)
  | inr (inr c) => Some (Api.map_cloud_diff_error c)
  end.

Lemma map_error_kind e :
  error_wf e -> kind_error (error_kind e) (Errors.operation_id e) = Some (Api.map_session_error e).
Proof.
  destruct e as [c t op old lat lc cd cf]. unfold error_wf, error_kind, Api.map_session_error, Api.map_p0_session_error.
  simpl. destruct c; simpl; intros Hw; try done; destruct lc, cd; simpl; try done; by destruct Hw.
Qed.

(** The kinds, and the one a code stands for. *)
Definition all_kinds : list (Errors.P0SessionErrorCategory + (CloudLifecycleErrorCategory + CloudDiffReadErrorCategory)) :=
  (inl <$> [Errors.InvalidConfig; Errors.TurnAlreadyRunning; Errors.NoCurrentTurn; Errors.WrongState;
            Errors.WrongSession; Errors.WrongOperation; Errors.RuntimeStopped; Errors.HistoryGap;
            Errors.FutureCursor; Errors.SubscriberLimit; Errors.SequenceExhausted; Errors.LowerConflict])
  ++ (inr ∘ inl <$> [EScope; EBusy; ETurnAlreadyRunning; ENoCurrentOperation; EWrongState; EStaleDecision;
       ETaskNotListed; EAcknowledgementRequired; ELowerRunner; EProviderRead; EOperationConflict;
       EOutcomeUnknown; ELedgerInvalid; ELedgerUnavailable; ERecoveryRequired])
  ++ (inr ∘ inr <$> [DIneligibleLifecycle; DAuthorityMismatch; DScope; DBusy; DVersion; DDiagnosticBoundary;
       DProcess; DTimeout; DCanceled; DOutputLimit; DProviderDrift; DInvalidDiff]).

Definition kind_of_code (c : string)
  : option (Errors.P0SessionErrorCategory + (CloudLifecycleErrorCategory + CloudDiffReadErrorCategory)) :=
  snd <$> list_find (fun k => Api.code <$> kind_error k None = Some c) all_kinds.

Lemma kind_of_code_error k op a : kind_error k op = Some a -> kind_of_code (Api.code a) = Some k.
Proof. destruct k as [[]|[[]|[]]]; cbn [kind_error]; intros [= <-]; vm_compute; reflexivity. Qed.

Lemma kind_error_code k k' op op' a a' :
  kind_error k op = Some a -> kind_error k' op' = Some a' -> Api.code a = Api.code a' -> k = k'.
Proof. intros H%kind_of_code_error H'%kind_of_code_error E. rewrite E in H. congruence. Qed.

Lemma kind_error_status k op a : kind_error k op = Some a -> 400 <= Api.status a < 600.
Proof. destruct k as [[]|[[]|[]]]; simpl; intros [= <-]; simpl; unfold CONFLICT, SERVICE_UNAVAILABLE, UNPROCESSABLE_ENTITY, GATEWAY_TIMEOUT; lia. Qed.

(** The operator can tell lower failures apart.  Every error of the session runtime is reported
    with a client or server error status, and two errors reported with the same code are of the same
    kind, down to the category of the Cloud lifecycle or diff failure they wrap; the operation is
    reported exactly for lifecycle failures. *)
Theorem session_errors_stay_distinguishable e e' (Hw : error_wf e) (Hw' : error_wf e') :
  400 <= Api.status (Api.map_session_error e) < 600 /\
  (Api.code (Api.map_session_error e) = Api.code (Api.map_session_error e') -> error_kind e = error_kind e') /\
  Api.operation_id (Api.map_session_error e) =
    match Errors.category e with Errors.CloudLifecycleFailed => Errors.operation_id e | _ => None end.
Proof.
  pose proof (map_error_kind e Hw) as He. pose proof (map_error_kind e' Hw') as He'. split; [|split].
  - by eapply kind_error_status.
  - by eapply kind_error_code.
  - destruct e as [c t op old lat lc cd cf]. unfold error_wf, Api.map_session_error, Api.map_p0_session_error in *.
    simpl in *. destruct c; try done; [destruct lc as [k|]|destruct cd as [k|]]; try (by destruct Hw); by destruct k.
Qed.

Lemma session_errors_stay_distinguishable_witness :
  let e := Errors.from_cloud_lifecycle EOutcomeUnknown (Some (mkOp 7)) in
  400 <= Api.status (Api.map_session_error e) < 600 /\
  (Api.code (Api.map_session_error e) = Api.code (Api.map_session_error (Errors.from_cloud_diff DTimeout)) ->
     error_kind e = error_kind (Errors.from_cloud_diff DTimeout)) /\
  Api.operation_id (Api.map_session_error e) = Some (mkOp 7).
Proof.
  apply (session_errors_stay_distinguishable (Errors.from_cloud_lifecycle EOutcomeUnknown (Some (mkOp 7)))
    (Errors.from_cloud_diff DTimeout)); by eexists.
Defined.
