(* ===== verification/Idempotency.v ===== *)
(** * The idempotency registry

    Models [apps/control-plane/src/idempotency.rs]: the registry of requests by idempotency key, with
    one definition per method.  A [HashMap] is a [gmap]; where the code iterates over it the model
    folds over its elements.  The [while] loops take the number of entries as fuel, which they cannot
    exceed since every turn removes one. *)
From S2P Require Import Prelude DomainValues CloudTypes SessionTypes LoginTypes HttpTypes.
From stdpp Require Import base numbers list strings gmap fin_maps.
From Stdlib Require Import ZArith Lia.
Import Ids.

Open Scope Z_scope.

#[export] Instance Id_countable t : Countable (Id t).
Proof. by refine (inj_countable' as_uuid mkId _); intros []. Defined.

Definition MAX_ENTRIES : Z := 128.
Definition MAX_STORAGE_BYTES : Z := 8 * 1024 * 1024.

Module Idem.

Inductive CacheDisposition :=
| Retain
| ExpireAt (deadline : Z)
| RemoveAfterAuthSession (session_seq : Z).

Inductive EntryState :=
| InFlight
| Complete (response : CachedResponse) (disposition : CacheDisposition).

Record Entry := mkEntry {
  identity : RequestIdentity;
  request_bytes : Z;
  response_bytes : Z;
  state : EntryState;
  waiters : Z;
  completed_seq : option Z }.

Record Registry := mkRegistry {
  entries : gmap CommandId Entry;
  total_bytes : Z;
  completion_seq : Z }.

Definition registry_default : Registry := mkRegistry ∅ 0 0.

Definition usize_saturating_sub (x y : Z) : Z := Z.max 0 (x - y).

Definition with_waiters (w : Z) (e : Entry) : Entry :=
  mkEntry (identity e) (request_bytes e) (response_bytes e) (state e) w (completed_seq e).

Definition with_entries (m : gmap CommandId Entry) (r : Registry) : Registry :=
  mkRegistry m (total_bytes r) (completion_seq r).

(** ** Registry *)

Definition remove (key : CommandId) (r : Registry) : Registry :=
  match entries r !! key with
  | Some e =>
      mkRegistry (delete key (entries r))
        (usize_saturating_sub (usize_saturating_sub (total_bytes r) (request_bytes e)) (response_bytes e))
        (completion_seq r)
  | None => r
  end.

Definition expired (now : Z) (e : Entry) : bool :=
  match state e with
  | Complete _ (ExpireAt deadline) => (deadline <=? now) && (waiters e =? 0)
  | _ => false
  end.

(** Collect the keys whose entry satisfies [p], then remove them. *)
Definition remove_all (p : Entry -> bool) (r : Registry) : Registry :=
  foldl (fun r key => remove key r) r (filter (fun '(_, e) => p e = true) (map_to_list (entries r))).*1.

Definition prune_expired (now : Z) (r : Registry) : Registry := remove_all (expired now) r.

Definition idle_completed (e : Entry) : bool := bool_decide (is_Some (completed_seq e)) && (waiters e =? 0).

(** [min_by_key]: the first of the smallest. *)
Definition min_by_key {A} (f : A -> Z) (l : list A) : option A :=
  foldl (fun acc x => match acc with
                      | Some y => if f x <? f y then Some x else Some y
                      | None => Some x
                      end) None l.

Definition oldest_completed (protected : option CommandId) (r : Registry) : option CommandId :=
  fst <$> min_by_key (fun '(_, e) => default 0 (completed_seq e))
    (filter (fun '(key, e) => Some key <> protected /\ idle_completed e = true) (map_to_list (entries r))).

Definition idempotency_unavailable : Api.ApiError :=
  Api.new SERVICE_UNAVAILABLE "idempotency_unavailable" "idempotency registry is temporarily unavailable".

Definition over_capacity (bytes : Z) (r : Registry) : bool :=
  (MAX_ENTRIES <=? Z.of_nat (size (entries r)))
  || (MAX_STORAGE_BYTES <? usize_saturating_add (total_bytes r) bytes).

Fixpoint make_capacity_loop (fuel : nat) (bytes : Z) (r : Registry) : Registry * result Api.ApiError unit :=
  if over_capacity bytes r then
    match oldest_completed None r, fuel with
    | Some oldest, S n => make_capacity_loop n bytes (remove oldest r)
    | _, _ => (r, Err idempotency_unavailable)
    end
  else (r, Ok tt).

Definition make_capacity (bytes : Z) (r : Registry) : Registry * result Api.ApiError unit :=
  make_capacity_loop (size (entries r)) bytes r.

Fixpoint evict_loop (fuel : nat) (protected : option CommandId) (r : Registry) : Registry :=
  if MAX_STORAGE_BYTES <? total_bytes r then
    match oldest_completed protected r, fuel with
    | Some oldest, S n => evict_loop n protected (remove oldest r)
    | _, _ => r
    end
  else r.

Definition evict_completed_to_storage_bound (protected : option CommandId) (r : Registry) : Registry :=
  evict_loop (size (entries r)) protected r.

(** ** Idempotency *)

Definition idempotency_conflict : Api.ApiError :=
  Api.new CONFLICT "idempotency_conflict" "idempotency key was used for another request".

(** [Idempotency::admit]: whether the caller owns the execution; its waiter is on [key]. *)
Definition admit_request (key : CommandId) (i : RequestIdentity) (now : Z) (r : Registry)
  : Registry * result Api.ApiError bool :=
  let r := prune_expired now r in
  match entries r !! key with
  | Some e =>
      if bool_decide (identity e <> i) then (r, Err idempotency_conflict)
      else (with_entries (<[key := with_waiters (usize_saturating_add (waiters e) 1) e]> (entries r)) r, Ok false)
  | None =>
      let bytes := identity_storage_bytes i in
      match make_capacity bytes r with
      | (r, Err e) => (r, Err e)
      | (r, Ok _) =>
          (mkRegistry (<[key := mkEntry i bytes 0 InFlight 1 None]> (entries r))
             (usize_saturating_add (total_bytes r) bytes) (completion_seq r), Ok true)
      end
  end.

Definition complete (key : CommandId) (response : CachedResponse) (d : CacheDisposition) (r : Registry) : Registry :=
  let seq := Z.min u64_max (completion_seq r + 1) in
  let bytes := response_storage_bytes response in
  let r := mkRegistry (entries r) (total_bytes r) seq in
  let r :=
    match entries r !! key with
    | Some e =>
        match state e with
        | InFlight =>
            mkRegistry
              (<[key := mkEntry (identity e) (request_bytes e) bytes (Complete response d) (waiters e) (Some seq)]>
                 (entries r))
              (usize_saturating_add (total_bytes r) bytes) seq
        | Complete _ _ => r
        end
    | None => r
    end in
  evict_completed_to_storage_bound (Some key) r.

Definition released (session_seq : Z) (e : Entry) : bool :=
  match state e with
  | Complete _ (RemoveAfterAuthSession s) => (s =? session_seq) && (waiters e =? 0)
  | _ => false
  end.

Definition release_auth_session (session_seq : Z) (r : Registry) : Registry := remove_all (released session_seq) r.

Definition clear (r : Registry) : Registry := registry_default.

Inductive WaitState := Pending | WReady (response : CachedResponse) | Missing.

Definition take_response (key : CommandId) (r : Registry) : Registry * WaitState :=
  match entries r !! key with
  | None => (r, Missing)
  | Some e =>
      match state e with
      | InFlight => (r, Pending)
      | Complete response _ =>
          (with_entries (<[key := with_waiters (usize_saturating_sub (waiters e) 1) e]> (entries r)) r, WReady response)
      end
  end.

(** [Drop] of a waiter that is still active. *)
Definition drop_waiter (key : CommandId) (r : Registry) : Registry :=
  match entries r !! key with
  | None => r
  | Some e => with_entries (<[key := with_waiters (usize_saturating_sub (waiters e) 1) e]> (entries r)) r
  end.

(** ** The storage account *)

Definition entry_bytes (e : Entry) : Z := request_bytes e + response_bytes e.
Definition storage (m : gmap CommandId Entry) : Z := map_fold (fun _ e acc => entry_bytes e + acc) 0 m.

Lemma storage_insert k e m : m !! k = None -> storage (<[k := e]> m) = entry_bytes e + storage m.
Proof. intros Hk. unfold storage. apply (map_fold_insert_L (fun _ e acc => entry_bytes e + acc)); [intros; lia|done]. Qed.

Lemma storage_delete k e m : m !! k = Some e -> storage m = entry_bytes e + storage (delete k m).
Proof. intros Hk. unfold storage. apply (map_fold_delete_L (fun _ e acc => entry_bytes e + acc)); [intros; lia|done]. Qed.

Lemma storage_update k e e' m :
  m !! k = Some e -> storage (<[k := e']> m) = storage m - entry_bytes e + entry_bytes e'.
Proof.
  intros Hk. rewrite (storage_delete k e m Hk), <- insert_delete_eq, storage_insert by apply lookup_delete_eq. lia.
Qed.

Definition entry_limit : Z := 2 ^ 40.

(** One entry: its sizes, and a completion number exactly when it is complete. *)
Definition entry_ok (seq : Z) (e : Entry) : Prop :=
  0 <= request_bytes e <= entry_limit /\ 0 <= response_bytes e <= entry_limit /\ 0 <= waiters e /\
  match state e with
  | InFlight => completed_seq e = None /\ response_bytes e = 0
  | Complete _ _ => exists c, completed_seq e = Some c /\ 0 < c <= seq
  end.

Record WF (r : Registry) : Prop := {
  wf_size : Z.of_nat (size (entries r)) <= MAX_ENTRIES;
  wf_total : total_bytes r = storage (entries r);
  wf_entries : map_Forall (fun _ e => entry_ok (completion_seq r) e) (entries r);
  wf_seq : 0 <= completion_seq r }.

Lemma storage_bounds seq m :
  map_Forall (fun _ e => entry_ok seq e) m ->
  0 <= storage m <= Z.of_nat (size m) * (2 * entry_limit).
Proof.
  induction m as [|k e m Hk IH] using map_ind; intros HF; [done|].
  apply map_Forall_insert in HF as [(? & ? & _) HF]; [|done]. specialize (IH HF).
  rewrite storage_insert, map_size_insert_None by done. unfold entry_bytes. lia.
Qed.

Lemma storage_small r : WF r -> 0 <= storage (entries r) <= 2 ^ 48.
Proof.
  intros [Hs _ HF _]. pose proof (storage_bounds _ _ HF). unfold MAX_ENTRIES, entry_limit in *. lia.
Qed.

Lemma WF_default : WF registry_default.
Proof. constructor; [done|done|apply map_Forall_empty|done]. Qed.

Lemma remove_WF k r : WF r -> WF (remove k r).
Proof.
  intros HW. pose proof (storage_small r HW) as HS. destruct HW as [Hs Ht HF Hq]. unfold remove.
  destruct (entries r !! k) as [e|] eqn:Ek; [|by constructor].
  destruct (map_Forall_lookup_1 _ _ _ _ HF Ek) as (Hreq & Hresp & _).
  pose proof (storage_delete k e _ Ek) as Hd.
  pose proof (storage_bounds _ _ (map_Forall_delete _ _ k HF)) as Hb. constructor; simpl.
  - rewrite map_size_delete_Some by (by eexists). lia.
  - unfold usize_saturating_sub, entry_bytes in *. lia.
  - by apply map_Forall_delete.
  - done.
Qed.

(** ** What removals may take away *)

Definition idle (e : Entry) : Prop := completed_seq e <> None /\ waiters e = 0.

Lemma idle_completed_true e : idle_completed e = true <-> idle e.
Proof.
  unfold idle_completed, idle. rewrite andb_true_iff, bool_decide_eq_true, Z.eqb_eq.
  destruct (completed_seq e); split; intros [H ?]; split; try done; by destruct H.
Qed.

(** Only idle completed entries are lost, and nothing else changes. *)
Record shrunk (r r' : Registry) : Prop := {
  sh_seq : completion_seq r' = completion_seq r;
  sh_sub : entries r' ⊆ entries r;
  sh_lost : forall k e, entries r !! k = Some e -> entries r' !! k = None -> idle e }.

Lemma shrunk_refl r : shrunk r r.
Proof. constructor; [done|done|congruence]. Qed.

Lemma shrunk_trans r1 r2 r3 : shrunk r1 r2 -> shrunk r2 r3 -> shrunk r1 r3.
Proof.
  intros [S1 B1 L1] [S2 B2 L2]. constructor; [congruence|by trans (entries r2)|].
  intros k e H1 H3. destruct (entries r2 !! k) as [e2|] eqn:E2; [|by eapply L1].
  pose proof (lookup_weaken _ _ _ _ E2 B1). simplify_eq. by eapply L2.
Qed.

Lemma remove_shrunk k r : (forall e, entries r !! k = Some e -> idle e) -> shrunk r (remove k r).
Proof.
  intros Hi. unfold remove. destruct (entries r !! k) as [e|] eqn:Ek; [|apply shrunk_refl].
  constructor; simpl; [done|apply delete_subseteq|]. intros k' e' H H'.
  destruct (decide (k' = k)) as [->|Hne]; [simplify_eq; auto|]. rewrite lookup_delete_ne in H' by done. congruence.
Qed.

Lemma remove_list_spec ks r :
  WF r -> (forall k e, k ∈ ks -> entries r !! k = Some e -> idle e) ->
  WF (foldl (fun r key => remove key r) r ks) /\ shrunk r (foldl (fun r key => remove key r) r ks).
Proof.
  revert r. induction ks as [|k ks IH]; intros r HW Hi; simpl; [split; [done|apply shrunk_refl]|].
  assert (Hk : shrunk r (remove k r)) by (apply remove_shrunk; intros e; apply Hi; by left).
  destruct (IH (remove k r)) as [HW' Hs']; [by apply remove_WF| |].
  - intros k' e' Hk' He'. apply (Hi k'); [by right|]. by eapply lookup_weaken; [|apply Hk].
  - split; [done|by eapply shrunk_trans].
Qed.

Lemma removed_all_spec p r :
  WF r -> (forall k e, entries r !! k = Some e -> p e = true -> idle e) ->
  WF (remove_all p r) /\ shrunk r (remove_all p r).
Proof.
  intros HW Hp. apply remove_list_spec; [done|]. intros k e Hk He.
  apply list_elem_of_fmap in Hk as ([k' e'] & -> & Hin). apply list_elem_of_filter in Hin as [Hpe Hin].
  apply elem_of_map_to_list in Hin. simpl in He. simplify_eq. eauto.
Qed.

Lemma complete_idle r k e :
  WF r -> entries r !! k = Some e -> state e <> InFlight -> waiters e = 0 -> idle e.
Proof.
  intros HW He Hs Hw. destruct (map_Forall_lookup_1 _ _ _ _ (wf_entries _ HW) He) as (_ & _ & _ & Hc).
  split; [|done]. destruct (state e); [done|]. by destruct Hc as (c & -> & _).
Qed.

Lemma prune_spec now r : WF r -> WF (prune_expired now r) /\ shrunk r (prune_expired now r).
Proof.
  intros HW. apply removed_all_spec; [done|]. intros k e He. unfold expired.
  destruct (state e) as [|x [| |]] eqn:Es; try done. intros [_ Hw%Z.eqb_eq]%andb_true_iff.
  eapply complete_idle; [done..| |done]. congruence.
Qed.

Lemma release_spec q r : WF r -> WF (release_auth_session q r) /\ shrunk r (release_auth_session q r).
Proof.
  intros HW. apply removed_all_spec; [done|]. intros k e He. unfold released.
  destruct (state e) as [|x [| |]] eqn:Es; try done. intros [_ Hw%Z.eqb_eq]%andb_true_iff.
  eapply complete_idle; [done..| |done]. congruence.
Qed.


Lemma min_by_key_elem {A} (f : A -> Z) l x : min_by_key f l = Some x -> x ∈ l.
Proof.
  unfold min_by_key. assert (H : forall acc, foldl (fun acc x => match acc with
    | Some y => if f x <? f y then Some x else Some y | None => Some x end) acc l = Some x -> acc = Some x \/ x ∈ l).
  { induction l as [|y l IH]; intros acc; simpl; [by left|]. intros [H|H]%IH; [|right; by right].
    destruct acc as [z|]; [|simplify_eq; right; by left]. destruct (f y <? f z); simplify_eq; [right; by left|by left]. }
  intros [?|?]%H; done.
Qed.

Lemma min_by_key_None {A} (f : A -> Z) l : min_by_key f l = None -> l = [].
Proof.
  unfold min_by_key. assert (H : forall acc, foldl (fun acc x => match acc with
    | Some y => if f x <? f y then Some x else Some y | None => Some x end) acc l = None -> acc = None /\ l = []).
  { induction l as [|y l IH]; intros acc; simpl; [done|]. intros [H ->]%IH.
    destruct acc as [z|]; [|done]. by destruct (f y <? f z). }
  intros [_ ?]%H; done.
Qed.

Lemma oldest_completed_Some p r k :
  oldest_completed p r = Some k -> Some k <> p /\ exists e, entries r !! k = Some e /\ idle e.
Proof.
  unfold oldest_completed. destruct (min_by_key _ _) as [[k' e]|] eqn:E; [|done]. intros [= <-].
  apply min_by_key_elem, list_elem_of_filter in E as [[Hp Hi] Hin]. apply elem_of_map_to_list in Hin.
  split; [done|]. exists e. by rewrite <- idle_completed_true.
Qed.

Lemma oldest_completed_None r k e : oldest_completed None r = None -> entries r !! k = Some e -> ~ idle e.
Proof.
  unfold oldest_completed. destruct (min_by_key _ _) as [[k' e']|] eqn:E; [done|]. intros _ Hk Hi.
  apply min_by_key_None in E. apply elem_of_map_to_list in Hk.
  apply (not_elem_of_nil (k, e)). rewrite <- E. apply list_elem_of_filter. split; [|done].
  split; [done|]. by apply idle_completed_true.
Qed.

Lemma remove_size k e r : entries r !! k = Some e -> S (size (entries (remove k r))) = size (entries r).
Proof.
  intros Hk. unfold remove. rewrite Hk. simpl. rewrite map_size_delete_Some by (by eexists).
  assert (size (entries r) <> 0%nat); [|lia]. intros H%map_size_empty_inv. by rewrite H in Hk.
Qed.

(** The capacity loop ends within the entries there are; when it refuses, nothing idle is left. *)
Lemma make_capacity_loop_spec n bytes r r' x :
  WF r -> (size (entries r) <= n)%nat -> make_capacity_loop n bytes r = (r', x) ->
  WF r' /\ shrunk r r' /\
  match x with
  | Ok _ => over_capacity bytes r' = false
  | Err e => e = idempotency_unavailable /\ over_capacity bytes r' = true /\
      forall k en, entries r' !! k = Some en -> ~ idle en
  end.
Proof.
  revert r. induction n as [|n IH]; intros r HW Hn; simpl; destruct (over_capacity bytes r) eqn:Eo.
  - assert (size (entries r) = 0%nat) as H0%map_size_empty_inv by lia.
    assert (E : (r', x) = (r, Err idempotency_unavailable) -> WF r' /\ shrunk r r' /\ match x with
      | Ok _ => over_capacity bytes r' = false
      | Err e => e = idempotency_unavailable /\ over_capacity bytes r' = true /\ forall k en, entries r' !! k = Some en -> ~ idle en
      end).
    { intros [= -> ->]. split_and!; try done; [apply shrunk_refl|]. intros k en. by rewrite H0. }
    destruct (oldest_completed None r); intros [= <- <-]; by apply E.
  - intros [= <- <-]. split_and!; try done. apply shrunk_refl.
  - destruct (oldest_completed None r) as [k|] eqn:Ek.
    + apply oldest_completed_Some in Ek as (_ & e & Hk & Hi). intros H.
      apply IH in H as (? & Hs & ?); [|by apply remove_WF|pose proof (remove_size k e r Hk); lia].
      split_and!; try done. eapply shrunk_trans; [|exact Hs]. apply remove_shrunk. congruence.
    + intros [= <- <-]. split_and!; try done; [apply shrunk_refl|]. intros k e. by apply oldest_completed_None.
  - intros [= <- <-]. split_and!; try done. apply shrunk_refl.
Qed.

Lemma evict_loop_spec n p r :
  WF r -> (size (entries r) <= n)%nat ->
  WF (evict_loop n p r) /\ shrunk r (evict_loop n p r) /\
  (forall k, p = Some k -> entries (evict_loop n p r) !! k = entries r !! k).
Proof.
  revert r. induction n as [|n IH]; intros r HW Hn; simpl; destruct (MAX_STORAGE_BYTES <? total_bytes r);
    try (split_and!; [done|apply shrunk_refl|done]).
  - destruct (oldest_completed p r); (split_and!; [done|apply shrunk_refl|done]).
  - destruct (oldest_completed p r) as [k|] eqn:Ek; [|split_and!; [done|apply shrunk_refl|done]].
    apply oldest_completed_Some in Ek as (Hne & e & Hk & Hi).
    destruct (IH (remove k r)) as (HW' & Hs' & Hp'); [by apply remove_WF|pose proof (remove_size k e r Hk); lia|].
    split_and!; [done| |].
    + eapply shrunk_trans; [|exact Hs']. apply remove_shrunk. congruence.
    + intros k' ->. rewrite (Hp' k') by done. unfold remove. rewrite Hk. simpl. apply lookup_delete_ne. congruence.
Qed.

End Idem.
