(* ===== verification/IdempotencyClaims.v ===== *)
(** * Idempotent execution

    The registry of [Idempotency] driven by its clients, as [run_prepared] of
    [apps/control-plane/src/routes.rs] drives it: requests that are admitted, the executions the
    owners spawn, waiters that poll or are dropped, released sessions and the clearing at shutdown.
    Executions are numbered in the order they are spawned; what was asked, which execution answers a
    key and what was delivered are ghost state. *)
From S2P Require Import Prelude DomainValues CloudTypes SessionTypes LoginTypes HttpTypes Idempotency.
From stdpp Require Import base numbers list strings gmap fin_maps.
From Stdlib Require Import ZArith Lia.
Import Ids Idem.

Open Scope Z_scope.

Record Sys := mkSys {
  reg : Registry;
  (** The executions that run, by key. *)
  owners : gmap CommandId nat;
  (** The waiters, each with its key and the execution it waits for. *)
  wts : gmap nat (CommandId * nat);
  (** What each waiter asked for, and what each execution executes. *)
  asked : list (CommandId * RequestIdentity);
  log : list (CommandId * RequestIdentity);
  (** The last execution of a key, the response of an execution, the deliveries. *)
  cur : gmap CommandId nat;
  outs : gmap nat CachedResponse;
  delivered : list (nat * nat * option CachedResponse) }.

Definition sys_init : Sys := mkSys registry_default ∅ ∅ [] [] ∅ ∅ [].

Inductive Label :=
| LAdmit (key : CommandId) (i : RequestIdentity) (now : Z)
| LComplete (key : CommandId) (response : CachedResponse) (d : CacheDisposition)
| LPoll (wid : nat)
| LDrop (wid : nat)
| LRelease (session_seq : Z)
| LClear.

Definition with_reg (r : Registry) (s : Sys) : Sys :=
  mkSys r (owners s) (wts s) (asked s) (log s) (cur s) (outs s) (delivered s).

(** An admitted request waits for execution [eid]. *)
Definition join (r : Registry) (key : CommandId) (i : RequestIdentity) (eid : nat) (s : Sys) : Sys :=
  mkSys r (owners s) (<[length (asked s) := (key, eid)]> (wts s)) (asked s ++ [(key, i)]) (log s) (cur s)
    (outs s) (delivered s).

(** The owner's execution is spawned. *)
Definition spawn (key : CommandId) (i : RequestIdentity) (s : Sys) : Sys :=
  mkSys (reg s) (<[key := length (log s)]> (owners s)) (wts s) (asked s) (log s ++ [(key, i)])
    (<[key := length (log s)]> (cur s)) (outs s) (delivered s).

Definition finish_waiter (r : Registry) (wid eid : nat) (x : option (option CachedResponse)) (s : Sys) : Sys :=
  mkSys r (owners s) (delete wid (wts s)) (asked s) (log s) (cur s) (outs s)
    match x with Some x => delivered s ++ [(wid, eid, x)] | None => delivered s end.

(** The registry is cleared by a shutdown, which first waits for every request to end. *)
Definition step (l : Label) (s : Sys) : option Sys :=
  match l with
  | LAdmit key i now =>
      match admit_request key i now (reg s) with
      | (r, Err _) => Some (with_reg r s)
      | (r, Ok false) => Some (join r key i (default 0%nat (cur s !! key)) s)
      | (r, Ok true) => Some (join r key i (length (log s)) (spawn key i s))
      end
  | LComplete key response d =>
      match owners s !! key with
      | Some eid =>
          Some (mkSys (complete key response d (reg s)) (delete key (owners s)) (wts s) (asked s) (log s)
                  (cur s) (<[eid := response]> (outs s)) (delivered s))
      | None => None
      end
  | LPoll wid =>
      match wts s !! wid with
      | Some (key, eid) =>
          match take_response key (reg s) with
          | (r, Pending) => Some (with_reg r s)
          | (r, WReady response) => Some (finish_waiter r wid eid (Some (Some response)) s)
          | (r, Missing) => Some (finish_waiter r wid eid (Some None) s)
          end
      | None => None
      end
  | LDrop wid =>
      match wts s !! wid with
      | Some (key, eid) => Some (finish_waiter (drop_waiter key (reg s)) wid eid None s)
      | None => None
      end
  | LRelease seq => Some (with_reg (release_auth_session seq (reg s)) s)
  | LClear =>
      if bool_decide (owners s = ∅) && bool_decide (wts s = ∅) then Some (with_reg (clear (reg s)) s) else None
  end.

(** Requests, responses and the number of waiters fit in memory. *)
Definition label_ok (l : Label) (s : Sys) : Prop :=
  match l with
  | LAdmit _ i _ => identity_storage_bytes i <= entry_limit /\ Z.of_nat (size (wts s)) < usize_max
  | LComplete _ response _ => response_storage_bytes response <= entry_limit /\ completion_seq (reg s) < u64_max
  | _ => True
  end.

Inductive reachable : Sys -> Prop :=
| reach_init : reachable sys_init
| reach_step s l s' : reachable s -> label_ok l s -> step l s = Some s' -> reachable s'.

(** ** Counting waiters *)

Definition waiting (k : CommandId) (m : gmap nat (CommandId * nat)) : Z :=
  Z.of_nat (size (filter (fun '(_, v) => v.1 = k) m)).

Lemma waiting_nonneg k m : 0 <= waiting k m.
Proof. unfold waiting. lia. Qed.

Lemma waiting_le_size k m : waiting k m <= Z.of_nat (size m).
Proof. unfold waiting. apply inj_le, map_subseteq_size, map_filter_subseteq. Qed.

Lemma waiting_insert k w v m :
  m !! w = None -> waiting k (<[w := v]> m) = waiting k m + if bool_decide (v.1 = k) then 1 else 0.
Proof.
  intros Hw. unfold waiting. case_bool_decide.
  - rewrite map_filter_insert_True, map_size_insert_None; [lia| |done]. by apply map_lookup_filter_None; left.
  - rewrite map_filter_insert_False, delete_id by done. lia.
Qed.

Lemma waiting_delete k w v m :
  m !! w = Some v -> waiting k (delete w m) = waiting k m - if bool_decide (v.1 = k) then 1 else 0.
Proof.
  intros Hw. rewrite <- (insert_delete_id m w v Hw) at 2. rewrite waiting_insert by apply lookup_delete_eq. lia.
Qed.

Lemma waiting_zero k m w v : m !! w = Some v -> v.1 = k -> 0 < waiting k m.
Proof.
  intros Hw Hv. rewrite <- (insert_delete_id m w v Hw), waiting_insert by apply lookup_delete_eq.
  rewrite bool_decide_true by done. pose proof (waiting_nonneg k (delete w m)). lia.
Qed.

(** ** The invariant *)

(** What an entry, its execution, its waiters and its key's owner have to do with each other. *)
Definition entry_agrees (s : Sys) (k : CommandId) (e : Entry) : Prop :=
  exists eid, cur s !! k = Some eid /\ log s !! eid = Some (k, identity e) /\
    waiters e = waiting k (wts s) /\
    match state e with
    | InFlight => owners s !! k = Some eid /\ outs s !! eid = None
    | Complete response _ => owners s !! k = None /\ outs s !! eid = Some response
    end.

Record SInv (s : Sys) : Prop := {
  si_wf : WF (reg s);
  si_entries : map_Forall (entry_agrees s) (entries (reg s));
  si_waiters : forall w k eid, wts s !! w = Some (k, eid) ->
    exists e, entries (reg s) !! k = Some e /\ cur s !! k = Some eid /\ asked s !! w = Some (k, identity e);
  si_owners : forall k eid, owners s !! k = Some eid -> is_Some (entries (reg s) !! k) /\ cur s !! k = Some eid;
  si_unfinished : forall eid k i, log s !! eid = Some (k, i) -> outs s !! eid = None -> owners s !! k = Some eid;
  si_outs : forall eid x, outs s !! eid = Some x -> (eid < length (log s))%nat;
  si_cur : forall k eid, cur s !! k = Some eid -> (eid < length (log s))%nat;
  si_wids : forall w x, wts s !! w = Some x -> (w < length (asked s))%nat;
  si_delivered : forall w eid x, (w, eid, x) ∈ delivered s ->
    exists response, x = Some response /\ outs s !! eid = Some response /\
      is_Some (asked s !! w) /\ asked s !! w = log s !! eid }.

Lemma idem_SInv_init : SInv sys_init.
Proof.
  constructor; simpl; [apply WF_default|apply map_Forall_empty|..]; try done.
  by intros w eid x ?%not_elem_of_nil.
Qed.

(** Removals of idle entries. *)
Lemma shrunk_keeps r r' k e :
  shrunk r r' -> entries r !! k = Some e -> ~ idle e -> entries r' !! k = Some e.
Proof.
  intros [_ Hsub Hlost] Hk Hi. destruct (entries r' !! k) as [e'|] eqn:E; [|by destruct (Hi (Hlost k e Hk E))].
  rewrite (lookup_weaken _ _ _ _ E Hsub) in Hk. by simplify_eq.
Qed.

Lemma waiter_busy s w k eid e :
  SInv s -> wts s !! w = Some (k, eid) -> entries (reg s) !! k = Some e -> ~ idle e.
Proof.
  intros HI Hw He [_ Hz]. destruct (map_Forall_lookup_1 _ _ _ _ (si_entries s HI) He) as (? & _ & _ & Hc & _).
  pose proof (waiting_zero k (wts s) w (k, eid) Hw eq_refl). lia.
Qed.

Lemma in_flight_busy s k e : SInv s -> entries (reg s) !! k = Some e -> state e = InFlight -> ~ idle e.
Proof.
  intros HI He Hs [Hn _]. destruct (map_Forall_lookup_1 _ _ _ _ (wf_entries _ (si_wf s HI)) He) as (_ & _ & _ & Hc).
  rewrite Hs in Hc. by destruct Hc.
Qed.

Lemma owner_in_flight s k eid :
  SInv s -> owners s !! k = Some eid -> exists e, entries (reg s) !! k = Some e /\ state e = InFlight.
Proof.
  intros HI Ho. destruct (si_owners s HI k eid Ho) as [[e He] _]. exists e. split; [done|].
  destruct (map_Forall_lookup_1 _ _ _ _ (si_entries s HI) He) as (eid' & _ & _ & _ & Hs).
  destruct (state e); [done|]. destruct Hs. congruence.
Qed.

Lemma SInv_shrink s r : SInv s -> WF r -> shrunk (reg s) r -> SInv (with_reg r s).
Proof.
  intros HI HW Hs. pose proof HI as []. constructor; simpl; try done.
  - intros k e He. apply si_entries0. by eapply lookup_weaken; [|apply Hs].
  - intros w k eid Hw. destruct (si_waiters0 w k eid Hw) as (e & He & ? & ?). exists e. split_and!; [|done..].
    eapply shrunk_keeps; [done..|]. by eapply waiter_busy.
  - intros k eid Ho. destruct (owner_in_flight s k eid HI Ho) as (e & He & Hfl). split; [|by apply si_owners0].
    exists e. eapply shrunk_keeps; [done..|]. by eapply in_flight_busy.
Qed.

(** ** Admissions *)

Lemma sat_add_small x y : x + y <= usize_max -> usize_saturating_add x y = x + y.
Proof. unfold usize_saturating_add. lia. Qed.

(** Entries of other keys, when a waiter on [k] comes or goes. *)
Lemma agrees_other s s' k k' e :
  k' <> k -> cur s' !! k' = cur s !! k' -> owners s' !! k' = owners s !! k' ->
  (forall eid i, log s !! eid = Some i -> log s' !! eid = Some i) ->
  (forall eid, (eid < length (log s))%nat -> cur s !! k' = Some eid -> outs s' !! eid = outs s !! eid) ->
  waiting k' (wts s') = waiting k' (wts s) -> entry_agrees s k' e -> entry_agrees s' k' e.
Proof.
  intros Hne Hc Ho Hl Hu Hw (eid & Hcur & Hlog & Hwt & Hst). exists eid.
  assert (Hlt : (eid < length (log s))%nat) by (by eapply lookup_lt_Some).
  rewrite Hc, Ho, Hw, (Hu eid Hlt Hcur). auto.
Qed.

Lemma fresh_waiter s : SInv s -> wts s !! length (asked s) = None.
Proof.
  intros HI. destruct (wts s !! length (asked s)) as [x|] eqn:E; [|done].
  pose proof (si_wids s HI _ _ E). lia.
Qed.

Lemma map_size_insert_same {A} (m : gmap CommandId A) k x y :
  m !! k = Some x -> size (<[k := y]> m) = size m.
Proof. intros Hk. apply map_size_insert_Some. by eexists. Qed.

(** Changing the waiters of an entry. *)
Lemma with_waiters_WF k e w r :
  WF r -> entries r !! k = Some e -> 0 <= w -> WF (with_entries (<[k := with_waiters w e]> (entries r)) r).
Proof.
  intros HW He Hw. pose proof HW as []. constructor; simpl; [|..|done].
  - by rewrite (map_size_insert_same _ _ e).
  - rewrite (storage_update _ e) by done. unfold entry_bytes. simpl. lia.
  - apply map_Forall_insert_2; [|done]. destruct (map_Forall_lookup_1 _ _ _ _ wf_entries0 He) as (? & ? & _ & ?).
    unfold entry_ok. simpl. tauto.
Qed.

Lemma join_SInv s k e :
  SInv s -> entries (reg s) !! k = Some e -> Z.of_nat (size (wts s)) < usize_max ->
  SInv (join (with_entries (<[k := with_waiters (usize_saturating_add (waiters e) 1) e]> (entries (reg s))) (reg s))
          k (identity e) (default 0%nat (cur s !! k)) s).
Proof.
  intros HI He Hsize. pose proof HI as [].
  destruct (map_Forall_lookup_1 _ _ _ _ si_entries0 He) as (eid & Hcur & Hlog & Hw & Hst).
  pose proof (waiting_le_size k (wts s)) as Hle. pose proof (fresh_waiter s HI) as Hfw.
  rewrite Hcur. simpl. rewrite sat_add_small by lia. constructor; simpl; try done.
  - apply with_waiters_WF; [done..|]. pose proof (waiting_nonneg k (wts s)). lia.
  - intros k' e' [[<- <-]|[Hne He']]%lookup_insert_Some.
    + exists eid. simpl. rewrite waiting_insert by done. simpl. rewrite bool_decide_true by done. by rewrite Hw.
    + eapply agrees_other; [by apply not_eq_sym| | | | | |by apply si_entries0]; try done. simpl.
      rewrite waiting_insert by done. simpl. rewrite bool_decide_false by done. lia.
  - intros w k' eid' [[<- [= <- <-]]|[Hne Hwt]]%lookup_insert_Some.
    + exists (with_waiters (waiters e + 1) e). rewrite lookup_insert_eq. split_and!; [done..|].
      by rewrite list_lookup_middle.
    + destruct (si_waiters0 w k' eid' Hwt) as (e' & He' & Hc' & Ha').
      assert (Hask : (asked s ++ [(k, identity e)]) !! w = Some (k', identity e')).
      { rewrite lookup_app_l; [done|]. by eapply lookup_lt_Some. }
      destruct (decide (k' = k)) as [->|Hk].
      * simplify_eq. exists (with_waiters (waiters e + 1) e). by rewrite lookup_insert_eq.
      * exists e'. by rewrite lookup_insert_ne.
  - intros k' eid' Ho. destruct (si_owners0 k' eid' Ho) as [? ?]. split; [|done].
    destruct (decide (k' = k)) as [->|Hk]; [by rewrite lookup_insert_eq|by rewrite lookup_insert_ne].
  - intros w x [[<- <-]|[_ Hwt]]%lookup_insert_Some; rewrite length_app; simpl; [lia|].
    pose proof (si_wids0 _ _ Hwt). lia.
  - intros w eid' x Hd. destruct (si_delivered0 w eid' x Hd) as (resp & ? & ? & Ha & ?). exists resp.
    split_and!; [done..| |]; rewrite lookup_app_l by (by apply lookup_lt_is_Some); done.
Qed.

Lemma storage_bytes_nonneg i : 0 <= identity_storage_bytes i.
Proof. unfold identity_storage_bytes, usize_saturating_add, usize_max, u64_max. destruct (ri_logout_session_seq i); lia. Qed.

(** A new entry, within the capacity the loop made. *)
Lemma insert_WF k i r :
  WF r -> entries r !! k = None -> over_capacity (identity_storage_bytes i) r = false ->
  identity_storage_bytes i <= entry_limit ->
  WF (mkRegistry (<[k := mkEntry i (identity_storage_bytes i) 0 InFlight 1 None]> (entries r))
        (usize_saturating_add (total_bytes r) (identity_storage_bytes i)) (completion_seq r)).
Proof.
  intros HW Hk Hcap Hb. pose proof (storage_small r HW) as Hst. pose proof (storage_bytes_nonneg i). pose proof HW as [].
  unfold over_capacity in Hcap. apply orb_false_iff in Hcap as [Hsz _]. apply Z.leb_gt in Hsz.
  constructor; simpl; [| | |done].
  - rewrite map_size_insert_None by done. lia.
  - rewrite storage_insert by done. unfold entry_bytes. simpl. rewrite wf_total0, sat_add_small; [lia|].
    unfold entry_limit, usize_max, u64_max in *. lia.
  - apply map_Forall_insert_2; [|done]. unfold entry_ok. simpl. unfold entry_limit in *. split_and!; try done; lia.
Qed.

Lemma no_entry s k : SInv s -> entries (reg s) !! k = None -> owners s !! k = None /\ waiting k (wts s) = 0.
Proof.
  intros HI Hk. split.
  - destruct (owners s !! k) as [eid|] eqn:Eo; [|done]. destruct (si_owners s HI k eid Eo) as [[e He] _]. congruence.
  - unfold waiting. assert (E : filter (fun '(_, v) => v.1 = k) (wts s) = ∅); [|by rewrite E].
    apply map_empty. intros w. apply map_lookup_filter_None. right. intros [k' eid] Hw. simpl. intros ->.
    destruct (si_waiters s HI w k eid Hw) as (e & He & _). congruence.
Qed.

Lemma spawn_SInv s k i :
  SInv s -> entries (reg s) !! k = None -> over_capacity (identity_storage_bytes i) (reg s) = false ->
  identity_storage_bytes i <= entry_limit ->
  SInv (join (mkRegistry (<[k := mkEntry i (identity_storage_bytes i) 0 InFlight 1 None]> (entries (reg s)))
                (usize_saturating_add (total_bytes (reg s)) (identity_storage_bytes i)) (completion_seq (reg s)))
          k i (length (log s)) (spawn k i s)).
Proof.
  intros HI Hk Hcap Hb. pose proof HI as []. destruct (no_entry s k HI Hk) as [Hno Hnw].
  pose proof (fresh_waiter s HI) as Hfw.
  assert (Hlog : forall eid x, log s !! eid = Some x -> (log s ++ [(k, i)]) !! eid = Some x)
    by (intros eid x Hx; rewrite lookup_app_l; [done|by eapply lookup_lt_Some]).
  assert (Hcurk : forall k' eid, cur s !! k' = Some eid -> eid <> length (log s))
    by (intros k' eid Hc; pose proof (si_cur0 _ _ Hc); lia).
  assert (Hout : outs s !! length (log s) = None).
  { destruct (outs s !! length (log s)) eqn:E; [|done]. pose proof (si_outs0 _ _ E). lia. }
  constructor; simpl.
  - by apply insert_WF.
  - intros k' e' [[<- <-]|[Hne He']]%lookup_insert_Some.
    + exists (length (log s)). simpl. rewrite !lookup_insert_eq, list_lookup_middle, waiting_insert by done. simpl.
      rewrite bool_decide_true, Hnw by done. done.
    + eapply (agrees_other s _ k); [by apply not_eq_sym| | | | | |by apply si_entries0]; simpl.
      * by rewrite lookup_insert_ne.
      * by rewrite lookup_insert_ne.
      * exact Hlog.
      * done.
      * rewrite waiting_insert by done. simpl. rewrite bool_decide_false by done. lia.
  - intros w k' eid' [[<- [= <- <-]]|[Hne Hwt]]%lookup_insert_Some.
    + eexists. rewrite !lookup_insert_eq. split_and!; [done..|]. by rewrite list_lookup_middle.
    + destruct (si_waiters0 w k' eid' Hwt) as (e' & He' & Hc' & Ha'). assert (k' <> k) by congruence.
      exists e'. rewrite !lookup_insert_ne by done. split_and!; [done..|].
      rewrite lookup_app_l; [done|]. by eapply lookup_lt_Some.
  - intros k' eid' [[<- <-]|[Hne Ho]]%lookup_insert_Some; [by rewrite !lookup_insert_eq|].
    rewrite !lookup_insert_ne by done. by apply si_owners0.
  - intros eid k' i' [Hl|[Hl Hs]]%lookup_app_Some Hn.
    + assert (k' <> k \/ k' = k) as [Hne| ->] by (destruct (decide (k' = k)); auto).
      * rewrite lookup_insert_ne by done. by eapply si_unfinished0.
      * pose proof (si_unfinished0 _ _ _ Hl Hn). congruence.
    + apply list_lookup_singleton_Some in Hs as [Hz [= <- <-]]. rewrite lookup_insert_eq. f_equal. lia.
  - intros eid x Hx. rewrite length_app. pose proof (si_outs0 _ _ Hx). lia.
  - intros k' eid [[<- <-]|[Hne Hc]]%lookup_insert_Some; rewrite length_app; simpl; [lia|].
    pose proof (si_cur0 _ _ Hc). lia.
  - intros w x [[<- <-]|[_ Hwt]]%lookup_insert_Some; rewrite length_app; simpl; [lia|].
    pose proof (si_wids0 _ _ Hwt). lia.
  - intros w eid x Hd. destruct (si_delivered0 w eid x Hd) as (resp & ? & Ho & Ha & Heq). exists resp.
    split_and!; [done..| |]; rewrite !lookup_app_l; try (by apply lookup_lt_is_Some); try done;
      by eapply si_outs0.
Qed.

Lemma admit_SInv s k i now :
  SInv s -> identity_storage_bytes i <= entry_limit -> Z.of_nat (size (wts s)) < usize_max ->
  forall s', step (LAdmit k i now) s = Some s' -> SInv s'.
Proof.
  intros HI Hb Hsz s'. simpl. unfold admit_request. destruct (prune_spec now (reg s) (si_wf s HI)) as [HW Hs].
  pose proof (SInv_shrink s _ HI HW Hs) as HI1. set (r1 := prune_expired now (reg s)) in *. clearbody r1.
  destruct (entries r1 !! k) as [e|] eqn:Ek.
  - case_bool_decide as Hi; simpl; intros [= <-]; [done|]. subst i.
    by apply (join_SInv (with_reg r1 s) k e).
  - destruct (make_capacity _ r1) as [r2 x] eqn:Ec. apply make_capacity_loop_spec in Ec as (HW2 & Hs2 & Hx); [|done..].
    pose proof (SInv_shrink (with_reg r1 s) r2 HI1 HW2 Hs2) as HI2.
    destruct x as [[]|err]; intros [= <-]; [|done].
    apply (spawn_SInv (with_reg r2 s) k i); try done. simpl.
    destruct (entries r2 !! k) as [e|] eqn:E2; [|done].
    pose proof (lookup_weaken _ _ _ _ E2 (sh_sub _ _ Hs2)). congruence.
Qed.

(** ** Completions, deliveries and the rest *)

Lemma complete_entry_WF k e resp d r :
  WF r -> entries r !! k = Some e -> state e = InFlight -> response_storage_bytes resp <= entry_limit ->
  0 <= response_storage_bytes resp -> completion_seq r < u64_max ->
  let seq := Z.min u64_max (completion_seq r + 1) in
  WF (mkRegistry
        (<[k := mkEntry (identity e) (request_bytes e) (response_storage_bytes resp) (Complete resp d) (waiters e) (Some seq)]>
           (entries r))
        (usize_saturating_add (total_bytes r) (response_storage_bytes resp)) seq).
Proof.
  intros HW He Hst Hb Hb0 Hq seq. pose proof (storage_small r HW) as Hsm. pose proof HW as [].
  destruct (map_Forall_lookup_1 _ _ _ _ wf_entries0 He) as (Hreq & Hresp & Hwt & Hc). rewrite Hst in Hc.
  destruct Hc as [Hc Hz].
  assert (Hseq : seq = completion_seq r + 1) by (subst seq; lia). constructor; simpl.
  - by rewrite (map_size_insert_same _ _ e).
  - rewrite (storage_update _ e) by done. unfold entry_bytes. simpl. rewrite wf_total0, Hz, sat_add_small; [lia|].
    unfold entry_limit, usize_max, u64_max in *. lia.
  - apply map_Forall_insert_2.
    + unfold entry_ok. simpl. split_and!; try lia. eexists. split; [done|]. lia.
    + intros k' e' He'. destruct (wf_entries0 k' e' He') as (? & ? & ? & Hcs). unfold entry_ok.
      split_and!; try done; try lia. destruct (state e'); [done|]. destruct Hcs as (c & ? & ?). exists c. split; [done|lia].
  - lia.
Qed.

Lemma response_bytes_nonneg r : 0 <= response_storage_bytes r.
Proof.
  unfold response_storage_bytes.
  assert (H : forall hs t, 0 <= t -> 0 <= foldl (fun total '(name, value) =>
    usize_saturating_add (usize_saturating_add total (Z.of_nat (String.length name))) (Z.of_nat (String.length value))) t hs).
  { induction hs as [|[n v] hs IH]; intros t Ht; simpl; [done|]. apply IH.
    unfold usize_saturating_add, usize_max, u64_max. lia. }
  apply H. unfold usize_saturating_add, usize_max, u64_max. lia.
Qed.

Lemma complete_SInv s k resp d :
  SInv s -> response_storage_bytes resp <= entry_limit -> completion_seq (reg s) < u64_max ->
  forall s', step (LComplete k resp d) s = Some s' -> SInv s'.
Proof.
  intros HI Hb Hq s'. simpl. destruct (owners s !! k) as [eid|] eqn:Eo; [|done]. intros [= <-].
  destruct (owner_in_flight s k eid HI Eo) as (e & He & Hst). unfold complete. simpl. rewrite He, Hst.
  pose proof HI as [].
  pose proof (complete_entry_WF k e resp d _ si_wf0 He Hst Hb (response_bytes_nonneg resp) Hq) as HW1. simpl in HW1.
  set (r1 := mkRegistry (<[k:=_]> _) _ _) in *.
  destruct (map_Forall_lookup_1 _ _ _ _ si_entries0 He) as (eid' & Hcur & Hlog & Hw & Hs'). rewrite Hst in Hs'.
  destruct Hs' as [Ho Hout]. assert (eid' = eid) as -> by congruence.
  set (s1 := mkSys r1 (delete k (owners s)) (wts s) (asked s) (log s) (cur s) (<[eid:=resp]> (outs s)) (delivered s)).
  assert (HI1 : SInv s1).
  { constructor; simpl; try done.
    - intros k' e' [[<- <-]|[Hne He']]%lookup_insert_Some.
      + exists eid. simpl. by rewrite lookup_delete_eq, lookup_insert_eq.
      + eapply (agrees_other s _ k); [by apply not_eq_sym| | | | | |by apply si_entries0]; simpl; try done.
        * by rewrite lookup_delete_ne.
        * intros x Hx Hc. rewrite lookup_insert_ne; [done|]. intros <-.
          destruct (map_Forall_lookup_1 _ _ _ _ si_entries0 He') as (x & Hc' & Hl' & _). congruence.
    - intros w k' x Hwt. destruct (si_waiters0 w k' x Hwt) as (e' & He' & Hc' & Ha').
      destruct (decide (k' = k)) as [->|Hne].
      + simplify_eq. eexists. rewrite lookup_insert_eq. by split_and!.
      + exists e'. by rewrite lookup_insert_ne.
    - intros k' x [Hne Hx]%lookup_delete_Some. rewrite lookup_insert_ne by done. by apply si_owners0.
    - intros x k' i' Hl [Hnx Hne]%lookup_insert_None. rewrite lookup_delete_ne; [by eapply si_unfinished0|].
      intros ->. pose proof (si_unfinished0 _ _ _ Hl Hnx). congruence.
    - intros x y [[<- _]|[_ Hx]]%lookup_insert_Some; [by eapply si_cur0|by eapply si_outs0].
    - intros w x y Hd. destruct (si_delivered0 w x y Hd) as (resp' & ? & Hx & ?). exists resp'.
      split_and!; try tauto. rewrite lookup_insert_ne; [done|]. intros <-. congruence. }
  destruct (evict_loop_spec (size (entries r1)) (Some k) r1 HW1 (Nat.le_refl _)) as (HW2 & Hs2 & _).
  exact (SInv_shrink s1 _ HI1 HW2 Hs2).
Qed.

(** A waiter leaves, with the response of its execution or without. *)
Lemma leave_SInv s w k eid e x :
  SInv s -> wts s !! w = Some (k, eid) -> entries (reg s) !! k = Some e ->
  match x with
  | Some y => exists resp d, state e = Complete resp d /\ y = Some resp
  | None => True
  end ->
  SInv (finish_waiter (with_entries (<[k := with_waiters (usize_saturating_sub (waiters e) 1) e]> (entries (reg s))) (reg s))
          w eid x s).
Proof.
  intros HI Hw He Hx. pose proof HI as [].
  destruct (map_Forall_lookup_1 _ _ _ _ si_entries0 He) as (eid' & Hcur & Hlog & Hwt & Hst).
  destruct (si_waiters0 w k eid Hw) as (e1 & He1 & Hcur1 & Hask).
  assert (e1 = e) as -> by congruence. assert (eid' = eid) as -> by congruence.
  pose proof (waiting_zero k (wts s) w (k, eid) Hw eq_refl) as Hpos.
  constructor; simpl; try done.
  - apply with_waiters_WF; [done..|]. unfold usize_saturating_sub. lia.
  - intros k' e' [[<- <-]|[Hne He']]%lookup_insert_Some.
    + exists eid. simpl. rewrite (waiting_delete k w (k, eid)) by done. simpl. rewrite bool_decide_true by done.
      split_and!; try done. unfold usize_saturating_sub. lia.
    + eapply (agrees_other s _ k); [by apply not_eq_sym| | | | | |by apply si_entries0]; try done. simpl.
      rewrite (waiting_delete k' w (k, eid)) by done. simpl. rewrite bool_decide_false by done. lia.
  - intros w' k' x' [Hne Hw']%lookup_delete_Some. destruct (si_waiters0 w' k' x' Hw') as (e' & He' & ? & ?).
    destruct (decide (k' = k)) as [->|Hk].
    + simplify_eq. eexists. rewrite lookup_insert_eq. by split_and!.
    + exists e'. by rewrite lookup_insert_ne.
  - intros k' x' Ho. destruct (si_owners0 k' x' Ho) as [? ?]. split; [|done].
    destruct (decide (k' = k)) as [->|Hk]; [by rewrite lookup_insert_eq|by rewrite lookup_insert_ne].
  - intros w' x' [_ Hw']%lookup_delete_Some. by eapply si_wids0.
  - intros w' eid' y Hd. destruct x as [z|]; [|by apply si_delivered0].
    apply elem_of_app in Hd as [Hd|Hd%list_elem_of_singleton]; [by apply si_delivered0|].
    destruct Hx as (resp & d & Hcomp & ->). rewrite Hcomp in Hst. injection Hd as -> -> ->. exists resp.
    split_and!; [done|by destruct Hst| |]; rewrite Hask; [by eexists|congruence].
Qed.

Lemma step_SInv l s s' : SInv s -> label_ok l s -> step l s = Some s' -> SInv s'.
Proof.
  intros HI Hok H. destruct l as [k i now|k resp d|w|w|q|].
  - destruct Hok. by eapply admit_SInv.
  - destruct Hok. by eapply complete_SInv.
  - simpl in H. destruct (wts s !! w) as [[k eid]|] eqn:Ew; [|done].
    destruct (si_waiters s HI w k eid Ew) as (e & He & _). unfold take_response in H. rewrite He in H.
    destruct (state e) as [|resp d] eqn:Es; simplify_eq; [by destruct s|].
    apply (leave_SInv s w k eid e (Some (Some resp))); eauto.
  - simpl in H. destruct (wts s !! w) as [[k eid]|] eqn:Ew; [|done].
    destruct (si_waiters s HI w k eid Ew) as (e & He & _). unfold drop_waiter in H. rewrite He in H. simplify_eq.
    by apply (leave_SInv s w k eid e None).
  - simpl in H. simplify_eq. destruct (release_spec q (reg s) (si_wf s HI)). by apply SInv_shrink.
  - simpl in H. destruct (bool_decide (owners s = ∅)) eqn:Eo; [|done].
    destruct (bool_decide (wts s = ∅)) eqn:Ew; [|done]. simpl in H. injection H as <-. bool_to_prop. pose proof HI as [].
    constructor; simpl; [apply WF_default|apply map_Forall_empty|..]; try done; intros *;
      rewrite ?Ew, ?Eo, ?lookup_empty; done.
Qed.

Lemma reachable_SInv s : reachable s -> SInv s.
Proof. induction 1; [apply idem_SInv_init|by eapply step_SInv]. Qed.

(** ** Properties *)

(** C11: a retried request is answered by one execution.  However admissions, executions, deliveries,
    dropped connections, session releases and clearings interleave: every answer a client is handed
    is the response of an execution of exactly the request it sent (same key, method, route, body,
    instance and session), it is never reported as lost, and of the executions of one key at most
    one, the owner's, has not completed. *)
Theorem answers_come_from_one_execution s (Hs : reachable s) :
  (forall w eid x, (w, eid, x) ∈ delivered s ->
     exists response, x = Some response /\ outs s !! eid = Some response /\
       is_Some (asked s !! w) /\ asked s !! w = log s !! eid) /\
  (forall eid eid' k i i', log s !! eid = Some (k, i) -> log s !! eid' = Some (k, i') ->
     outs s !! eid = None -> outs s !! eid' = None -> eid = eid').
Proof.
  apply reachable_SInv in Hs. split; [apply si_delivered; done|].
  intros eid eid' k i i' H H' Hn Hn'. pose proof (si_unfinished s Hs _ _ _ H Hn).
  pose proof (si_unfinished s Hs _ _ _ H' Hn'). congruence.
Qed.

(** a waiting client is served.  Once the execution a client waits for has completed, its next
    poll returns that response; until then it stays registered, whatever is evicted. *)
Theorem completed_execution_serves_its_waiters s w k eid (Hs : reachable s) (Hw : wts s !! w = Some (k, eid)) :
  match outs s !! eid with
  | Some response => (take_response k (reg s)).2 = WReady response
  | None => (take_response k (reg s)).2 = Pending /\ owners s !! k = Some eid
  end.
Proof.
  apply reachable_SInv in Hs. destruct (si_waiters s Hs w k eid Hw) as (e & He & Hcur & _).
  destruct (map_Forall_lookup_1 _ _ _ _ (si_entries s Hs) He) as (eid' & Hcur' & _ & _ & Hst).
  assert (eid' = eid) as -> by congruence. unfold take_response. rewrite He.
  destruct (state e) as [|resp d]; destruct Hst as [Ho Hout]; rewrite Hout; done.
Qed.

(** the registry is bounded and its account exact.  In every reachable state it has at most 128
    entries and [total_bytes] is the sum of what its entries store; an admission is refused only for
    a key retained for another request, or when every entry that is left is executing or awaited. *)
Theorem registry_bounded_and_accounted s k i now (Hs : reachable s) :
  Z.of_nat (size (entries (reg s))) <= MAX_ENTRIES /\ total_bytes (reg s) = storage (entries (reg s)) /\
  match admit_request k i now (reg s) with
  | (r, Ok owner) =>
      exists e, entries r !! k = Some e /\ identity e = i /\
        match owner, entries (prune_expired now (reg s)) !! k with
        | true, None => state e = InFlight /\ waiters e = 1
        | false, Some retained => state e = state retained
        | _, _ => False
        end
  | (r, Err e) =>
      (exists en, entries r !! k = Some en /\ identity en <> i /\ e = idempotency_conflict) \/
      (e = idempotency_unavailable /\ forall k' en, entries r !! k' = Some en -> state en = InFlight \/ waiters en <> 0)
  end.
Proof.
  apply reachable_SInv in Hs. pose proof (si_wf s Hs) as HW. split; [by destruct HW|]. split; [by destruct HW|].
  destruct (prune_spec now (reg s) HW) as [HW1 _]. unfold admit_request.
  destruct (entries (prune_expired now (reg s)) !! k) as [e|] eqn:Ek.
  - case_bool_decide as Hi; [left; by exists e|]. exists (with_waiters (usize_saturating_add (waiters e) 1) e). simpl.
    by rewrite lookup_insert_eq.
  - destruct (make_capacity _ _) as [r x] eqn:Ec. apply make_capacity_loop_spec in Ec as (HW2 & _ & Hx); [|done..].
    destruct x as [[]|err].
    + eexists. simpl. rewrite lookup_insert_eq. by split_and!.
    + right. destruct Hx as (-> & _ & Hidle). split; [done|]. intros k' en Hen.
      destruct (state en) eqn:Es; [by left|]. right. intros Hz. apply (Hidle k' en Hen).
      eapply complete_idle; [done..| |done]. congruence.
Qed.

(** ** A concrete run: two clients send the same request, the first is served *)

Definition demo_key : CommandId := mkId 11.
Definition demo_request : RequestIdentity :=
  mkIdentity "POST" "/api/p0/v1/session/cancel" "" (mkInstance 5) None.
Definition demo_response : CachedResponse := mkResponse 200 (common_headers (Some "application/json")) "{}".

Definition demo_step (l : Label) (s : Sys) : Sys := default s (step l s).
Definition demo_both : Sys := demo_step (LAdmit demo_key demo_request 0) (demo_step (LAdmit demo_key demo_request 0) sys_init).
Definition demo_served : Sys := demo_step (LPoll 0) (demo_step (LComplete demo_key demo_response Retain) demo_both).

Lemma idem_demo_reachable : reachable demo_both /\ reachable demo_served.
Proof.
  assert (H1 : reachable (demo_step (LAdmit demo_key demo_request 0) sys_init)).
  { eapply (reach_step _ (LAdmit demo_key demo_request 0)); [apply reach_init| |vm_compute; reflexivity].
    split; vm_compute; [discriminate|reflexivity]. }
  assert (H2 : reachable demo_both).
  { eapply (reach_step _ (LAdmit demo_key demo_request 0)); [exact H1| |vm_compute; reflexivity].
    split; vm_compute; [discriminate|reflexivity]. }
  split; [exact H2|].
  eapply (reach_step (demo_step (LComplete demo_key demo_response Retain) demo_both) (LPoll 0)); [|exact I|vm_compute; reflexivity].
  eapply (reach_step _ (LComplete demo_key demo_response Retain)); [exact H2| |vm_compute; reflexivity].
  split; vm_compute; [discriminate|reflexivity].
Defined.

Lemma answers_come_from_one_execution_witness :
  delivered demo_served = [(0%nat, 0%nat, Some demo_response)] /\
  (exists response, Some demo_response = Some response /\ outs demo_served !! 0%nat = Some response /\
     is_Some (asked demo_served !! 0%nat) /\ asked demo_served !! 0%nat = log demo_served !! 0%nat).
Proof.
  assert (E : delivered demo_served = [(0%nat, 0%nat, Some demo_response)]) by (vm_compute; reflexivity).
  split; [exact E|].
  apply (proj1 (answers_come_from_one_execution demo_served (proj2 idem_demo_reachable)) 0%nat 0%nat (Some demo_response)).
  rewrite E. left.
Defined.

Lemma completed_execution_serves_its_waiters_witness :
  (take_response demo_key (reg demo_served)).2 = WReady demo_response /\
  (take_response demo_key (reg demo_both)).2 = Pending.
Proof.
  split.
  - exact (completed_execution_serves_its_waiters demo_served 1%nat demo_key 0%nat (proj2 idem_demo_reachable) eq_refl).
  - exact (proj1 (completed_execution_serves_its_waiters demo_both 1%nat demo_key 0%nat (proj1 idem_demo_reachable) eq_refl)).
Defined.

Lemma registry_bounded_and_accounted_witness :
  Z.of_nat (size (entries (reg demo_served))) <= MAX_ENTRIES /\
  total_bytes (reg demo_served) = storage (entries (reg demo_served)) /\
  (admit_request demo_key (mkIdentity "POST" "/api/p0/v1/session/reconcile" "" (mkInstance 5) None) 0 (reg demo_served)).2 =
    Err idempotency_conflict.
Proof.
  destruct (registry_bounded_and_accounted demo_served demo_key demo_request 0 (proj2 idem_demo_reachable)) as (H1 & H2 & _).
  split; [exact H1|]. split; [exact H2|]. vm_compute. reflexivity.
Defined.
