(* ===== verification/HttpConfig.v ===== *)
(** * Configuration of the HTTP boundary

    Models [apps/control-plane/src/config.rs]: the bootstrap token with its fixed-work comparison, the
    public origin and the session lifetime.  Also the fixed-work comparison of cookies, the header
    lookups and the cookie parser of [state.rs].  Byte slices are byte strings; arrays that are
    compared byte by byte are lists of bytes in [Z].  URL parsing is the [url] crate's: its results
    are the record [Url], its parser a parameter. *)
From S2P Require Import Prelude DomainValues CloudTypes SessionTypes LoginTypes HttpTypes.
From stdpp Require Import base numbers list strings.
From Stdlib Require Import ZArith Lia.
Import Ids Str.

Open Scope Z_scope.

Definition MIN_BOOTSTRAP_BYTES : Z := 32.
Definition MAX_BOOTSTRAP_BYTES : Z := 128.
Definition MIN_SESSION_LIFETIME : Z := from_secs (5 * 60).
Definition MAX_SESSION_LIFETIME : Z := from_secs (12 * 60 * 60).
Definition DEFAULT_SESSION_LIFETIME : Z := MAX_SESSION_LIFETIME.
Definition MAX_ORIGIN_BYTES : Z := 256.

Inductive P0HttpConfigField := PublicOrigin | BootstrapToken | SessionLifetime.

Definition bytes (s : string) : list Z := byte <$> String.list_ascii_of_string s.

(** ** Fixed-work comparison *)

(** The loop [difference |= left ^ right; compared += 1] over two zipped arrays. *)
Definition compare_bytes (difference : Z) (left right : list Z) : Z * Z :=
  foldl (fun '(d, n) '(l, r) => (Z.lor d (Z.lxor l r), n + 1)) (difference, 0) (zip left right).

(** [[0; n]] with the first bytes copied from [s]. *)
Definition padded (n : nat) (s : list Z) : list Z := take n s ++ replicate (n - length s) 0.

(** ** The bootstrap token *)

Record OperatorBootstrapToken := mkToken { tk_bytes : list Z; tk_len : Z }.

Definition OperatorBootstrapToken_try_new (value : string) : result P0HttpConfigField OperatorBootstrapToken :=
  if negb (in_range MIN_BOOTSTRAP_BYTES MAX_BOOTSTRAP_BYTES (slen value)) || any_byte is_ascii_control value then
    Err BootstrapToken
  else Ok (mkToken (padded 128 (bytes value)) (slen value mod 2 ^ 8)).

Definition token_compare (t : OperatorBootstrapToken) (candidate : option string) : bool * Z :=
  let candidate := default EmptyString candidate in
  let '(difference, compared) :=
    compare_bytes (Z.lxor (slen candidate) (tk_len t)) (tk_bytes t) (padded 128 (bytes candidate)) in
  (difference =? 0, compared).

Definition token_matches (t : OperatorBootstrapToken) (candidate : option string) : bool :=
  (token_compare t candidate).1.

(** ** The public origin *)

Record Url := mkUrl {
  url_scheme : string; url_has_host : bool; url_username : string; url_password : option string;
  url_query : option string; url_fragment : option string; url_path : string;
  (** The ASCII serialization of a tuple origin; [None] for an opaque one. *)
  url_origin : option string }.

Record P0PublicOrigin := mkOrigin { origin_str : string }.

Definition P0PublicOrigin_try_new (parse : string -> option Url) (value : string)
  : result P0HttpConfigField P0PublicOrigin :=
  if (MAX_ORIGIN_BYTES <? slen value) || negb (String.prefix "https://" value) then Err PublicOrigin
  else
  let? u := ok_or (parse value) PublicOrigin in
  if negb (String.eqb (url_scheme u) "https") || negb (url_has_host u) || negb (String.eqb (url_username u) "")
     || bool_decide (url_password u <> None) || bool_decide (url_query u <> None)
     || bool_decide (url_fragment u <> None) || negb (String.eqb (url_path u) "/")
  then Err PublicOrigin
  else
  let? origin := ok_or (url_origin u) PublicOrigin in
  Ok (mkOrigin origin).

Fixpoint trim_start_of (p : Ascii.ascii -> bool) (s : string) : string :=
  match s with
  | String c rest => if p c then trim_start_of p rest else s
  | EmptyString => s
  end.

(** The second loop: while the last byte satisfies [p], drop it. *)
Fixpoint trim_end_of (p : Ascii.ascii -> bool) (s : string) : string :=
  match s with
  | EmptyString => EmptyString
  | String c rest =>
      match trim_end_of p rest with
      | EmptyString => if p c then EmptyString else String c EmptyString
      | rest => String c rest
      end
  end.

Definition trim_of (p : Ascii.ascii -> bool) (s : string) : string := trim_end_of p (trim_start_of p s).

Definition is_space (c : Ascii.ascii) : bool := byte c =? 32.
Definition is_optional_whitespace (c : Ascii.ascii) : bool := (byte c =? 32) || (byte c =? 9).

Definition trim_optional_whitespace : string -> string := trim_of is_optional_whitespace.
Definition trim_ascii_space : string -> string := trim_of is_space.

Definition matches_header (o : P0PublicOrigin) (value : option string) : bool :=
  match value with
  | None => false
  | Some v => String.eqb (trim_optional_whitespace v) (origin_str o)
  end.

(** ** The configuration *)

Record P0HttpConfig := mkHttpConfig {
  public_origin : P0PublicOrigin; cfg_bootstrap : OperatorBootstrapToken; session_lifetime : Z }.

Definition P0HttpConfig_new (o : P0PublicOrigin) (t : OperatorBootstrapToken) : P0HttpConfig :=
  mkHttpConfig o t DEFAULT_SESSION_LIFETIME.

Definition try_with_session_lifetime (c : P0HttpConfig) (lifetime : Z) : result P0HttpConfigField P0HttpConfig :=
  if negb (in_range MIN_SESSION_LIFETIME MAX_SESSION_LIFETIME lifetime) || negb (lifetime mod NANOS_PER_SEC =? 0) then
    Err SessionLifetime
  else Ok (mkHttpConfig (public_origin c) (cfg_bootstrap c) lifetime).

(** ** Headers and cookies (state.rs) *)

Definition COOKIE_NAME : string := "__Host-codebox_p0".
Definition COOKIE_TOKEN_BYTES : nat := 43.

(** A header map: names in lower case, values in order. *)
Definition HeaderMap := list (string * string).

Definition get_all (name : string) (hs : HeaderMap) : list string :=
  (filter (fun '(n, _) => n = name) hs).*2.

Definition single_header (name : string) (hs : HeaderMap) : option string :=
  match get_all name hs with [value] => Some value | _ => None end.

Definition fixed_token_compare (left right : string) : bool * Z :=
  let '(difference, compared) := compare_bytes 0 (bytes left) (bytes right) in
  (difference =? 0, compared).

Definition fixed_token_eq (left right : string) : bool := (fixed_token_compare left right).1.

(** [position(=)] and [split_at]: the name and the value of one part. *)
Fixpoint split_pair (s : string) : option (string * string) :=
  match s with
  | EmptyString => None
  | String c rest =>
      if byte c =? 61 then Some (EmptyString, rest)
      else (fun '(n, v) => (String c n, v)) <$> split_pair rest
  end.

Definition semicolon : Ascii.ascii := Ascii.ascii_of_nat 59.
Definition zero_token : string := String.string_of_list_ascii (replicate COOKIE_TOKEN_BYTES Ascii.zero).

(** One part of one cookie header: candidate, count, valid. *)
Definition cookie_part (acc : string * Z * bool) (part : string) : string * Z * bool :=
  let '(candidate, count, valid) := acc in
  match split_pair (trim_ascii_space part) with
  | None => acc
  | Some (name, value) =>
      if negb (String.eqb name COOKIE_NAME) then acc
      else
      let count := usize_saturating_add count 1 in
      if Nat.eqb (String.length value) COOKIE_TOKEN_BYTES then (value, count, true) else (candidate, count, valid)
  end.

Definition parse_cookie (hs : HeaderMap) : string * bool :=
  let '(candidate, count, valid) :=
    foldl (fun acc value => foldl cookie_part acc (split semicolon value)) (zero_token, 0, false)
      (get_all "cookie" hs) in
  (candidate, valid && (count =? 1)).

(** ** The comparisons decide equality *)

Lemma byte_bounds c : 0 <= byte c < 256.
Proof. unfold byte. pose proof (Ascii.nat_ascii_bounded c). lia. Qed.

Lemma byte_inj c d : byte c = byte d -> c = d.
Proof.
  unfold byte. intros H%Nat2Z.inj. rewrite <- (Ascii.ascii_nat_embedding c), <- (Ascii.ascii_nat_embedding d).
  by rewrite H.
Qed.

Lemma bytes_inj s t : bytes s = bytes t -> s = t.
Proof.
  revert t. induction s as [|c s IH]; intros [|d t]; unfold bytes; simpl; try done.
  intros [= H1%byte_inj H2]. subst. f_equal. by apply IH.
Qed.

Lemma bytes_length s : length (bytes s) = String.length s.
Proof. unfold bytes. rewrite length_fmap. induction s; simpl; auto. Qed.

Lemma lor_zero x y : Z.lor x y = 0 <-> x = 0 /\ y = 0.
Proof. apply Z.lor_eq_0_iff. Qed.

Lemma compare_bytes_spec left right d :
  length left = length right ->
  compare_bytes d left right = (fst (compare_bytes d left right), Z.of_nat (length left)) /\
  (fst (compare_bytes d left right) = 0 <-> d = 0 /\ left = right).
Proof.
  unfold compare_bytes. assert (H : forall left right d n, length left = length right ->
    let r := foldl (fun '(d, n) '(l, r) => (Z.lor d (Z.lxor l r), n + 1)) (d, n) (zip left right) in
    snd r = n + Z.of_nat (length left) /\ (fst r = 0 <-> d = 0 /\ left = right)).
  { clear. induction left as [|l left IH]; intros [|r right] d n Hl; simpl in *; try lia.
    - naive_solver lia.
    - specialize (IH right (Z.lor d (Z.lxor l r)) (n + 1) ltac:(lia)) as [IH1 IH2].
      split; [rewrite IH1; lia|]. rewrite IH2, lor_zero, Z.lxor_eq_0_iff. naive_solver. }
  intros Hl. specialize (H left right d 0 Hl) as [H1 H2]. split; [|done].
  rewrite Z.add_0_l in H1. rewrite <- H1. apply surjective_pairing.
Qed.

Lemma padded_length n s : length (padded n s) = n.
Proof. unfold padded. rewrite length_app, length_take, length_replicate. lia. Qed.

Lemma padded_inj n s t :
  length s = length t -> (length s <= n)%nat -> padded n s = padded n t -> s = t.
Proof.
  intros Hl Hn. unfold padded. rewrite !take_ge by lia. rewrite Hl. apply app_inv_tail.
Qed.

(** the bootstrap secret is compared exactly, with fixed work.  For a configured secret the
    loop over the padded arrays accepts a candidate if and only if it is the secret, byte for byte
    and in length; a missing candidate is refused; and the loop always compares all 128 bytes. *)
Theorem bootstrap_comparison_is_equality secret t candidate
    (Ht : OperatorBootstrapToken_try_new secret = Ok t) :
  (token_matches t (Some candidate) = true <-> candidate = secret) /\
  token_matches t None = false /\ (token_compare t (Some candidate)).2 = 128.
Proof.
  unfold OperatorBootstrapToken_try_new in Ht.
  destruct (in_range _ _ (slen secret)) eqn:Er; [|done]. destruct (any_byte _ secret); [done|]. simplify_eq/=.
  unfold in_range, MIN_BOOTSTRAP_BYTES, MAX_BOOTSTRAP_BYTES in Er. bool_to_prop.
  assert (Hlen : slen secret mod 2 ^ 8 = slen secret) by (apply Z.mod_small; lia).
  assert (Hcmp : forall c, let r := token_compare (mkToken (padded 128 (bytes secret)) (slen secret mod 2 ^ 8)) c in
    (r.1 = true <-> default EmptyString c = secret) /\ r.2 = 128).
  { intros c. unfold token_compare. cbn [tk_len tk_bytes]. rewrite Hlen. set (s := default EmptyString c).
    destruct (compare_bytes_spec (padded 128 (bytes secret)) (padded 128 (bytes s)) (Z.lxor (slen s) (slen secret)))
      as [E Hz]; [by rewrite !padded_length|]. rewrite E. simpl. rewrite padded_length. split; [|done].
    rewrite Z.eqb_eq, Hz, Z.lxor_eq_0_iff. split; [|by intros ->].
    intros [Hl Hp]. symmetry. apply bytes_inj. unfold slen in *.
    eapply (padded_inj 128); [rewrite !bytes_length; lia|rewrite bytes_length; lia|done]. }
  split_and!.
  - exact (proj1 (Hcmp (Some candidate))).
  - apply not_true_iff_false. intros Hm. apply (proj1 (Hcmp None)) in Hm. simpl in Hm. subst. unfold slen in *. simpl in *. lia.
  - exact (proj2 (Hcmp (Some candidate))).
Qed.

Lemma bootstrap_comparison_is_equality_witness :
  let secret := "0123456789abcdef0123456789abcdef" in
  exists t, OperatorBootstrapToken_try_new secret = Ok t /\ token_matches t (Some secret) = true /\
    (token_matches t (Some "0123456789abcdef0123456789abcdeg") = true <->
       "0123456789abcdef0123456789abcdeg" = secret).
Proof.
  eexists. split; [reflexivity|]. split.
  - refine (proj2 (proj1 (bootstrap_comparison_is_equality "0123456789abcdef0123456789abcdef" _ _ _)) _); reflexivity.
  - refine (proj1 (bootstrap_comparison_is_equality "0123456789abcdef0123456789abcdef" _ _ _)); reflexivity.
Defined.

(** Cookies have a fixed length. *)
Lemma fixed_token_eq_iff s t : String.length s = String.length t -> (fixed_token_eq s t = true <-> s = t).
Proof.
  intros Hl. unfold fixed_token_eq, fixed_token_compare.
  destruct (compare_bytes_spec (bytes s) (bytes t) 0) as [E Hz]; [by rewrite !bytes_length|].
  rewrite E. simpl. rewrite Z.eqb_eq, Hz. split; [|by intros ->]. intros [_ H]. by apply bytes_inj.
Qed.
