(* ===== verification/AppSessions.v ===== *)
(** * Operator sessions

    Models the application-session part of [apps/control-plane/src/state.rs]: the registry, its
    pruning, the creation of a session with its cookie, cookie authentication, logout, the release of
    a request and the validity check.  The clock is the argument [now]; [draws n] is what the entropy
    source fills in the [n]-th draw, [None] where it fails.  Base64 and header values are the crates':
    the class [Crates]. *)
From S2P Require Import Prelude DomainValues CloudTypes SessionTypes LoginTypes CloudAdapter HttpTypes HttpConfig.
From stdpp Require Import base numbers list strings sets.
From Stdlib Require Import ZArith Lia.
Import Ids Str.

Open Scope Z_scope.

Definition MAX_APP_SESSIONS : Z := 4.
Definition MAX_COOKIE_DRAWS : nat := 8.

Class Crates := {
  (** [URL_SAFE_NO_PAD.encode]. *)
  encode : string -> string;
  (** Whether [HeaderValue::from_str] accepts a text. *)
  header_value_ok : string -> bool }.

Record AppSession := mkSession {
  token : string; expires_at : Z; issuance_seq : Z; invalidated : bool; active_requests : Z }.

Record AppSessionRegistry := mkSessions { sessions : list AppSession; next_seq : Z }.

Definition registry_empty : AppSessionRegistry := mkSessions [] 0.

(** ** Pruning *)

(** [sort_by_key]: a stable sort. *)
Fixpoint insert_by_seq (x : AppSession) (l : list AppSession) : list AppSession :=
  match l with
  | [] => [x]
  | y :: rest => if issuance_seq x <=? issuance_seq y then x :: l else y :: insert_by_seq x rest
  end.
Definition sort_by_seq (l : list AppSession) : list AppSession := foldr insert_by_seq [] l.

Definition expire (now : Z) (s : AppSession) : AppSession :=
  if expires_at s <=? now then mkSession (token s) (expires_at s) (issuance_seq s) true (active_requests s) else s.

Definition retained (s : AppSession) : bool := negb (invalidated s) || negb (active_requests s =? 0).

Definition prune_expired (now : Z) (r : AppSessionRegistry) : AppSessionRegistry :=
  mkSessions (sort_by_seq (filter (fun s => retained s = true) (map (expire now) (sessions r)))) (next_seq r).

(** ** Creation *)

Definition session_limit : Api.ApiError :=
  Api.new TOO_MANY_REQUESTS "session_limit" "operator session limit reached".

Section Create.
Context `{SerdeJson, Crates}.

(** The draw loop: a token no session has, or none, or a failing source. *)
Fixpoint draw_token (todo n : nat) (draws : nat -> option string) (held : list AppSession)
  : result Api.ApiError (option string) :=
  match todo with
  | O => Ok None
  | S todo =>
      let? random := ok_or (draws n) Api.service_unavailable in
      let encoded := encode random in
      if negb (Nat.eqb (String.length encoded) COOKIE_TOKEN_BYTES) then Err Api.service_unavailable
      else if existsb (fun s => fixed_token_eq (token s) encoded) held then draw_token todo (S n) draws held
      else Ok (Some encoded)
  end.

(** A duration in whole seconds, as the cookie and the response show it. *)
Definition as_secs (d : Z) : Z := d / NANOS_PER_SEC.

Definition decimal (z : Z) : string := pretty.pretty z.

Definition session_cookie (token : string) (lifetime : Z) : string :=
  (COOKIE_NAME ++ "=" ++ token ++ "; Secure; HttpOnly; SameSite=Strict; Path=/; Max-Age=" ++ decimal lifetime)%string.

Definition create_app_session (cfg : P0HttpConfig) (identity : P0SessionIdentity) (draws : nat -> option string)
    (now : Z) (r : AppSessionRegistry) : AppSessionRegistry * result Api.ApiError CachedResponse :=
  let r := prune_expired now r in
  if MAX_APP_SESSIONS <=? len (filter (fun s => invalidated s = false) (sessions r)) then (r, Err session_limit)
  else
  match draw_token MAX_COOKIE_DRAWS 0 draws (sessions r) with
  | Err e => (r, Err e)
  | Ok None => (r, Err Api.service_unavailable)
  | Ok (Some t) =>
      let seq := Z.min u64_max (next_seq r + 1) in
      let r := mkSessions (sessions r) seq in
      if DURATION_MAX <? now + session_lifetime cfg then (r, Err Api.service_unavailable)
      else
      let r := mkSessions (sessions r ++ [mkSession t (now + session_lifetime cfg) seq false 0]) seq in
      if negb (utf8_valid t) then (r, Err Api.service_unavailable)
      else
      let lifetime := as_secs (session_lifetime cfg) in
      let cookie := session_cookie t lifetime in
      if negb (header_value_ok cookie) then (r, Err Api.service_unavailable)
      else (r, bootstrap (VBootstrap (BootstrapResponse_new identity lifetime)) cookie)
  end.
End Create.

(** ** Authentication *)

Record AppSessionLease := mkLease { lease_token : string; lease_seq : Z }.

Definition with_active (n : Z) (s : AppSession) : AppSession :=
  mkSession (token s) (expires_at s) (issuance_seq s) (invalidated s) n.

(** The loop over the sessions: the last match. *)
Definition matched (candidate : string) (valid : bool) (now : Z) (l : list AppSession) : option nat :=
  foldl (fun acc '(index, s) =>
           if valid && fixed_token_eq (token s) candidate && negb (invalidated s) && (now <? expires_at s)
           then Some index else acc) None (zip (seq 0 (length l)) l).

Definition authenticate_cookie (headers : HeaderMap) (now : Z) (r : AppSessionRegistry)
  : AppSessionRegistry * result Api.ApiError AppSessionLease :=
  let '(candidate, valid) := parse_cookie headers in
  let r := prune_expired now r in
  match matched candidate valid now (sessions r) with
  | None => (r, Err Api.authentication_required)
  | Some index =>
      match sessions r !! index with
      | None => (r, Err Api.authentication_required)
      | Some s =>
          (mkSessions (<[index := with_active (usize_saturating_add (active_requests s) 1) s]> (sessions r)) (next_seq r),
           Ok (mkLease (token s) (issuance_seq s)))
      end
  end.

(** ** Logout, release, validity *)

(** The first session [f] holds of, updated. *)
Fixpoint update_first (f : AppSession -> bool) (g : AppSession -> AppSession) (l : list AppSession) : list AppSession :=
  match l with
  | [] => []
  | s :: rest => if f s then g s :: rest else s :: update_first f g rest
  end.

Definition invalidate (s : AppSession) : AppSession :=
  mkSession (token s) (expires_at s) (issuance_seq s) true (active_requests s).

Definition invalidate_cookie (cookie : string) (session_seq : Z) (r : AppSessionRegistry) : AppSessionRegistry :=
  mkSessions (update_first (fun s => (issuance_seq s =? session_seq) && fixed_token_eq (token s) cookie)
                invalidate (sessions r)) (next_seq r).

(** Whether the idempotency entries of the session are to be released too. *)
Definition release_app_session (session_seq : Z) (r : AppSessionRegistry) : AppSessionRegistry * bool :=
  match list_find (fun s => issuance_seq s = session_seq) (sessions r) with
  | None => (r, true)
  | Some (index, s) =>
      let s := with_active (Z.max 0 (active_requests s - 1)) s in
      if invalidated s && (active_requests s =? 0) then (mkSessions (delete index (sessions r)) (next_seq r), true)
      else (mkSessions (<[index := s]> (sessions r)) (next_seq r), false)
  end.

Definition app_session_is_valid (session_seq : Z) (now : Z) (r : AppSessionRegistry) : AppSessionRegistry * bool :=
  let r := prune_expired now r in
  (r, existsb (fun s => (issuance_seq s =? session_seq) && negb (invalidated s) && (now <? expires_at s)) (sessions r)).
