(* ===== verification/AppSessionClaims.v ===== *)
(** * Who is authenticated

    The registry of [AppSessions] under its operations, with the sessions that were issued and logged
    out as ghost state: cookie authentication accepts exactly the live ones. *)
From S2P Require Import Prelude DomainValues CloudTypes SessionTypes LoginTypes CloudAdapter HttpTypes HttpConfig AppSessions.
From stdpp Require Import base numbers list strings sets sorting.
From Stdlib Require Import ZArith Lia.
Import Ids Str.

Open Scope Z_scope.

Record Issue := mkIssue { is_seq : Z; is_token : string; is_at : Z }.

(** The registry, with what was issued, what was logged out and the latest reading of the clock. *)
Record Auth := mkAuth {
  registry : AppSessionRegistry; issued : list Issue; logouts : list Z; clock : Z }.

Definition auth_init : Auth := mkAuth registry_empty [] [] 0.

Inductive AuthStep :=
| ACreate (draws : nat -> option string) (now : Z)
| AAuthenticate (headers : HeaderMap) (now : Z)
| ALogout (cookie : string) (session_seq : Z)
| ARelease (session_seq : Z)
| AValid (session_seq : Z) (now : Z).

Section Claims.
Context `{SerdeJson, Crates} (cfg : P0HttpConfig) (identity : P0SessionIdentity).

(** Each caller reads the clock before it locks the registry, so the readings need not be in the order
    of the steps: the model keeps the latest one. *)
Definition auth_step (l : AuthStep) (a : Auth) : Auth :=
  match l with
  | ACreate draws now =>
      let r := (create_app_session cfg identity draws now (registry a)).1 in
      (* the sessions added are the ones with a new sequence number *)
      let fresh := filter (fun s => next_seq (registry a) < issuance_seq s) (sessions r) in
      mkAuth r (issued a ++ ((fun s => mkIssue (issuance_seq s) (token s) now) <$> fresh)) (logouts a)
        (Z.max (clock a) now)
  | AAuthenticate headers now =>
      mkAuth (authenticate_cookie headers now (registry a)).1 (issued a) (logouts a) (Z.max (clock a) now)
  | ALogout cookie seq =>
      mkAuth (invalidate_cookie cookie seq (registry a)) (issued a)
        (if existsb (fun s => (issuance_seq s =? seq) && fixed_token_eq (token s) cookie) (sessions (registry a))
         then seq :: logouts a else logouts a) (clock a)
  | ARelease seq => mkAuth (release_app_session seq (registry a)).1 (issued a) (logouts a) (clock a)
  | AValid seq now =>
      mkAuth (app_session_is_valid seq now (registry a)).1 (issued a) (logouts a) (Z.max (clock a) now)
  end.

(** Fewer than [u64::MAX] sessions are created. *)
Definition auth_ok (l : AuthStep) (a : Auth) : Prop :=
  match l with
  | ACreate _ _ => next_seq (registry a) < u64_max
  | _ => True
  end.

Inductive auth_reachable : Auth -> Prop :=
| ar_init : auth_reachable auth_init
| ar_step a l : auth_reachable a -> auth_ok l a -> auth_reachable (auth_step l a).

(** ** Pruning a registry in order *)

Definition in_order (l : list AppSession) : Prop := StronglySorted Z.lt (issuance_seq <$> l).

Lemma sort_in_order l : in_order l -> sort_by_seq l = l.
Proof.
  unfold in_order. induction l as [|s l IH]; simpl; intros Hs; [done|]. inversion Hs as [|? ? Hl HF]; subst.
  rewrite IH by done. destruct l as [|s' l]; simpl; [done|]. apply Forall_inv in HF. simpl in HF.
  by rewrite (proj2 (Z.leb_le _ _)) by lia.
Qed.

Lemma in_order_sub (P : AppSession -> Prop) `{!forall s, Decision (P s)} l : in_order l -> in_order (filter P l).
Proof.
  unfold in_order. induction l as [|s l IH]; intros Hs; [done|]. inversion Hs as [|? ? Hl HF]; subst.
  rewrite filter_cons. case_decide; [|by apply IH]. simpl. constructor; [by apply IH|].
  apply Forall_forall. intros q (s' & -> & [_ Hs']%list_elem_of_filter)%list_elem_of_fmap.
  rewrite Forall_forall in HF. apply HF. by apply list_elem_of_fmap_2.
Qed.

Lemma expire_fields now s :
  issuance_seq (expire now s) = issuance_seq s /\ token (expire now s) = token s /\
  expires_at (expire now s) = expires_at s /\ active_requests (expire now s) = active_requests s /\
  invalidated (expire now s) = invalidated s || (expires_at s <=? now).
Proof. unfold expire. destruct (expires_at s <=? now); simpl; rewrite ?orb_false_r, ?orb_true_r; done. Qed.

Lemma in_order_map g l :
  (forall s, issuance_seq (g s) = issuance_seq s) -> in_order l -> in_order (g <$> l).
Proof.
  intros Hg. unfold in_order. rewrite <- list_fmap_compose.
  by rewrite (list_fmap_ext (issuance_seq ∘ g) issuance_seq l) by (intros; apply Hg).
Qed.

Lemma prune_sessions now r :
  in_order (sessions r) ->
  sessions (prune_expired now r) = filter (fun s => retained s = true) (map (expire now) (sessions r)).
Proof.
  intros Ho. simpl. apply sort_in_order, in_order_sub, in_order_map; [|done].
  intros s. apply expire_fields.
Qed.

(** ** The invariant *)

(** An issued session that is neither logged out nor expired at [now]. *)
Definition live (a : Auth) (now : Z) (i : Issue) : Prop :=
  i ∈ issued a /\ is_seq i ∉ logouts a /\ now < is_at i + session_lifetime cfg.

Definition session_of (i : Issue) (s : AppSession) : Prop :=
  issuance_seq s = is_seq i /\ token s = is_token i /\ expires_at s = is_at i + session_lifetime cfg.

Record AInv (a : Auth) : Prop := {
  ai_order : in_order (sessions (registry a));
  ai_seqs : forall s, s ∈ sessions (registry a) -> issuance_seq s <= next_seq (registry a);
  ai_issued_seqs : forall i, i ∈ issued a -> is_seq i <= next_seq (registry a) /\ is_at i <= clock a;
  ai_distinct : forall i j, i ∈ issued a -> j ∈ issued a -> is_seq i = is_seq j -> i = j;
  ai_issued : forall s, s ∈ sessions (registry a) -> exists i, i ∈ issued a /\ session_of i s;
  ai_tokens : NoDup (token <$> sessions (registry a));
  ai_lengths : forall s, s ∈ sessions (registry a) -> String.length (token s) = COOKIE_TOKEN_BYTES;
  ai_logouts : forall s, s ∈ sessions (registry a) -> issuance_seq s ∈ logouts a -> invalidated s = true;
  ai_logout_seqs : forall q, q ∈ logouts a -> q <= next_seq (registry a);
  ai_live : forall i, live a (clock a) i ->
    exists s, s ∈ sessions (registry a) /\ session_of i s /\ invalidated s = false;
  ai_limit : Z.of_nat (length (filter (fun s => invalidated s = false) (sessions (registry a)))) <= MAX_APP_SESSIONS }.

Lemma AInv_init : AInv auth_init.
Proof.
  constructor; simpl; try (intros *; by intros ?%not_elem_of_nil); try done.
  - constructor.
  - apply NoDup_nil_2.
  - by intros i (?%not_elem_of_nil & _).
Qed.

(** ** Sessions only narrow between creations *)

Definition same_session (s s' : AppSession) : Prop :=
  issuance_seq s' = issuance_seq s /\ token s' = token s /\ expires_at s' = expires_at s.

(** [l'] is [l] with sessions updated in place, and invalidated or dropped only where [gone] allows. *)
Inductive narrows (gone : AppSession -> Prop) : list AppSession -> list AppSession -> Prop :=
| nw_nil : narrows gone [] []
| nw_keep s s' l l' : same_session s s' -> (invalidated s = true -> invalidated s' = true) ->
    (invalidated s' = true -> invalidated s = true \/ gone s) ->
    narrows gone l l' -> narrows gone (s :: l) (s' :: l')
| nw_drop s l l' : invalidated s = true \/ gone s -> narrows gone l l' -> narrows gone (s :: l) l'.

Lemma same_session_refl s : same_session s s.
Proof. done. Qed.
Hint Resolve same_session_refl : core.

Lemma narrows_refl gone l : narrows gone l l.
Proof. induction l; constructor; auto. Qed.

Lemma narrows_back gone l l' s' : narrows gone l l' -> s' ∈ l' ->
  exists s, s ∈ l /\ same_session s s' /\ (invalidated s = true -> invalidated s' = true).
Proof.
  induction 1 as [|s t l l' Hs Hi Hi' _ IH|s l l' Hd _ IH]; [by intros ?%not_elem_of_nil| |].
  - intros [->|Ht]%elem_of_cons; [exists s; split; [left|done]|]. destruct (IH Ht) as (u & ? & ?). exists u. by split; [right|].
  - intros Ht. destruct (IH Ht) as (u & ? & ?). exists u. by split; [right|].
Qed.

Lemma narrows_forth gone l l' s : narrows gone l l' -> s ∈ l -> invalidated s = false -> ~ gone s ->
  exists s', s' ∈ l' /\ same_session s s' /\ invalidated s' = false.
Proof.
  intros Hn Hs Hi Hg. induction Hn as [|t t' l l' Ht _ Hi' _ IH|t l l' Hd _ IH]; [by apply not_elem_of_nil in Hs| |].
  - apply elem_of_cons in Hs as [->|Hs].
    + exists t'. split; [left|split; [done|]]. destruct (invalidated t') eqn:E; [|done]. destruct (Hi' eq_refl); congruence.
    + destruct (IH Hs) as (u & ? & ?). exists u. by split; [right|].
  - apply elem_of_cons in Hs as [->|Hs]; [destruct Hd; congruence|]. by apply IH.
Qed.

Lemma narrows_sublist gone l l' {A} (f : AppSession -> A) :
  (forall s s', same_session s s' -> f s' = f s) -> narrows gone l l' -> (f <$> l') `sublist_of` (f <$> l).
Proof. intros Hf. induction 1; simpl; [done| |by apply sublist_cons]. rewrite (Hf _ _ H1). by apply sublist_skip. Qed.

Lemma narrows_count gone l l' : narrows gone l l' ->
  (length (filter (fun s => invalidated s = false) l') <= length (filter (fun s => invalidated s = false) l))%nat.
Proof.
  induction 1 as [|s s' l l' _ Hi _ _ IH|s l l' _ _ IH]; [done| |]; rewrite ?filter_cons; repeat case_decide; simpl; try lia.
  exfalso. destruct (invalidated s); [|done]. rewrite Hi in * by done. done.
Qed.

Lemma sorted_sublist (l l' : list Z) : l' `sublist_of` l -> StronglySorted Z.lt l -> StronglySorted Z.lt l'.
Proof.
  induction 1 as [|x l1 l2 Hs IH|x l1 l2 Hs IH]; intros Ho; [done| |]; inversion Ho as [|? ? Hl HF]; subst; [|by apply IH].
  constructor; [by apply IH|]. rewrite Forall_forall in HF |- *. intros y Hy. apply HF. by eapply elem_of_sublist.
Qed.

Lemma AInv_narrows gone a l' lo' now :
  AInv a -> narrows gone (sessions (registry a)) l' -> clock a <= now -> logouts a ⊆ lo' ->
  (forall q, q ∈ lo' -> q ∈ logouts a \/
     (q <= next_seq (registry a) /\ forall s, s ∈ l' -> issuance_seq s = q -> invalidated s = true)) ->
  (forall s, s ∈ sessions (registry a) -> gone s -> issuance_seq s ∈ lo' \/ expires_at s <= now) ->
  AInv (mkAuth (mkSessions l' (next_seq (registry a))) (issued a) lo' now).
Proof.
  intros [] Hn Hnow Hsub Hlo Hg.
  assert (Hb := fun s' => narrows_back _ _ _ s' Hn).
  constructor; cbn [registry issued logouts clock sessions next_seq].
  - eapply sorted_sublist; [|exact ai_order0]. eapply narrows_sublist; [|exact Hn]. by intros ? ? (? & ? & ?).
  - intros s' Hs'. destruct (Hb s' Hs') as (s & Hs & (-> & _) & _). by apply ai_seqs0.
  - intros i Hi. destruct (ai_issued_seqs0 i Hi). lia.
  - done.
  - intros s' Hs'. destruct (Hb s' Hs') as (s & Hs & (E1 & E2 & E3) & _).
    destruct (ai_issued0 s Hs) as (i & Hi & H1 & H2 & H3). exists i. unfold session_of. by rewrite E1, E2, E3.
  - eapply sublist_NoDup; [exact ai_tokens0|]. eapply narrows_sublist; [|exact Hn]. by intros ? ? (? & ? & ?).
  - intros s' Hs'. destruct (Hb s' Hs') as (s & Hs & (_ & -> & _) & _). by apply ai_lengths0.
  - intros s' Hs' Hq. destruct (Hlo _ Hq) as [Hq'|[_ Hq']]; [|by apply Hq'].
    destruct (Hb s' Hs') as (s & Hs & (E & _) & Hi). apply Hi, ai_logouts0; [done|]. by rewrite <- E.
  - intros q Hq. destruct (Hlo q Hq) as [|[? _]]; [by apply ai_logout_seqs0|done].
  - intros i (Hi & Hq & Ht). cbn [issued logouts] in Hi, Hq.
    destruct (ai_live0 i) as (s & Hs & (H1 & H2 & H3) & Hv); [split_and!; [done|set_solver|lia]|].
    destruct (narrows_forth _ _ _ s Hn Hs Hv) as (s' & Hs' & (E1 & E2 & E3) & Hv').
    { intros Hgs. destruct (Hg s Hs Hgs) as [Hl|Hl]; [rewrite H1 in Hl; done|lia]. }
    exists s'. split; [done|]. split; [|done]. unfold session_of. by rewrite E1, E2, E3.
  - etrans; [|exact ai_limit0]. apply inj_le. by eapply narrows_count.
Qed.

(** ** Each operation narrows *)

Lemma prune_narrows now r : in_order (sessions r) ->
  narrows (fun s => expires_at s <= now) (sessions r) (sessions (prune_expired now r)).
Proof.
  intros Ho. rewrite prune_sessions by done. clear Ho.
  induction (sessions r) as [|s l IH]; [constructor|]. cbn [map]. rewrite filter_cons.
  destruct (expire_fields now s) as (E1 & E2 & E3 & E4 & E5).
  assert (Hi : invalidated (expire now s) = true -> invalidated s = true \/ expires_at s <= now).
  { rewrite E5. intros [?|?%Z.leb_le]%orb_true_iff; auto. }
  case_decide as Hr; constructor; auto.
  - done.
  - intros Hs. by rewrite E5, Hs.
  - apply Hi. unfold retained in Hr. by destruct (invalidated (expire now s)).
Qed.

Lemma AInv_prune a now :
  AInv a -> AInv (mkAuth (prune_expired now (registry a)) (issued a) (logouts a) (Z.max (clock a) now)).
Proof.
  intros Ha. change (prune_expired now (registry a)) with
    (mkSessions (sessions (prune_expired now (registry a))) (next_seq (registry a))).
  eapply AInv_narrows; [done|apply prune_narrows, Ha|lia|done|auto|].
  intros s _ He. right. simpl in He. lia.
Qed.

Lemma insert_narrows gone l i s s' : l !! i = Some s -> same_session s s' -> invalidated s' = invalidated s ->
  narrows gone l (<[i := s']> l).
Proof.
  revert i. induction l as [|t l IH]; intros [|i] Hi Hs Hv; simpl in *; try done.
  - simplify_eq. constructor; [done|congruence|rewrite Hv; auto|apply narrows_refl].
  - constructor; auto.
Qed.

Lemma delete_narrows gone l i s : l !! i = Some s -> invalidated s = true -> narrows gone l (delete i l).
Proof.
  revert i. induction l as [|t l IH]; intros [|i] Hi Hv; simpl in *; try done.
  - simplify_eq. constructor; [by left|apply narrows_refl].
  - constructor; auto.
Qed.

Lemma invalidate_narrows f l : narrows (fun s => f s = true) l (update_first f invalidate l).
Proof.
  induction l as [|s l IH]; simpl; [constructor|]. destruct (f s) eqn:E; constructor; auto using narrows_refl; done.
Qed.

Lemma AInv_same a l' :
  AInv a -> (forall gone, narrows gone (sessions (registry a)) l') ->
  AInv (mkAuth (mkSessions l' (next_seq (registry a))) (issued a) (logouts a) (clock a)).
Proof. intros Ha Hn. apply (AInv_narrows (fun _ => False)); auto; done. Qed.

Lemma AInv_authenticate a headers now : AInv a -> AInv (auth_step (AAuthenticate headers now) a).
Proof.
  intros Ha%(AInv_prune _ now). unfold auth_step, authenticate_cookie.
  destruct (parse_cookie headers) as [candidate valid].
  set (r := prune_expired now (registry a)) in *.
  destruct (matched _ _ _ _) as [i|]; [|done]. destruct (sessions r !! i) as [s|] eqn:Es; [|done].
  apply (AInv_same (mkAuth r (issued a) (logouts a) (Z.max (clock a) now))); [done|].
  intros gone. by eapply insert_narrows.
Qed.

Lemma AInv_release a seq : AInv a -> AInv (auth_step (ARelease seq) a).
Proof.
  intros Ha. unfold auth_step, release_app_session.
  destruct (list_find _ _) as [[i s]|] eqn:Ef; [|by destruct a].
  apply list_find_Some in Ef as (Es & _ & _). cbn [fst].
  destruct (invalidated _ && _) eqn:Ei; cbn [fst]; apply AInv_same; try done; intros gone.
  - apply andb_true_iff in Ei as [Ei _]. by eapply delete_narrows.
  - by eapply insert_narrows.
Qed.

Lemma update_first_elem f g l s : s ∈ update_first f g l -> s ∈ l \/ exists t, t ∈ l /\ f t = true /\ s = g t.
Proof.
  induction l as [|t l IH]; simpl; [auto|]. destruct (f t) eqn:E.
  - intros [->|Hs]%elem_of_cons; [right; exists t; split; [left|done]|left; by right].
  - intros [->|Hs]%elem_of_cons; [left; left|].
    destruct (IH Hs) as [|(u & ? & ?)]; [left; by right|right; exists u; split; [by right|done]].
Qed.

Lemma in_order_unique l s t : in_order l -> s ∈ l -> t ∈ l -> issuance_seq s = issuance_seq t -> s = t.
Proof.
  unfold in_order. induction l as [|u l IH]; simpl; intros Ho; [by intros ?%not_elem_of_nil|].
  inversion Ho as [|? ? Hl HF]; subst. rewrite Forall_forall in HF.
  assert (Hlt : forall v, v ∈ l -> issuance_seq u < issuance_seq v) by (intros; apply HF, list_elem_of_fmap_2; done).
  intros [->|Hs]%elem_of_cons [->|Ht]%elem_of_cons E; [done| | |by apply IH].
  - specialize (Hlt t Ht). lia.
  - specialize (Hlt s Hs). lia.
Qed.

Lemma AInv_logout a cookie seq : AInv a -> AInv (auth_step (ALogout cookie seq) a).
Proof.
  intros Ha. unfold auth_step, invalidate_cookie.
  set (f := fun s => (issuance_seq s =? seq) && fixed_token_eq (token s) cookie).
  pose proof (invalidate_narrows f (sessions (registry a))) as Hn.
  assert (Hf : forall s, s ∈ sessions (registry a) -> f s = true -> issuance_seq s = seq).
  { intros s _ [E _]%andb_true_iff. by apply Z.eqb_eq. }
  destruct (existsb f _) eqn:Ex; (apply (AInv_narrows _ _ _ _ _ Ha Hn); [lia|set_solver| |]).
  - intros q [->|Hq]%elem_of_cons; [right|by left].
    apply existsb_exists in Ex as (s & Hs%list_elem_of_In & Es). split.
    { rewrite <- (Hf s Hs Es). by apply ai_seqs. }
    intros s' Hs' Eq. destruct (narrows_back _ _ _ s' Hn Hs') as (t & Ht & (E1 & E2 & _) & _).
    destruct (update_first_elem _ _ _ _ Hs') as [Hin|(u & _ & _ & ->)]; [|done].
    assert (s' = s) as -> by (eapply in_order_unique; [apply Ha|done|done|by rewrite (Hf s)]).
    clear - Hs' Es Ha Hs Hf.
    assert (Ho := ai_order _ Ha). induction (sessions (registry a)) as [|t l IH]; [by apply not_elem_of_nil in Hs|].
    simpl in Hs'. inversion Ho as [|? ? Hl HF]; subst. rewrite Forall_forall in HF.
    destruct (f t) eqn:Et.
    + apply elem_of_cons in Hs' as [->|Hs']; [done|]. exfalso.
      assert (issuance_seq t < issuance_seq s) by (apply HF, list_elem_of_fmap_2; done).
      assert (E := Hf t (list_elem_of_here _ _) Et). rewrite (Hf s Hs Es) in *. lia.
    + apply elem_of_cons in Hs as [->|Hs]; [congruence|].
      apply elem_of_cons in Hs' as [->|Hs']; [congruence|]. apply IH; auto. intros u Hu. apply Hf. by right.
  - intros s Hs Es. left. rewrite (Hf s Hs Es). by left.
  - by left.
  - intros s Hs Es. exfalso. apply not_true_iff_false in Ex. apply Ex, existsb_exists. exists s.
    split; [by apply list_elem_of_In|done].
Qed.

(** ** Creation *)

Lemma draw_token_spec todo n draws held t :
  (forall s, s ∈ held -> String.length (token s) = COOKIE_TOKEN_BYTES) ->
  draw_token todo n draws held = Ok (Some t) ->
  String.length t = COOKIE_TOKEN_BYTES /\ t ∉ (token <$> held) /\ exists random, t = encode random.
Proof.
  intros Hh. revert n. induction todo as [|todo IH]; intros n; [done|]. simpl.
  destruct (draws n) as [random|]; [|done]. simpl. destruct (Nat.eqb _ _) eqn:El; [|done]. simpl. apply Nat.eqb_eq in El.
  destruct (existsb _ _) eqn:Ex; [apply IH|]. intros [= <-]. split; [done|]. split; [|eauto].
  intros (s & Ht & Hs)%list_elem_of_fmap. apply not_true_iff_false in Ex. apply Ex, existsb_exists. exists s.
  split; [by apply list_elem_of_In|]. apply fixed_token_eq_iff; [|by symmetry]. by rewrite El, Hh.
Qed.

Definition is_err {A} (out : result Api.ApiError A) : Prop := exists e, out = Err e.

(** What creation leaves: the pruned registry, perhaps with the sequence number spent, or with one
    session more. *)
Definition created (draws : nat -> option string) (now : Z) (r r' : AppSessionRegistry) (out : result Api.ApiError CachedResponse) : Prop :=
  let p := prune_expired now r in
  let seq := Z.min u64_max (next_seq r + 1) in
  (r' = p /\ is_err out) \/ (r' = mkSessions (sessions p) seq /\ is_err out) \/
  exists t, draw_token MAX_COOKIE_DRAWS 0 draws (sessions p) = Ok (Some t) /\
    len (filter (fun s => invalidated s = false) (sessions p)) < MAX_APP_SESSIONS /\
    r' = mkSessions (sessions p ++ [mkSession t (now + session_lifetime cfg) seq false 0]) seq.

Lemma create_cases draws now r :
  created draws now r (create_app_session cfg identity draws now r).1 (create_app_session cfg identity draws now r).2.
Proof.
  unfold created, create_app_session. set (p := prune_expired now r). change (next_seq r) with (next_seq p).
  destruct (Z.leb_spec MAX_APP_SESSIONS (len (filter (fun s => invalidated s = false) (sessions p)))) as [Hl|Hl]; [left; split; [done|by eexists]|].
  destruct (draw_token _ _ _ _) as [[t|]|] eqn:Ed; [|left; split; [done|by eexists]..].
  destruct (DURATION_MAX <? _); [right; left; split; [done|by eexists]|]. right. right. exists t.
  split; [done|]. split; [done|]. destruct (negb _); [done|]. by destruct (negb _).
Qed.

Lemma filter_none {A} (P : A -> Prop) `{!forall x, Decision (P x)} l : (forall x, x ∈ l -> ~ P x) -> filter P l = [].
Proof.
  induction l as [|x l IH]; intros Hl; [done|]. rewrite filter_cons, decide_False by (apply Hl; left).
  apply IH. intros y Hy. apply Hl. by right.
Qed.

Lemma AInv_spend a n : AInv a -> next_seq (registry a) <= n ->
  AInv (mkAuth (mkSessions (sessions (registry a)) n) (issued a) (logouts a) (clock a)).
Proof.
  intros [] Hn. constructor; cbn [registry issued logouts clock sessions next_seq]; auto.
  - intros s Hs. specialize (ai_seqs0 s Hs). lia.
  - intros i Hi. destruct (ai_issued_seqs0 i Hi). lia.
  - intros q Hq. specialize (ai_logout_seqs0 q Hq). lia.
Qed.

Lemma in_order_snoc l s : in_order l -> (forall t, t ∈ l -> issuance_seq t < issuance_seq s) -> in_order (l ++ [s]).
Proof.
  unfold in_order. rewrite fmap_app. induction l as [|t l IH]; simpl; intros Ho Hl.
  - constructor; constructor.
  - inversion Ho as [|? ? Hol HF]; subst. constructor; [apply IH; [done|]; intros u Hu; apply Hl; by right|].
    apply Forall_app. split; [done|]. constructor; [|done]. apply Hl. left.
Qed.

Lemma AInv_push a t now :
  AInv a -> now <= clock a -> String.length t = COOKIE_TOKEN_BYTES -> t ∉ (token <$> sessions (registry a)) ->
  len (filter (fun s => invalidated s = false) (sessions (registry a))) < MAX_APP_SESSIONS ->
  let seq := next_seq (registry a) + 1 in
  AInv (mkAuth (mkSessions (sessions (registry a) ++ [mkSession t (now + session_lifetime cfg) seq false 0]) seq)
          (issued a ++ [mkIssue seq t now]) (logouts a) (clock a)).
Proof.
  intros [] Hnow Hlen Hfresh Hlim seq. set (s := mkSession _ _ _ _ _). set (i := mkIssue _ _ _).
  assert (Hq : seq ∉ logouts a) by (intros Hq; specialize (ai_logout_seqs0 _ Hq); lia).
  constructor; cbn [registry issued logouts clock sessions next_seq].
  - apply in_order_snoc; [done|]. intros t' Ht'. specialize (ai_seqs0 t' Ht'). simpl. lia.
  - intros t' [Ht'|Ht'%list_elem_of_singleton]%elem_of_app; [specialize (ai_seqs0 t' Ht')|subst t'; simpl]; lia.
  - intros j [Hj|Hj%list_elem_of_singleton]%elem_of_app; [destruct (ai_issued_seqs0 j Hj)|subst j; simpl]; lia.
  - intros j k [Hj|Hj%list_elem_of_singleton]%elem_of_app [Hk|Hk%list_elem_of_singleton]%elem_of_app E; [by apply ai_distinct0| | |by subst].
    + destruct (ai_issued_seqs0 j Hj). subst k. simpl in E. lia.
    + destruct (ai_issued_seqs0 k Hk). subst j. simpl in E. lia.
  - intros t' [Ht'|Ht'%list_elem_of_singleton]%elem_of_app.
    + destruct (ai_issued0 t' Ht') as (j & Hj & ?). exists j. split; [apply elem_of_app; by left|done].
    + subst t'. exists i. split; [apply elem_of_app; right; left|done].
  - rewrite fmap_app. apply NoDup_app. split; [done|]. split; [|apply NoDup_singleton].
    intros x Hx Hx'%list_elem_of_singleton. by subst x.
  - intros t' [Ht'|Ht'%list_elem_of_singleton]%elem_of_app; [by apply ai_lengths0|by subst t'].
  - intros t' [Ht'|Ht'%list_elem_of_singleton]%elem_of_app; [by apply ai_logouts0|by subst t'].
  - intros q Hq'. specialize (ai_logout_seqs0 q Hq'). lia.
  - intros j (Hj & Hjq & Ht). cbn [issued] in Hj. apply elem_of_app in Hj as [Hj|Hj%list_elem_of_singleton].
    + destruct (ai_live0 j) as (s' & Hs' & ?); [done|]. exists s'. split; [apply elem_of_app; by left|done].
    + subst j. exists s. split; [apply elem_of_app; right; left|done].
  - rewrite filter_app, length_app. unfold len, MAX_APP_SESSIONS in *. simpl. lia.
Qed.

Lemma AInv_create a draws now :
  AInv a -> next_seq (registry a) < u64_max -> AInv (auth_step (ACreate draws now) a).
Proof.
  intros Ha Hseq. pose proof (AInv_prune a now Ha) as Hp. unfold auth_step.
  set (p := prune_expired now (registry a)) in *. set (c := Z.max (clock a) now) in *.
  assert (Hold : filter (fun s => next_seq (registry a) < issuance_seq s) (sessions p) = []).
  { apply filter_none. intros s Hs. pose proof (ai_seqs _ Hp s Hs) as Hle. cbn in Hle. lia. }
  destruct (create_cases draws now (registry a)) as [[-> _]|[[-> _]|(t & Ed & Hl & ->)]];
    fold p; try fold p in Ed; try fold p in Hl;
    rewrite ?Z.min_r by lia; cbn [sessions].
  - rewrite Hold, app_nil_r. done.
  - rewrite Hold, app_nil_r. apply (AInv_spend (mkAuth p (issued a) (logouts a) c)); [done|]. cbn. lia.
  - rewrite filter_app, Hold, filter_cons, decide_True by (cbn; lia). cbn [app fmap list_fmap].
    destruct (draw_token_spec _ _ _ _ _ (ai_lengths _ Hp) Ed) as (Hlen & Hfresh & _).
    apply (AInv_push (mkAuth p (issued a) (logouts a) c) t now); [done|subst c; cbn; lia|done..].
Qed.

Lemma auth_inv a : auth_reachable a -> AInv a.
Proof.
  induction 1 as [|a l _ IH Hok]; [apply AInv_init|]. destruct l.
  - by apply AInv_create.
  - by apply AInv_authenticate.
  - by apply AInv_logout.
  - by apply AInv_release.
  - by apply AInv_prune.
Qed.

(** ** Authentication *)

(** The condition of the matching loop. *)
Definition accepts (candidate : string) (valid : bool) (now : Z) (s : AppSession) : bool :=
  valid && fixed_token_eq (token s) candidate && negb (invalidated s) && (now <? expires_at s).

Lemma matched_spec candidate valid now l :
  match matched candidate valid now l with
  | Some i => exists s, l !! i = Some s /\ accepts candidate valid now s = true
  | None => forall s, s ∈ l -> accepts candidate valid now s = false
  end.
Proof.
  unfold matched. induction l as [|s l IH] using rev_ind; simpl; [by intros ? ?%not_elem_of_nil|].
  rewrite length_app, seq_app, zip_with_app, foldl_app by (by rewrite length_seq). simpl.
  fold (accepts candidate valid now s). destruct (accepts candidate valid now s) eqn:Ea.
  - exists s. split; [|done]. by rewrite lookup_app_r, Nat.sub_diag.
  - destruct (foldl _ _ _) as [i|].
    + destruct IH as (s' & Hs' & Ha). exists s'. split; [|done]. by apply lookup_app_l_Some.
    + intros s' [Hs'|Hs'%list_elem_of_singleton]%elem_of_app; [by apply IH|by subst s'].
Qed.

Lemma accepts_iff candidate valid now s :
  String.length (token s) = COOKIE_TOKEN_BYTES -> String.length candidate = COOKIE_TOKEN_BYTES ->
  accepts candidate valid now s = true <->
  valid = true /\ token s = candidate /\ invalidated s = false /\ now < expires_at s.
Proof.
  intros Hs Hc. unfold accepts. rewrite !andb_true_iff, negb_true_iff, Z.ltb_lt, fixed_token_eq_iff by congruence. tauto.
Qed.

Lemma cookie_part_length acc part :
  String.length acc.1.1 = COOKIE_TOKEN_BYTES -> String.length (cookie_part acc part).1.1 = COOKIE_TOKEN_BYTES.
Proof.
  destruct acc as [[candidate count] valid]. unfold cookie_part. simpl. intros Hc.
  destruct (split_pair _) as [[name value]|]; [|done]. destruct (negb _); [done|].
  destruct (Nat.eqb _ _) eqn:E; [by apply Nat.eqb_eq|done].
Qed.

Lemma parse_cookie_length headers : String.length (parse_cookie headers).1 = COOKIE_TOKEN_BYTES.
Proof.
  unfold parse_cookie. generalize (get_all "cookie" headers). intros values.
  assert (Hg : forall acc, String.length acc.1.1 = COOKIE_TOKEN_BYTES -> String.length
    (foldl (fun acc value => foldl cookie_part acc (split semicolon value)) acc values).1.1 = COOKIE_TOKEN_BYTES).
  { induction values as [|v values IH]; intros acc Ha; [done|]. simpl. apply IH. revert acc Ha.
    induction (split semicolon v) as [|x parts IHp]; intros acc Ha; [done|]. simpl. by apply IHp, cookie_part_length. }
  specialize (Hg (zero_token, 0, false) eq_refl). by destruct (foldl _ _ _) as [[candidate count] valid].
Qed.

(** What the lookup answers, in terms of the sessions held after pruning. *)
Lemma authenticate_result r headers now candidate valid :
  parse_cookie headers = (candidate, valid) ->
  match (authenticate_cookie headers now r).2 with
  | Ok lease => exists s, s ∈ sessions (prune_expired now r) /\ accepts candidate valid now s = true /\
                  lease = mkLease (token s) (issuance_seq s)
  | Err e => e = Api.authentication_required /\
             forall s, s ∈ sessions (prune_expired now r) -> accepts candidate valid now s = false
  end.
Proof.
  intros Hp. unfold authenticate_cookie. rewrite Hp. set (p := prune_expired now r).
  pose proof (matched_spec candidate valid now (sessions p)) as Hm. destruct (matched _ _ _ _) as [i|]; [|done].
  destruct Hm as (s & Hs & Ha). rewrite Hs. simpl. exists s. split; [by eapply list_elem_of_lookup_2|done].
Qed.

(** An accepted cookie is the token of a live session. *)
Lemma accepted_is_live a headers now candidate valid lease :
  auth_reachable a -> parse_cookie headers = (candidate, valid) ->
  (authenticate_cookie headers now (registry a)).2 = Ok lease ->
  valid = true /\ exists i, live a now i /\ is_token i = candidate /\ lease = mkLease (is_token i) (is_seq i).
Proof.
  intros Ha%auth_inv Hp Hok. pose proof (AInv_prune a now Ha) as Hpr.
  pose proof (authenticate_result (registry a) headers now candidate valid Hp) as Hr. rewrite Hok in Hr.
  assert (Hc : String.length candidate = COOKIE_TOKEN_BYTES) by (rewrite <- (parse_cookie_length headers); by rewrite Hp).
  destruct Hr as (s & Hs & Hacc & ->). apply accepts_iff in Hacc as (Hv & Ht & Hi & Hx); [|by apply Hpr|done].
  split; [done|]. destruct (ai_issued _ Hpr s Hs) as (i & Hin & E1 & E2 & E3). exists i. rewrite <- E1, <- E2.
  split; [|done]. split; [done|]. split; [|lia]. intros Hq. rewrite <- E1 in Hq.
  pose proof (ai_logouts _ Hpr s Hs Hq). congruence.
Qed.

(** C19: Cookie authentication is exact in every state the registry reaches, whatever sessions were
    created, used, logged out and released before: it accepts a request only when its one well-formed
    cookie carries the token of a session that was issued, was not logged out and has not expired, and
    the lease names that session; it refuses, always with [authentication_required], only when no
    session that is live at the latest clock reading has that token. *)
Theorem authentication_is_exact a headers now candidate valid :
  auth_reachable a -> parse_cookie headers = (candidate, valid) ->
  match (authenticate_cookie headers now (registry a)).2 with
  | Ok lease => valid = true /\
      exists i, live a now i /\ is_token i = candidate /\ lease = mkLease (is_token i) (is_seq i)
  | Err e => e = Api.authentication_required /\
      (valid = true -> forall i, live a (Z.max (clock a) now) i -> is_token i <> candidate)
  end.
Proof.
  intros Hreach Hp. pose proof (auth_inv a Hreach) as Ha. pose proof (AInv_prune a now Ha) as Hpr.
  pose proof (authenticate_result (registry a) headers now candidate valid Hp) as Hr.
  assert (Hc : String.length candidate = COOKIE_TOKEN_BYTES) by (rewrite <- (parse_cookie_length headers); by rewrite Hp).
  destruct (authenticate_cookie headers now (registry a)).2 as [lease|e] eqn:Eok.
  - by apply (accepted_is_live a headers).
  - destruct Hr as [-> Hr]. split; [done|]. intros Hv i (Hin & Hq & Hx) Ht.
    destruct (ai_live _ Hpr i) as (s & Hs & (E1 & E2 & E3) & Hi); [done|].
    specialize (Hr s Hs). apply not_true_iff_false in Hr. apply Hr, accepts_iff; [by apply Hpr|done|].
    split_and!; [done|congruence|done|lia].
Qed.

(** At most four operator sessions are live at any time: however sessions are created, any distinct
    issued sessions that are neither logged out nor expired at the latest clock reading number at most
    [MAX_APP_SESSIONS]. *)
Theorem live_sessions_bounded a (l : list Issue) :
  auth_reachable a -> NoDup l -> Forall (live a (clock a)) l -> (length l <= 4)%nat.
Proof.
  intros Ha%auth_inv Hn Hl. pose proof (ai_limit _ Ha) as Hlim. unfold MAX_APP_SESSIONS in Hlim.
  set (held := filter (fun s => invalidated s = false) (sessions (registry a))) in *.
  assert (Hsub : (is_seq <$> l) ⊆ (issuance_seq <$> held)).
  { intros q (i & -> & Hi)%list_elem_of_fmap. rewrite Forall_forall in Hl.
    destruct (ai_live _ Ha i (Hl i Hi)) as (s & Hs & (E & _) & Hv). rewrite <- E.
    apply list_elem_of_fmap_2, list_elem_of_filter. done. }
  assert (Hnd : NoDup (is_seq <$> l)).
  { clear Hsub. induction Hn as [|i l Hni Hn IH]; [constructor|]. apply Forall_cons in Hl as [Hi Hl].
    simpl. constructor; [|by apply IH]. intros (j & E & Hj)%list_elem_of_fmap. apply Hni.
    rewrite Forall_forall in Hl. destruct (Hl j Hj) as [Hj' _]. destruct Hi as [Hi' _].
    by rewrite (ai_distinct _ Ha i j). }
  pose proof (submseteq_length _ _ (NoDup_submseteq _ _ Hnd Hsub)) as Hlen. rewrite !length_fmap in Hlen. lia.
Qed.

(** ** The issued cookie *)

(** No byte of the text separates or trims cookies. *)
Definition cookie_clean (s : string) : Prop :=
  Forall (fun c => c <> semicolon /\ is_space c = false) (String.list_ascii_of_string s).

Lemma split_clean s : cookie_clean s -> split semicolon s = [s].
Proof.
  unfold cookie_clean. induction s as [|c s IH]; simpl; [done|]. intros [[Hc _] Hs]%Forall_cons.
  rewrite IH by done. destruct (Ascii.eqb_spec c semicolon); done.
Qed.

Lemma trim_clean s : cookie_clean s -> trim_ascii_space s = s.
Proof.
  intros Hs. unfold trim_ascii_space, trim_of.
  assert (trim_start_of is_space s = s) as ->.
  { destruct s; simpl; [done|]. apply Forall_cons in Hs as [[_ ->] _]. done. }
  induction s as [|c s IH]; simpl; [done|]. apply Forall_cons in Hs as [[_ Hc] Hs].
  rewrite IH by done. destruct s; [by rewrite Hc|done].
Qed.

Definition cookie_pair (t : string) : string := (COOKIE_NAME ++ "=" ++ t)%string.

Lemma parse_issued t : String.length t = COOKIE_TOKEN_BYTES -> cookie_clean t ->
  parse_cookie [("cookie", cookie_pair t)] = (t, true).
Proof.
  intros Hl Ht. unfold parse_cookie. change (get_all "cookie" _) with [cookie_pair t]. cbn [foldl].
  assert (Hc : cookie_clean (cookie_pair t)).
  { unfold cookie_clean, cookie_pair, COOKIE_NAME. cbn [String.append String.list_ascii_of_string].
    repeat (constructor; [by split; vm_compute|]). exact Ht. }
  rewrite split_clean by done. cbn [foldl]. unfold cookie_part. rewrite trim_clean by done.
  replace (split_pair (cookie_pair t)) with (Some (COOKIE_NAME, t)) by done.
  rewrite String.eqb_refl, Hl. done.
Qed.

Lemma token_unique l s t : NoDup (token <$> l) -> s ∈ l -> t ∈ l -> token s = token t -> s = t.
Proof.
  intros Hn (i & Hi)%list_elem_of_lookup (j & Hj)%list_elem_of_lookup E.
  assert (i = j) as -> by (eapply (NoDup_lookup _ i j (token s)); [exact Hn|by rewrite list_lookup_fmap, Hi|rewrite list_lookup_fmap, Hj; simpl; by rewrite E]).
  congruence.
Qed.

(** A held session that is valid at [now] authenticates its token. *)
Lemma authenticate_held a headers now s :
  AInv a -> parse_cookie headers = (token s, true) ->
  s ∈ sessions (registry a) -> invalidated s = false -> now < expires_at s ->
  (authenticate_cookie headers now (registry a)).2 = Ok (mkLease (token s) (issuance_seq s)).
Proof.
  intros Ha Hp Hs Hi Hx. pose proof (AInv_prune a now Ha) as Hpr.
  pose proof (authenticate_result (registry a) headers now _ _ Hp) as Hres.
  destruct (narrows_forth _ _ _ s (prune_narrows now (registry a) (ai_order _ Ha)) Hs Hi) as (s' & Hs' & (E1 & E2 & E3) & E4);
    [lia|].
  assert (Hlen := ai_lengths _ Ha s Hs).
  assert (Hacc : forall u, u ∈ sessions (prune_expired now (registry a)) ->
            accepts (token s) true now u = true <-> true = true /\ token u = token s /\ invalidated u = false /\ now < expires_at u).
  { intros u Hu. apply accepts_iff; [by apply Hpr|done]. }
  destruct (authenticate_cookie headers now (registry a)).2 as [lease|e].
  - destruct Hres as (u & Hu & (_ & Ht & _)%Hacc & ->); [|done].
    assert (u = s') as -> by (eapply token_unique; [apply Hpr|done|done|congruence]). congruence.
  - destruct Hres as [_ Hno]. specialize (Hno s' Hs'). apply not_true_iff_false in Hno. exfalso. apply Hno, Hacc; [done|].
    split_and!; [done|done|done|lia].
Qed.

(** The cookie a bootstrap response sets works until it expires: when creation answers with a
    response, its [set-cookie] header carries a token such that a request bringing that cookie back
    before the lifetime has passed is authenticated, as the session just issued.  The base64 alphabet
    has neither blanks nor semicolons. *)
Theorem issued_cookie_authenticates a draws now response :
  auth_reachable a -> next_seq (registry a) < u64_max -> (forall random, cookie_clean (encode random)) ->
  (create_app_session cfg identity draws now (registry a)).2 = Ok response ->
  let r := (create_app_session cfg identity draws now (registry a)).1 in
  exists t, ("set-cookie", session_cookie t (as_secs (session_lifetime cfg))) ∈ rs_headers response /\
    forall now', now' < now + session_lifetime cfg ->
      (authenticate_cookie [("cookie", cookie_pair t)] now' r).2 = Ok (mkLease t (next_seq r)).
Proof.
  intros Ha%auth_inv Hseq Henc Hok. pose proof (AInv_create a draws now Ha Hseq) as Hc.
  pose proof (AInv_prune a now Ha) as Hp.
  destruct (create_cases draws now (registry a)) as [[_ [e He]]|[[_ [e He]]|(t & Ed & Hl & Hr)]]; [congruence..|].
  destruct (draw_token_spec _ _ _ _ _ (ai_lengths _ Hp) Ed) as (Hlen & Hfresh & random & Erandom).
  assert (Hclean : cookie_clean t) by (rewrite Erandom; apply Henc).
  exists t. split.
  - clear - Hok Hl Ed. revert Hok. unfold create_app_session.
    rewrite (proj2 (Z.leb_gt _ _)) by exact Hl. rewrite Ed.
    destruct (DURATION_MAX <? _); [done|]. destruct (negb _); [done|]. destruct (negb _); [done|].
    cbn [snd]. unfold bootstrap. destruct (response_json _ _) as [x|]; [|done]. intros [= <-].
    apply elem_of_app. right. left.
  - intros now' Hnow. unfold auth_step in Hc. rewrite Hr in Hc |- *.
    refine (authenticate_held _ _ _ (mkSession t (now + session_lifetime cfg)
              (Z.min u64_max (next_seq (registry a) + 1)) false 0) Hc _ _ _ _); [| |done|done].
    + by apply parse_issued.
    + apply elem_of_app. right. left.
Qed.
End Claims.

(** ** A concrete registry *)
Module Witness.
#[local] Instance serde : SerdeJson := {| to_vec := fun _ => Some ""; error_to_vec := fun _ => Some "" |}.
(** Entropy is taken as already encoded text. *)
Definition to_dash (c : Ascii.ascii) : Ascii.ascii :=
  if Ascii.eqb c semicolon || is_space c then Ascii.ascii_of_nat 45 else c.
Fixpoint dashes (s : string) : string :=
  match s with EmptyString => EmptyString | String c s => String (to_dash c) (dashes s) end.
#[local] Instance crates : Crates := {| encode := dashes; header_value_ok := fun _ => true |}.

Definition cfg : P0HttpConfig :=
  P0HttpConfig_new (mkOrigin "https://codebox.example") (mkToken [] 0).
Definition identity : P0SessionIdentity :=
  {| SessionTypes.session_id := mkId 7; instance_id := mkInstance 8 |}.
Definition tok : string := "0123456789012345678901234567890123456789abc".
Definition draws : nat -> option string := fun _ => Some tok.
Definition one : Auth := auth_step cfg identity (ACreate draws 5) auth_init.

Lemma one_reachable : auth_reachable cfg identity one.
Proof. apply ar_step; [constructor|done]. Qed.

Lemma dashes_clean s : cookie_clean (dashes s).
Proof.
  unfold cookie_clean. induction s as [|c s IH]; simpl; constructor; [|done]. unfold to_dash.
  destruct (Ascii.eqb_spec c semicolon); [by split|]. simpl. by destruct (is_space c) eqn:E.
Qed.
End Witness.

Lemma authentication_is_exact_witness :
  (authenticate_cookie [("cookie", cookie_pair Witness.tok)] 6 (registry Witness.one)).2 = Ok (mkLease Witness.tok 1) /\
  exists i, live Witness.cfg Witness.one 6 i /\ is_token i = Witness.tok.
Proof.
  assert (E : (authenticate_cookie [("cookie", cookie_pair Witness.tok)] 6 (registry Witness.one)).2
              = Ok (mkLease Witness.tok 1)) by (vm_compute; reflexivity).
  split; [exact E|].
  pose proof (@authentication_is_exact Witness.serde Witness.crates Witness.cfg Witness.identity Witness.one
    [("cookie", cookie_pair Witness.tok)] 6 Witness.tok true Witness.one_reachable ltac:(vm_compute; reflexivity)) as T.
  rewrite E in T. destruct T as (_ & i & Hi & Ht & _). exists i. split; assumption.
Defined.

Lemma live_sessions_bounded_witness : (length [mkIssue 1 Witness.tok 5] <= 4)%nat.
Proof.
  refine (@live_sessions_bounded Witness.serde Witness.crates Witness.cfg Witness.identity Witness.one _ Witness.one_reachable _ _).
  - apply NoDup_singleton.
  - constructor; [|constructor]. split; [vm_compute; left|]. split; [apply not_elem_of_nil|vm_compute; reflexivity].
Defined.

Lemma issued_cookie_authenticates_witness : exists response,
  (@create_app_session Witness.serde Witness.crates Witness.cfg Witness.identity Witness.draws 5 (registry auth_init)).2 = Ok response /\
  exists t, forall now', now' < 5 + session_lifetime Witness.cfg ->
    (authenticate_cookie [("cookie", cookie_pair t)] now'
      (@create_app_session Witness.serde Witness.crates Witness.cfg Witness.identity Witness.draws 5 (registry auth_init)).1).2
    = Ok (mkLease t 1).
Proof.
  eexists. split; [vm_compute; reflexivity|].
  destruct (@issued_cookie_authenticates Witness.serde Witness.crates Witness.cfg Witness.identity auth_init Witness.draws 5 _
    (ar_init _ _) ltac:(reflexivity) Witness.dashes_clean ltac:(vm_compute; reflexivity)) as (t & _ & Ht).
  exists t. exact Ht.
Defined.
