(* ===== verification/Shutdown.v ===== *)
(** * Shutdown of the control plane

    Models the lifecycle of [apps/control-plane/src/state.rs]: admission of operations, draining, the
    election of one shutdown leader with its followers on a condition variable, the cleanup of the lower
    runtimes and of the registries, and the completion every caller sees.  Each critical section of the
    lifecycle lock is one step; a caller of [shutdown] is a program counter, and [Condvar::wait] is a
    caller asleep until [notify_all] or a spurious wakeup. *)
From S2P Require Import Prelude DomainValues CloudTypes SessionTypes LoginTypes CloudAdapter HttpTypes Idempotency HttpConfig AppSessions.
From stdpp Require Import base numbers list gmap strings sets.
From Stdlib Require Import ZArith Lia.
Import Ids Str.

Open Scope Z_scope.

Module Shutdown.

Definition Outcome : Type := result Api.P0HttpShutdownErrorCategory unit.

Inductive ShutdownPhase := Running | Draining | Complete (outcome : Outcome).

Record LifecycleState := mkLife { phase : ShutdownPhase; active : Z }.

Definition lifecycle_default : LifecycleState := mkLife Running 0.

Definition is_running (l : LifecycleState) : bool :=
  match phase l with Running => true | _ => false end.

Definition admit_operation (l : LifecycleState) : LifecycleState * result Api.ApiError unit :=
  if is_running l then (mkLife (phase l) (usize_saturating_add (active l) 1), Ok tt)
  else (l, Err Api.service_unavailable).

(** [Drop] of an [ActiveOperation]; the condition variable is notified. *)
Definition drop_operation (l : LifecycleState) : LifecycleState := mkLife (phase l) (Z.max 0 (active l - 1)).

(** The condition variable is notified. *)
Definition force_complete (outcome : Outcome) (l : LifecycleState) : LifecycleState := mkLife (Complete outcome) (active l).

(** ** [begin_shutdown] *)

Inductive ShutdownRole := Leader | Completed (outcome : Outcome).

(** Where a caller waits: in the draining loop or in the outer loop. *)
Inductive WaitPoint := AwaitDrain | AwaitDone.

(** One turn of the lock: the caller sleeps, or has its role. *)
Inductive Begin := BWait (at_point : WaitPoint) | BRole (role : ShutdownRole).

Definition drain (l : LifecycleState) : LifecycleState * Begin :=
  if active l =? 0 then (l, BRole Leader) else (l, BWait AwaitDrain).

Definition begin_top (l : LifecycleState) : LifecycleState * Begin :=
  match phase l with
  | Running => drain (mkLife Draining (active l))
  | Draining => (l, BWait AwaitDone)
  | Complete outcome => (l, BRole (Completed outcome))
  end.

(** After a wakeup. *)
Definition begin_resume (at_point : WaitPoint) (l : LifecycleState) : LifecycleState * Begin :=
  match at_point with AwaitDrain => drain l | AwaitDone => begin_top l end.

(** ** [shutdown_blocking] *)

Definition cleanup_outcome (session_ok login_ok : bool) : Outcome :=
  if negb session_ok then Err Api.Session
  else if negb login_ok then Err Api.Login
  else Ok tt.

(** [sessions.sessions.clear()]. *)
Definition clear_sessions (r : AppSessionRegistry) : AppSessionRegistry := mkSessions [] (next_seq r).

(** A caller of [shutdown]: not started, asleep or woken, the leader before each of its actions, or
    returned. *)
Inductive Caller :=
| Start
| Waiting (at_point : WaitPoint) (woken : bool)
| Leading
| ClearSessions (outcome : Outcome)
| ClearIdempotency (outcome : Outcome)
| Finish (outcome : Outcome)
| Returned (outcome : Outcome).

Definition caller_of (b : Begin) : Caller :=
  match b with
  | BWait w => Waiting w false
  | BRole Leader => Leading
  | BRole (Completed outcome) => Returned outcome
  end.

(** [notify_all]. *)
Definition wake (c : Caller) : Caller := match c with Waiting w _ => Waiting w true | c => c end.

(** ** The control plane and its callers *)

(** [tickets] counts the [ActiveOperation]s alive, [leases] the session leases not yet dropped;
    [cleanups] counts the cleanups of the lower runtimes that were started and [broken] records a worker that failed. *)
Record Sys := mkSys {
  life : LifecycleState; app : AppSessionRegistry; idem : Idem.Registry;
  tickets : nat; leases : list Z; callers : list Caller; cleanups : nat; broken : bool }.

Definition sys_init : Sys := mkSys lifecycle_default registry_empty Idem.registry_default 0 [] [] 0 false.

Definition with_callers (cs : list Caller) (s : Sys) : Sys :=
  mkSys (life s) (app s) (idem s) (tickets s) (leases s) cs (cleanups s) (broken s).
Definition with_life (l : LifecycleState) (s : Sys) : Sys :=
  mkSys l (app s) (idem s) (tickets s) (leases s) (callers s) (cleanups s) (broken s).

(** Steps of the requests: admission, work under an admission, the end of an operation, cookie
    authentication (which comes before admission) and the drop of its lease. *)
Inductive request_step : Sys -> Sys -> Prop :=
| rs_admit s l : Z.of_nat (tickets s) < u64_max -> admit_operation (life s) = (l, Ok tt) ->
    request_step s (mkSys l (app s) (idem s) (S (tickets s)) (leases s) (callers s) (cleanups s) (broken s))
| rs_work s app' idem' : (0 < tickets s)%nat ->
    request_step s (mkSys (life s) app' idem' (tickets s) (leases s) (callers s) (cleanups s) (broken s))
| rs_authenticate s headers now lease : (authenticate_cookie headers now (app s)).2 = Ok lease ->
    request_step s (mkSys (life s) (authenticate_cookie headers now (app s)).1 (idem s) (tickets s)
                      (lease_seq lease :: leases s) (callers s) (cleanups s) (broken s))
| rs_refused s headers now e : (authenticate_cookie headers now (app s)).2 = Err e ->
    request_step s (mkSys (life s) (authenticate_cookie headers now (app s)).1 (idem s) (tickets s)
                      (leases s) (callers s) (cleanups s) (broken s))
| rs_release s before q after : leases s = before ++ q :: after ->
    request_step s (mkSys (life s) (release_app_session q (app s)).1
                      (if (release_app_session q (app s)).2 then Idem.release_auth_session q (idem s) else idem s)
                      (tickets s) (before ++ after) (callers s) (cleanups s) (broken s)).

(** The end of an operation. *)
Inductive drop_step : Sys -> Sys -> Prop :=
| ds_drop s n : tickets s = S n ->
    drop_step s (mkSys (drop_operation (life s)) (app s) (idem s) n (leases s) (wake <$> callers s) (cleanups s) (broken s)).

(** Steps of the shutdown callers. *)
Inductive caller_step : Sys -> Sys -> Prop :=
| cs_begin s i l b : callers s !! i = Some Start -> begin_top (life s) = (l, b) ->
    caller_step s (with_life l (with_callers (<[i := caller_of b]> (callers s)) s))
| cs_resume s i w l b : callers s !! i = Some (Waiting w true) -> begin_resume w (life s) = (l, b) ->
    caller_step s (with_life l (with_callers (<[i := caller_of b]> (callers s)) s))
| cs_cleanup s i session_ok login_ok : callers s !! i = Some Leading ->
    caller_step s (mkSys (life s) (app s) (idem s) (tickets s) (leases s)
      (<[i := ClearSessions (cleanup_outcome session_ok login_ok)]> (callers s)) (S (cleanups s)) (broken s))
| cs_sessions s i o : callers s !! i = Some (ClearSessions o) ->
    caller_step s (mkSys (life s) (clear_sessions (app s)) (idem s) (tickets s) (leases s)
      (<[i := ClearIdempotency o]> (callers s)) (cleanups s) (broken s))
| cs_idempotency s i o : callers s !! i = Some (ClearIdempotency o) ->
    caller_step s (mkSys (life s) (app s) (Idem.clear (idem s)) (tickets s) (leases s)
      (<[i := Finish o]> (callers s)) (cleanups s) (broken s))
| cs_finish s i o : callers s !! i = Some (Finish o) ->
    caller_step s (with_life (force_complete o (life s))
                     (with_callers (wake <$> <[i := Returned o]> (callers s)) s)).

(** What the environment does: a new caller, a spurious wakeup, a worker the runtime does not run or
    whose port panics, which [shutdown] answers by forcing completion. *)
Inductive env_step : Sys -> Sys -> Prop :=
| es_call s : env_step s (with_callers (callers s ++ [Start]) s)
| es_spurious s i w : callers s !! i = Some (Waiting w false) ->
    env_step s (with_callers (<[i := Waiting w true]> (callers s)) s)
| es_worker_failed s i c : callers s !! i = Some c -> c = Start \/ c = Leading ->
    env_step s (mkSys (force_complete (Err Api.Worker) (life s)) (app s) (idem s) (tickets s) (leases s)
      (wake <$> <[i := Returned (Err Api.Worker)]> (callers s))
      (match c with Leading => S (cleanups s) | _ => cleanups s end) true).

Definition internal_step (s s' : Sys) : Prop := drop_step s s' \/ caller_step s s'.
Definition step (s s' : Sys) : Prop := request_step s s' \/ internal_step s s' \/ env_step s s'.

Inductive reachable : Sys -> Prop :=
| r_init : reachable sys_init
| r_step s s' : reachable s -> step s s' -> reachable s'.
End Shutdown.
