(* ===== verification/ShutdownClaims.v ===== *)
(** * One orderly shutdown

    The invariant of the system of [Shutdown] and what it gives: one cleanup, after every admitted
    operation has ended, one outcome for all callers, and no caller left asleep. *)
From S2P Require Import Prelude DomainValues CloudTypes SessionTypes LoginTypes CloudAdapter HttpTypes Idempotency HttpConfig AppSessions Shutdown.
From stdpp Require Import base numbers list gmap strings sets.
From Stdlib Require Import ZArith Lia.
Import Ids Str Shutdown.

Open Scope Z_scope.

(** ** Counting callers *)

Definition total (f : Caller -> nat) (cs : list Caller) : nat := sum_list_with f cs.

Lemma total_insert f cs i c c' : cs !! i = Some c -> (total f (<[i := c']> cs) + f c = total f cs + f c')%nat.
Proof.
  unfold total. revert i. induction cs as [|d cs IH]; intros [|i] Hi; simpl in *; try done; [simplify_eq; lia|].
  specialize (IH i Hi). lia.
Qed.

Lemma total_map f g cs : (forall c, f (g c) = f c) -> total f (g <$> cs) = total f cs.
Proof. intros Hg. unfold total. induction cs as [|c cs IH]; simpl; [done|]. f_equal; [apply Hg|exact IH]. Qed.

Lemma total_elem f cs c : c ∈ cs -> (f c <= total f cs)%nat.
Proof. unfold total. induction 1 as [|? ? ? _ IH]; simpl; lia. Qed.

Lemma total_zero f cs : (forall c, c ∈ cs -> f c = 0%nat) -> total f cs = 0%nat.
Proof.
  unfold total. induction cs as [|c cs IH]; intros Hc; simpl; [done|]. rewrite (Hc c) by left. apply IH.
  intros d Hd. apply Hc. by right.
Qed.

Definition to_lead (c : Caller) : nat :=
  match c with Waiting AwaitDrain _ | Leading => 1 | _ => 0 end.
Definition cleaned (c : Caller) : nat :=
  match c with ClearSessions _ | ClearIdempotency _ | Finish _ => 1 | _ => 0 end.

(** ** The invariant *)

Definition emptied (app : AppSessionRegistry) (idem : Idem.Registry) : Prop :=
  sessions app = [] /\ Idem.entries idem = ∅.

Definition caller_ok (l : LifecycleState) (app : AppSessionRegistry) (idem : Idem.Registry) (broken : bool) (c : Caller) : Prop :=
  match c with
  | Start => True
  | Waiting AwaitDrain woken => phase l <> Running /\ (woken = false -> active l <> 0)
  | Waiting AwaitDone woken => phase l <> Running /\ (woken = false -> phase l = Draining)
  | Leading | ClearSessions _ => phase l <> Running /\ active l = 0
  | ClearIdempotency _ => phase l <> Running /\ active l = 0 /\ sessions app = []
  | Finish _ => phase l <> Running /\ active l = 0 /\ emptied app idem
  | Returned o => phase l <> Running /\ phase l <> Draining /\ (broken = false -> phase l = Complete o)
  end.

Record SInv (s : Sys) : Prop := {
  si_active : active (life s) = Z.of_nat (tickets s) /\ Z.of_nat (tickets s) <= u64_max;
  si_callers : Forall (caller_ok (life s) (app s) (idem s) (broken s)) (callers s);
  si_once : (total to_lead (callers s) + cleanups s <= 1)%nat /\ (total to_lead (callers s) + total cleaned (callers s) <= 1)%nat;
  si_phase :
    match phase (life s) with
    | Running => broken s = false /\ cleanups s = 0%nat
    | Draining => broken s = false /\ (total to_lead (callers s) + cleanups s = 1)%nat /\
                  (total to_lead (callers s) + total cleaned (callers s) = 1)%nat
    | Complete o => broken s = false ->
        total to_lead (callers s) = 0%nat /\ total cleaned (callers s) = 0%nat /\ cleanups s = 1%nat /\
        active (life s) = 0 /\ emptied (app s) (idem s)
    end }.

Lemma SInv_init : SInv sys_init.
Proof. split; simpl; [|apply Forall_nil_2| |done]; unfold total; simpl; unfold u64_max; lia. Qed.

(** ** The requests *)

Lemma authenticate_emptied headers now r : sessions r = [] -> sessions (authenticate_cookie headers now r).1 = [].
Proof.
  intros Hr. unfold authenticate_cookie. destruct (parse_cookie headers). unfold prune_expired. rewrite Hr. done.
Qed.

Lemma release_emptied q r : sessions r = [] -> (release_app_session q r) = (r, true).
Proof. intros Hr. unfold release_app_session. by rewrite Hr. Qed.

Lemma release_idem_emptied q r : Idem.entries r = ∅ -> Idem.entries (Idem.release_auth_session q r) = ∅.
Proof. intros Hr. unfold Idem.release_auth_session, Idem.remove_all. by rewrite Hr, map_to_list_empty. Qed.

(** The registries may change as long as an emptied one stays so. *)
Lemma SInv_registries s app' idem' leases' :
  SInv s -> (active (life s) = 0 -> sessions (app s) = [] -> sessions app' = []) ->
  (active (life s) = 0 -> emptied (app s) (idem s) -> emptied app' idem') ->
  SInv (mkSys (life s) app' idem' (tickets s) leases' (callers s) (cleanups s) (broken s)).
Proof.
  intros [] Hs He. constructor; cbn [life app idem tickets leases callers cleanups broken]; auto.
  - eapply Forall_impl; [exact si_callers0|]. intros [|[] ?| | | | |]; simpl; intuition.
  - destruct (phase (life s)); [done..|]. intuition.
Qed.

Lemma SInv_request s s' : SInv s -> request_step s s' -> SInv s'.
Proof.
  intros Hs Hr. destruct Hr as [s l Ht Ha|s app' idem' Ht|s headers now lease _|s headers now e _|s before q after _].
  - destruct Hs as [[Hact Hle] Hc Ho Hp]. unfold admit_operation, is_running in Ha.
    destruct (phase (life s)) eqn:Eph; [|done..]. injection Ha as <-.
    constructor; cbn [life app idem tickets leases callers cleanups broken phase active]; [| |done|done].
    + rewrite Hact. unfold usize_saturating_add, usize_max, u64_max in *. lia.
    + eapply Forall_impl; [exact Hc|]. intros c Hc'. unfold caller_ok in *. rewrite Eph in Hc'.
      destruct c as [|[] ?| | | | |]; simpl; intuition.
  - apply SInv_registries; [done|..]; destruct Hs as [[Hact _] _ _ _]; lia.
  - apply SInv_registries; [done|intros _; apply authenticate_emptied|].
    intros _ [? ?]. split; [by apply authenticate_emptied|done].
  - apply SInv_registries; [done|intros _; apply authenticate_emptied|].
    intros _ [? ?]. split; [by apply authenticate_emptied|done].
  - apply SInv_registries; [done|intros _ He; by rewrite release_emptied|].
    intros _ [He ?]. rewrite release_emptied by done. split; [done|]. by apply release_idem_emptied.
Qed.

(** ** Draining *)

Lemma wake_counts c : to_lead (wake c) = to_lead c /\ cleaned (wake c) = cleaned c.
Proof. by destruct c as [|[] ?| | | | |]. Qed.

Lemma SInv_drop s s' : SInv s -> drop_step s s' -> SInv s'.
Proof.
  intros [[Hact Hle] Hc Ho Hp] Hd. destruct Hd as [s n Hn]. rewrite Hn in *.
  constructor; cbn [life app idem tickets leases callers cleanups broken drop_operation phase active];
    rewrite ?(total_map to_lead wake), ?(total_map cleaned wake) by apply wake_counts.
  - lia.
  - apply Forall_fmap. eapply Forall_impl; [exact Hc|]. intros [|[] ?| | | | |]; simpl; intuition lia.
  - done.
  - destruct (phase (life s)); [done..|]. intuition lia.
Qed.

(** ** The callers *)

(** One caller moves on and nothing else changes. *)
Lemma SInv_move s i c c' :
  SInv s -> callers s !! i = Some c -> to_lead c' = to_lead c -> cleaned c' = cleaned c ->
  caller_ok (life s) (app s) (idem s) (broken s) c' -> SInv (with_callers (<[i := c']> (callers s)) s).
Proof.
  intros [] Hi Hl Hcl Hok.
  pose proof (total_insert to_lead (callers s) i c c' Hi). pose proof (total_insert cleaned (callers s) i c c' Hi).
  constructor; cbn [life app idem tickets leases callers cleanups broken with_callers].
  - done.
  - by apply Forall_insert.
  - lia.
  - destruct (phase (life s)); [done|intuition lia|]. intros Hb.
    destruct (si_phase0 Hb) as (? & ? & ?). split; [lia|split; [lia|done]].
Qed.

Lemma caller_at s i c : SInv s -> callers s !! i = Some c -> caller_ok (life s) (app s) (idem s) (broken s) c.
Proof. intros Hs Hi. eapply Forall_lookup_1; [apply (si_callers _ Hs)|exact Hi]. Qed.

(** While the control plane runs no caller of [shutdown] has started. *)
Lemma running_callers s c : SInv s -> phase (life s) = Running -> c ∈ callers s -> c = Start.
Proof.
  intros Hs Hp Hc. pose proof (proj1 (Forall_forall _ _) (si_callers _ Hs) c Hc) as Hok. unfold caller_ok in Hok.
  destruct c as [|[] ?| | | | |]; intuition.
Qed.

Lemma SInv_lead s i : SInv s -> callers s !! i = Some Start -> phase (life s) = Running ->
  let lb := drain (mkLife Draining (active (life s))) in
  SInv (with_life lb.1 (with_callers (<[i := caller_of lb.2]> (callers s)) s)).
Proof.
  intros Hs Hi Hp. pose proof (fun c => running_callers s c Hs Hp) as Hall. destruct Hs as [Hact Hc Ho Hph].
  rewrite Hp in Hph. destruct Hph as [Hb Hcl].
  assert (Hz : forall f, f Start = 0%nat -> total f (callers s) = 0%nat).
  { intros f Hf. apply total_zero. intros c Hin. by rewrite (Hall c Hin). }
  set (lb := drain _).
  assert (Hlb : lb.1 = mkLife Draining (active (life s)) /\ to_lead (caller_of lb.2) = 1%nat /\
                cleaned (caller_of lb.2) = 0%nat /\ caller_ok lb.1 (app s) (idem s) (broken s) (caller_of lb.2)).
  { subst lb. unfold drain. cbn [active]. destruct (Z.eqb_spec (active (life s)) 0); simpl; split_and!; done. }
  destruct Hlb as (E & H1 & H2 & Hok).
  pose proof (total_insert to_lead (callers s) i Start (caller_of lb.2) Hi) as T1.
  pose proof (total_insert cleaned (callers s) i Start (caller_of lb.2) Hi) as T2.
  rewrite Hz in T1, T2 by done. simpl in T1, T2. rewrite H1 in T1. rewrite H2 in T2.
  constructor; cbn [life app idem tickets leases callers cleanups broken with_callers with_life].
  - rewrite E. done.
  - apply Forall_insert; [|done]. apply Forall_forall. intros c Hin. by rewrite (Hall c Hin).
  - lia.
  - rewrite E. cbn [phase]. split; [done|]. lia.
Qed.

Lemma SInv_begin s i c l b : SInv s -> callers s !! i = Some c -> to_lead c = 0%nat -> cleaned c = 0%nat ->
  (phase (life s) = Running -> c = Start) -> begin_top (life s) = (l, b) ->
  SInv (with_life l (with_callers (<[i := caller_of b]> (callers s)) s)).
Proof.
  intros Hs Hi Hl Hcl Hrun Hb. unfold begin_top in Hb. destruct (phase (life s)) as [| |o] eqn:Ep.
  - rewrite Hrun in Hi by done. pose proof (SInv_lead s i Hs Hi Ep) as HL. cbv zeta in HL. by rewrite Hb in HL.
  - injection Hb as <- <-. refine (SInv_move s i c _ Hs Hi _ _ _); [done..|]. simpl. by rewrite Ep.
  - injection Hb as <- <-. refine (SInv_move s i c _ Hs Hi _ _ _); [done..|]. simpl. by rewrite Ep.
Qed.

Lemma SInv_resume s i w l b : SInv s -> callers s !! i = Some (Waiting w true) -> begin_resume w (life s) = (l, b) ->
  SInv (with_life l (with_callers (<[i := caller_of b]> (callers s)) s)).
Proof.
  intros Hs Hi Hb. pose proof (caller_at s i _ Hs Hi) as Hok. destruct w; simpl in Hok; destruct Hok as [Hph _].
  - unfold begin_resume, drain in Hb. destruct (Z.eqb_spec (active (life s)) 0) as [E|E]; injection Hb as <- <-;
      (refine (SInv_move s i _ _ Hs Hi _ _ _); [done..|]); done.
  - eapply SInv_begin; [done..|by intros ?|exact Hb].
Qed.

Lemma SInv_cleanup s i o : SInv s -> callers s !! i = Some Leading ->
  SInv (mkSys (life s) (app s) (idem s) (tickets s) (leases s) (<[i := ClearSessions o]> (callers s)) (S (cleanups s)) (broken s)).
Proof.
  intros Hs Hi. pose proof (caller_at s i _ Hs Hi) as Hok. destruct Hs as [Hact Hc Ho Hph].
  pose proof (total_insert to_lead (callers s) i Leading (ClearSessions o) Hi) as T1.
  pose proof (total_insert cleaned (callers s) i Leading (ClearSessions o) Hi) as T2. simpl in T1, T2, Hok.
  constructor; cbn [life app idem tickets leases callers cleanups broken].
  - done.
  - by apply Forall_insert.
  - lia.
  - destruct (phase (life s)) as [| |o']; [by destruct Hok|intuition lia|]. intros Hb. destruct (Hph Hb) as (? & _). lia.
Qed.

Lemma SInv_finish s i o : SInv s -> callers s !! i = Some (Finish o) ->
  SInv (with_life (force_complete o (life s)) (with_callers (wake <$> <[i := Returned o]> (callers s)) s)).
Proof.
  intros Hs Hi. pose proof (caller_at s i _ Hs Hi) as (Hrun & Ha & He). destruct Hs as [Hact Hc Ho Hph].
  pose proof (total_insert to_lead (callers s) i _ (Returned o) Hi) as T1.
  pose proof (total_insert cleaned (callers s) i _ (Returned o) Hi) as T2. simpl in T1, T2.
  assert (Hdr : broken s = false -> phase (life s) = Draining).
  { destruct (phase (life s)) as [| |o']; [done..|]. intros Hb. destruct (Hph Hb) as (_ & ? & _). lia. }
  constructor; cbn [life app idem tickets leases callers cleanups broken with_callers with_life force_complete phase active];
    rewrite ?(total_map to_lead wake), ?(total_map cleaned wake) by apply wake_counts.
  - done.
  - apply Forall_fmap, Forall_insert; [|done]. eapply Forall_impl; [exact Hc|].
    intros [|[] ?| | | | |o']; simpl; intuition (by eauto).
  - lia.
  - intros Hb. rewrite (Hdr Hb) in Hph. split; [lia|]. split; [lia|]. split; [lia|]. done.
Qed.

Lemma SInv_caller s s' : SInv s -> caller_step s s' -> SInv s'.
Proof.
  intros Hs Hst. destruct Hst as [s i l b Hi Hb|s i w l b Hi Hb|s i so lo Hi|s i o Hi|s i o Hi|s i o Hi].
  - eapply SInv_begin; done.
  - by eapply SInv_resume.
  - by apply SInv_cleanup.
  - pose proof (caller_at s i _ Hs Hi) as Hok. simpl in Hok.
    assert (Hr : SInv (mkSys (life s) (clear_sessions (app s)) (idem s) (tickets s) (leases s) (callers s) (cleanups s) (broken s))).
    { apply SInv_registries; [done..|]. intros _ [_ ?]. done. }
    eapply (SInv_move _ _ _ _ Hr); [exact Hi|done..|]. simpl. intuition.
  - pose proof (caller_at s i _ Hs Hi) as Hok. simpl in Hok.
    assert (Hr : SInv (mkSys (life s) (app s) (Idem.clear (idem s)) (tickets s) (leases s) (callers s) (cleanups s) (broken s))).
    { apply SInv_registries; [done..|]. intros _ [? _]. done. }
    eapply (SInv_move _ _ _ _ Hr); [exact Hi|done..|]. simpl. unfold emptied. intuition.
  - by apply SInv_finish.
Qed.

Lemma SInv_env s s' : SInv s -> env_step s s' -> SInv s'.
Proof.
  intros Hs Hst. destruct Hst as [s|s i w Hi|s i c Hi Hc].
  - destruct Hs as [Hact Hc Ho Hph].
    assert (T : forall f, f Start = 0%nat -> total f (callers s ++ [Start]) = total f (callers s)).
    { intros f Hf. unfold total. rewrite sum_list_with_app. simpl. rewrite Hf. lia. }
    constructor; cbn [life app idem tickets leases callers cleanups broken with_callers]; rewrite ?T by done; [done| |done|done].
    apply Forall_app. split; [done|]. by constructor.
  - pose proof (caller_at s i _ Hs Hi) as Hok. eapply SInv_move; [done|exact Hi|by destruct w|by destruct w|].
    destruct w; simpl in *; intuition.
  - pose proof (caller_at s i _ Hs Hi) as Hok. destruct Hs as [Hact Hcs Ho Hph].
    pose proof (total_insert to_lead (callers s) i _ (Returned (Err Api.Worker)) Hi) as T1.
    pose proof (total_insert cleaned (callers s) i _ (Returned (Err Api.Worker)) Hi) as T2.
    constructor; cbn [life app idem tickets leases callers cleanups broken force_complete phase active];
      rewrite ?(total_map to_lead wake), ?(total_map cleaned wake) by apply wake_counts.
    + done.
    + apply Forall_fmap, Forall_insert; [|done]. eapply Forall_impl; [exact Hcs|].
      intros [|[] ?| | | | |o']; simpl; intuition (by eauto).
    + destruct Hc as [-> | ->]; simpl in T1, T2; lia.
    + done.
Qed.

Lemma shutdown_inv s : reachable s -> SInv s.
Proof.
  induction 1 as [|s s' _ IH [Hst|[[Hst|Hst]|Hst]]]; [apply SInv_init| | | |].
  - by eapply SInv_request.
  - by eapply SInv_drop.
  - by eapply SInv_caller.
  - by eapply SInv_env.
Qed.

(** ** The claims *)

(** C20: The lower runtimes are cleaned up at most once and only when the control plane is drained, for
    any interleaving of requests, shutdown callers, spurious wakeups and failing workers: at most one
    cleanup is ever started, and from the moment a caller is the leader no admitted operation is left,
    none is admitted again, and the registries it has cleared stay empty. *)
Theorem shutdown_cleans_once_after_drain s :
  reachable s ->
  (cleanups s <= 1)%nat /\
  forall c, c ∈ callers s -> c = Leading \/ cleaned c = 1%nat ->
    tickets s = 0%nat /\ (admit_operation (life s)).2 = Err Api.service_unavailable /\
    match c with
    | ClearIdempotency _ => sessions (app s) = []
    | Finish _ => emptied (app s) (idem s)
    | _ => True
    end.
Proof.
  intros Hs%shutdown_inv. split; [destruct (si_once _ Hs); lia|]. intros c Hc Hl.
  pose proof (proj1 (Forall_forall _ _) (si_callers _ Hs) c Hc) as Hok. destruct (si_active _ Hs) as [Ha _].
  assert (Hd : phase (life s) <> Running /\ active (life s) = 0).
  { destruct Hl as [-> |Hl]; [done|]. destruct c as [|[] ?| | | | |]; simpl in *; try done; intuition. }
  destruct Hd as [Hp Hz]. split; [lia|]. split.
  - unfold admit_operation, is_running. by destruct (phase (life s)).
  - destruct c; simpl in Hok; intuition.
Qed.

(** Every caller of [shutdown] sees the one outcome: as long as no worker fails, once a caller has
    returned, cleanup has run exactly once, every other caller that returned has the same outcome, no
    operation is left and both registries are empty. *)
Theorem shutdown_outcome_shared s o :
  reachable s -> broken s = false -> Returned o ∈ callers s ->
  cleanups s = 1%nat /\ tickets s = 0%nat /\ emptied (app s) (idem s) /\ phase (life s) = Complete o /\
  forall o', Returned o' ∈ callers s -> o' = o.
Proof.
  intros Hs%shutdown_inv Hb Ho. pose proof (proj1 (Forall_forall _ _) (si_callers _ Hs)) as Hok.
  destruct (Hok _ Ho) as (_ & _ & Hp). specialize (Hp Hb). pose proof (si_phase _ Hs) as Hph. rewrite Hp in Hph.
  destruct (Hph Hb) as (_ & _ & Hc & Ha & He). destruct (si_active _ Hs) as [Ht _].
  split; [done|]. split; [lia|]. split; [done|]. split; [done|].
  intros o' Ho'. destruct (Hok _ Ho') as (_ & _ & Hp'). specialize (Hp' Hb). congruence.
Qed.

(** ** Nobody sleeps for ever *)

Definition stage (c : Caller) : nat :=
  match c with
  | Start => 7 | Waiting AwaitDrain _ => 6 | Leading => 5 | ClearSessions _ => 4 | ClearIdempotency _ => 3
  | Finish _ => 2 | Waiting AwaitDone _ => 1 | Returned _ => 0
  end.
Definition woken_bit (c : Caller) : nat := match c with Waiting _ true => 1 | _ => 0 end.

(** A drop or a completion wakes at most the callers there are. *)
Definition measure (s : Sys) : nat :=
  (length (callers s) + 2) * (tickets s + total stage (callers s)) + total woken_bit (callers s).

Lemma bit_bound c : (woken_bit c <= 1)%nat.
Proof. destruct c as [|? []| | | | |]; simpl; lia. Qed.

Lemma woken_bound cs : (total woken_bit (wake <$> cs) <= length cs)%nat.
Proof.
  unfold total. induction cs as [|c cs IH]; [done|]. rewrite fmap_cons. cbn [sum_list_with length].
  pose proof (bit_bound (wake c)). lia.
Qed.

Lemma stage_wake c : stage (wake c) = stage c.
Proof. by destruct c as [|[] ?| | | | |]. Qed.

(** A caller that moves to a lower stage. *)
Lemma measure_stage cs i c c' (t : nat) : cs !! i = Some c -> (stage c' < stage c)%nat ->
  ((length (<[i := c']> cs) + 2) * (t + total stage (<[i := c']> cs)) + total woken_bit (<[i := c']> cs)
   < (length cs + 2) * (t + total stage cs) + total woken_bit cs)%nat.
Proof.
  intros Hi Hs. rewrite length_insert. pose proof (total_insert stage cs i c c' Hi). pose proof (total_insert woken_bit cs i c c' Hi).
  pose proof (bit_bound c'). pose proof (bit_bound c). nia.
Qed.

Lemma drop_measure s s' : drop_step s s' -> (measure s' < measure s)%nat.
Proof.
  intros [s0 n Hn]. unfold measure. cbn [callers tickets]. rewrite length_fmap, (total_map stage wake) by apply stage_wake.
  pose proof (woken_bound (callers s0)). rewrite Hn. nia.
Qed.

Lemma begin_stage l l' b : begin_top l = (l', b) -> (stage (caller_of b) < 7)%nat /\
  (phase l <> Running -> (stage (caller_of b) <= 1)%nat /\ woken_bit (caller_of b) = 0%nat).
Proof.
  unfold begin_top, drain. destruct (phase l); [destruct (_ =? _)|..]; intros [= <- <-]; simpl; split; try done; lia.
Qed.

Lemma caller_measure s s' : SInv s -> caller_step s s' -> (measure s' < measure s)%nat.
Proof.
  intros Hs Hst. destruct Hst as [s i l b Hi Hb|s i w l b Hi Hb|s i so lo Hi|s i o Hi|s i o Hi|s i o Hi];
    unfold measure; cbn [callers tickets with_callers with_life]; try (apply (measure_stage _ _ _ _ _ Hi); simpl; lia).
  - apply (measure_stage _ _ _ _ _ Hi). apply (begin_stage _ _ _ Hb).
  - pose proof (caller_at s i _ Hs Hi) as Hok. rewrite length_insert.
    pose proof (total_insert stage (callers s) i _ (caller_of b) Hi) as T1.
    pose proof (total_insert woken_bit (callers s) i _ (caller_of b) Hi) as T2.
    assert (Hlow : (stage (caller_of b) < stage (Waiting w true))%nat \/
                   stage (caller_of b) = stage (Waiting w true) /\ woken_bit (caller_of b) = 0%nat).
    { destruct w; simpl in Hok.
      - unfold begin_resume, drain in Hb. destruct (_ =? _); injection Hb as <- <-; simpl; lia.
      - destruct Hok as [Hph _]. destruct (begin_stage _ _ _ Hb) as [_ Hw]. destruct (Hw Hph). simpl. lia. }
    pose proof (bit_bound (caller_of b)). simpl in T1, T2, Hlow |- *. nia.
  - rewrite length_fmap, length_insert, (total_map stage wake) by apply stage_wake.
    pose proof (total_insert stage (callers s) i _ (Returned o) Hi) as T1. simpl in T1.
    pose proof (woken_bound (<[i := Returned o]> (callers s))) as Hw. rewrite length_insert in Hw. nia.
Qed.

Definition returned (c : Caller) : bool := match c with Returned _ => true | _ => false end.

(** What lets a caller that has not returned go on. *)
Lemma caller_progress s i c : SInv s -> tickets s = 0%nat -> callers s !! i = Some c -> returned c = false ->
  exists s', caller_step s s'.
Proof.
  intros Hs Ht Hi Hr. pose proof (caller_at s i c Hs Hi) as Hok. destruct (si_active _ Hs) as [Ha _]. rewrite Ht in Ha.
  destruct c as [|w [|]| | | | |]; try done.
  - destruct (begin_top (life s)) as [l b] eqn:Hb. eexists. by eapply cs_begin.
  - destruct (begin_resume w (life s)) as [l b] eqn:Hb. eexists. by eapply cs_resume.
  - destruct w; simpl in Hok; destruct Hok as [_ Hw]; specialize (Hw eq_refl); [done|].
    (* asleep as a follower: the control plane is draining, so there is a leader that can go on *)
    pose proof (si_phase _ Hs) as Hph. rewrite Hw in Hph. destruct Hph as (_ & _ & Hone).
    destruct (decide (Exists (fun c => (to_lead c + cleaned c)%nat <> 0%nat) (callers s))) as [He|He].
    + apply Exists_exists in He as (c & (j & Hj)%list_elem_of_lookup & Hc).
      pose proof (caller_at s j c Hs Hj) as Hok. destruct c as [|[] []| |o|o|o|]; simpl in Hc, Hok; try done.
      * destruct (begin_resume AwaitDrain (life s)) as [l b] eqn:Hb. eexists. by eapply cs_resume.
      * destruct Hok as [_ Hok]. by specialize (Hok eq_refl).
      * eexists. by eapply (cs_cleanup s j true true).
      * eexists. by eapply cs_sessions.
      * eexists. by eapply cs_idempotency.
      * eexists. by eapply cs_finish.
    + exfalso. assert (Hz : forall c, c ∈ callers s -> (to_lead c + cleaned c)%nat = 0%nat).
      { intros c Hc. destruct (decide ((to_lead c + cleaned c)%nat = 0%nat)); [done|]. exfalso. apply He, Exists_exists. eauto. }
      assert (total to_lead (callers s) = 0%nat) by (apply total_zero; intros c Hc; specialize (Hz c Hc); lia).
      assert (total cleaned (callers s) = 0%nat) by (apply total_zero; intros c Hc; specialize (Hz c Hc); lia). lia.
  - eexists. by eapply (cs_cleanup s i true true).
  - eexists. by eapply cs_sessions.
  - eexists. by eapply cs_idempotency.
  - eexists. by eapply cs_finish.
Qed.

(** C12: Shutdown terminates and no wakeup is lost: in every reachable state, the steps of ending
    operations and of shutdown callers strictly decrease a natural number, so no infinite run of them
    exists, and whenever a caller has not returned one of these steps is possible.  Hence once requests
    stop arriving every caller of [shutdown] returns, even if the condition variable never wakes
    spuriously. *)
Theorem shutdown_terminates s :
  reachable s ->
  (forall s', internal_step s s' -> (measure s' < measure s)%nat) /\
  (forall i c, callers s !! i = Some c -> returned c = false -> exists s', internal_step s s').
Proof.
  intros Hs%shutdown_inv. split.
  - intros s' [Hd|Hc]; [by apply drop_measure|by apply caller_measure].
  - intros i c Hi Hr. destruct (tickets s) as [|n] eqn:Ht.
    + destruct (caller_progress s i c Hs Ht Hi Hr) as (s' & ?). exists s'. by right.
    + eexists. left. by apply ds_drop.
Qed.

(** ** A concrete shutdown *)

(** Two callers, one admitted operation: the first caller waits for it, the second for the first. *)
Definition waiting_state : Sys :=
  mkSys (mkLife Draining 1) registry_empty Idem.registry_default 1 []
    [Waiting AwaitDrain false; Waiting AwaitDone false] 0 false.

Definition at_step (l : LifecycleState) (t : nat) (cs : list Caller) (n : nat) : Sys :=
  mkSys l registry_empty Idem.registry_default t [] cs n false.

Lemma by_caller s s1 s' : reachable s -> caller_step s s1 -> s1 = s' -> reachable s'.
Proof. intros Hr Hs <-. refine (r_step _ _ Hr _). right. left. by right. Qed.

Lemma waiting_reachable : reachable waiting_state.
Proof.
  assert (R1 : reachable (at_step (mkLife Running 1) 1 [] 0)).
  { refine (r_step _ _ r_init _). left. by apply (rs_admit sys_init (mkLife Running 1)). }
  assert (R2 : reachable (at_step (mkLife Running 1) 1 [Start] 0)) by (refine (r_step _ _ R1 _); right; right; apply es_call).
  assert (R3 : reachable (at_step (mkLife Running 1) 1 [Start; Start] 0)) by (refine (r_step _ _ R2 _); right; right; apply es_call).
  assert (R4 : reachable (at_step (mkLife Draining 1) 1 [Waiting AwaitDrain false; Start] 0)).
  { eapply (by_caller _ _ _ R3); [eapply (cs_begin _ 0); reflexivity|reflexivity]. }
  eapply (by_caller _ _ _ R4); [eapply (cs_begin _ 1); reflexivity|reflexivity].
Qed.

Lemma finished_reachable :
  reachable (at_step (mkLife (Complete (Ok tt)) 0) 0 [Returned (Ok tt); Waiting AwaitDone true] 1).
Proof.
  assert (R1 : reachable (at_step (mkLife Draining 0) 0 [Waiting AwaitDrain true; Waiting AwaitDone true] 0)).
  { refine (r_step _ _ waiting_reachable _). right. left. left. by apply (ds_drop waiting_state 0). }
  assert (R2 : reachable (at_step (mkLife Draining 0) 0 [Leading; Waiting AwaitDone true] 0)).
  { eapply (by_caller _ _ _ R1); [eapply (cs_resume _ 0); reflexivity|reflexivity]. }
  assert (R3 : reachable (at_step (mkLife Draining 0) 0 [ClearSessions (Ok tt); Waiting AwaitDone true] 1)).
  { eapply (by_caller _ _ _ R2); [eapply (cs_cleanup _ 0 true true); reflexivity|reflexivity]. }
  assert (R4 : reachable (at_step (mkLife Draining 0) 0 [ClearIdempotency (Ok tt); Waiting AwaitDone true] 1)).
  { eapply (by_caller _ _ _ R3); [eapply (cs_sessions _ 0); reflexivity|reflexivity]. }
  assert (R5 : reachable (at_step (mkLife Draining 0) 0 [Finish (Ok tt); Waiting AwaitDone true] 1)).
  { eapply (by_caller _ _ _ R4); [eapply (cs_idempotency _ 0); reflexivity|reflexivity]. }
  eapply (by_caller _ _ _ R5); [eapply (cs_finish _ 0); reflexivity|reflexivity].
Qed.

Lemma shutdown_cleans_once_after_drain_witness : (cleanups waiting_state <= 1)%nat.
Proof. exact (proj1 (shutdown_cleans_once_after_drain waiting_state waiting_reachable)). Defined.

Lemma shutdown_outcome_shared_witness :
  cleanups (at_step (mkLife (Complete (Ok tt)) 0) 0 [Returned (Ok tt); Waiting AwaitDone true] 1) = 1%nat.
Proof. refine (proj1 (shutdown_outcome_shared _ (Ok tt) finished_reachable _ _)); [reflexivity|left]. Defined.

Lemma shutdown_terminates_witness : exists s', internal_step waiting_state s'.
Proof.
  refine (proj2 (shutdown_terminates waiting_state waiting_reachable) 0%nat (Waiting AwaitDrain false) _ _); reflexivity.
Defined.
