(* ===== verification/Routes.v ===== *)
(** * Routes

    Models [apps/control-plane/src/routes.rs] and the execution of mutations of [state.rs]: the
    dispatch table, the guards of each request, the preparation of a mutation, its idempotent
    execution over the lower ports, the observations.  A handler is a function of the whole control
    plane; a request holds its admission from its guards to its answer.  The ports, [ports.rs], are the
    class [ControlPorts] over a state of the lower runtimes; header text, UUIDs and JSON are the
    crates': the class [HttpCrates]. *)
From S2P Require Import Prelude DomainValues CloudTypes SessionTypes LoginTypes CloudAdapter HttpTypes Idempotency HttpConfig AppSessions Shutdown.
From stdpp Require Import base numbers list gmap strings sets.
From Stdlib Require Import ZArith Lia.
Import Ids Str.

Open Scope Z_scope.

Definition MAX_HEADER_BYTES : Z := 256.
Definition MAX_BODY_BYTES : Z := 40 * 1024.
Definition HEADER_INSTANCE : string := "codebox-instance-id".
Definition HEADER_IDEMPOTENCY : string := "idempotency-key".

Definition ROUTE_OPERATOR_SESSION : string := "/api/p0/v1/operator/session".
Definition ROUTE_LOGIN : string := "/api/p0/v1/login".
Definition ROUTE_LOGIN_DEVICE : string := "/api/p0/v1/login/device".
Definition ROUTE_LOGIN_CANCEL : string := "/api/p0/v1/login/cancel".
Definition ROUTE_SESSION : string := "/api/p0/v1/session".
Definition ROUTE_SESSION_TURNS : string := "/api/p0/v1/session/turns".
Definition ROUTE_SESSION_CANCEL : string := "/api/p0/v1/session/cancel".
Definition ROUTE_SESSION_RECONCILE : string := "/api/p0/v1/session/reconcile".
Definition ROUTE_SESSION_RESOLVE : string := "/api/p0/v1/session/resolve".
Definition ROUTE_SESSION_DIFF : string := "/api/p0/v1/session/diff".
Definition ROUTE_SESSION_STREAM : string := "/api/p0/v1/session/stream".

(** ** The request *)

Inductive Method := GET | HEAD | POST | DELETE | OtherMethod.
#[export] Instance Method_eq_dec : EqDecision Method.
Proof. solve_decision. Defined.

(** [rq_body] is [None] when reading it fails. *)
Record Request := mkRequest {
  rq_method : Method; rq_path : string; rq_headers : HeaderMap; rq_body : option string }.

(** What [serde_json] says of a body it refuses. *)
Inductive JsonError := JsonSyntax | JsonEof | JsonData.

Record StartTurnBody := mkStartTurn { st_prompt : string }.

Inductive ResolveDecisionBody :=
| DAdopt (task_id : string)
| DAbandon (acknowledge_duplicate_task_risk : option bool).

(** The operation is a JSON value; [rb_operation_id] is what [from_value] makes of it. *)
Record ResolveBody := mkResolve {
  rb_operation_id : option CloudSubmitOperationId; rb_decision : ResolveDecisionBody }.

Class HttpCrates := {
  (** [HeaderValue::to_str]. *)
  to_str : string -> option string;
  (** [Uuid::parse_str]. *)
  parse_uuid : string -> option Uuid;
  (** [serde_json::from_slice] at the two body types. *)
  from_slice_start : string -> result JsonError StartTurnBody;
  from_slice_resolve : string -> result JsonError ResolveBody }.

(** [eq_ignore_ascii_case]. *)
Definition to_ascii_lowercase (c : Ascii.ascii) : Ascii.ascii :=
  if is_ascii_uppercase c then Ascii.ascii_of_nat (Z.to_nat (byte c + 32)) else c.
Definition eq_ignore_ascii_case (s t : string) : bool :=
  bool_decide (map to_ascii_lowercase (String.list_ascii_of_string s)
               = map to_ascii_lowercase (String.list_ascii_of_string t)).

(** ** Guards that read the request alone *)

Definition validate_headers (hs : HeaderMap) : result Api.ApiError unit :=
  if existsb (fun '(_, v) => MAX_HEADER_BYTES <? slen v) hs
  then Err (Api.new UNPROCESSABLE_ENTITY "invalid_request" "request schema is invalid")
  else Ok tt.

Definition ensure_request_method (rq : Request) (m : Method) : result Api.ApiError unit :=
  if bool_decide (rq_method rq = m) then Ok tt else Err Api.invalid_request.

Definition static_method_name (m : Method) : string := if bool_decide (m = DELETE) then "DELETE" else "POST".

Definition is_json_content_type (v : string) : bool :=
  eq_ignore_ascii_case v "application/json" || eq_ignore_ascii_case v "application/json; charset=utf-8".

Definition unsupported_media_type : Api.ApiError :=
  Api.new UNSUPPORTED_MEDIA_TYPE "unsupported_media_type" "application/json is required".
Definition request_too_large : Api.ApiError :=
  Api.new PAYLOAD_TOO_LARGE "request_too_large" "request body exceeds its limit".

Definition validate_empty_content_type (hs : HeaderMap) : result Api.ApiError unit :=
  match get_all "content-type" hs with
  | [] => Ok tt
  | [v] => if is_json_content_type v then Ok tt else Err unsupported_media_type
  | _ => Err unsupported_media_type
  end.

Definition validate_json_content_type (hs : HeaderMap) : result Api.ApiError unit :=
  match get_all "content-type" hs with
  | [v] => if is_json_content_type v then Ok tt else Err unsupported_media_type
  | _ => Err unsupported_media_type
  end.

Definition classify_json_error (e : JsonError) : Api.ApiError :=
  match e with
  | JsonSyntax | JsonEof => Api.new BAD_REQUEST "malformed_json" "request body is not valid JSON"
  | JsonData => Api.invalid_request
  end.

Section Guards.
Context `{HttpCrates}.

(** A header that occurs once and is text. *)
Definition header_text (name : string) (hs : HeaderMap) : option string :=
  match single_header name hs with Some v => to_str v | None => None end.

Definition header_uuid (name : string) (hs : HeaderMap) : option Uuid :=
  match header_text name hs with Some v => parse_uuid v | None => None end.

Definition read_bounded_body (rq : Request) : result Api.ApiError string :=
  let declared := match header_text "content-length" (rq_headers rq) with Some v => parse_usize v | None => None end in
  if match declared with Some length => MAX_BODY_BYTES <? length | None => false end then Err request_too_large
  else
  match rq_body rq with
  | Some body => if MAX_BODY_BYTES <? slen body then Err request_too_large else Ok body
  | None => Err request_too_large
  end.

Definition read_empty (rq : Request) : result Api.ApiError string :=
  let? _ := validate_empty_content_type (rq_headers rq) in
  let? body := read_bounded_body rq in
  if String.eqb body "" then Ok body
  else Err (Api.new UNPROCESSABLE_ENTITY "body_not_empty" "request body must be empty").

Definition read_json (rq : Request) : result Api.ApiError string :=
  let? _ := validate_json_content_type (rq_headers rq) in
  read_bounded_body rq.

Definition parse_idempotency_key (hs : HeaderMap) : result Api.ApiError CommandId :=
  ok_or (match header_uuid HEADER_IDEMPOTENCY hs with
         | Some u => match try_from_uuid CommandIdT u with Ok k => Some k | Err _ => None end
         | None => None
         end)
    (Api.new BAD_REQUEST "idempotency_key_invalid" "idempotency key must be a non-nil UUID").

(** [P0InstanceId::try_from_uuid]. *)
Definition instance_try_from_uuid (u : Uuid) : option P0InstanceId :=
  if is_nil u then None else Some (mkInstance u).

Definition parse_instance (hs : HeaderMap) (identity : P0SessionIdentity) : result Api.ApiError P0InstanceId :=
  match match header_uuid HEADER_INSTANCE hs with Some u => instance_try_from_uuid u | None => None end with
  | Some supplied =>
      if bool_decide (supplied = instance_id identity) then Ok supplied
      else Err (Api.new CONFLICT "instance_changed" "control-plane instance changed; refresh before retry")
  | None => Err (Api.new CONFLICT "instance_changed" "control-plane instance changed; refresh before retry")
  end.
End Guards.

Definition validate_origin (cfg : P0HttpConfig) (hs : HeaderMap) : result Api.ApiError unit :=
  if matches_header (public_origin cfg) (single_header "origin" hs) then Ok tt else Err Api.origin_forbidden.

Definition validate_bootstrap (cfg : P0HttpConfig) (hs : HeaderMap) : result Api.ApiError unit :=
  let candidate := match single_header "authorization" hs with Some v => CloudAdapter.strip_prefix "Bearer " v | None => None end in
  if token_matches (cfg_bootstrap cfg) candidate then Ok tt else Err Api.authentication_required.

(** ** The control plane *)

(** The ports, over a state [L] of the login broker and the session runtime. *)
Class ControlPorts (L : Type) := {
  login_status : L -> L * result Api.LoginPortError LoginStatus;
  start_device_login : L -> L * result Api.LoginPortError LoginInteraction;
  cancel_login : L -> L * result Api.LoginPortError LoginStatus;
  session_snapshot : L -> result Errors.P0SessionError P0SessionSnapshot;
  start_turn : CloudPrompt -> L -> L * result Errors.P0SessionError P0TurnReceipt;
  cancel_turn : P0Actor -> L -> L * result Errors.P0SessionError P0SessionSnapshot;
  reconcile_unknown : P0Actor -> L -> L * result Errors.P0SessionError P0RecoveryCandidates;
  resolve_unknown : P0Actor -> CloudSubmitOperationId -> UnknownSubmitDecision -> L ->
    L * result Errors.P0SessionError P0SessionSnapshot;
  read_diff : L -> L * result Errors.P0SessionError CloudDiff }.

Record Plane (L : Type) := mkPlane {
  pl_life : Shutdown.LifecycleState; pl_app : AppSessionRegistry; pl_idem : Idem.Registry; pl_lower : L }.
Arguments mkPlane {L}. Arguments pl_life {L}. Arguments pl_app {L}. Arguments pl_idem {L}. Arguments pl_lower {L}.

(** A [RequestAdmission]: the lifecycle ticket is counted in [pl_life]. *)
Record RequestAdmission := mkAdmission { adm_token : string; adm_seq : Z }.

Record PreparedMutation := mkPrepared {
  pm_key : CommandId; pm_identity : RequestIdentity; pm_mutation : Mutation; pm_admitted_at : Z;
  pm_admission : RequestAdmission }.

Section Handlers.
Context `{SerdeJson, Crates, HttpCrates} {L : Type} `{!ControlPorts L}.
Context (cfg : P0HttpConfig) (identity : P0SessionIdentity).

Definition with_pl_life (l : Shutdown.LifecycleState) (p : Plane L) : Plane L :=
  mkPlane l (pl_app p) (pl_idem p) (pl_lower p).
Definition with_pl_app (a : AppSessionRegistry) (p : Plane L) : Plane L :=
  mkPlane (pl_life p) a (pl_idem p) (pl_lower p).
Definition with_pl_idem (r : Idem.Registry) (p : Plane L) : Plane L :=
  mkPlane (pl_life p) (pl_app p) r (pl_lower p).
Definition with_pl_lower (l : L) (p : Plane L) : Plane L :=
  mkPlane (pl_life p) (pl_app p) (pl_idem p) l.

(** [Drop] of an [AppSessionLease], and of a [RequestAdmission]: its lifecycle ticket goes first. *)
Definition drop_lease (seq : Z) (p : Plane L) : Plane L :=
  let '(a, remove_idempotency) := release_app_session seq (pl_app p) in
  let p := with_pl_app a p in
  if remove_idempotency then with_pl_idem (Idem.release_auth_session seq (pl_idem p)) p else p.

Definition drop_ticket (p : Plane L) : Plane L := with_pl_life (Shutdown.drop_operation (pl_life p)) p.

Definition drop_admission (a : RequestAdmission) (p : Plane L) : Plane L := drop_lease (adm_seq a) (drop_ticket p).

Definition require_running (p : Plane L) : result Api.ApiError unit :=
  if Shutdown.is_running (pl_life p) then Ok tt else Err Api.service_unavailable.

(** The admission both kinds of request share: the cookie, then the lifecycle. *)
Definition admit_request (hs : HeaderMap) (now : Z) (p : Plane L) : Plane L * result Api.ApiError RequestAdmission :=
  match authenticate_cookie hs now (pl_app p) with
  | (a, Err e) => (with_pl_app a p, Err e)
  | (a, Ok lease) =>
      let p := with_pl_app a p in
      match Shutdown.admit_operation (pl_life p) with
      | (_, Err e) => (drop_lease (lease_seq lease) p, Err e)
      | (l, Ok _) => (with_pl_life l p, Ok (mkAdmission (lease_token lease) (lease_seq lease)))
      end
  end.

Definition prepare_protected_mutation (rq : Request) (m : Method) (now : Z) (p : Plane L)
  : Plane L * result Api.ApiError RequestAdmission :=
  match (let? _ := require_running p in
         let? _ := ensure_request_method rq m in
         validate_headers (rq_headers rq)) with
  | Err e => (p, Err e)
  | Ok _ =>
      match admit_request (rq_headers rq) now p with
      | (p, Err e) => (p, Err e)
      | (p, Ok admission) =>
          match validate_origin cfg (rq_headers rq) with
          | Err e => (drop_admission admission p, Err e)
          | Ok _ => (p, Ok admission)
          end
      end
  end.

Definition prepare_observation (rq : Request) (now : Z) (p : Plane L) : Plane L * result Api.ApiError RequestAdmission :=
  match (let? _ := require_running p in validate_headers (rq_headers rq)) with
  | Err e => (p, Err e)
  | Ok _ => admit_request (rq_headers rq) now p
  end.

(** What the two preparations do once the request is admitted: an error drops the admission. *)
Definition prepared {A} (prep : Plane L * result Api.ApiError RequestAdmission)
    (rest : RequestAdmission -> result Api.ApiError A) : Plane L * result Api.ApiError A :=
  match prep with
  | (p, Err e) => (p, Err e)
  | (p, Ok admission) =>
      match rest admission with
      | Err e => (drop_admission admission p, Err e)
      | Ok x => (p, Ok x)
      end
  end.

Definition prepare_empty_mutation (rq : Request) (m : Method) (route : string)
    (build : RequestAdmission -> Mutation) (now admitted_at : Z) (p : Plane L)
  : Plane L * result Api.ApiError PreparedMutation :=
  prepared (prepare_protected_mutation rq m now p) (fun admission =>
    let? instance := parse_instance (rq_headers rq) identity in
    let? key := parse_idempotency_key (rq_headers rq) in
    let? body := read_empty rq in
    let mutation := build admission in
    let logout_session_seq := match mutation with MLogout _ seq => Some seq | _ => None end in
    Ok (mkPrepared key (mkIdentity (static_method_name m) route body instance logout_session_seq) mutation
          admitted_at admission)).

(** [prepare_json_mutation] with what its caller makes of the body. *)
Definition prepare_json_mutation {T} (from_slice : string -> result JsonError T) (rq : Request) (m : Method)
    (route : string) (build : T -> result Api.ApiError Mutation) (now admitted_at : Z) (p : Plane L)
  : Plane L * result Api.ApiError PreparedMutation :=
  prepared (prepare_protected_mutation rq m now p) (fun admission =>
    let? instance := parse_instance (rq_headers rq) identity in
    let? key := parse_idempotency_key (rq_headers rq) in
    let? body := read_json rq in
    let? parsed := map_err classify_json_error (from_slice body) in
    let? mutation := build parsed in
    Ok (mkPrepared key (mkIdentity (static_method_name m) route body instance None) mutation admitted_at admission)).

Definition build_start_turn (body : StartTurnBody) : result Api.ApiError Mutation :=
  let? prompt := map_err (fun _ => Api.invalid_value) (CloudPrompt_try_new (st_prompt body)) in
  Ok (MStartTurn prompt).

Definition acknowledgement_required : Api.ApiError :=
  Api.new UNPROCESSABLE_ENTITY "acknowledgement_required" "duplicate-task-risk acknowledgement is required".

Definition build_resolve (body : ResolveBody) : result Api.ApiError Mutation :=
  let? operation_id := ok_or (rb_operation_id body) Api.invalid_value in
  match rb_decision body with
  | DAdopt task_id =>
      let? task := map_err (fun _ => Api.invalid_value) (CloudTaskId_try_new task_id) in
      Ok (MAdopt operation_id task)
  | DAbandon (Some true) => Ok (MAbandon operation_id)
  | DAbandon _ => Err acknowledgement_required
  end.

(** ** Execution (state.rs) *)

Definition operation_changed : Api.ApiError :=
  Api.new CONFLICT "operation_changed" "current operation changed; refresh before retry".

Definition require_current_unknown (operation_id : CloudSubmitOperationId) (p : Plane L) : result Api.ApiError unit :=
  let? snapshot := map_err Api.map_session_error (session_snapshot (pl_lower p)) in
  if match sn_current_turn snapshot with
     | Some turn =>
         match ts_projection turn with
         | Cloud (OutcomeUnknown current) _ => bool_decide (current = operation_id)
         | _ => false
         end
     | None => false
     end
  then Ok tt else Err operation_changed.

Definition LOGOUT_COOKIE : string :=
  "__Host-codebox_p0=; Secure; HttpOnly; SameSite=Strict; Path=/; Max-Age=0".

(** A call of a port, its error mapped. *)
Definition port {A E} (map_error : E -> Api.ApiError) (call : L -> L * result E A) (p : Plane L)
  : Plane L * result Api.ApiError A :=
  let '(l, r) := call (pl_lower p) in (with_pl_lower l p, map_err map_error r).

(** The answer of a mutation that is kept. *)
Definition retained_json (status : Z) (r : Plane L * result Api.ApiError ResponseValue)
  : Plane L * result Api.ApiError (CachedResponse * Idem.CacheDisposition) :=
  (r.1, let? v := r.2 in let? response := response_json status v in Ok (response, Idem.Retain)).

Definition value_of {A} (f : A -> ResponseValue) (r : Plane L * result Api.ApiError A)
  : Plane L * result Api.ApiError ResponseValue :=
  (r.1, match r.2 with Ok x => Ok (f x) | Err e => Err e end).

(** The resolution of the current unknown operation. *)
Definition resolve_current (operation_id : CloudSubmitOperationId) (decision : UnknownSubmitDecision) (p : Plane L)
  : Plane L * result Api.ApiError (CachedResponse * Idem.CacheDisposition) :=
  match require_current_unknown operation_id p with
  | Err e => (p, Err e)
  | Ok _ =>
      retained_json OK (value_of VSnapshot
        (port Api.map_session_error (resolve_unknown Operator operation_id decision) p))
  end.

Definition try_execute_mutation (m : Mutation) (admitted_at : Z) (p : Plane L)
  : Plane L * result Api.ApiError (CachedResponse * Idem.CacheDisposition) :=
  match m with
  | MLogout cookie session_seq =>
      (with_pl_app (invalidate_cookie cookie session_seq (pl_app p)) p,
       Ok (empty_logout LOGOUT_COOKIE, Idem.RemoveAfterAuthSession session_seq))
  | MStartDeviceLogin =>
      let '(p, r) := port Api.map_login_error start_device_login p in
      (p, let? interaction := r in
          let expires_at := admitted_at + from_secs (li_expires_in_seconds interaction) in
          if DURATION_MAX <? expires_at then Err Api.service_unavailable
          else
          let? response := response_json ACCEPTED
            (VDeviceLogin (mkDeviceLogin (li_operation_id interaction) VERIFICATION_URL
               (code_str (li_verification_code interaction)) (li_expires_in_seconds interaction))) in
          Ok (response, Idem.ExpireAt expires_at))
  | MCancelLogin =>
      retained_json OK (value_of (fun s => VLoginStatus (LoginStatusResponse_from s))
        (port Api.map_login_error cancel_login p))
  | MStartTurn prompt => retained_json ACCEPTED (value_of VReceipt (port Api.map_session_error (start_turn prompt) p))
  | MCancelTurn => retained_json OK (value_of VSnapshot (port Api.map_session_error (cancel_turn Operator) p))
  | MReconcile =>
      retained_json OK (value_of VCandidates (port Api.map_session_error (reconcile_unknown Operator) p))
  | MAdopt operation_id task_id => resolve_current operation_id (AdoptListedTask task_id) p
  | MAbandon operation_id => resolve_current operation_id (AbandonAfterReconciliation operation_id) p
  end.

Definition execute_mutation (m : Mutation) (admitted_at : Z) (p : Plane L)
  : Plane L * (CachedResponse * Idem.CacheDisposition) :=
  match try_execute_mutation m admitted_at p with
  | (p, Ok x) => (p, x)
  | (p, Err e) => (p, (response_error e, Idem.Retain))
  end.

(** One poll of the waiter: an answer, or none yet. *)
Definition poll_response (key : CommandId) (r : Idem.Registry) : Idem.Registry * option CachedResponse :=
  match Idem.take_response key r with
  | (r, Idem.WReady response) => (r, Some response)
  | (r, Idem.Missing) => (r, Some (response_error Api.service_unavailable))
  | (r, Idem.Pending) => (r, None)
  end.

(** [run_prepared] when nothing else runs in between: the owner executes and completes, then the
    waiter is polled; without an answer yet the request keeps its admission and waits. *)
Definition run_prepared (prep : Plane L * result Api.ApiError PreparedMutation) : Plane L * option CachedResponse :=
  match prep with
  | (p, Err e) => (p, Some (response_error e))
  | (p, Ok pm) =>
      match Idem.admit_request (pm_key pm) (pm_identity pm) (pm_admitted_at pm) (pl_idem p) with
      | (r, Err e) => (drop_admission (pm_admission pm) (with_pl_idem r p), Some (response_error e))
      | (r, Ok owner) =>
          let p := with_pl_idem r p in
          let p :=
            if owner : bool then
              let '(p, (response, disposition)) := execute_mutation (pm_mutation pm) (pm_admitted_at pm) p in
              with_pl_idem (Idem.complete (pm_key pm) response disposition (pl_idem p)) p
            else p in
          match poll_response (pm_key pm) (pl_idem p) with
          | (r, Some response) => (drop_admission (pm_admission pm) (with_pl_idem r p), Some response)
          | (r, None) => (with_pl_idem r p, None)
          end
      end
  end.

(** ** Observations and bootstrap *)

Definition observe (rq : Request) (now : Z) (call : Plane L -> Plane L * result Api.ApiError CachedResponse)
    (p : Plane L) : Plane L * option CachedResponse :=
  match prepared (prepare_observation rq now p)
          (fun admission => let? _ := ensure_request_method rq GET in let? _ := read_empty rq in Ok admission) with
  | (p, Err e) => (p, Some (response_error e))
  | (p, Ok admission) =>
      let '(p, r) := call p in (drop_admission admission p, Some (into_result r))
  end.

Definition observe_login (p : Plane L) : Plane L * result Api.ApiError CachedResponse :=
  let '(p, r) := port Api.map_login_error login_status p in
  (p, let? s := r in response_json OK (VLoginStatus (LoginStatusResponse_from s))).

Definition observe_session (p : Plane L) : Plane L * result Api.ApiError CachedResponse :=
  (p, let? s := map_err Api.map_session_error (session_snapshot (pl_lower p)) in response_json OK (VSnapshot s)).

Definition observe_diff (p : Plane L) : Plane L * result Api.ApiError CachedResponse :=
  let '(p, r) := port Api.map_session_error read_diff p in
  (p, let? d := r in Ok (diff (diff_str d))).

Definition bootstrap_session (rq : Request) (draws : nat -> option string) (now : Z) (p : Plane L)
  : Plane L * option CachedResponse :=
  match (let? _ := require_running p in
         let? _ := validate_headers (rq_headers rq) in
         let? _ := read_empty rq in
         let? _ := validate_origin cfg (rq_headers rq) in
         validate_bootstrap cfg (rq_headers rq)) with
  | Err e => (p, Some (response_error e))
  | Ok _ =>
      match Shutdown.admit_operation (pl_life p) with
      | (_, Err e) => (p, Some (response_error e))
      | (l, Ok _) =>
          let '(a, r) := create_app_session cfg identity draws now (pl_app p) in
          (drop_ticket (with_pl_life l (with_pl_app a p)), Some (into_result r))
      end
  end.

(** ** Dispatch *)

Inductive Handler :=
| BootstrapSession | Logout | LoginStatusH | StartDeviceLogin | CancelLogin | SessionSnapshot | StartTurn
| CancelTurn | Reconcile | Resolve | SessionDiff | Stream | WebAsset | NotFound | MethodNotAllowed.

(** [router]: [get] also serves [HEAD]. *)
Definition on_get (m : Method) (h : Handler) : Handler := match m with GET | HEAD => h | _ => MethodNotAllowed end.
Definition on_post (m : Method) (h : Handler) : Handler := match m with POST => h | _ => MethodNotAllowed end.

Definition router (path : string) (m : Method) : Handler :=
  if String.eqb path ROUTE_OPERATOR_SESSION then
    match m with POST => BootstrapSession | DELETE => Logout | _ => MethodNotAllowed end
  else if String.eqb path ROUTE_LOGIN then on_get m LoginStatusH
  else if String.eqb path ROUTE_LOGIN_DEVICE then on_post m StartDeviceLogin
  else if String.eqb path ROUTE_LOGIN_CANCEL then on_post m CancelLogin
  else if String.eqb path ROUTE_SESSION then on_get m SessionSnapshot
  else if String.eqb path ROUTE_SESSION_TURNS then on_post m StartTurn
  else if String.eqb path ROUTE_SESSION_CANCEL then on_post m CancelTurn
  else if String.eqb path ROUTE_SESSION_RECONCILE then on_post m Reconcile
  else if String.eqb path ROUTE_SESSION_RESOLVE then on_post m Resolve
  else if String.eqb path ROUTE_SESSION_DIFF then on_get m SessionDiff
  else if String.eqb path ROUTE_SESSION_STREAM then on_get m Stream
  else if existsb (String.eqb path) ["/"; "/assets/p0-app.js"; "/assets/p0-client.js"; "/assets/p0.css"]
  then on_get m WebAsset
  else NotFound.

Definition not_found : Api.ApiError := Api.new NOT_FOUND "not_found" "requested route is not available".
Definition method_not_allowed : Api.ApiError :=
  Api.new METHOD_NOT_ALLOWED "method_not_allowed" "request method is not allowed".

(** The mutation each protected route prepares. *)
Definition prepare_route (h : Handler) (rq : Request) (now admitted_at : Z) (p : Plane L)
  : option (Plane L * result Api.ApiError PreparedMutation) :=
  let empty m route build := Some (prepare_empty_mutation rq m route build now admitted_at p) in
  match h with
  | Logout => empty DELETE ROUTE_OPERATOR_SESSION (fun a => MLogout (adm_token a) (adm_seq a))
  | StartDeviceLogin => empty POST ROUTE_LOGIN_DEVICE (fun _ => MStartDeviceLogin)
  | CancelLogin => empty POST ROUTE_LOGIN_CANCEL (fun _ => MCancelLogin)
  | CancelTurn => empty POST ROUTE_SESSION_CANCEL (fun _ => MCancelTurn)
  | Reconcile => empty POST ROUTE_SESSION_RECONCILE (fun _ => MReconcile)
  | StartTurn =>
      Some (prepare_json_mutation from_slice_start rq POST ROUTE_SESSION_TURNS build_start_turn now admitted_at p)
  | Resolve =>
      Some (prepare_json_mutation from_slice_resolve rq POST ROUTE_SESSION_RESOLVE build_resolve now admitted_at p)
  | _ => None
  end.

(** A request of the HTTP API; [None] also stands for the two routes modelled elsewhere or not at all,
    the stream and the web page. *)
Definition handle (rq : Request) (draws : nat -> option string) (now admitted_at : Z) (p : Plane L)
  : Plane L * option CachedResponse :=
  let h := router (rq_path rq) (rq_method rq) in
  match prepare_route h rq now admitted_at p with
  | Some prep => run_prepared prep
  | None =>
      match h with
      | BootstrapSession => bootstrap_session rq draws now p
      | LoginStatusH => observe rq now observe_login p
      | SessionSnapshot => observe rq now observe_session p
      | SessionDiff => observe rq now observe_diff p
      | NotFound => (p, Some (response_error not_found))
      | MethodNotAllowed => (p, Some (response_error method_not_allowed))
      | _ => (p, None)
      end
  end.
End Handlers.
