(* ===== verification/RouteClaims.v ===== *)
(** * What a request can do

    Properties of the handlers of [Routes]: which requests reach the lower runtimes, and what a request
    leaves behind. *)
From S2P Require Import Prelude DomainValues CloudTypes SessionTypes LoginTypes CloudAdapter HttpTypes Idempotency HttpConfig AppSessions AppSessionClaims Shutdown Routes.
From stdpp Require Import base numbers list gmap strings sets.
From Stdlib Require Import ZArith Lia.
Import Ids Str.

Open Scope Z_scope.

(** ** A lease taken and given back *)

(** Sessions in order of issue, with request counts in range. *)
Definition sessions_ok (r : AppSessionRegistry) : Prop :=
  in_order (sessions r) /\ Forall (fun s => 0 <= active_requests s < usize_max) (sessions r).

Lemma sat_incr x : 0 <= x < usize_max -> usize_saturating_add x 1 = x + 1.
Proof. intros Hx. unfold usize_saturating_add. lia. Qed.

Lemma prune_ok now r : sessions_ok r -> sessions_ok (prune_expired now r).
Proof.
  intros [Ho Hf]. pose proof (prune_sessions now r Ho) as Hp. split.
  - rewrite Hp. apply in_order_sub, in_order_map; [intros; apply expire_fields|done].
  - rewrite Hp. apply Forall_forall. intros s [_ Hs]%list_elem_of_filter.
    apply list_elem_of_In, in_map_iff in Hs as (t & <- & Ht%list_elem_of_In).
    destruct (expire_fields now t) as (_ & _ & _ & -> & _). rewrite Forall_forall in Hf. by apply Hf.
Qed.

Lemma find_in_order l i s : in_order l -> l !! i = Some s ->
  list_find (fun t => issuance_seq t = issuance_seq s) l = Some (i, s).
Proof.
  intros Ho Hi. apply list_find_Some. split_and!; [done|done|]. intros j t Hj Hlt Heq.
  assert (t = s) as -> by (eapply in_order_unique; [exact Ho|by eapply list_elem_of_lookup_2|by eapply list_elem_of_lookup_2|done]).
  assert (i = j); [|lia].
  assert (Hn : NoDup (issuance_seq <$> l)).
  { clear -Ho. unfold in_order in Ho. induction Ho as [|x k _ IH HF]; constructor; [|done].
    intros Hx. rewrite Forall_forall in HF. specialize (HF x Hx). lia. }
  eapply (NoDup_lookup _ i j (issuance_seq s)); [exact Hn|by rewrite list_lookup_fmap, Hi|by rewrite list_lookup_fmap, Hj].
Qed.

(** Dropping the lease that authentication just gave restores the pruned registry. *)
Lemma release_lease hs now r r' lease :
  sessions_ok r -> authenticate_cookie hs now r = (r', Ok lease) ->
  release_app_session (lease_seq lease) r' = (prune_expired now r, false).
Proof.
  intros Hr%(prune_ok now). unfold authenticate_cookie. destruct (parse_cookie hs) as [candidate valid].
  set (p := prune_expired now r) in *. clearbody p. pose proof (matched_spec candidate valid now (sessions p)) as Hm.
  destruct (matched _ _ _ _) as [i|]; [|done]. destruct Hm as (s & Hs & Hacc). rewrite Hs. intros [= <- <-].
  destruct Hr as [Ho Hf]. pose proof (proj1 (Forall_lookup _ _) Hf i s Hs) as Ha. simpl in Ha.
  assert (Hinv : invalidated s = false).
  { unfold accepts in Hacc. destruct (invalidated s); [|done]. rewrite !andb_false_r in Hacc. done. }
  set (s1 := with_active _ s). unfold release_app_session. cbn [sessions lease_seq next_seq].
  change (issuance_seq s) with (issuance_seq s1).
  rewrite (find_in_order _ i s1).
  - subst s1. cbn [with_active active_requests invalidated]. rewrite Hinv. simpl.
    f_equal. destruct p as [l n]. simpl in *. f_equal. rewrite list_insert_insert_eq. apply list_insert_id.
    rewrite Hs. f_equal. rewrite sat_incr by done. destruct s. unfold with_active. simpl in *. f_equal. lia.
  - unfold in_order in *. rewrite list_fmap_insert. rewrite list_insert_id; [done|].
    rewrite list_lookup_fmap, Hs. done.
  - apply list_lookup_insert_eq. by eapply lookup_lt_Some.
Qed.

Lemma authenticate_err hs now r r' e : authenticate_cookie hs now r = (r', Err e) -> r' = prune_expired now r.
Proof.
  unfold authenticate_cookie. destruct (parse_cookie hs) as [candidate valid].
  destruct (matched _ _ _ _) as [i|]; [destruct (_ !! i)|]; by intros [= <- <-].
Qed.

Section Claims.
Context `{SerdeJson, Crates, HttpCrates} {L : Type} `{!ControlPorts L}.
Context (cfg : P0HttpConfig) (identity : P0SessionIdentity).

Definition plane_ok (p : Plane L) : Prop :=
  sessions_ok (pl_app p) /\ 0 <= Shutdown.active (pl_life p) < usize_max.

Definition pruned (now : Z) (p : Plane L) : Plane L := with_pl_app (prune_expired now (pl_app p)) p.

(** ** What dropping an admission reads and changes *)

Lemma drop_admission_lower a (p : Plane L) : pl_lower (drop_admission a p) = pl_lower p.
Proof. unfold drop_admission, drop_lease. destruct (release_app_session _ _) as [r []]; done. Qed.

Lemma drop_admission_life a (p : Plane L) : pl_life (drop_admission a p) = Shutdown.drop_operation (pl_life p).
Proof. unfold drop_admission, drop_lease. destruct (release_app_session _ _) as [r []]; done. Qed.

Lemma drop_admission_app a (p : Plane L) : pl_app (drop_admission a p) = (release_app_session (adm_seq a) (pl_app p)).1.
Proof.
  unfold drop_admission, drop_lease. change (pl_app (drop_ticket p)) with (pl_app p).
  destruct (release_app_session _ _) as [r []]; done.
Qed.

(** A plane that holds an admission taken from [p]. *)
Definition holds (a : RequestAdmission) (now : Z) (p p' : Plane L) : Prop :=
  Shutdown.drop_operation (pl_life p') = pl_life p /\ release_app_session (adm_seq a) (pl_app p') = (prune_expired now (pl_app p), false).

Lemma holds_drop a now p p' : pl_lower p' = pl_lower p -> pl_idem p' = pl_idem p -> holds a now p p' ->
  drop_admission a p' = pruned now p.
Proof.
  intros El Ei [Hl Hr]. unfold drop_admission, drop_lease. change (pl_app (drop_ticket p')) with (pl_app p'). rewrite Hr.
  unfold pruned, with_pl_app, drop_ticket, with_pl_life. simpl. by rewrite Hl, El, Ei.
Qed.

(** ** The guards of a mutation *)

Record admitted (rq : Request) (now : Z) (p : Plane L) (a : RequestAdmission) : Prop := {
  ad_running : Shutdown.is_running (pl_life p) = true;
  ad_headers : validate_headers (rq_headers rq) = Ok tt;
  ad_cookie : (authenticate_cookie (rq_headers rq) now (pl_app p)).2 = Ok (mkLease (adm_token a) (adm_seq a)) }.

Record guarded (rq : Request) (now : Z) (p : Plane L) (pm : PreparedMutation) : Prop := {
  gd_admitted : admitted rq now p (pm_admission pm);
  gd_origin : validate_origin cfg (rq_headers rq) = Ok tt;
  gd_instance : parse_instance (rq_headers rq) identity = Ok (ri_instance_id (pm_identity pm));
  gd_key : parse_idempotency_key (rq_headers rq) = Ok (pm_key pm);
  gd_body : exists body, read_bounded_body rq = Ok body /\ ri_body (pm_identity pm) = body }.

Lemma admit_request_holds hs now p : plane_ok p ->
  match admit_request hs now p with
  | (p', Err e) => p' = pruned now p
  | (p', Ok a) =>
      Shutdown.is_running (pl_life p) = true /\
      (authenticate_cookie hs now (pl_app p)).2 = Ok (mkLease (adm_token a) (adm_seq a)) /\
      pl_lower p' = pl_lower p /\ pl_idem p' = pl_idem p /\ holds a now p p'
  end.
Proof.
  intros [Hs Ha]. unfold admit_request.
  destruct (authenticate_cookie hs now (pl_app p)) as [r' [[t q]|e]] eqn:Eau; cbn [lease_seq lease_token].
  - pose proof (release_lease hs now _ _ _ Hs Eau) as Hrel. cbn [lease_seq] in Hrel. unfold Shutdown.admit_operation.
    cbn [pl_life with_pl_app]. destruct (Shutdown.is_running (pl_life p)) eqn:Erun.
    + split; [done|]. split; [done|]. split; [done|]. split; [done|]. split; [|exact Hrel].
      cbn [pl_life with_pl_life]. unfold Shutdown.drop_operation. destruct (pl_life p) as [ph n]. simpl in *.
      rewrite sat_incr by done. f_equal. lia.
    + unfold drop_lease. cbn [pl_app with_pl_app]. by rewrite Hrel.
  - apply authenticate_err in Eau as ->. done.
Qed.

Lemma observation_spec rq now p : plane_ok p ->
  match prepare_observation rq now p with
  | (p', Err e) => p' = p \/ p' = pruned now p
  | (p', Ok a) => admitted rq now p a /\ pl_lower p' = pl_lower p /\ pl_idem p' = pl_idem p /\ holds a now p p'
  end.
Proof.
  intros Hp. unfold prepare_observation, require_running. destruct (Shutdown.is_running _) eqn:Er; simpl; [|by left].
  destruct (validate_headers _) as [[]|e] eqn:Eh; [|by left].
  pose proof (admit_request_holds (rq_headers rq) now p Hp) as Ha.
  destruct (admit_request _ _ _) as [p' [a|e]]; [|by right]. destruct Ha as (? & ? & ?). by split.
Qed.

Lemma protected_spec rq m now p : plane_ok p ->
  match prepare_protected_mutation cfg rq m now p with
  | (p', Err e) => p' = p \/ p' = pruned now p
  | (p', Ok a) => admitted rq now p a /\ validate_origin cfg (rq_headers rq) = Ok tt /\
                  pl_lower p' = pl_lower p /\ pl_idem p' = pl_idem p /\ holds a now p p'
  end.
Proof.
  intros Hp. unfold prepare_protected_mutation, require_running. destruct (Shutdown.is_running _) eqn:Er; simpl; [|by left].
  destruct (ensure_request_method rq m) as [[]|e]; simpl; [|by left].
  destruct (validate_headers _) as [[]|e] eqn:Eh; [|by left].
  pose proof (admit_request_holds (rq_headers rq) now p Hp) as Ha.
  destruct (admit_request _ _ _) as [p' [a|e]]; [|by right]. destruct Ha as (Hr & Hc & Hl & Hi & Hh).
  destruct (validate_origin _ _) as [[]|e]; [done|]. right. by apply holds_drop.
Qed.

Lemma prepared_spec {A} rq m now p (rest : RequestAdmission -> result Api.ApiError A) : plane_ok p ->
  match prepared (prepare_protected_mutation cfg rq m now p) rest with
  | (p', Err e) => p' = p \/ p' = pruned now p
  | (p', Ok x) => exists a, rest a = Ok x /\ admitted rq now p a /\ validate_origin cfg (rq_headers rq) = Ok tt /\
                  pl_lower p' = pl_lower p /\ pl_idem p' = pl_idem p /\ holds a now p p'
  end.
Proof.
  intros Hp. pose proof (protected_spec rq m now p Hp) as Hs. unfold prepared.
  destruct (prepare_protected_mutation _ _ _ _ _) as [p' [a|e]]; [|done]. destruct (rest a) as [x|e] eqn:Er; [eauto|].
  right. destruct Hs as (_ & _ & ? & ? & ?). by apply holds_drop.
Qed.

Definition prepared_well (rq : Request) (now : Z) (p : Plane L) (r : Plane L * result Api.ApiError PreparedMutation) : Prop :=
  match r with
  | (p', Err e) => p' = p \/ p' = pruned now p
  | (p', Ok pm) => guarded rq now p pm /\ pl_lower p' = pl_lower p /\ pl_idem p' = pl_idem p /\
                   holds (pm_admission pm) now p p'
  end.

Lemma empty_mutation_spec rq m route build now at_ p :
  plane_ok p -> prepared_well rq now p (prepare_empty_mutation cfg identity rq m route build now at_ p).
Proof.
  intros Hp. unfold prepare_empty_mutation. match goal with |- prepared_well _ _ _ (prepared _ ?r) => set (rest := r) end.
  pose proof (prepared_spec rq m now p rest Hp) as Hs. destruct (prepared _ _) as [p' [pm|e]]; [|done].
  destruct Hs as (a & Hrest & Ha & Ho & Hl & Hi & Hh). subst rest. simpl in Hrest.
  destruct (parse_instance _ _) as [inst|] eqn:E1; simpl in Hrest; [|done].
  destruct (parse_idempotency_key _) as [key|] eqn:E2; simpl in Hrest; [|done].
  destruct (read_empty rq) as [body|] eqn:E3; simpl in Hrest; [|done]. injection Hrest as <-.
  split; [|done]. constructor; try done. exists body. split; [|done].
  unfold read_empty in E3. destruct (validate_empty_content_type _); simpl in E3; [|done].
  destruct (read_bounded_body rq); simpl in E3; [|done]. destruct (String.eqb _ _); by simplify_eq.
Qed.

Lemma json_mutation_spec {T} (fs : string -> result JsonError T) rq m route build now at_ p :
  plane_ok p -> prepared_well rq now p (prepare_json_mutation cfg identity fs rq m route build now at_ p).
Proof.
  intros Hp. unfold prepare_json_mutation. match goal with |- prepared_well _ _ _ (prepared _ ?r) => set (rest := r) end.
  pose proof (prepared_spec rq m now p rest Hp) as Hs. destruct (prepared _ _) as [p' [pm|e]]; [|done].
  destruct Hs as (a & Hrest & Ha & Ho & Hl & Hi & Hh). subst rest. simpl in Hrest.
  destruct (parse_instance _ _) as [inst|] eqn:E1; simpl in Hrest; [|done].
  destruct (parse_idempotency_key _) as [key|] eqn:E2; simpl in Hrest; [|done].
  destruct (read_json rq) as [body|] eqn:E3; simpl in Hrest; [|done].
  destruct (map_err _ (fs body)) as [parsed|]; simpl in Hrest; [|done].
  destruct (build parsed) as [mu|]; simpl in Hrest; [|done]. injection Hrest as <-.
  split; [|done]. constructor; try done. exists body. split; [|done].
  unfold read_json in E3. by destruct (validate_json_content_type _).
Qed.

Lemma prepare_route_spec h rq now at_ p r :
  plane_ok p -> prepare_route cfg identity h rq now at_ p = Some r -> prepared_well rq now p r.
Proof.
  intros Hp. destruct h; cbn [prepare_route]; try done; intros [= <-];
    first [by apply empty_mutation_spec|by apply json_mutation_spec].
Qed.

(** ** Execution *)

Lemma execute_lower m at_ (p : Plane L) : pl_lower (execute_mutation m at_ p).1 = pl_lower (try_execute_mutation m at_ p).1.
Proof. unfold execute_mutation. by destruct (try_execute_mutation m at_ p) as [p' [[]|]]. Qed.

Lemma port_keeps {A E} (f : E -> Api.ApiError) (call : L -> L * result E A) p :
  pl_life (port f call p).1 = pl_life p /\ pl_app (port f call p).1 = pl_app p.
Proof. unfold port. destruct (call _). done. Qed.

(** Only a logout touches the sessions, and nothing touches the lifecycle. *)
Lemma execute_keeps m at_ (p : Plane L) :
  pl_life (execute_mutation m at_ p).1 = pl_life p /\
  ((forall c q, m <> MLogout c q) -> pl_app (execute_mutation m at_ p).1 = pl_app p).
Proof.
  assert (E : forall q, (execute_mutation m at_ p).1 = q <-> (try_execute_mutation m at_ p).1 = q).
  { intros q. unfold execute_mutation. by destruct (try_execute_mutation m at_ p) as [p' [[]|]]. }
  rewrite (proj2 (E _) eq_refl). clear E.
  assert (Hres : forall op d, pl_life (resolve_current op d p).1 = pl_life p /\ pl_app (resolve_current op d p).1 = pl_app p).
  { intros op d. unfold resolve_current. destruct (require_current_unknown op p); [|done]. apply port_keeps. }
  destruct m; cbn [try_execute_mutation]; try (split; intros; apply port_keeps || apply Hres).
  - split; [done|]. intros Hn. by destruct (Hn cookie session_seq).
  - unfold port. destruct (start_device_login _). done.
Qed.

Lemma idem_admit_owner key i now r r' : Idem.admit_request key i now r = (r', Ok true) ->
  Idem.entries (Idem.prune_expired now r) !! key = None.
Proof.
  unfold Idem.admit_request. destruct (Idem.entries (Idem.prune_expired now r) !! key) as [e|]; [|done].
  by case_bool_decide.
Qed.

(** The lower runtimes change only when this request is the first with its key, and by its mutation. *)
Lemma run_lower rq now p r : prepared_well rq now p r -> pl_lower (run_prepared r).1 <> pl_lower p ->
  exists p' pm, r = (p', Ok pm) /\ guarded rq now p pm /\
    Idem.entries (Idem.prune_expired (pm_admitted_at pm) (pl_idem p)) !! pm_key pm = None /\
    exists idem', pl_lower (try_execute_mutation (pm_mutation pm) (pm_admitted_at pm) (with_pl_idem idem' p')).1 <> pl_lower p.
Proof.
  destruct r as [p' [pm|e]]; simpl; [|by intros [-> | ->]]. intros (Hg & Hl & Hi & _) Hne. exists p', pm.
  split; [done|]. split; [done|]. rewrite <- Hi.
  destruct (Idem.admit_request _ _ _ _) as [idem' [owner|e]] eqn:Ea; cbn [fst] in Hne; [|by rewrite drop_admission_lower in Hne].
  destruct owner.
  - split; [by eapply idem_admit_owner|]. exists idem'. rewrite <- execute_lower.
    destruct (execute_mutation _ _ _) as [p1 [resp disp]]. cbn [pl_idem with_pl_idem] in Hne.
    destruct (poll_response _ _) as [r2 [x|]]; cbn [fst] in Hne; [by rewrite drop_admission_lower in Hne|done].
  - destruct (poll_response _ _) as [r2 [x|]]; cbn [fst] in Hne; [by rewrite drop_admission_lower in Hne|done].
Qed.

Lemma observe_lower rq now call p : plane_ok p ->
  pl_lower (observe rq now call p).1 <> pl_lower p ->
  exists a, admitted rq now p a /\ rq_method rq = GET.
Proof.
  intros Hp Hne. pose proof (observation_spec rq now p Hp) as Hs. unfold observe, prepared in Hne.
  destruct (prepare_observation rq now p) as [p' [a|e]]; cbn [fst] in Hne; [|destruct Hs as [-> | ->]; done].
  destruct Hs as (Ha & Hl & _). exists a. split; [done|]. unfold ensure_request_method in Hne.
  case_bool_decide as Em; [done|]. simpl in Hne. by rewrite drop_admission_lower in Hne.
Qed.

Lemma bootstrap_lower rq draws now (p : Plane L) : pl_lower (bootstrap_session cfg identity rq draws now p).1 = pl_lower p.
Proof.
  unfold bootstrap_session.
  destruct (let? _ := require_running p in _); [|done]. destruct (Shutdown.admit_operation _) as [l [[]|e]]; [|done].
  by destruct (create_app_session _ _ _ _ _).
Qed.

Lemma headers_bounded hs : validate_headers hs = Ok tt -> Forall (fun '(_, v) => slen v <= MAX_HEADER_BYTES) hs.
Proof.
  unfold validate_headers. destruct (existsb _ hs) eqn:E; [done|]. intros _. apply Forall_forall. intros [n v] Hin.
  apply not_true_iff_false in E. destruct (Z.leb_spec (slen v) MAX_HEADER_BYTES); [done|]. exfalso. apply E.
  apply existsb_exists. exists (n, v). split; [by apply list_elem_of_In|]. by apply Z.ltb_lt.
Qed.

Lemma admitted_live rq now p a x : auth_reachable cfg identity x -> registry x = pl_app p -> admitted rq now p a ->
  exists i, live cfg x now i /\ parse_cookie (rq_headers rq) = (is_token i, true).
Proof.
  intros Hx Ex [_ _ Hc]. destruct (parse_cookie (rq_headers rq)) as [candidate valid] eqn:Ep.
  rewrite <- Ex in Hc. destruct (accepted_is_live cfg identity x _ _ _ _ _ Hx Ep Hc) as (-> & i & Hi & <- & _).
  by exists i.
Qed.

(** The mutation each route prepares, at the time it was given. *)
Definition handler_mutation (rq : Request) (h : Handler) (m : Mutation) : Prop :=
  match h with
  | Logout => exists token seq, m = MLogout token seq
  | StartDeviceLogin => m = MStartDeviceLogin
  | CancelLogin => m = MCancelLogin
  | StartTurn => exists text body, rq_body rq = Some text /\ from_slice_start text = Ok body /\ build_start_turn body = Ok m
  | CancelTurn => m = MCancelTurn
  | Reconcile => m = MReconcile
  | Resolve => exists text body, rq_body rq = Some text /\ from_slice_resolve text = Ok body /\ build_resolve body = Ok m
  | _ => False
  end.

Lemma build_start_turn_inv body m : build_start_turn body = Ok m ->
  exists prompt, CloudPrompt_try_new (st_prompt body) = Ok prompt /\ m = MStartTurn prompt.
Proof. unfold build_start_turn. destruct (CloudPrompt_try_new _) as [prompt|]; simpl; [|done]. intros [= <-]. eauto. Qed.

Lemma build_resolve_inv body m : build_resolve body = Ok m -> exists op, rb_operation_id body = Some op /\
  ((exists t task, rb_decision body = DAdopt t /\ CloudTaskId_try_new t = Ok task /\ m = MAdopt op task) \/
   rb_decision body = DAbandon (Some true) /\ m = MAbandon op).
Proof.
  unfold build_resolve. destruct (rb_operation_id body) as [op|]; simpl; [|done]. intros H2. exists op. split; [done|].
  destruct (rb_decision body) as [t|[[]|]]; try done; [left|right; by simplify_eq].
  destruct (CloudTaskId_try_new t) as [task|] eqn:Et; simplify_eq/=. eauto.
Qed.

Lemma read_json_body rq text : read_json rq = Ok text -> rq_body rq = Some text.
Proof.
  unfold read_json, read_bounded_body. destruct (validate_json_content_type _); simpl; [|done].
  destruct (match _ with Some _ => _ | None => _ end); [done|]. destruct (rq_body rq); [|done]. destruct (_ <? _); congruence.
Qed.

(** What a prepared JSON mutation was built from. *)
Lemma json_mutation_inv {T} (from_slice : string -> result JsonError T) rq m route build now at_ (p p' : Plane L) pm :
  prepare_json_mutation cfg identity from_slice rq m route build now at_ p = (p', Ok pm) ->
  pm_admitted_at pm = at_ /\
  exists text body, rq_body rq = Some text /\ from_slice text = Ok body /\ build body = Ok (pm_mutation pm).
Proof.
  unfold prepare_json_mutation, prepared. intros Hr.
  destruct (prepare_protected_mutation _ _ _ _ _) as [q [a|e]]; [|done].
  destruct (parse_instance _ _); simpl in Hr; [|done]. destruct (parse_idempotency_key _); simpl in Hr; [|done].
  destruct (read_json rq) as [text|] eqn:Et; simpl in Hr; [|done]. apply read_json_body in Et.
  destruct (from_slice text) as [body|] eqn:Ef; simpl in Hr; [|done].
  destruct (build body) as [mu|] eqn:Eb; simpl in Hr; [|done]. simplify_eq. split; [done|]. by exists text, body.
Qed.

Lemma empty_mutation_inv rq m route build now at_ (p p' : Plane L) pm :
  prepare_empty_mutation cfg identity rq m route build now at_ p = (p', Ok pm) ->
  pm_admitted_at pm = at_ /\ exists a, pm_mutation pm = build a.
Proof.
  unfold prepare_empty_mutation, prepared. intros Hr.
  destruct (prepare_protected_mutation _ _ _ _ _) as [q [a|e]]; [|done].
  destruct (parse_instance _ _); simpl in Hr; [|done]. destruct (parse_idempotency_key _); simpl in Hr; [|done].
  destruct (read_empty rq); simpl in Hr; [|done]. simplify_eq. eauto.
Qed.

Lemma route_inv h rq now at_ (p p' : Plane L) pm :
  prepare_route cfg identity h rq now at_ p = Some (p', Ok pm) ->
  pm_admitted_at pm = at_ /\ handler_mutation rq h (pm_mutation pm).
Proof.
  destruct h; cbn [prepare_route]; try done; intros [= Hr];
    first [apply json_mutation_inv in Hr as [? Hm]|apply empty_mutation_inv in Hr as [? [a Hm]]]; split; simpl; eauto.
Qed.

(** The guards, in terms of the request. *)
Lemma guarded_facts rq now p pm : guarded rq now p pm ->
  matches_header (public_origin cfg) (single_header "origin" (rq_headers rq)) = true /\
  header_uuid HEADER_INSTANCE (rq_headers rq) = Some (instance_uuid (instance_id identity)) /\
  header_uuid HEADER_IDEMPOTENCY (rq_headers rq) = Some (as_uuid (pm_key pm)) /\ valid_id (pm_key pm) /\
  exists body, rq_body rq = Some body /\ slen body <= MAX_BODY_BYTES.
Proof.
  intros [_ Ho Hi Hk (body & Hb & _)]. unfold validate_origin in Ho. destruct (matches_header _ _); [|done].
  split; [done|]. unfold parse_instance, instance_try_from_uuid in Hi.
  destruct (header_uuid HEADER_INSTANCE _) as [u|]; [|done]. destruct (is_nil u); [done|]. case_bool_decide as Eu; [|done].
  split; [by rewrite <- Eu|]. unfold parse_idempotency_key in Hk.
  destruct (header_uuid HEADER_IDEMPOTENCY _) as [k|]; [|done].
  destruct (try_from_uuid CommandIdT k) as [key|] eqn:Ek; [|done]. simpl in Hk. injection Hk as <-.
  apply try_from_uuid_valid in Ek as [Hv <-]. split; [done|]. split; [done|].
  unfold read_bounded_body in Hb. destruct (match _ with Some _ => _ | None => _ end); [done|].
  destruct (rq_body rq) as [b|]; [|done]. destruct (Z.ltb_spec MAX_BODY_BYTES (slen b)); [done|]. eauto.
Qed.

(** What a request carries that may change the lower runtimes. *)
Definition authorized (x : Auth) (p : Plane L) (rq : Request) (now admitted_at : Z) : Prop :=
  Shutdown.is_running (pl_life p) = true /\
  Forall (fun '(_, v) => slen v <= MAX_HEADER_BYTES) (rq_headers rq) /\
  (exists i, live cfg x now i /\ parse_cookie (rq_headers rq) = (is_token i, true)) /\
  (rq_method rq = GET \/
   matches_header (public_origin cfg) (single_header "origin" (rq_headers rq)) = true /\
   header_uuid HEADER_INSTANCE (rq_headers rq) = Some (instance_uuid (instance_id identity)) /\
   exists key body, header_uuid HEADER_IDEMPOTENCY (rq_headers rq) = Some (as_uuid key) /\ valid_id key /\
     Idem.entries (Idem.prune_expired admitted_at (pl_idem p)) !! key = None /\
     rq_body rq = Some body /\ slen body <= MAX_BODY_BYTES).

Lemma lower_change_authorized x p rq draws now admitted_at :
  auth_reachable cfg identity x -> registry x = pl_app p -> plane_ok p ->
  pl_lower (handle cfg identity rq draws now admitted_at p).1 <> pl_lower p ->
  authorized x p rq now admitted_at.
Proof.
  intros Hx Ex Hp Hne. unfold handle in Hne.
  set (h := router (rq_path rq) (rq_method rq)) in Hne.
  destruct (prepare_route cfg identity h rq now admitted_at p) as [r|] eqn:Er.
  - pose proof (prepare_route_spec h rq now admitted_at p r Hp Er) as Hw.
    destruct (run_lower rq now p r Hw Hne) as (p' & pm & -> & Hg & Hfresh & _).
    pose proof (proj1 (route_inv _ _ _ _ _ _ _ Er)) as Hat. rewrite Hat in Hfresh.
    destruct (guarded_facts rq now p pm Hg) as (? & ? & ? & ? & ?). destruct Hg as [Ha _ _ _ _].
    split; [apply Ha|]. split; [apply headers_bounded, Ha|]. split; [by eapply admitted_live|]. right. naive_solver.
  - assert (Hobs : exists a, admitted rq now p a /\ rq_method rq = GET).
    { destruct h; try done; [by rewrite bootstrap_lower in Hne|by eapply observe_lower..]. }
    destruct Hobs as (a & Ha & Hm). split; [apply Ha|]. split; [apply headers_bounded, Ha|].
    split; [by eapply admitted_live|by left].
Qed.

(** C7: The login broker and the session runtime change only on behalf of an authorized operator.
    Whatever request arrives and however the sessions came about, if handling it changes the lower
    runtimes then the control plane was running, no header exceeds its limit, and the one cookie is the
    token of a session that was issued, not logged out and not expired; and unless the request is an
    observation ([GET]), its one [origin] header is the configured origin, it names this instance, and
    it is the first request with its non-nil idempotency key, within the body limit. *)
Theorem lower_runtimes_need_authorization x p rq draws now admitted_at :
  auth_reachable cfg identity x -> registry x = pl_app p -> plane_ok p ->
  pl_lower (handle cfg identity rq draws now admitted_at p).1 <> pl_lower p ->
  Shutdown.is_running (pl_life p) = true /\
  Forall (fun '(_, v) => slen v <= MAX_HEADER_BYTES) (rq_headers rq) /\
  (exists i, live cfg x now i /\ parse_cookie (rq_headers rq) = (is_token i, true)) /\
  (rq_method rq = GET \/
   matches_header (public_origin cfg) (single_header "origin" (rq_headers rq)) = true /\
   header_uuid HEADER_INSTANCE (rq_headers rq) = Some (instance_uuid (instance_id identity)) /\
   exists key body, header_uuid HEADER_IDEMPOTENCY (rq_headers rq) = Some (as_uuid key) /\ valid_id key /\
     Idem.entries (Idem.prune_expired admitted_at (pl_idem p)) !! key = None /\
     rq_body rq = Some body /\ slen body <= MAX_BODY_BYTES).
Proof. apply lower_change_authorized. Qed.

(** ** What an answered request leaves *)

Lemma run_life rq now p r response : prepared_well rq now p r -> (run_prepared r).2 = Some response ->
  pl_life (run_prepared r).1 = pl_life p.
Proof.
  destruct r as [p' [pm|e]]; simpl; [|by intros [-> | ->]]. intros (_ & _ & _ & Hl & _).
  destruct (Idem.admit_request _ _ _ _) as [idem' [owner|e]]; cbn [fst snd]; [|intros _; by rewrite drop_admission_life].
  pose proof (execute_keeps (pm_mutation pm) (pm_admitted_at pm) (with_pl_idem idem' p')) as [Hk _].
  destruct owner.
  - destruct (execute_mutation _ _ _) as [p1 [resp disp]]. cbn [fst] in Hk.
    destruct (poll_response _ _) as [r2 [x|]]; cbn [fst snd]; [|done]. intros _. rewrite drop_admission_life.
    cbn [pl_life with_pl_idem]. by rewrite Hk.
  - destruct (poll_response _ _) as [r2 [x|]]; cbn [fst snd]; [|done]. intros _. by rewrite drop_admission_life.
Qed.

Lemma run_app rq now p p' pm response : prepared_well rq now p (p', Ok pm) -> (forall c q, pm_mutation pm <> MLogout c q) ->
  (run_prepared (p', Ok pm)).2 = Some response -> pl_app (run_prepared (p', Ok pm)).1 = prune_expired now (pl_app p).
Proof.
  intros (_ & _ & _ & _ & Hr) Hm. simpl.
  destruct (Idem.admit_request _ _ _ _) as [idem' [owner|e]]; cbn [fst snd]; [|intros _; rewrite drop_admission_app; cbn [pl_app with_pl_idem]; by rewrite Hr].
  pose proof (execute_keeps (pm_mutation pm) (pm_admitted_at pm) (with_pl_idem idem' p')) as [_ Hk]. specialize (Hk Hm).
  destruct owner.
  - destruct (execute_mutation _ _ _) as [p1 [resp disp]]. cbn [fst] in Hk.
    destruct (poll_response _ _) as [r2 [x|]]; cbn [fst snd]; [|done]. intros _. rewrite drop_admission_app.
    cbn [pl_app with_pl_idem] in *. rewrite Hk. by rewrite Hr.
  - destruct (poll_response _ _) as [r2 [x|]]; cbn [fst snd]; [|done]. intros _. rewrite drop_admission_app.
    cbn [pl_app with_pl_idem]. by rewrite Hr.
Qed.

Lemma route_mutation h rq now at_ (p p' : Plane L) pm c q :
  prepare_route cfg identity h rq now at_ p = Some (p', Ok pm) -> pm_mutation pm = MLogout c q -> h = Logout.
Proof.
  intros [_ Hm]%route_inv E. rewrite E in Hm. destruct h; simpl in Hm; try done.
  - destruct Hm as (text & body & _ & _ & (prompt & _ & [=])%build_start_turn_inv).
  - destruct Hm as (text & body & _ & _ & (op & _ & [(t & task & _ & _ & [=])|[_ [=]]])%build_resolve_inv).
Qed.

Lemma observe_gives_back rq now call p : plane_ok p ->
  (forall q, pl_life (call q).1 = pl_life q /\ pl_app (call q).1 = pl_app q) ->
  pl_life (observe rq now call p).1 = pl_life p /\
  (pl_app (observe rq now call p).1 = pl_app p \/ pl_app (observe rq now call p).1 = prune_expired now (pl_app p)).
Proof.
  intros Hp Hc. pose proof (observation_spec rq now p Hp) as Hs. unfold observe, prepared.
  destruct (prepare_observation rq now p) as [p' [a|e]]; [|destruct Hs as [-> | ->]; eauto].
  destruct Hs as (_ & _ & _ & Hl & Hr).
  destruct (let? _ := ensure_request_method rq GET in _) as [a'|e] eqn:E; cbn [fst].
  - assert (a' = a) as -> by (destruct (ensure_request_method rq GET); simpl in E; [|done]; destruct (read_empty rq); simpl in E; congruence).
    destruct (Hc p') as [Hcl Hca]. destruct (call p') as [p1 r]. cbn [fst] in *.
    rewrite drop_admission_life, drop_admission_app, Hcl, Hca, Hr. auto.
  - rewrite drop_admission_life, drop_admission_app, Hr. auto.
Qed.

Lemma ticket_back l l' : 0 <= Shutdown.active l < usize_max -> Shutdown.admit_operation l = (l', Ok tt) -> Shutdown.drop_operation l' = l.
Proof.
  intros Hl. unfold Shutdown.admit_operation. destruct (Shutdown.is_running l); [|done]. intros [= <-]. destruct l as [ph n].
  unfold Shutdown.drop_operation. simpl in *. rewrite sat_incr by done. f_equal. lia.
Qed.

Lemma bootstrap_gives_back rq draws now (p : Plane L) : plane_ok p ->
  pl_life (bootstrap_session cfg identity rq draws now p).1 = pl_life p.
Proof.
  intros [_ Ha]. unfold bootstrap_session. destruct (let? _ := require_running p in _); [|done].
  destruct (Shutdown.admit_operation _) as [l [[]|e]] eqn:Ead; [|done]. destruct (create_app_session _ _ _ _ _). cbn [fst].
  unfold drop_ticket. cbn [pl_life with_pl_life with_pl_app]. by apply ticket_back.
Qed.

(** C30: A request gives back what it took: once it is answered, accepted or refused on any branch, the
    count of active operations is what it was before, so a draining shutdown is never held up by a
    request that has ended; and unless it bootstraps or logs out a session, the session registry is as
    before, or as before less the sessions that had expired: no request count is leaked. *)
Theorem answered_request_gives_back_its_admission p rq draws now admitted_at response :
  plane_ok p -> (handle cfg identity rq draws now admitted_at p).2 = Some response ->
  pl_life (handle cfg identity rq draws now admitted_at p).1 = pl_life p /\
  (router (rq_path rq) (rq_method rq) <> BootstrapSession -> router (rq_path rq) (rq_method rq) <> Logout ->
   pl_app (handle cfg identity rq draws now admitted_at p).1 = pl_app p \/
   pl_app (handle cfg identity rq draws now admitted_at p).1 = prune_expired now (pl_app p)).
Proof.
  intros Hp. unfold handle. set (h := router (rq_path rq) (rq_method rq)).
  assert (Hobs : forall call, (forall q, pl_life (call q).1 = pl_life q /\ pl_app (call q).1 = pl_app q) ->
    pl_life (observe rq now call p).1 = pl_life p /\ (h <> BootstrapSession -> h <> Logout ->
    pl_app (observe rq now call p).1 = pl_app p \/ pl_app (observe rq now call p).1 = prune_expired now (pl_app p))).
  { intros call Hc. destruct (observe_gives_back rq now call p Hp Hc). auto. }
  destruct (prepare_route cfg identity h rq now admitted_at p) as [r|] eqn:Er.
  - pose proof (prepare_route_spec h rq now admitted_at p r Hp Er) as Hw. intros Hresp.
    split; [by eapply run_life|]. intros _ Hlogout. destruct r as [p' [pm|e]].
    + right. eapply run_app; [exact Hw| |exact Hresp]. intros c q Em. by apply Hlogout, (route_mutation h rq now admitted_at p p' pm c q).
    + destruct Hw as [-> | ->]; auto.
  - intros _. destruct h; try (split; [done|by left]).
    + split; [by apply bootstrap_gives_back|done].
    + apply Hobs. intros q. unfold observe_login. pose proof (port_keeps Api.map_login_error login_status q) as Hk.
      by destruct (port _ _ q).
    + by apply Hobs.
    + apply Hobs. intros q. unfold observe_diff. pose proof (port_keeps Api.map_session_error read_diff q) as Hk.
      by destruct (port _ _ q).
Qed.

(** ** Recovery *)

Lemma resolve_lower op d (p : Plane L) : pl_lower (resolve_current op d p).1 <> pl_lower p ->
  exists snapshot turn cancel, session_snapshot (pl_lower p) = Ok snapshot /\ sn_current_turn snapshot = Some turn /\
    ts_projection turn = Cloud (OutcomeUnknown op) cancel.
Proof.
  unfold resolve_current, require_current_unknown. destruct (session_snapshot (pl_lower p)) as [snap|]; simpl; [|done].
  destruct (sn_current_turn snap) as [turn|] eqn:Et; simpl; [|done].
  destruct (ts_projection turn) as [| |lc c| | | |] eqn:Epr; simpl; try done.
  destruct lc; simpl; try done. case_bool_decide as E; [|done]. intros _. subst. naive_solver.
Qed.

(** C31: The resolution route touches the lower runtimes only to settle the operation the session shows
    as unknown, and only by the operator's explicit decision: if a request on it changes them, its body
    names an operation, the published turn is that operation with an unknown outcome, and the body
    either adopts a valid task identity or abandons with the duplicate-task risk acknowledged. *)
Theorem recovery_settles_only_the_shown_operation p rq draws now admitted_at :
  plane_ok p -> rq_path rq = ROUTE_SESSION_RESOLVE ->
  pl_lower (handle cfg identity rq draws now admitted_at p).1 <> pl_lower p ->
  exists text body op snapshot turn cancel,
    rq_body rq = Some text /\ from_slice_resolve text = Ok body /\ rb_operation_id body = Some op /\
    session_snapshot (pl_lower p) = Ok snapshot /\ sn_current_turn snapshot = Some turn /\
    ts_projection turn = Cloud (OutcomeUnknown op) cancel /\
    ((exists t task, rb_decision body = DAdopt t /\ CloudTaskId_try_new t = Ok task) \/
     rb_decision body = DAbandon (Some true)).
Proof.
  intros Hp Hpath Hne. unfold handle in Hne. rewrite Hpath in Hne.
  destruct (rq_method rq); try (by cbn in Hne).
  change (router ROUTE_SESSION_RESOLVE POST) with Resolve in Hne.
  cbn [prepare_route] in Hne. pose proof (json_mutation_spec from_slice_resolve rq POST ROUTE_SESSION_RESOLVE build_resolve now admitted_at p Hp) as Hw.
  set (r := prepare_json_mutation _ _ _ _ _ _ _ _ _ _) in *.
  destruct (run_lower rq now p r Hw Hne) as (p' & pm & Er & Hg & _ & idem' & Hex).
  rewrite Er in Hw. destruct Hw as (_ & Hlow & _).
  assert (Hbody : exists text body, rq_body rq = Some text /\ from_slice_resolve text = Ok body /\ build_resolve body = Ok (pm_mutation pm))
    by (subst r; by apply json_mutation_inv in Er as [_ ?]).
  destruct Hbody as (text & body & Hb & Hf & (op & Eop & Hd)%build_resolve_inv).
  assert (Hdec : exists d, pl_lower (resolve_current op d (with_pl_idem idem' p')).1 <> pl_lower p).
  { destruct Hd as [(t & task & _ & _ & Em)|[_ Em]]; rewrite Em in Hex; eauto. }
  destruct Hdec as [d Hdd]. rewrite <- Hlow in Hdd. destruct (resolve_lower op d _ Hdd) as (snap & turn & cancel & H1' & H2' & H3').
  cbn [pl_lower with_pl_idem] in H1'. rewrite Hlow in H1'. exists text, body, op, snap, turn, cancel. split_and!; try done.
  destruct Hd as [(t & task & ? & ? & _)|[? _]]; [left; eauto|by right].
Qed.
End Claims.

(** ** A concrete request *)
Module RouteWitness.
#[local] Existing Instance Witness.serde.
#[local] Existing Instance Witness.crates.

Definition op : CloudSubmitOperationId := mkOp 9.

#[local] Instance http : HttpCrates :=
  {| to_str := Some; parse_uuid := parse_usize; from_slice_start := fun t => Ok (mkStartTurn t);
     from_slice_resolve := fun _ => Ok (mkResolve (Some op) (DAbandon (Some true))) |}.

Definition snapshot : P0SessionSnapshot :=
  {| sn_identity := Witness.identity; sn_state := SRecoveryRequired;
     sn_current_turn := Some {| ts_turn_id := mkId 3; ts_projection := Cloud (OutcomeUnknown op) false |};
     sn_high_water_seq := Seqs.initial |}.

(** The lower runtimes as the number of calls that changed them. *)
#[local] Instance ports : ControlPorts nat :=
  {| login_status := fun n => (n, Ok LSLoggedIn);
     start_device_login := fun n => (n, Err Api.Unavailable);
     cancel_login := fun n => (S n, Ok LSLoggedOut);
     session_snapshot := fun n => Ok snapshot;
     start_turn := fun _ n => (S n, Ok {| tr_turn_id := mkId 3; tr_high_water_seq := Seqs.initial |});
     cancel_turn := fun _ n => (S n, Ok snapshot);
     reconcile_unknown := fun _ n => (n, Ok {| rc_operation_id := op; rc_task_ids := []; rc_complete := true |});
     resolve_unknown := fun _ _ _ n => (S n, Ok snapshot);
     read_diff := fun n => (n, Ok (mkDiff "")) |}.

Definition plane : Plane nat :=
  mkPlane Shutdown.lifecycle_default (registry Witness.one) Idem.registry_default 0%nat.

Definition headers : HeaderMap :=
  [("cookie", cookie_pair Witness.tok); ("origin", "https://codebox.example"); (HEADER_INSTANCE, "8");
   (HEADER_IDEMPOTENCY, "5"); ("content-type", "application/json")].

Definition cancel : Request := mkRequest POST ROUTE_SESSION_CANCEL headers (Some "").
Definition resolve : Request := mkRequest POST ROUTE_SESSION_RESOLVE headers (Some "{}").

Lemma plane_is_ok : plane_ok plane.
Proof.
  assert (E : sessions (pl_app plane) = [mkSession Witness.tok (5 + session_lifetime Witness.cfg) 1 false 0])
    by (vm_compute; reflexivity).
  split; [split; rewrite E|done].
  - repeat constructor.
  - constructor; [done|constructor].
Qed.
End RouteWitness.

Lemma lower_runtimes_need_authorization_witness : exists i, live Witness.cfg Witness.one 6 i.
Proof.
  destruct (@lower_runtimes_need_authorization Witness.serde Witness.crates RouteWitness.http nat RouteWitness.ports
    Witness.cfg Witness.identity Witness.one RouteWitness.plane RouteWitness.cancel Witness.draws 6 7
    Witness.one_reachable eq_refl RouteWitness.plane_is_ok ltac:(vm_compute; discriminate)) as (_ & _ & (i & Hi & _) & _).
  exists i. exact Hi.
Defined.

Lemma answered_request_gives_back_its_admission_witness : exists response,
  (@handle Witness.serde Witness.crates RouteWitness.http nat RouteWitness.ports Witness.cfg Witness.identity
    RouteWitness.cancel Witness.draws 6 7 RouteWitness.plane).2 = Some response /\
  pl_life (@handle Witness.serde Witness.crates RouteWitness.http nat RouteWitness.ports Witness.cfg Witness.identity
    RouteWitness.cancel Witness.draws 6 7 RouteWitness.plane).1 = pl_life RouteWitness.plane.
Proof.
  eexists. split; [vm_compute; reflexivity|].
  refine (proj1 (@answered_request_gives_back_its_admission Witness.serde Witness.crates RouteWitness.http nat RouteWitness.ports
    Witness.cfg Witness.identity RouteWitness.plane RouteWitness.cancel Witness.draws 6 7 _ RouteWitness.plane_is_ok _)).
  vm_compute. reflexivity.
Defined.

Lemma recovery_settles_only_the_shown_operation_witness : exists op turn cancel,
  sn_current_turn RouteWitness.snapshot = Some turn /\ ts_projection turn = Cloud (OutcomeUnknown op) cancel.
Proof.
  destruct (@recovery_settles_only_the_shown_operation Witness.serde Witness.crates RouteWitness.http nat RouteWitness.ports
    Witness.cfg Witness.identity RouteWitness.plane RouteWitness.resolve Witness.draws 6 7
    RouteWitness.plane_is_ok eq_refl ltac:(vm_compute; discriminate))
    as (text & body & op & snapshot & turn & cancel & _ & _ & _ & Hs & Ht & Hp & _).
  exists op, turn, cancel. injection Hs as <-. split; assumption.
Defined.
