(* ===== verification/RouteCalls.v ===== *)
(** * What a request calls

    Which call of the lower runtimes a handled request makes, with what it was made from
    ([lower_call]), and how it moves the registry of operator sessions ([auth_steps]).  The ports stay
    abstract: LoginPort.v and Deployment.v instantiate them. *)
From S2P Require Import Prelude DomainValues CloudTypes SessionTypes LoginTypes CloudAdapter HttpTypes Idempotency HttpConfig AppSessions AppSessionClaims Shutdown Routes RouteClaims.
From stdpp Require Import base numbers list gmap strings relations.
From Stdlib Require Import ZArith Lia.
Import Ids.

Open Scope Z_scope.

Section Calls.
Context `{SerdeJson, Crates, HttpCrates} {L : Type} `{!ControlPorts L}.
Context (cfg : P0HttpConfig) (identity : P0SessionIdentity).

(** ** Calls of the lower runtimes *)

(** The prompt a request posts. *)
Definition posts_prompt (rq : Request) (prompt : CloudPrompt) : Prop :=
  rq_path rq = ROUTE_SESSION_TURNS /\ rq_method rq = POST /\
  exists text body, rq_body rq = Some text /\ from_slice_start text = Ok body /\
    CloudPrompt_try_new (st_prompt body) = Ok prompt.

Inductive lower_call (rq : Request) (l : L) : L -> Prop :=
| lo_none : lower_call rq l l
| lo_login_status : lower_call rq l (login_status l).1
| lo_device : rq_path rq = ROUTE_LOGIN_DEVICE -> rq_method rq = POST -> lower_call rq l (start_device_login l).1
| lo_cancel_login : lower_call rq l (cancel_login l).1
| lo_start_turn prompt : posts_prompt rq prompt -> lower_call rq l (start_turn prompt l).1
| lo_cancel_turn : lower_call rq l (cancel_turn Operator l).1
| lo_reconcile : lower_call rq l (reconcile_unknown Operator l).1
| lo_resolve op d : lower_call rq l (resolve_unknown Operator op d l).1
| lo_diff : lower_call rq l (read_diff l).1.
#[local] Hint Constructors lower_call : core.

Lemma post_routes path m :
  (router path m = StartDeviceLogin -> path = ROUTE_LOGIN_DEVICE /\ m = POST) /\
  (router path m = StartTurn -> path = ROUTE_SESSION_TURNS /\ m = POST) /\
  (router path m = BootstrapSession -> path = ROUTE_OPERATOR_SESSION /\ m = POST).
Proof.
  unfold router, on_get, on_post.
  repeat match goal with |- context [String.eqb path ?r] => destruct (String.eqb_spec path r) end;
    try destruct (existsb _ _); destruct m; done.
Qed.

Lemma port_lower {A E} (f : E -> Api.ApiError) (call : L -> L * result E A) p :
  pl_lower (port f call p).1 = (call (pl_lower p)).1.
Proof. unfold port. by destruct (call _). Qed.

Lemma resolve_call rq op d (p : Plane L) : lower_call rq (pl_lower p) (pl_lower (resolve_current op d p).1).
Proof.
  unfold resolve_current. destruct (require_current_unknown op p); [|auto]. unfold retained_json, value_of. cbn [fst].
  rewrite port_lower. auto.
Qed.

(** The call a mutation makes. *)
Lemma execute_call rq m at_ (p : Plane L) : handler_mutation rq (router (rq_path rq) (rq_method rq)) m ->
  lower_call rq (pl_lower p) (pl_lower (try_execute_mutation m at_ p).1).
Proof.
  intros Hm. destruct (post_routes (rq_path rq) (rq_method rq)) as (Hdev & Hturn & _).
  destruct m; cbn [try_execute_mutation retained_json value_of fst]; rewrite ?port_lower; auto using resolve_call.
  - pose proof (port_lower Api.map_login_error start_device_login p) as Hp.
    destruct (port Api.map_login_error start_device_login p) as [p1 r]. cbn [fst] in Hp |- *. rewrite Hp.
    destruct Hdev; [|by constructor]. destruct (router _ _); simpl in Hm; try done; [naive_solver|..].
    + destruct Hm as (? & ? & _ & _ & (? & _ & [=])%build_start_turn_inv).
    + destruct Hm as (? & ? & _ & _ & (? & _ & [(? & ? & _ & _ & [=])|[_ [=]]])%build_resolve_inv).
  - constructor. destruct (router _ _); simpl in Hm; try done; [naive_solver|..].
    + destruct Hm as (text & body & Hb & Hf & (q & Hq & [= ->])%build_start_turn_inv). destruct Hturn as [Hp Hpost]; [done|].
      split_and!; [done|done|]. by exists text, body.
    + destruct Hm as (? & ? & _ & _ & (? & _ & [(? & ? & _ & _ & [=])|[_ [=]]])%build_resolve_inv).
Qed.

(** A prepared mutation runs at most once, on the lower runtimes the request found. *)
Lemma run_cases (p' : Plane L) pm :
  pl_lower (run_prepared (p', Ok pm)).1 = pl_lower p' \/
  exists idem', pl_lower (run_prepared (p', Ok pm)).1 =
    pl_lower (try_execute_mutation (pm_mutation pm) (pm_admitted_at pm) (with_pl_idem idem' p')).1.
Proof.
  simpl. destruct (Idem.admit_request _ _ _ _) as [idem' [[]|e]]; cbn [fst].
  - right. exists idem'. rewrite <- execute_lower. destruct (execute_mutation _ _ _) as [p1 [resp disp]].
    destruct (poll_response _ _) as [r2 [x|]]; cbn [fst]; by rewrite ?drop_admission_lower.
  - left. destruct (poll_response _ _) as [r2 [x|]]; cbn [fst]; by rewrite ?drop_admission_lower.
  - left. by rewrite drop_admission_lower.
Qed.

Lemma mutation_call rq now at_ (p : Plane L) r : plane_ok p ->
  prepare_route cfg identity (router (rq_path rq) (rq_method rq)) rq now at_ p = Some r ->
  lower_call rq (pl_lower p) (pl_lower (run_prepared r).1).
Proof.
  intros Hp Er. pose proof (prepare_route_spec cfg identity _ rq now at_ p r Hp Er) as Hw.
  destruct r as [p1 [pm|e]]; [|destruct Hw as [-> | ->]; simpl; auto]. destruct Hw as (_ & Hl & _).
  destruct (route_inv _ _ _ _ _ _ _ _ _ Er) as [_ Hm].
  destruct (run_cases p1 pm) as [E|[idem' E]]; rewrite E, <- Hl; [auto|]. by apply (execute_call rq _ _ (with_pl_idem idem' p1)).
Qed.

Lemma observe_call rq now call (p : Plane L) : plane_ok p ->
  (forall q : Plane L, lower_call rq (pl_lower q) (pl_lower (call q).1)) ->
  lower_call rq (pl_lower p) (pl_lower (observe rq now call p).1).
Proof.
  intros Hp Hc. pose proof (observation_spec rq now p Hp) as Hs. unfold observe, prepared.
  destruct (prepare_observation rq now p) as [p' [a|e]]; [|destruct Hs as [-> | ->]; auto].
  destruct Hs as (_ & Hl & _). specialize (Hc p'). rewrite Hl in Hc.
  destruct (let? _ := ensure_request_method rq GET in _) as [a'|e]; cbn [fst].
  - destruct (call p') as [q r]. cbn [fst] in *. by rewrite drop_admission_lower.
  - rewrite drop_admission_lower, Hl. auto.
Qed.

Lemma observed_login_call rq (q : Plane L) : lower_call rq (pl_lower q) (pl_lower (observe_login q).1).
Proof.
  unfold observe_login. pose proof (port_lower Api.map_login_error login_status q) as Hl.
  destruct (port Api.map_login_error login_status q) as [q1 r]. cbn [fst] in *. rewrite Hl. auto.
Qed.

Lemma observed_diff_call rq (q : Plane L) : lower_call rq (pl_lower q) (pl_lower (observe_diff q).1).
Proof.
  unfold observe_diff. pose proof (port_lower Api.map_session_error read_diff q) as Hl.
  destruct (port Api.map_session_error read_diff q) as [q1 r]. cbn [fst] in *. rewrite Hl. auto.
Qed.

(** A request makes at most one call, and starts a turn or a login only where its route says so. *)
Lemma handle_call rq draws now at_ (p : Plane L) : plane_ok p ->
  lower_call rq (pl_lower p) (pl_lower (handle cfg identity rq draws now at_ p).1).
Proof.
  intros Hp. unfold handle. destruct (prepare_route _ _ _ _ _ _ _) as [r|] eqn:Er; [by eapply mutation_call|].
  destruct (router _ _); cbn [fst]; auto.
  - rewrite bootstrap_lower. auto.
  - apply observe_call; [done|]. apply observed_login_call.
  - apply observe_call; [done|]. intros q. simpl. auto.
  - apply observe_call; [done|]. apply observed_diff_call.
Qed.

(** ** Moves of the session registry *)

(** What the steps of AppSessionClaims.v that [P] allows make of the ghost state. *)
Definition auth_steps (P : AuthStep -> Prop) : Auth -> Auth -> Prop :=
  rtc (fun a b => exists l, P l /\ auth_ok l a /\ b = auth_step cfg identity l a).

Lemma auth_steps_reachable P a b : auth_steps P a b -> auth_reachable cfg identity a -> auth_reachable cfg identity b.
Proof. induction 1 as [|a b c (l & _ & Hl & ->) _ IH]; [done|]. intros Ha. apply IH. by constructor. Qed.

(** Sessions are issued by creations alone. *)
Lemma auth_steps_issued P a b i : auth_steps P a b -> i ∈ issued b -> i ∈ issued a \/ exists draws, P (ACreate draws (is_at i)).
Proof.
  induction 1 as [a|a b c (l & HP & _ & ->) _ IH]; [by left|]. intros Hi. destruct (IH Hi) as [Hi'|]; [|by right].
  destruct l as [draws now| | | |]; [|by left..]. simpl in Hi'.
  apply elem_of_app in Hi' as [|(s & -> & _)%list_elem_of_fmap]; [by left|]. right. by exists draws.
Qed.

(** A request that opens a session: it carries the configured origin and the bootstrap secret. *)
Definition bootstraps (rq : Request) : Prop :=
  rq_path rq = ROUTE_OPERATOR_SESSION /\ rq_method rq = POST /\
  validate_origin cfg (rq_headers rq) = Ok tt /\ validate_bootstrap cfg (rq_headers rq) = Ok tt.

(** The steps a request may take. *)
Definition may_take (rq : Request) (now : Z) (l : AuthStep) : Prop :=
  match l with ACreate _ t => bootstraps rq /\ t = now | _ => True end.

Section Moves.
Context (rq0 : Request) (now0 : Z).

(** From any ghost state over [r], such steps lead to one over [r']. *)
Definition follows (r r' : AppSessionRegistry) : Prop :=
  forall x, registry x = r -> exists x', auth_steps (may_take rq0 now0) x x' /\ registry x' = r'.

Lemma follows_refl r : follows r r.
Proof. intros x Hx. by exists x; split; [apply rtc_refl|]. Qed.

Lemma follows_trans r1 r2 r3 : follows r1 r2 -> follows r2 r3 -> follows r1 r3.
Proof.
  intros H12 H23 x Hx. destruct (H12 x Hx) as (y & Hxy & Hy). destruct (H23 y Hy) as (z & Hyz & Hz).
  exists z. split; [by etrans|done].
Qed.

Lemma follows_step l r r' : may_take rq0 now0 l -> (forall x, registry x = r -> auth_ok l x /\ registry (auth_step cfg identity l x) = r') -> follows r r'.
Proof. intros Hm Hl x Hx. destruct (Hl x Hx). exists (auth_step cfg identity l x). split; [apply rtc_once; by exists l|done]. Qed.

Lemma follows_authenticate hs now r : follows r (authenticate_cookie hs now r).1.
Proof. apply (follows_step (AAuthenticate hs now)); [done|]. by intros x <-. Qed.

Lemma follows_release seq r : follows r (release_app_session seq r).1.
Proof. apply (follows_step (ARelease seq)); [done|]. by intros x <-. Qed.

Lemma follows_logout c seq r : follows r (invalidate_cookie c seq r).
Proof. apply (follows_step (ALogout c seq)); [done|]. by intros x <-. Qed.

Lemma follows_create draws r : bootstraps rq0 -> next_seq r < u64_max -> follows r (create_app_session cfg identity draws now0 r).1.
Proof. intros Hb Hr. apply (follows_step (ACreate draws now0)); [done|]. by intros x <-. Qed.
#[local] Hint Resolve follows_refl follows_authenticate follows_release follows_logout follows_create : core.

Lemma drop_lease_follows seq (p : Plane L) : follows (pl_app p) (pl_app (drop_lease seq p)).
Proof.
  unfold drop_lease. pose proof (follows_release seq (pl_app p)) as Hf. by destruct (release_app_session _ _) as [r []].
Qed.

Lemma drop_admission_follows a (p : Plane L) : follows (pl_app p) (pl_app (drop_admission a p)).
Proof. rewrite drop_admission_app. auto. Qed.

Lemma admit_follows hs now (p : Plane L) : follows (pl_app p) (pl_app (admit_request hs now p).1).
Proof.
  unfold admit_request. pose proof (follows_authenticate hs now (pl_app p)) as Hf.
  destruct (authenticate_cookie hs now (pl_app p)) as [r [lease|e]]; cbn [fst] in *; [|done].
  destruct (Shutdown.admit_operation _) as [l [[]|e]]; cbn [fst]; [done|].
  eapply follows_trans; [exact Hf|]. apply (drop_lease_follows _ (with_pl_app r p)).
Qed.

Lemma protected_follows rq m now (p : Plane L) : follows (pl_app p) (pl_app (prepare_protected_mutation cfg rq m now p).1).
Proof.
  unfold prepare_protected_mutation. destruct (let? _ := require_running p in _) as [?u|?u]; [|auto].
  pose proof (admit_follows (rq_headers rq) now p) as Ha. destruct (admit_request _ _ _) as [p' [a|e]]; cbn [fst] in *; [|done].
  destruct (validate_origin _ _); cbn [fst]; [done|]. eauto using follows_trans, drop_admission_follows.
Qed.

Lemma prepared_follows {A} (p : Plane L) (prep : Plane L * result Api.ApiError RequestAdmission) (rest : RequestAdmission -> result Api.ApiError A) :
  follows (pl_app p) (pl_app prep.1) -> follows (pl_app p) (pl_app (prepared prep rest).1).
Proof.
  intros Hf. unfold prepared. destruct prep as [p' [a|e]]; [|done]. destruct (rest a); [done|].
  eauto using follows_trans, drop_admission_follows.
Qed.

Lemma route_follows h rq now at_ (p : Plane L) r :
  prepare_route cfg identity h rq now at_ p = Some r -> follows (pl_app p) (pl_app r.1).
Proof.
  destruct h; cbn [prepare_route]; try done; intros [= <-]; apply prepared_follows, protected_follows.
Qed.

Lemma execute_follows m at_ (p : Plane L) : follows (pl_app p) (pl_app (execute_mutation m at_ p).1).
Proof.
  destruct (execute_keeps m at_ p) as [_ Hk].
  destruct m; try (rewrite Hk by done; auto). unfold execute_mutation. simpl. auto.
Qed.

Lemma run_follows (p : Plane L) r : follows (pl_app p) (pl_app r.1) -> follows (pl_app p) (pl_app (run_prepared r).1).
Proof.
  destruct r as [p' [pm|e]]; simpl; [|done]. intros Hf.
  destruct (Idem.admit_request _ _ _ _) as [idem' [[]|e]]; cbn [fst].
  - pose proof (execute_follows (pm_mutation pm) (pm_admitted_at pm) (with_pl_idem idem' p')) as He.
    destruct (execute_mutation _ _ _) as [p1 [resp disp]]. cbn [fst pl_app with_pl_idem] in He.
    destruct (poll_response _ _) as [r2 [x|]]; cbn [fst]; [|eauto using follows_trans].
    eapply follows_trans; [|apply drop_admission_follows]. eauto using follows_trans.
  - destruct (poll_response _ _) as [r2 [x|]]; cbn [fst]; [|done]. eapply follows_trans; [|apply drop_admission_follows]. done.
  - eapply follows_trans; [|apply drop_admission_follows]. done.
Qed.

Lemma observe_follows rq now call (p : Plane L) : (forall q : Plane L, pl_app (call q).1 = pl_app q) ->
  follows (pl_app p) (pl_app (observe rq now call p).1).
Proof.
  intros Hc. unfold observe.
  match goal with |- context [prepared ?a ?b] => pose proof (prepared_follows p a b) as Hp; destruct (prepared a b) as [p' [adm|e]] end.
  - assert (Hf : follows (pl_app p) (pl_app p')).
    { apply Hp. unfold prepare_observation. destruct (let? _ := require_running p in _) as [?u|?u]; [apply admit_follows|auto]. }
    specialize (Hc p'). destruct (call p') as [q r]. cbn [fst] in *. rewrite <- Hc in Hf. eauto using follows_trans, drop_admission_follows.
  - apply Hp. unfold prepare_observation. destruct (let? _ := require_running p in _) as [?u|?u]; [apply admit_follows|auto].
Qed.

End Moves.

Lemma bootstrap_follows rq draws now (p : Plane L) : router (rq_path rq) (rq_method rq) = BootstrapSession ->
  next_seq (pl_app p) < u64_max -> follows rq now (pl_app p) (pl_app (bootstrap_session cfg identity rq draws now p).1).
Proof.
  intros Hroute Hs. destruct (post_routes (rq_path rq) (rq_method rq)) as (_ & _ & [Hpath Hm]); [done|].
  unfold bootstrap_session, require_running. destruct (Shutdown.is_running _); [simpl|apply follows_refl].
  destruct (validate_headers _) as [[]|e]; [simpl|apply follows_refl]. destruct (read_empty rq); [simpl|apply follows_refl].
  destruct (validate_origin cfg _) as [[]|e] eqn:Eo; [simpl|apply follows_refl].
  destruct (validate_bootstrap cfg _) as [[]|e] eqn:Eb; [|apply follows_refl].
  destruct (Shutdown.admit_operation _) as [l [[]|e]]; [|apply follows_refl].
  pose proof (follows_create rq now draws (pl_app p)) as Hf. destruct (create_app_session _ _ _ _ _). by apply Hf.
Qed.

(** A handled request takes steps of the registry of sessions, and opens one only with the secret. *)
Lemma handle_follows rq draws now at_ (p : Plane L) : next_seq (pl_app p) < u64_max ->
  follows rq now (pl_app p) (pl_app (handle cfg identity rq draws now at_ p).1).
Proof.
  intros Hs. unfold handle. destruct (prepare_route _ _ _ _ _ _ _) as [r|] eqn:Er; [by apply run_follows, (route_follows _ _ _ _ _ _ _ _ Er)|].
  destruct (router _ _) eqn:Eh; cbn [fst]; try apply follows_refl; [by apply bootstrap_follows|apply observe_follows; intros q..]; [| done |].
  - unfold observe_login. destruct (port_keeps Api.map_login_error login_status q) as [_ Hk]. by destruct (port _ _ q).
  - unfold observe_diff. destruct (port_keeps Api.map_session_error read_diff q) as [_ Hk]. by destruct (port _ _ q).
Qed.
End Calls.
