(* ===== verification/LoginPort.v ===== *)
(** * The login port of the control plane

    [ConcreteLoginPort] (ports.rs) puts one [LoginBroker] behind a mutex and gives its calls to the
    handlers.  Here the ports of Routes.v, which the handlers are written against, are instantiated
    with it: a request that reaches the login routes runs the broker of LoginBroker.v, on a host
    whose file and process answers are part of the state.  The session port stays a parameter
    ([SessionPorts]).

    A call that unwinds poisons the mutex; the blocking task that ran it is then answered like
    [LoginPortError::Unavailable], and so is every later call.  A call during which the process
    died is treated the same way: nothing of the plane is left to answer anything else. *)
From S2P Require Import Prelude Effects DomainValues CloudTypes SessionTypes CloudAdapter LoginTypes LoginParser LoginLedger LoginBroker LoginClaims HttpTypes Idempotency HttpConfig AppSessions AppSessionClaims Shutdown Routes RouteClaims RouteCalls.
From stdpp Require Import base numbers list strings gmap.
From Stdlib Require Import ZArith Lia.
Import Ids Ledger Broker.

Open Scope Z_scope.

(** The session half of the ports. *)
Class SessionPorts (S : Type) := {
  sp_snapshot : S -> result Errors.P0SessionError P0SessionSnapshot;
  sp_start_turn : CloudPrompt -> S -> S * result Errors.P0SessionError P0TurnReceipt;
  sp_cancel_turn : P0Actor -> S -> S * result Errors.P0SessionError P0SessionSnapshot;
  sp_reconcile_unknown : P0Actor -> S -> S * result Errors.P0SessionError P0RecoveryCandidates;
  sp_resolve_unknown : P0Actor -> CloudSubmitOperationId -> UnknownSubmitDecision -> S ->
    S * result Errors.P0SessionError P0SessionSnapshot;
  sp_read_diff : S -> S * result Errors.P0SessionError CloudDiff }.

(** [ConcreteLoginPort]: the broker, whether its mutex is poisoned, and what the system answers in
    its next calls. *)
Record ConcreteLoginPort := mkLoginPort {
  broker : Host; poisoned : bool; agenda : list Answers; rest : Answers }.

Definition answers_of_next (s : ConcreteLoginPort) : Answers := from_option id (rest s) (head (agenda s)).

(** [self.lock()?.<call>().map_err(LoginPortError::Lower)] *)
Definition with_lock {A} (call : Answers -> B A) (s : ConcreteLoginPort)
  : ConcreteLoginPort * result Api.LoginPortError A :=
  if poisoned s then (s, Err Api.Unavailable)
  else
    let r := call (answers_of_next s) (broker s) in
    match r with
    | Done x h => (mkLoginPort h false (tail (agenda s)) (rest s), map_err Api.Lower x)
    | Crashed _ => (mkLoginPort (settle_run r) true (tail (agenda s)) (rest s), Err Api.Unavailable)
    end.

Section Port.
Variable runner_uid : Z.

Definition port_status := with_lock (status runner_uid).
Definition port_start_device_login := with_lock (Broker.start_device_login runner_uid).
Definition port_cancel := with_lock (cancel runner_uid).
Definition port_shutdown_cleanup (s : ConcreteLoginPort) : ConcreteLoginPort * result Api.LoginPortError unit :=
  let '(s, r) := with_lock (cancel runner_uid) s in (s, match r with Ok _ => Ok tt | Err e => Err e end).

Definition login_ports {S} `{SessionPorts S} : ControlPorts (ConcreteLoginPort * S) :=
  let on_login {A} (call : ConcreteLoginPort -> ConcreteLoginPort * result Api.LoginPortError A) :=
    fun '(l, s) => let '(l, r) := call l in ((l, s), r) in
  let on_session {A} (call : S -> S * result Errors.P0SessionError A) :=
    fun '(l, s) => let '(s, r) := call s in ((l : ConcreteLoginPort, s), r) in
  {| login_status := on_login port_status;
     Routes.start_device_login := on_login port_start_device_login;
     cancel_login := on_login port_cancel;
     session_snapshot := fun ls => sp_snapshot ls.2;
     start_turn := fun prompt => on_session (sp_start_turn prompt);
     cancel_turn := fun actor => on_session (sp_cancel_turn actor);
     reconcile_unknown := fun actor => on_session (sp_reconcile_unknown actor);
     resolve_unknown := fun actor op d => on_session (sp_resolve_unknown actor op d);
     read_diff := on_session sp_read_diff |}.
#[local] Existing Instance login_ports.

(** ** What a call does to the broker *)

(** A call of the port is at most one step of the broker. *)
Lemma with_lock_step {A} (call : Answers -> B A) (step_of : Answers -> Step) s :
  (forall a h, step runner_uid h (step_of a) = settle_run (call a h)) ->
  broker (with_lock call s).1 = broker s \/
  poisoned s = false /\ broker (with_lock call s).1 = step runner_uid (broker s) (step_of (answers_of_next s)).
Proof.
  intros Hc. unfold with_lock. destruct (poisoned s); [by left|right]. split; [done|]. rewrite Hc.
  by destruct (call _ _).
Qed.

(** The broker of a port was reached by its own calls. *)
Definition reached (s : ConcreteLoginPort) : Prop := exists steps, broker s = run runner_uid fresh steps.

Lemma reached_port_inv s : reached s -> Inv (broker s).
Proof. intros [steps ->]. apply reached_inv. Qed.

Lemma with_lock_reached {A} (call : Answers -> B A) (step_of : Answers -> Step) s :
  (forall a h, step runner_uid h (step_of a) = settle_run (call a h)) -> reached s -> reached (with_lock call s).1.
Proof.
  intros Hc [steps Hs]. destruct (with_lock_step call step_of s Hc) as [E|[_ E]]; rewrite Hs in E; [by exists steps|].
  exists (steps ++ [step_of (answers_of_next s)]). rewrite E. unfold run. by rewrite fold_left_app.
Qed.

(** The status calls start no login. *)
Lemma with_lock_observes (call : Answers -> B LoginStatus) (step_of : Answers -> Step) s :
  (forall a h, step runner_uid h (step_of a) = settle_run (call a h)) ->
  (forall a h, Inv h -> observes a h (call a)) -> Inv (broker s) ->
  logins (broker (with_lock call s).1) = logins (broker s).
Proof.
  intros Hc Ho HI. destruct (with_lock_step call step_of s Hc) as [->|[_ ->]]; [done|]. rewrite Hc.
  by apply (observed_settles (answers_of_next s)), Ho.
Qed.

(** ** What a request does to the broker *)

Section Requests.
Context `{SerdeJson, Crates, HttpCrates} {S : Type} `{!SessionPorts S}.
Context (cfg : P0HttpConfig) (identity : P0SessionIdentity).

Abbreviation Lower := (ConcreteLoginPort * S)%type.
Abbreviation started l := (logins (broker (fst l))).

Lemma login_lower {A} (call : ConcreteLoginPort -> ConcreteLoginPort * result Api.LoginPortError A) (l : Lower) :
  (let '(c, s) := l in let '(c, r) := call c in ((c, s), r)).1.1 = (call l.1).1.
Proof. destruct l as [c s]. simpl. by destruct (call c). Qed.

Lemma session_lower {A} (call : S -> S * result Errors.P0SessionError A) (l : Lower) :
  (let '(c, s) := l in let '(s, r) := call s in ((c, s), r)).1.1 = l.1.
Proof. destruct l as [c s]. simpl. by destruct (call s). Qed.

(** The calls a handler can make on the login port. *)
Inductive login_call (rq : Request) (l : ConcreteLoginPort) : ConcreteLoginPort -> Prop :=
| lc_none : login_call rq l l
| lc_status : login_call rq l (port_status l).1
| lc_cancel : login_call rq l (port_cancel l).1
| lc_start : rq_path rq = ROUTE_LOGIN_DEVICE -> rq_method rq = POST ->
    login_call rq l (port_start_device_login l).1.
#[local] Hint Constructors login_call : core.

Lemma lower_login_call rq (l l' : Lower) : lower_call rq l l' -> login_call rq l.1 l'.1.
Proof.
  intros []; cbn [login_status Routes.start_device_login cancel_login start_turn cancel_turn reconcile_unknown resolve_unknown read_diff login_ports];
    rewrite ?login_lower, ?session_lower; auto.
Qed.

Lemma login_call_reached rq l l' : login_call rq l l' -> reached l -> reached l'.
Proof.
  intros [] Hr; [done|..].
  - by apply (with_lock_reached _ Status).
  - by apply (with_lock_reached _ Cancel).
  - by apply (with_lock_reached _ Start).
Qed.

(** Only the device-login call starts a login. *)
Lemma login_call_started rq l l' : login_call rq l l' -> reached l ->
  logins (broker l') = logins (broker l) \/
  rq_path rq = ROUTE_LOGIN_DEVICE /\ rq_method rq = POST /\ poisoned l = false /\
  start_effect (answers_of_next l) (broker l) (broker l').
Proof.
  intros Hc HI%reached_port_inv. destruct Hc as [| | |Hpath Hm]; [by left|left|left|].
  - apply (with_lock_observes _ Status); [done|apply status_observes|done].
  - apply (with_lock_observes _ Cancel); [done|apply cancel_observes|done].
  - destruct (with_lock_step (Broker.start_device_login runner_uid) Start l) as [E|[Hp E]]; [done|left; by f_equal|right].
    split_and!; try done. unfold port_start_device_login. rewrite E. by apply start_settles.
Qed.

(** A device login is started only by an authorized operator's own request, and one at a time.
    However the sessions and the state directory came about, after handling a request the broker is
    in a state its own calls reach; and either no login command was started, or the request is a
    [POST] on the device-login route that passed every guard of an authorized mutation (live session
    cookie, origin, instance, first use of its idempotency key), the port was not poisoned, no login
    was active, every earlier login had been settled on disk, and exactly one command was started. *)
Theorem device_login_needs_authorized_post x (p : Plane Lower) rq draws now admitted_at :
  auth_reachable cfg identity x -> registry x = pl_app p -> plane_ok p -> reached (pl_lower p).1 ->
  let p' := (handle cfg identity rq draws now admitted_at p).1 in
  reached (pl_lower p').1 /\
  (started (pl_lower p') = started (pl_lower p) \/
   rq_path rq = ROUTE_LOGIN_DEVICE /\ rq_method rq = POST /\ authorized cfg identity x p rq now admitted_at /\
   poisoned (pl_lower p).1 = false /\ active (broker (pl_lower p).1) = None /\
   (forall op, op ∈ started (pl_lower p) -> settled op (broker (pl_lower p).1)) /\
   exists op, started (pl_lower p') = op :: started (pl_lower p)).
Proof.
  intros Hx Ex Hp Hr p'. pose proof (lower_login_call _ _ _ (handle_call cfg identity rq draws now admitted_at p Hp)) as Hc.
  split; [by eapply login_call_reached|]. destruct (login_call_started _ _ _ Hc Hr) as [E|(Hpath & Hm & Hpo & [_ [E|(E & Ha & Hcl & _)]])]; [by left..|].
  right. split_and!; try done.
  - apply (lower_change_authorized cfg identity x p rq draws now admitted_at Hx Ex Hp). intros Heq. rewrite Heq in E.
    apply (f_equal length) in E. simpl in E. lia.
  - intros op. apply clear_settles; [by apply reached_port_inv|done].
  - eauto.
Qed.
End Requests.
End Port.

(** ** A concrete login *)
Module LoginPortWitness.
#[local] Existing Instance Witness.serde.
#[local] Existing Instance Witness.crates.
#[local] Existing Instance RouteWitness.http.

Definition unavailable : Errors.P0SessionError := Errors.new Errors.RuntimeStopped.

#[local] Instance session : SessionPorts unit :=
  {| sp_snapshot := fun _ => Err unavailable; sp_start_turn := fun _ s => (s, Err unavailable);
     sp_cancel_turn := fun _ s => (s, Err unavailable); sp_reconcile_unknown := fun _ s => (s, Err unavailable);
     sp_resolve_unknown := fun _ _ _ s => (s, Err unavailable); sp_read_diff := fun s => (s, Err unavailable) |}.

Definition idle : ConcreteLoginPort :=
  mkLoginPort (run 1000 fresh [Restart [] 20]) false [] (LoginWitness.answers (Ok tt) LoggedOut).
Definition plane : Plane (ConcreteLoginPort * unit) :=
  mkPlane Shutdown.lifecycle_default (registry Witness.one) Idem.registry_default (idle, tt).
Definition device : Request := mkRequest POST ROUTE_LOGIN_DEVICE RouteWitness.headers (Some "").
Definition after : Plane (ConcreteLoginPort * unit) :=
  (@handle _ _ _ _ (login_ports 1000) Witness.cfg Witness.identity device Witness.draws 6 7 plane).1.

Lemma login_plane_ok : plane_ok plane.
Proof.
  split; [apply RouteWitness.plane_is_ok|]. vm_compute. split; [discriminate|reflexivity].
Qed.
End LoginPortWitness.

Lemma device_login_needs_authorized_post_witness :
  logins (broker (pl_lower LoginPortWitness.after).1) = [LoginWitness.op] /\
  active (broker LoginPortWitness.idle) = None /\ reached 1000 (pl_lower LoginPortWitness.after).1.
Proof.
  split; [vm_compute; reflexivity|]. split; [vm_compute; reflexivity|].
  refine (proj1 (@device_login_needs_authorized_post 1000 Witness.serde Witness.crates RouteWitness.http unit
    LoginPortWitness.session Witness.cfg Witness.identity Witness.one LoginPortWitness.plane LoginPortWitness.device
    Witness.draws 6 7 Witness.one_reachable eq_refl LoginPortWitness.login_plane_ok _)).
  exists [Restart [] 20%nat]. reflexivity.
Defined.
