(* ===== verification/WebSocket.v ===== *)
(** * The session stream

    Models [apps/control-plane/src/websocket.rs] and the subscription part of [ports.rs]: the upgrade
    request, the first frame of a client, the replay, the live loop, and how a connection is closed.
    What a connection awaits (frames of the client, timers, the validity of its session, results of
    writes, live events) is a script: one entry per turn of a loop, in order.  A function over a script
    answers the frames written and, unless the script ends first, the outcome.  A write that fails or
    times out is the last one and its frame is not counted as written. *)
From S2P Require Import Prelude DomainValues CloudTypes SessionTypes LoginTypes CloudAdapter HttpTypes Idempotency HttpConfig AppSessions Shutdown Routes.
From stdpp Require Import base numbers list strings sets.
From Stdlib Require Import ZArith Lia.
Import Ids Str Seqs.

Open Scope Z_scope.

Definition MAX_CLIENT_MESSAGE_BYTES : Z := 1024.
Definition MAX_SERVER_MESSAGE_BYTES : Z := 64 * 1024.
Definition PROTOCOL_VERSION : Z := 1.

(** ** Frames *)

Inductive ClientFrame := CText (text : string) | CBinary | CPing | CPong | CClose.

Inductive ServerFrame := SText (text : string) | SPing | SClose (code : Z) (reason : string).

Inductive ClientApplicationFrame :=
| Subscribe (protocol_version : Z) (session_id : SessionId) (after_seq : EventSeq).

Inductive ReplayFrame :=
| ReplayBegin (session_id : SessionId) (after_seq high_water_seq : EventSeq)
| FEvent (envelope : P0SessionEventEnvelope)
| FSnapshot (snapshot : P0SessionSnapshot) (high_water_seq : EventSeq)
| ReplayEnd (session_id : SessionId) (high_water_seq : EventSeq).

Record ErrorFrame := mkErrorFrame {
  frame_type : string; ef_code : string; ef_message : string; ef_oldest_available : option EventSeq;
  ef_latest_available : option EventSeq; ef_supported_version : option Z }.

(** [serde_json] at the frame types. *)
Class FrameJson := {
  frame_to_vec : ReplayFrame -> option string;
  error_frame_to_vec : ErrorFrame -> option string;
  client_frame_from_str : string -> option ClientApplicationFrame }.

Definition bounded (bytes : option string) : option string :=
  match bytes with
  | Some b => if (MAX_SERVER_MESSAGE_BYTES <? slen b) || negb (utf8_valid b) then None else Some b
  | None => None
  end.

(** [serialize_bounded]. *)
Definition serialize_bounded `{FrameJson} (f : ReplayFrame) : option string := bounded (frame_to_vec f).

(** ** Errors *)

Inductive SessionSubscribeErrorCategory :=
| SWrongSession | SHistoryGap | SFutureCursor | SSubscriberLimit | SUnavailable.

Record SessionSubscribeError := mkSubscribeError {
  sse_category : SessionSubscribeErrorCategory;
  sse_oldest_available : option EventSeq; sse_latest_available : option EventSeq }.

Definition from_session (e : Errors.P0SessionError) : SessionSubscribeError :=
  mkSubscribeError
    match Errors.category e with
    | Errors.WrongSession => SWrongSession
    | Errors.HistoryGap => SHistoryGap
    | Errors.FutureCursor => SFutureCursor
    | Errors.SubscriberLimit => SSubscriberLimit
    | _ => SUnavailable
    end (Errors.oldest_available e) (Errors.latest_available e).

Inductive LiveEventError := Empty | Lagged | RuntimeStoppedE | Closed.

(** [ConcreteLiveReceiver::try_recv], the error. *)
Definition from_live (e : Errors.P0LiveReceiveError) : LiveEventError :=
  match e with
  | Errors.LiveEmpty => Empty | Errors.LiveLagged => Lagged | Errors.LiveRuntimeStopped => RuntimeStoppedE
  | Errors.LiveClosed => Closed
  end.

Record ApplicationError := mkAppError {
  ae_code : string; ae_message : string; close_code : Z; oldest_available : option EventSeq;
  latest_available : option EventSeq; supported_version : option Z }.

Definition policy (code message : string) : ApplicationError := mkAppError code message 1008 None None None.
Definition retry (code message : string) : ApplicationError := mkAppError code message 1013 None None None.

Definition authentication_expired : ApplicationError :=
  policy "authentication_expired" "operator authentication expired".
Definition subscribe_timeout : ApplicationError :=
  policy "subscribe_timeout" "subscription was not received before its deadline".
Definition protocol_error : ApplicationError :=
  policy "protocol_error" "WebSocket application frame is invalid".
Definition unsupported_version : ApplicationError :=
  let p := policy "unsupported_version" "WebSocket protocol version is unsupported" in
  mkAppError (ae_code p) (ae_message p) (close_code p) (oldest_available p) (latest_available p) (Some PROTOCOL_VERSION).
Definition stream_unavailable : ApplicationError :=
  retry "stream_unavailable" "session stream is unavailable".
Definition subscriber_lagged : ApplicationError :=
  retry "subscriber_lagged" "session subscriber fell behind".

Definition from_subscribe (e : SessionSubscribeError) : ApplicationError :=
  match sse_category e with
  | SWrongSession => policy "wrong_session" "session identity changed; refresh before reconnect"
  | SHistoryGap =>
      let p := policy "history_gap" "requested session history is no longer retained" in
      mkAppError (ae_code p) (ae_message p) (close_code p) (sse_oldest_available e) (sse_latest_available e)
        (supported_version p)
  | SFutureCursor =>
      let p := policy "future_cursor" "requested session cursor is in the future" in
      mkAppError (ae_code p) (ae_message p) (close_code p) (oldest_available p) (sse_latest_available e)
        (supported_version p)
  | SSubscriberLimit => retry "subscriber_limit" "session subscriber limit reached"
  | SUnavailable => stream_unavailable
  end.

Definition serialize `{FrameJson} (e : ApplicationError) : option string :=
  bounded (error_frame_to_vec (mkErrorFrame "error" (ae_code e) (ae_message e) (oldest_available e)
                                 (latest_available e) (supported_version e))).

(** ** The control reader *)

Inductive ControlState := Open | PeerClosedC | ProtocolErrorC | TransportClosedC.
#[export] Instance ControlState_eq_dec : EqDecision ControlState.
Proof. solve_decision. Defined.

(** [Control::record]: only an open connection changes. *)
Definition control_record (new old : ControlState) : ControlState :=
  match old with Open => new | _ => old end.

(** What the reader task records of the frames it receives; it stops at the first that ends it. *)
Fixpoint control_reader (frames : list (result unit (option ClientFrame))) (c : ControlState) : ControlState :=
  match frames with
  | [] => c
  | Ok (Some (CPing | CPong)) :: rest => control_reader rest c
  | Ok (Some (CText _ | CBinary)) :: _ => control_record ProtocolErrorC c
  | Ok (Some CClose | None) :: _ => control_record PeerClosedC c
  | Err _ :: _ => control_record TransportClosedC c
  end.

Inductive StreamOutcome :=
| PeerClosed | TransportClosed | ServerShutdown | Failed (error : ApplicationError).

(** What a check sees: the control state, then the session, then the lifecycle. *)
Record Check := mkCheck { ck_control : ControlState; ck_auth_valid : bool; ck_running : bool }.

Definition connection_outcome (c : Check) : option StreamOutcome :=
  match ck_control c with
  | PeerClosedC => Some PeerClosed
  | ProtocolErrorC => Some (Failed protocol_error)
  | TransportClosedC => Some TransportClosed
  | Open =>
      if negb (ck_auth_valid c) then Some (Failed authentication_expired)
      else if negb (ck_running c) then Some ServerShutdown
      else None
  end.

(** ** The first frame *)

Record SubscribeRequest := mkSubscribe { sr_session_id : SessionId; sr_after_seq : EventSeq }.

Inductive InitialOutcome :=
| Subscribed (request : SubscribeRequest) | IPeerClosed | ITransportClosed | IServerShutdown
| IFailed (error : ApplicationError).

Inductive InitialEvent := DeadlineReached | ValidityTick | Received (frame : result unit (option ClientFrame)).
Record InitialTurn := mkInitial { it_auth_valid : bool; it_running : bool; it_event : InitialEvent }.

Section Connection.
Context `{FrameJson}.

Definition decode_subscribe (text : string) : InitialOutcome :=
  if MAX_CLIENT_MESSAGE_BYTES <? slen text then IFailed protocol_error
  else
  match client_frame_from_str text with
  | None => IFailed protocol_error
  | Some (Subscribe protocol_version session_id after_seq) =>
      if negb (protocol_version =? PROTOCOL_VERSION) then IFailed unsupported_version
      else Subscribed (mkSubscribe session_id after_seq)
  end.

Fixpoint receive_subscribe (script : list InitialTurn) : option InitialOutcome :=
  match script with
  | [] => None
  | t :: rest =>
      if negb (it_auth_valid t) then Some (IFailed authentication_expired)
      else if negb (it_running t) then Some IServerShutdown
      else
      match it_event t with
      | DeadlineReached => Some (IFailed subscribe_timeout)
      | ValidityTick => receive_subscribe rest
      | Received (Err _) => Some ITransportClosed
      | Received (Ok (None | Some CClose)) => Some IPeerClosed
      | Received (Ok (Some (CPing | CPong))) => receive_subscribe rest
      | Received (Ok (Some CBinary)) => Some (IFailed protocol_error)
      | Received (Ok (Some (CText text))) => Some (decode_subscribe text)
      end
  end.

(** ** The subscription *)

(** A [SessionSubscription]; its live part is in the script. *)
Record SessionSubscription := mkSubscription {
  replay : list P0SessionEventEnvelope; snapshot : P0SessionSnapshot }.

(** [None] is a worker that failed. *)
Inductive AwaitEvent := AwaitTick | AwaitDone (answer : option (result SessionSubscribeError SessionSubscription)).
Record AwaitTurn := mkAwait { aw_check : Check; aw_event : AwaitEvent; aw_check_done : Check }.

Fixpoint await_subscription (script : list AwaitTurn) : option (result StreamOutcome SessionSubscription) :=
  match script with
  | [] => None
  | t :: rest =>
      match connection_outcome (aw_check t) with
      | Some outcome => Some (Err outcome)
      | None =>
          match aw_event t with
          | AwaitTick => await_subscription rest
          | AwaitDone answer =>
              Some match connection_outcome (aw_check_done t) with
                   | Some outcome => Err outcome
                   | None =>
                       match answer with
                       | Some (Ok subscription) => Ok subscription
                       | Some (Err e) => Err (Failed (from_subscribe e))
                       | None => Err (Failed stream_unavailable)
                       end
                   end
          end
      end
  end.

(** The replay loop: each envelope is the next one, of this session, up to the high-water mark. *)
Fixpoint check_replay (session_id : SessionId) (high_water expected : EventSeq) (l : list P0SessionEventEnvelope)
  : result ApplicationError EventSeq :=
  match l with
  | [] => Ok expected
  | e :: rest =>
      let? expected := map_err (fun _ => stream_unavailable) (checked_next expected) in
      if negb (ev_schema_version e =? 1) || bool_decide (ev_session_id e <> session_id)
         || bool_decide (ev_seq e <> expected) || (value high_water <? value (ev_seq e))
      then Err stream_unavailable
      else check_replay session_id high_water expected rest
  end.

Definition serialize_or (f : ReplayFrame) : result ApplicationError string :=
  ok_or (serialize_bounded f) stream_unavailable.

Fixpoint serialize_events (l : list P0SessionEventEnvelope) : result ApplicationError (list string) :=
  match l with
  | [] => Ok []
  | e :: rest =>
      let? frame := serialize_or (FEvent e) in
      let? frames := serialize_events rest in
      Ok (frame :: frames)
  end.

Definition prepare_replay (session_id : SessionId) (after_seq high_water : EventSeq) (s : SessionSubscription)
  : result ApplicationError (list string) :=
  if bool_decide (SessionTypes.session_id (sn_identity (snapshot s)) <> session_id)
     || bool_decide (sn_high_water_seq (snapshot s) <> high_water) || (value high_water <? value after_seq)
  then Err stream_unavailable
  else
  let? expected := check_replay session_id high_water after_seq (replay s) in
  if bool_decide (expected <> high_water) then Err stream_unavailable
  else
  let? first := serialize_or (ReplayBegin session_id after_seq high_water) in
  let? events := serialize_events (replay s) in
  let? snap := serialize_or (FSnapshot (snapshot s) high_water) in
  let? last := serialize_or (ReplayEnd session_id high_water) in
  Ok (first :: events ++ [snap; last]).

(** ** Streaming *)

(** The replay frames, each after a check; the second component of a turn is whether its write
    succeeds. *)
Fixpoint send_replay (frames : list string) (script : list (Check * bool)) : list ServerFrame * option (result StreamOutcome unit) :=
  match frames, script with
  | [], _ => ([], Some (Ok tt))
  | _, [] => ([], None)
  | frame :: frames, (check, written) :: script =>
      match connection_outcome check with
      | Some outcome => ([], Some (Err outcome))
      | None =>
          if written : bool then
            let '(sent, r) := send_replay frames script in (SText frame :: sent, r)
          else ([], Some (Err TransportClosed))
      end
  end.

Record LiveTurn := mkLive {
  lt_check : Check; lt_ping_due : bool; lt_received : result LiveEventError P0SessionEventEnvelope;
  lt_check_send : Check; lt_written : bool }.

(** Whether a live envelope is the one after [last]. *)
Definition live_frame (session_id : SessionId) (last : EventSeq) (e : P0SessionEventEnvelope) : option string :=
  match checked_next last with
  | Err _ => None
  | Ok expected =>
      if negb (ev_schema_version e =? 1) || bool_decide (ev_session_id e <> session_id)
         || bool_decide (ev_seq e <> expected)
      then None
      else serialize_bounded (FEvent e)
  end.

Fixpoint live_loop (script : list LiveTurn) (session_id : SessionId) (last : EventSeq)
  : list ServerFrame * option StreamOutcome :=
  match script with
  | [] => ([], None)
  | t :: rest =>
      match connection_outcome (lt_check t) with
      | Some outcome => ([], Some outcome)
      | None =>
          if lt_ping_due t then
            if lt_written t then let '(sent, r) := live_loop rest session_id last in (SPing :: sent, r)
            else ([], Some TransportClosed)
          else
          match lt_received t with
          | Ok e =>
              match live_frame session_id last e with
              | None => ([], Some (Failed stream_unavailable))
              | Some frame =>
                  match connection_outcome (lt_check_send t) with
                  | Some outcome => ([], Some outcome)
                  | None =>
                      if lt_written t then
                        let '(sent, r) := live_loop rest session_id (ev_seq e) in (SText frame :: sent, r)
                      else ([], Some TransportClosed)
                  end
              end
          | Err Empty => live_loop rest session_id last
          | Err Lagged => ([], Some (Failed subscriber_lagged))
          | Err (RuntimeStoppedE | Closed) => ([], Some (Failed stream_unavailable))
          end
      end
  end.

Definition stream_subscription (session_id : SessionId) (after_seq : EventSeq) (s : SessionSubscription)
    (replay_script : list (Check * bool)) (live_script : list LiveTurn) : list ServerFrame * option StreamOutcome :=
  let high_water := sn_high_water_seq (snapshot s) in
  match prepare_replay session_id after_seq high_water s with
  | Err e => ([], Some (Failed e))
  | Ok frames =>
      match send_replay frames replay_script with
      | (sent, None) => (sent, None)
      | (sent, Some (Err outcome)) => (sent, Some outcome)
      | (sent, Some (Ok _)) =>
          let '(live, r) := live_loop live_script session_id high_water in (sent ++ live, r)
      end
  end.

(** ** Closing *)

(** What closing sees: the control state twice, the session and the lifecycle, the two writes. *)
Record FinishTurn := mkFinish { ft_check : Check; ft_control_again : ControlState; ft_text : bool; ft_close : bool }.

Definition send_close (code : Z) (reason : string) (written : bool) : list ServerFrame :=
  if written then [SClose code reason] else [].

Definition send_error (e : ApplicationError) (t : FinishTurn) : list ServerFrame :=
  match serialize e with
  | None => []
  | Some text =>
      if ft_text t then SText text :: send_close (close_code e) (ae_code e) (ft_close t) else []
  end.

Definition fail_before_subscription (e : ApplicationError) (t : FinishTurn) : list ServerFrame :=
  if negb (ck_auth_valid (ft_check t)) then send_error authentication_expired t
  else if negb (ck_running (ft_check t)) then send_close 1012 "server_shutdown" (ft_close t)
  else send_error e t.

Definition fail_after_subscription (e : ApplicationError) (t : FinishTurn) : list ServerFrame :=
  match ck_control (ft_check t) with
  | PeerClosedC | TransportClosedC => []
  | ProtocolErrorC | Open =>
      if negb (ck_auth_valid (ft_check t)) then send_error authentication_expired t
      else if negb (ck_running (ft_check t)) then send_close 1012 "server_shutdown" (ft_close t)
      else if bool_decide (ft_control_again t = ProtocolErrorC) then send_error protocol_error t
      else send_error e t
  end.

Definition finish_stream_outcome (o : StreamOutcome) (t : FinishTurn) : list ServerFrame :=
  match o with
  | PeerClosed | TransportClosed => []
  | ServerShutdown => send_close 1012 "server_shutdown" (ft_close t)
  | Failed e => fail_after_subscription e t
  end.

(** ** A connection *)

Record Script := mkScript {
  sc_initial : list InitialTurn; sc_await : list AwaitTurn; sc_replay : list (Check * bool);
  sc_live : list LiveTurn; sc_finish : FinishTurn }.

(** The frames written, and whether the connection has ended. *)
Definition run_socket (sc : Script) : list ServerFrame * bool :=
  match receive_subscribe (sc_initial sc) with
  | None => ([], false)
  | Some (IPeerClosed | ITransportClosed) => ([], true)
  | Some IServerShutdown => (send_close 1012 "server_shutdown" (ft_close (sc_finish sc)), true)
  | Some (IFailed e) => (fail_before_subscription e (sc_finish sc), true)
  | Some (Subscribed request) =>
      match await_subscription (sc_await sc) with
      | None => ([], false)
      | Some (Err outcome) => (finish_stream_outcome outcome (sc_finish sc), true)
      | Some (Ok subscription) =>
          match stream_subscription (sr_session_id request) (sr_after_seq request) subscription (sc_replay sc) (sc_live sc) with
          | (sent, None) => (sent, false)
          | (sent, Some outcome) => (sent ++ finish_stream_outcome outcome (sc_finish sc), true)
          end
      end
  end.
End Connection.

(** ** The upgrade request *)

Section Upgrade.
Context `{SerdeJson} {L : Type} (cfg : P0HttpConfig).

Definition upgrade_required : CachedResponse :=
  let r := response_error (Api.new UPGRADE_REQUIRED "websocket_upgrade_required"
             "a version-13 WebSocket upgrade is required") in
  mkResponse (rs_status r) (rs_headers r ++ [("upgrade", "websocket"); ("sec-websocket-version", "13")]) (rs_body r).

(** [http_11]: the version of the request; [extracted]: whether axum accepts the upgrade.  An accepted
    connection keeps its admission. *)
Definition upgrade (rq : Request) (http_11 extracted : bool) (now : Z) (p : Plane L)
  : Plane L * result CachedResponse RequestAdmission :=
  match prepare_observation rq now p with
  | (p, Err e) => (p, Err (response_error e))
  | (p, Ok admission) =>
      match validate_origin cfg (rq_headers rq) with
      | Err e => (drop_admission admission p, Err (response_error e))
      | Ok _ =>
          if negb http_11 || negb extracted then (drop_admission admission p, Err upgrade_required)
          else (p, Ok admission)
      end
  end.
End Upgrade.
