(* ===== verification/RequestWire.v ===== *)
(** * The requests as JSON

    What serde derives for the JSON a client or the CLI sends: the bodies of the two routes that have
    one ([types.rs] of the control plane), the subscribe frame ([websocket.rs]) and the pages of
    [codex cloud list --json] ([cloud.rs]).  All deny unknown fields; an enum is tagged inside its
    object.  A derived struct is also read from an array of its fields in order, and so is a tagged
    variant, after its tag.

    Of a text that is no JSON, [serde_json] may report the error of the data before it, so which of
    its two errors such a text gets is a parameter. *)
From S2P Require Import Prelude DomainValues CloudTypes SessionTypes CloudAdapter LoginTypes SubmitLedger LifecycleLedger LoginLedger HttpTypes HttpConfig Routes WebSocket Json JsonCompact LedgerWire.
From stdpp Require Import base numbers list strings option sets.
From Stdlib Require Import ZArith Lia.
Import Ids Seqs Str.

Open Scope Z_scope.

(** The tag of an enum tagged inside its object, and the rest of the object or array: a repeated tag is
    an error. *)
Definition split_tag (tag : string) (v : Json) : option (string * Json) :=
  match v with
  | JObject es =>
      match lookup_all tag es with
      | [JString name] => Some (name, JObject (filter (fun e => e.1 <> tag) es))
      | _ => None
      end
  | JArray (JString name :: vs) => Some (name, JArray vs)
  | _ => None
  end.

Section Requests.
Context `{UuidText}.

(** [Deserialize] of the identifiers (id.rs) and of [EventSeq] (sequence.rs). *)
Definition de_id (t : IdType) : Decoder (Id t) := fun v =>
  u ← de_uuid v; match try_from_uuid t u with Ok i => Some i | Err _ => None end.
Definition de_seq : Decoder EventSeq := fun v => mkSeq <$> de_u64 v.

(** ** The bodies (types.rs) *)

Definition START_FIELDS : list string := ["prompt"].
Definition de_start : Decoder StartTurnBody := fun v =>
  fs ← de_fields true START_FIELDS v; prompt ← required de_string 0 fs; Some (mkStartTurn prompt).

Definition ADOPT_FIELDS : list string := ["task_id"].
Definition ABANDON_FIELDS : list string := ["acknowledge_duplicate_task_risk"].
Definition de_decision : Decoder ResolveDecisionBody := fun v =>
  '(name, rest) ← split_tag "type" v;
  if String.eqb name "adopt" then
    fs ← de_fields true ADOPT_FIELDS rest; task_id ← required de_string 0 fs; Some (DAdopt task_id)
  else if String.eqb name "abandon" then
    fs ← de_fields true ABANDON_FIELDS rest; acknowledged ← optional de_bool 0 fs; Some (DAbandon acknowledged)
  else None.

(** The operation is kept as a [Value]; [from_value] of the handler is [de_operation]. *)
Definition RESOLVE_FIELDS : list string := ["operation_id"; "decision"].
Definition de_resolve : Decoder ResolveBody := fun v =>
  fs ← de_fields true RESOLVE_FIELDS v;
  operation_id ← required Some 0 fs; decision ← required de_decision 1 fs;
  Some (mkResolve (de_operation operation_id) decision).

(** ** The subscribe frame (websocket.rs) *)

Definition SUBSCRIBE_FIELDS : list string := ["protocol_version"; "session_id"; "after_seq"].
Definition de_client_frame : Decoder ClientApplicationFrame := fun v =>
  '(name, rest) ← split_tag "type" v;
  if String.eqb name "subscribe" then
    fs ← de_fields true SUBSCRIBE_FIELDS rest;
    protocol_version ← required de_u64 0 fs;
    session_id ← required (de_id SessionIdT) 1 fs;
    after_seq ← required de_seq 2 fs;
    Some (Subscribe protocol_version session_id after_seq)
  else None.
End Requests.

(** ** The pages of the CLI (cloud.rs) *)

Definition value_of (v : Json) : Value :=
  match v with
  | JNull => VNull
  | JBool b => VBool b
  | JInt z => VNumber (if (0 <=? z) && (z <=? u64_max) then Some z else None)
  | JFloat _ => VNumber None
  | JString s => VString s
  | JArray _ => VArray
  | JObject _ => VObject
  end.
Definition de_value : Decoder Value := fun v => Some (value_of v).

Definition DIFF_FIELDS : list string := ["files_changed"; "lines_added"; "lines_removed"].
Definition de_raw_diff : Decoder RawDiffSummary := fun v =>
  fs ← de_fields true DIFF_FIELDS v;
  files_changed ← required de_u64 0 fs; lines_added ← required de_u64 1 fs; lines_removed ← required de_u64 2 fs;
  Some (mkRawDiff files_changed lines_added lines_removed).

Definition TASK_FIELDS : list string :=
  ["attempt_total"; "environment_id"; "environment_label"; "id"; "is_review"; "status"; "summary"; "title"; "updated_at"; "url"].
Definition de_raw_task : Decoder RawTaskSummary := fun v =>
  fs ← de_fields true TASK_FIELDS v;
  attempt_total ← required de_value 0 fs; environment_id ← required de_value 1 fs; environment_label ← required de_value 2 fs;
  id ← required de_string 3 fs; is_review ← required de_bool 4 fs; status ← required de_string 5 fs;
  summary ← required de_raw_diff 6 fs; title ← required de_string 7 fs; updated_at ← required de_string 8 fs;
  url ← required de_string 9 fs;
  Some (mkRawTask attempt_total environment_id environment_label id is_review status summary title updated_at url).

Definition PAGE_FIELDS : list string := ["cursor"; "tasks"].
Definition de_raw_page : Decoder RawTaskListPage := fun v =>
  fs ← de_fields true PAGE_FIELDS v;
  cursor ← required de_value 0 fs; tasks ← required (de_vec de_raw_task) 1 fs;
  Some (mkRawPage cursor tasks).

(** ** The interfaces of the handlers *)

Section Interfaces.
Context `{JsonText} `{UuidText}.

(** [serde_json::from_slice] of the page. *)
Definition page_from_slice (bytes : string) : option RawTaskListPage := v ← json_from_slice bytes; de_raw_page v.

Section Bodies.
(** Which error a text that is no JSON gets, and [HeaderValue::to_str]. *)
Context (no_json : string -> JsonError) (header_str : string -> option string).

Definition from_slice {A} (d : Decoder A) (bytes : string) : result JsonError A :=
  match json_from_slice bytes with
  | None => Err (no_json bytes)
  | Some v => ok_or (d v) JsonData
  end.

Definition json_crates : HttpCrates :=
  {| to_str := header_str; parse_uuid := uuid_parse; from_slice_start := from_slice de_start;
     from_slice_resolve := from_slice de_resolve |}.
End Bodies.
End Interfaces.

(** ** What is accepted *)

Lemma lookup_all_in name es v : v ∈ lookup_all name es <-> (name, v) ∈ es.
Proof.
  unfold lookup_all. rewrite list_elem_of_fmap. split.
  - intros ([k w] & -> & [Hk Hin]%list_elem_of_filter). simpl in Hk. by subst k.
  - intros Hin. exists (name, v). split; [done|]. by apply list_elem_of_filter.
Qed.

Lemma lookup_all_perm name es es' : es ≡ₚ es' -> lookup_all name es ≡ₚ lookup_all name es'.
Proof. intros Hp. unfold lookup_all. by rewrite Hp. Qed.

Lemma lookup_all_single name es es' v : es ≡ₚ es' -> lookup_all name es' = [v] -> lookup_all name es = [v].
Proof. intros Hp%(lookup_all_perm name) E. rewrite E in Hp. by apply Permutation_singleton_r in Hp. Qed.

Lemma split_perm name (es : list (string * Json)) : es ≡ₚ filter (fun e => e.1 = name) es ++ filter (fun e => e.1 <> name) es.
Proof.
  induction es as [|e es IH]; [done|]. destruct (decide (e.1 = name)) as [E|E].
  - rewrite filter_cons_True, (filter_cons_False (fun e => e.1 <> name)) by (done || by intros ?). simpl. by f_equiv.
  - rewrite filter_cons_False, (filter_cons_True (fun e => e.1 <> name)) by done. rewrite <- Permutation_middle. by f_equiv.
Qed.

Lemma filter_single name es v : lookup_all name es = [v] -> filter (fun e => e.1 = name) es = [(name, v)].
Proof.
  unfold lookup_all. assert (Hall : Forall (fun e => e.1 = name) (filter (fun e : string * Json => e.1 = name) es)).
  { apply Forall_forall. intros x Hx%list_elem_of_filter. by destruct Hx. }
  destruct (filter _ es) as [|[k w] l]; [done|]. intros Hv. simpl in Hv. injection Hv as -> Hl'. destruct l; [|done].
  apply Forall_cons in Hall as [Hk' _]. simpl in Hk'. by subst.
Qed.

Lemma lookup_all_other name name' es : name <> name' -> lookup_all name (filter (fun e => e.1 <> name') es) = lookup_all name es.
Proof.
  intros Hn. unfold lookup_all. f_equal. rewrite list_filter_filter. apply list_filter_iff. intros [k w]. simpl. split; [tauto|]. by intros ->.
Qed.

(** The entries of an object whose keys are the given names, each once, are those of a struct, in some
    order. *)
Lemma entries_exact names vs es : NoDup names ->
  Forall2 (fun name v => lookup_all name es = [v]) names vs -> Forall (fun e => e.1 ∈ names) es -> es ≡ₚ zip names vs.
Proof.
  intros Hn Hf. revert es vs Hf. induction Hn as [|name names Hnot _ IH]; intros es vs Hf Hk.
  - destruct es as [|e es]; [done|]. apply Forall_cons in Hk as [Hk _]. by apply not_elem_of_nil in Hk.
  - destruct vs as [|v vs]; [by inversion Hf|]. apply Forall2_cons_1 in Hf as [Hv Hf]. simpl.
    rewrite <- (IH (filter (fun e => e.1 <> name) es) vs).
    + rewrite (split_perm name es) at 1. by rewrite (filter_single _ _ _ Hv).
    + apply Forall2_same_length_lookup in Hf as [Hl Hf]. apply Forall2_same_length_lookup. split; [done|]. intros i n w Hn Hw.
      rewrite lookup_all_other; [by eapply Hf|]. intros ->. by apply Hnot, list_elem_of_lookup_2 with i.
    + apply Forall_forall. intros e He%list_elem_of_filter. destruct He as [Hne He].
      rewrite Forall_forall in Hk. specialize (Hk _ He). set_solver.
Qed.

(** A struct as it may be written: its entries in some order, or their values in the declared one. *)
Definition presents (names : list string) (v : Json) (vs : list Json) : Prop :=
  (exists es, v = JObject es /\ es ≡ₚ zip names vs) \/ v = JArray vs.

(** And a variant with its tag. *)
Definition presents_tagged (tag name : string) (names : list string) (v : Json) (vs : list Json) : Prop :=
  (exists es, v = JObject es /\ es ≡ₚ (tag, JString name) :: zip names vs) \/ v = JArray (JString name :: vs).

(** Where the value of a field is found. *)
Definition reads_field (fs : Fields) (vs : list Json) : Prop :=
  forall A (missing : option A) (d : Decoder A) i w, vs !! i = Some w -> de_field missing d i fs = d w.

Lemma presented names vs v : NoDup names -> length vs = length names -> presents names v vs ->
  exists fs, de_fields true names v = Some fs /\ reads_field fs vs.
Proof.
  intros Hn Hl [(es & -> & Hp)| ->].
  - exists (ByName names es). assert (Hs : forall i name w, names !! i = Some name -> vs !! i = Some w -> lookup_all name es = [w]).
    { intros i name w Hi Hw. eapply lookup_all_single; [exact Hp|]. by eapply lookup_all_zip. }
    assert (Hat : forall name, name ∈ names -> exists w, lookup_all name es = [w]).
    { intros name [i Hi]%list_elem_of_lookup. destruct (lookup_lt_is_Some_2 vs i) as [w Hw]; [rewrite Hl; by eapply lookup_lt_Some|].
      exists w. by eapply Hs. }
    split.
    + simpl. replace (forallb _ names && _) with true; [done|]. symmetry. apply andb_true_iff. split; apply forallb_forall.
      * intros name Hin%list_elem_of_In. by destruct (Hat name Hin) as [w ->].
      * intros [k w] Hin%list_elem_of_In. rewrite Hp in Hin. apply elem_of_zip_l in Hin. by apply bool_decide_eq_true.
    + intros A missing d i w Hw. simpl. destruct (lookup_lt_is_Some_2 names i) as [name Hi]; [rewrite <- Hl; by eapply lookup_lt_Some|].
      by rewrite Hi, (Hs i name w).
  - exists (ByPosition vs). split; [simpl; by rewrite Hl, Nat.eqb_refl|]. intros A missing d i w Hw. simpl. by rewrite Hw.
Qed.

(** The value at a position, whatever it is. *)
Definition present (i : nat) (fs : Fields) : option Json := de_field None Some i fs.

Lemma required_present {A} (d : Decoder A) i fs x : required d i fs = Some x -> is_Some (present i fs).
Proof.
  unfold required, present. destruct fs as [names es|vs]; simpl.
  - destruct (names !! i); [|done]. by destruct (lookup_all _ es).
  - by destruct (vs !! i).
Qed.

Lemma presents_all names v fs : NoDup names -> de_fields true names v = Some fs ->
  (forall i, (i < length names)%nat -> is_Some (present i fs)) ->
  exists vs, length vs = length names /\ presents names v vs /\ reads_field fs vs.
Proof.
  intros Hn Hd Hi. destruct v as [| | | | |vs|es]; try done; simpl in Hd.
  - destruct (length vs =? length names)%nat eqn:El; [|done]. injection Hd as <-. exists vs. split; [by apply Nat.eqb_eq|].
    split; [by right|]. intros A missing d i w Hw. simpl. by rewrite Hw.
  - destruct (forallb _ names && forallb _ es) eqn:Ek; [|done]. injection Hd as <-. apply andb_true_iff in Ek as [Hone Hk].
    rewrite forallb_forall in Hone. rewrite forallb_forall in Hk.
    assert (Hv : Forall (fun name => exists w, lookup_all name es = [w]) names).
    { apply Forall_forall. intros name Hin. pose proof Hin as [i Hname]%list_elem_of_lookup.
      destruct (Hi i) as [w Hw]; [by eapply lookup_lt_Some|]. unfold present in Hw. simpl in Hw. rewrite Hname in Hw.
      apply list_elem_of_In in Hin. specialize (Hone name Hin). apply Nat.leb_le in Hone.
      destruct (lookup_all name es) as [|x [|y l]]; [done|by exists x|]. simpl in Hone. lia. }
    apply Forall_exists_Forall2_l in Hv as [vs Hf]. pose proof Hf as [Hl Hs]%Forall2_same_length_lookup.
    exists vs. split; [done|]. split.
    + left. exists es. split; [done|]. apply entries_exact; [done|done|]. apply Forall_forall. intros e He%list_elem_of_In.
      specialize (Hk e He). by apply bool_decide_eq_true in Hk.
    + intros A missing d i w Hw. simpl. destruct (lookup_lt_is_Some_2 names i) as [name Hname]; [rewrite Hl; by eapply lookup_lt_Some|].
      by rewrite Hname, (Hs i name w).
Qed.

Lemma tagged_iff tag name names v vs : tag ∉ names ->
  presents_tagged tag name names v vs <-> exists rest, split_tag tag v = Some (name, rest) /\ presents names rest vs.
Proof.
  intros Hn. assert (Hz : filter (fun e => e.1 <> tag) (zip names vs) = zip names vs).
  { revert vs. induction names as [|n names IH]; intros [|w vs]; try done. simpl.
    rewrite filter_cons_True by (simpl; set_solver). f_equal. apply IH. set_solver. }
  split.
  - intros [(es & -> & Hp)| ->].
    + exists (JObject (filter (fun e => e.1 <> tag) es)). split.
      * simpl. rewrite (lookup_all_single tag es ((tag, JString name) :: zip names vs) (JString name)); [done|done|].
        unfold lookup_all. rewrite filter_cons_True by done. simpl. f_equal. by apply lookup_all_absent.
      * left. eexists. split; [done|]. rewrite Hp, filter_cons_False by (simpl; by intros ?). by rewrite Hz.
    + exists (JArray vs). split; [done|]. by right.
  - intros (rest & Hs & Hp). destruct v as [| | | | |ws|es]; try done; simpl in Hs.
    + destruct ws as [|[| | | |n| |] ws]; try done. injection Hs as -> <-. destruct Hp as [(es & ? & _)|[= ->]]; [done|]. by right.
    + destruct (lookup_all tag es) as [|[| | | |n| |] [|]] eqn:El; try done. injection Hs as -> <-.
      destruct Hp as [(es' & [= <-] & Hp)|?]; [|done]. left. exists es. split; [done|].
      rewrite (split_perm tag es), (filter_single _ _ _ El), Hp. done.
Qed.

(** An object of which only the tag is left. *)
Lemma no_field_left v rest fs name field : split_tag "type" v = Some (name, rest) ->
  de_fields true [field] rest = Some fs -> present 0 fs = None -> v = JObject [("type", JString name)].
Proof.
  intros Hs Hf Hp. destruct v as [| | | | |ws|es]; try done; simpl in Hs.
  - destruct ws as [|[| | | |n| |] ws]; try done. injection Hs as -> <-. simpl in Hf. destruct (length ws =? 1)%nat eqn:El; [|done].
    injection Hf as <-. destruct ws as [|w [|]]; done.
  - destruct (lookup_all "type" es) as [|[| | | |n| |] [|]] eqn:El; try done. injection Hs as -> <-. simpl in Hf.
    destruct (_ && _) eqn:Ek; [|done]. injection Hf as <-. apply andb_true_iff in Ek as [_ Hk]. unfold present in Hp. simpl in Hp.
    set (es' := filter (fun e => e.1 <> "type") es) in *.
    assert (Hn : es' = []).
    { destruct es' as [|[k w] es']; [done|]. simpl in Hk. apply andb_true_iff in Hk as [->%bool_decide_eq_true%list_elem_of_singleton _].
      unfold lookup_all in Hp. by rewrite filter_cons_True in Hp. }
    f_equal. apply Permutation_singleton_r. rewrite (split_perm "type" es), (filter_single _ _ _ El). fold es'. by rewrite Hn.
Qed.

(** ** The decoders, exactly *)

Ltac distinct := apply (bool_decide_unpack _); vm_compute; exact I.

(** Two lists of one, two or three positions. *)
Lemma below_1 i : (i < 1)%nat -> i = 0%nat.
Proof. lia. Qed.
Lemma below_3 i : (i < 3)%nat -> i = 0%nat \/ i = 1%nat \/ i = 2%nat.
Proof. lia. Qed.

Section Exact.
Context `{UuidText}.

Lemma bind_Some_inv {A B} (o : option A) (k : A -> option B) y : (o ≫= k) = Some y -> exists x, o = Some x /\ k x = Some y.
Proof. destruct o as [x|]; [|done]. by exists x. Qed.

Lemma de_string_iff v x : de_string v = Some x <-> v = JString x.
Proof. split; [by destruct v; intros [= ->]|by intros ->]. Qed.
Lemma de_u64_iff v x : de_u64 v = Some x <-> v = JInt x /\ in_u64 x.
Proof.
  unfold de_u64, de_unsigned. split.
  - destruct v; try done. destruct (_ && _) eqn:E; [|done]. intros [= ->]. apply andb_true_iff in E as [?%Z.leb_le ?%Z.leb_le]. done.
  - intros [-> [? ?]]. by rewrite (proj2 (Z.leb_le _ _)), (proj2 (Z.leb_le _ _)).
Qed.
Lemma de_seq_iff v q : de_seq v = Some q <-> v = JInt (value q) /\ in_u64 (value q).
Proof.
  unfold de_seq. rewrite fmap_Some. split.
  - intros (x & Hx%de_u64_iff & ->). done.
  - intros Hx. exists (value q). split; [by apply de_u64_iff|by destruct q].
Qed.
Lemma de_id_iff t v (i : Id t) : de_id t v = Some i <-> exists text, v = JString text /\ uuid_parse text = Some (as_uuid i) /\ is_nil (as_uuid i) = false.
Proof.
  unfold de_id, de_uuid, try_from_uuid. split.
  - intros (u & (s & ->%de_string_iff & Hs)%bind_Some_inv & Hu)%bind_Some_inv. destruct (is_nil u) eqn:E; [done|]. injection Hu as <-. by exists s.
  - intros (text & -> & Hp & Hn). simpl. rewrite Hp. simpl. rewrite Hn. by destruct i.
Qed.

Lemma start_exact v b : de_start v = Some b <-> presents START_FIELDS v [JString (st_prompt b)].
Proof.
  split.
  - intros (fs & Hf & (p & Hp & [= <-])%bind_Some_inv)%bind_Some_inv.
    destruct (presents_all START_FIELDS v fs) as (vs & Hl & Hv & Hr); [distinct|done| |].
    { intros i ->%below_1. by eapply required_present. }
    destruct vs as [|w [|]]; try done. unfold required in Hp. rewrite (Hr _ _ _ _ w) in Hp by done. apply de_string_iff in Hp as ->. done.
  - intros Hv. destruct (presented START_FIELDS [JString (st_prompt b)] v) as (fs & Hf & Hr); [distinct|done|done|].
    unfold de_start. rewrite Hf. simpl. unfold required. rewrite (Hr _ _ _ _ (JString (st_prompt b))) by done. by destruct b.
Qed.

Lemma subscribe_exact v p sid a : de_client_frame v = Some (Subscribe p sid a) <->
  exists text, uuid_parse text = Some (as_uuid sid) /\ is_nil (as_uuid sid) = false /\ in_u64 p /\ in_u64 (value a) /\
  presents_tagged "type" "subscribe" SUBSCRIBE_FIELDS v [JInt p; JString text; JInt (value a)].
Proof.
  assert (Hnot : "type" ∉ SUBSCRIBE_FIELDS) by (apply (bool_decide_unpack _); vm_compute; exact I). unfold de_client_frame. split.
  - intros ([name rest] & Hs & E)%bind_Some_inv. cbv beta iota in E. destruct (String.eqb_spec name "subscribe") as [->|]; [|done].
    apply bind_Some_inv in E as (fs & Hf & (q & H0 & (i & H1 & (c & H2 & [= -> -> ->])%bind_Some_inv)%bind_Some_inv)%bind_Some_inv).
    destruct (presents_all SUBSCRIBE_FIELDS rest fs) as (vs & Hl & Hv & Hr); [distinct|done| |].
    { intros k Hk. apply below_3 in Hk as [->|[->| ->]]; by eapply required_present. }
    destruct vs as [|w0 [|w1 [|w2 [|]]]]; try done. unfold required in *.
    rewrite (Hr _ _ _ _ w0) in H0 by done. rewrite (Hr _ _ _ _ w1) in H1 by done. rewrite (Hr _ _ _ _ w2) in H2 by done.
    apply de_u64_iff in H0 as [-> Hp]. apply de_id_iff in H1 as (text & -> & Ht & Hn). apply de_seq_iff in H2 as [-> Ha].
    exists text. split_and!; try done. apply tagged_iff; [done|]. by exists rest.
  - intros (text & Ht & Hn & Hp & Ha & (rest & Hs & Hv)%tagged_iff); [|done]. rewrite Hs. simpl.
    destruct (presented SUBSCRIBE_FIELDS [JInt p; JString text; JInt (value a)] rest) as (fs & Hf & Hr); [distinct|done|done|].
    rewrite Hf. simpl. unfold required. rewrite (Hr _ None de_u64 0%nat (JInt p)), (Hr _ None (de_id SessionIdT) 1%nat (JString text)), (Hr _ None de_seq 2%nat (JInt (value a))) by done.
    rewrite (proj2 (de_u64_iff (JInt p) p)) by done. rewrite (proj2 (de_id_iff _ _ sid)) by (by exists text).
    by rewrite (proj2 (de_seq_iff _ a)).
Qed.

Lemma adopt_exact v t : de_decision v = Some (DAdopt t) <-> presents_tagged "type" "adopt" ADOPT_FIELDS v [JString t].
Proof.
  assert (Hnot : "type" ∉ ADOPT_FIELDS) by (apply (bool_decide_unpack _); vm_compute; exact I). unfold de_decision. rewrite tagged_iff by done. split.
  - intros ([name rest] & Hs & E)%bind_Some_inv. cbv beta iota in E. destruct (String.eqb_spec name "adopt") as [->|].
    2:{ destruct (String.eqb name "abandon"); [|done]. by apply bind_Some_inv in E as (fs & Hf & (q & H0 & [= ])%bind_Some_inv). }
    apply bind_Some_inv in E as (fs & Hf & (q & H0 & [= ->])%bind_Some_inv).
    destruct (presents_all ADOPT_FIELDS rest fs) as (vs & Hl & Hv & Hr); [distinct|done| |].
    { intros k ->%below_1. by eapply required_present. }
    destruct vs as [|w [|]]; try done. unfold required in H0. rewrite (Hr _ _ _ _ w) in H0 by done. apply de_string_iff in H0 as ->. by exists rest.
  - intros (rest & Hs & Hv). rewrite Hs. simpl. destruct (presented ADOPT_FIELDS [JString t] rest) as (fs & Hf & Hr); [distinct|done|done|].
    rewrite Hf. simpl. unfold required. by rewrite (Hr _ _ _ _ (JString t)).
Qed.

Lemma abandon_exact v b : de_decision v = Some (DAbandon (Some b)) <-> presents_tagged "type" "abandon" ABANDON_FIELDS v [JBool b].
Proof.
  assert (Hnot : "type" ∉ ABANDON_FIELDS) by (apply (bool_decide_unpack _); vm_compute; exact I). unfold de_decision. rewrite tagged_iff by done. split.
  - intros ([name rest] & Hs & E)%bind_Some_inv. cbv beta iota in E. destruct (String.eqb_spec name "adopt") as [->|].
    { by apply bind_Some_inv in E as (fs & Hf & (q & H0 & [= ])%bind_Some_inv). }
    destruct (String.eqb_spec name "abandon") as [->|]; [|done].
    apply bind_Some_inv in E as (fs & Hf & (q & H0 & [= ->])%bind_Some_inv).
    destruct (presents_all ABANDON_FIELDS rest fs) as (vs & Hl & Hv & Hr); [distinct|done| |].
    { intros k ->%below_1. unfold optional in H0. destruct fs as [names es|ws]; unfold present; simpl in *.
      - destruct (names !! 0%nat); [|done]. by destruct (lookup_all _ es).
      - by destruct (ws !! 0%nat). }
    destruct vs as [|w [|]]; try done. unfold optional in H0. rewrite (Hr _ _ _ _ w) in H0 by done. exists rest. split; [done|].
    destruct w as [|c| | | | |]; try done. by injection H0 as ->.
  - intros (rest & Hs & Hv). rewrite Hs. simpl. destruct (presented ABANDON_FIELDS [JBool b] rest) as (fs & Hf & Hr); [distinct|done|done|].
    rewrite Hf. simpl. unfold optional. by rewrite (Hr _ _ _ _ (JBool b)).
Qed.

(** The flag may also be [null], or missing from an object. *)
Lemma abandon_none_exact v : de_decision v = Some (DAbandon None) <->
  presents_tagged "type" "abandon" ABANDON_FIELDS v [JNull] \/ v = JObject [("type", JString "abandon")].
Proof.
  assert (Hnot : "type" ∉ ABANDON_FIELDS) by (apply (bool_decide_unpack _); vm_compute; exact I). unfold de_decision. rewrite tagged_iff by done. split.
  - intros ([name rest] & Hs & E)%bind_Some_inv. cbv beta iota in E. destruct (String.eqb_spec name "adopt") as [->|].
    { by apply bind_Some_inv in E as (fs & Hf & (q & H0 & [= ])%bind_Some_inv). }
    destruct (String.eqb_spec name "abandon") as [->|]; [|done].
    apply bind_Some_inv in E as (fs & Hf & (q & H0 & [= ->])%bind_Some_inv).
    destruct (present 0 fs) as [w|] eqn:Ep.
    + left. destruct (presents_all ABANDON_FIELDS rest fs) as (vs & Hl & Hv & Hr); [distinct|done|by intros k ->%below_1|].
      destruct vs as [|w' [|]]; try done. unfold optional in H0. rewrite (Hr _ _ _ _ w') in H0 by done. exists rest. split; [done|].
      by destruct w' as [|[]| | | | |].
    + right. by apply (no_field_left v rest fs "abandon" "acknowledge_duplicate_task_risk").
  - intros [(rest & Hs & Hv)| ->]; [|by vm_compute]. rewrite Hs. simpl.
    destruct (presented ABANDON_FIELDS [JNull] rest) as (fs & Hf & Hr); [distinct|done|done|].
    rewrite Hf. simpl. unfold optional. by rewrite (Hr _ _ _ _ JNull).
Qed.

Lemma resolve_exact v b : de_resolve v = Some b <->
  exists ov dv, presents RESOLVE_FIELDS v [ov; dv] /\ de_operation ov = rb_operation_id b /\ de_decision dv = Some (rb_decision b).
Proof.
  split.
  - intros (fs & Hf & (ov & H0 & (d & H1 & [= <-])%bind_Some_inv)%bind_Some_inv)%bind_Some_inv.
    destruct (presents_all RESOLVE_FIELDS v fs) as (vs & Hl & Hv & Hr); [distinct|done| |].
    { intros [|[|k]] Hk; [by eapply required_present..|simpl in Hk; lia]. }
    destruct vs as [|w0 [|w1 [|]]]; try done. unfold required in *. rewrite (Hr _ _ _ _ w0) in H0 by done. rewrite (Hr _ _ _ _ w1) in H1 by done.
    injection H0 as ->. by exists ov, w1.
  - intros (ov & dv & Hv & Ho & Hd). destruct (presented RESOLVE_FIELDS [ov; dv] v) as (fs & Hf & Hr); [distinct|done|done|].
    unfold de_resolve. rewrite Hf. simpl. unfold required. rewrite (Hr _ None Some 0%nat ov), (Hr _ None de_decision 1%nat dv) by done. simpl. rewrite Hd. simpl.
    rewrite Ho. by destruct b.
Qed.
End Exact.

(** C18: A request is read exactly as declared.  A turn starts from a JSON object whose one key is the
    prompt, or from an array of the prompt alone; a resolution from any value as its operation (of
    which what is no operation identifier is kept as such, for the handler to refuse) and a decision, an
    adoption from its tag and one task, an acknowledged or refused risk from the tag of an abandonment
    and the flag, an unstated one from that tag with the flag [null] or, in an object, without it; a
    subscription from its tag, version, session and sequence.  The keys are in any order, each once and
    none other, or the values alone in the declared order.  Nothing else is accepted: no repeated,
    unknown or differently typed field, no missing one but that flag, no nil session, no number beyond
    64 bits. *)
Theorem requests_are_read_exactly `{JsonText} `{UuidText} (no_json : string -> JsonError) :
  (forall bytes b, from_slice no_json de_start bytes = Ok b <->
     json_from_slice bytes = Some (JObject [("prompt", JString (st_prompt b))]) \/
     json_from_slice bytes = Some (JArray [JString (st_prompt b)])) /\
  (forall bytes b, from_slice no_json de_resolve bytes = Ok b <-> exists v ov dv, json_from_slice bytes = Some v /\
     presents RESOLVE_FIELDS v [ov; dv] /\ de_operation ov = rb_operation_id b /\ de_decision dv = Some (rb_decision b)) /\
  (forall v t, de_decision v = Some (DAdopt t) <-> presents_tagged "type" "adopt" ADOPT_FIELDS v [JString t]) /\
  (forall v b, de_decision v = Some (DAbandon (Some b)) <-> presents_tagged "type" "abandon" ABANDON_FIELDS v [JBool b]) /\
  (forall v, de_decision v = Some (DAbandon None) <->
     presents_tagged "type" "abandon" ABANDON_FIELDS v [JNull] \/ v = JObject [("type", JString "abandon")]) /\
  (forall v p sid a, de_client_frame v = Some (Subscribe p sid a) <->
     exists text, uuid_parse text = Some (as_uuid sid) /\ is_nil (as_uuid sid) = false /\ in_u64 p /\ in_u64 (value a) /\
     presents_tagged "type" "subscribe" SUBSCRIBE_FIELDS v [JInt p; JString text; JInt (value a)]).
Proof.
  assert (Hfs : forall A (d : Decoder A) bytes x, from_slice no_json d bytes = Ok x <-> exists v, json_from_slice bytes = Some v /\ d v = Some x).
  { intros A d bytes x. unfold from_slice. split.
    - destruct (json_from_slice bytes) as [v|]; [|done]. destruct (d v) as [y|] eqn:E; [|done]. intros [= ->]. by exists v.
    - intros (v & -> & Hd). by rewrite Hd. }
  split_and!; [| |apply adopt_exact|apply abandon_exact|apply abandon_none_exact|apply subscribe_exact].
  - intros bytes b. rewrite Hfs. split.
    + intros (v & Hj & [(es & -> & Hp%Permutation_singleton_r)| ->]%start_exact); [left|by right]. by rewrite Hj, Hp.
    + intros [Hj|Hj]; eexists; (split; [exact Hj|]); apply start_exact; [left; by eexists|by right].
  - intros bytes b. rewrite Hfs. setoid_rewrite resolve_exact. naive_solver.
Qed.

(** A subscription without its keys. *)
Section Witness.
#[local] Existing Instances Compact.json_text Compact.uuid_text.

Definition ARRAY_FRAME : string :=
  ("[" ++ HttpTypes.quoted "subscribe" ++ ",1," ++ HttpTypes.quoted "00000000-0000-0000-0000-0000000000c9" ++ ",7]")%string.

Lemma requests_are_read_exactly_witness :
  json_from_slice ARRAY_FRAME = Some (JArray [JString "subscribe"; JInt 1; JString "00000000-0000-0000-0000-0000000000c9"; JInt 7]) /\
  de_client_frame (JArray [JString "subscribe"; JInt 1; JString "00000000-0000-0000-0000-0000000000c9"; JInt 7])
    = Some (Subscribe 1 (mkId 201) (mkSeq 7)).
Proof.
  split; [vm_compute; reflexivity|]. destruct (requests_are_read_exactly (fun _ => JsonSyntax)) as (_ & _ & _ & _ & _ & Hs).
  apply Hs. exists "00000000-0000-0000-0000-0000000000c9".
  split; [vm_compute; reflexivity|]. split; [vm_compute; reflexivity|]. split; [vm_compute; split; discriminate|].
  split; [vm_compute; split; discriminate|]. right. reflexivity.
Defined.
End Witness.
