(* ===== verification/PublishedWire.v ===== *)
(** * The published values as JSON

    What serde derives for the values a client receives: the session's identity, states, turns,
    lifecycles and events ([codebox-session-runtime/src/types.rs]), the frames of the stream
    ([websocket.rs]), the bodies of responses and errors ([types.rs] and [error.rs] of the control
    plane).  Enums are tagged inside their object; a skipped field is absent.

    The theorems are about the two limits of this boundary: a value that the session may publish always
    fits in a message of the stream and in a response, and what a client reads determines it. *)
From S2P Require Import Prelude DomainValues CloudTypes SessionTypes CloudAdapter LoginTypes SubmitLedger LifecycleLedger LoginLedger SessionRuntime SessionLog SessionReports HttpTypes HttpConfig Routes WebSocket Json JsonCompact LedgerWire RequestWire P0Typing.
From stdpp Require Import base numbers list strings option.
From Stdlib Require Import ZArith Lia.
Import Ids Seqs Str.

Open Scope Z_scope.

(** A variant of an enum tagged inside its object. *)
Definition ser_variant (tag name : string) (names : list string) (vs : list Json) : Json :=
  ser_struct (tag :: names) (JString name :: vs).

(** [skip_serializing_if = "Option::is_none"]. *)
Definition ser_present {A} (name : string) (f : A -> Json) (o : option A) : list (string * Json) :=
  match o with Some x => [(name, f x)] | None => [] end.

Section Published.
Context `{UuidText}.

(** ** Identities (id.rs, sequence.rs, types.rs) *)

Definition ser_id {t} (i : Id t) : Json := ser_uuid (as_uuid i).
Definition ser_seq (s : EventSeq) : Json := JInt (value s).
Definition ser_instance (i : P0InstanceId) : Json := ser_uuid (instance_uuid i).
Definition ser_identity (i : P0SessionIdentity) : Json :=
  ser_struct ["session_id"; "instance_id"] [ser_id (session_id i); ser_instance (instance_id i)].
Definition ser_actor (a : P0Actor) : Json := match a with Operator => JString "operator" end.
Definition ser_task (t : P0CloudTaskId) : Json := JString (p0_task_str t).

Definition ser_state (s : P0SessionState) : Json :=
  JString match s with
  | SReady => "ready" | SRunning => "running" | SRecoveryRequired => "recovery_required"
  | SMonitoringDegraded => "monitoring_degraded" | SStopped => "stopped"
  end.

(** ** Lifecycles and turns *)

Definition ser_lifecycle (l : P0CloudLifecycle) : Json :=
  match l with
  | Submitting op => ser_variant "state" "submitting" ["operation_id"] [ser_operation op]
  | FailedBeforeSubmit op => ser_variant "state" "failed_before_submit" ["operation_id"] [ser_operation op]
  | OutcomeUnknown op => ser_variant "state" "outcome_unknown" ["operation_id"] [ser_operation op]
  | Pending op t => ser_variant "state" "pending" ["operation_id"; "task_id"] [ser_operation op; ser_task t]
  | Ready op t => ser_variant "state" "ready" ["operation_id"; "task_id"] [ser_operation op; ser_task t]
  | Applied op t => ser_variant "state" "applied" ["operation_id"; "task_id"] [ser_operation op; ser_task t]
  | ProviderError op t => ser_variant "state" "provider_error" ["operation_id"; "task_id"] [ser_operation op; ser_task t]
  | CanceledLocally op t provider_may_continue =>
      ser_variant "state" "canceled_locally" ["operation_id"; "task_id"; "provider_may_continue"]
        [ser_operation op; ser_option ser_task t; JBool provider_may_continue]
  | AbandonedUnknown op => ser_variant "state" "abandoned_unknown" ["operation_id"] [ser_operation op]
  end.

Definition ser_projection (p : P0TurnProjection) : Json :=
  match p with
  | Queued => ser_variant "phase" "queued" [] []
  | Starting c => ser_variant "phase" "starting" ["cancel_requested"] [JBool c]
  | Cloud l c => ser_variant "phase" "cloud" ["lifecycle"; "cancel_requested"] [ser_lifecycle l; JBool c]
  | MonitoringDegraded op l c =>
      ser_variant "phase" "monitoring_degraded" ["operation_id"; "last_known_pending"; "cancel_requested"]
        [ser_operation op; ser_lifecycle l; JBool c]
  | CanceledBeforeCloudStart => ser_variant "phase" "canceled_before_cloud_start" [] []
  | StoppedBeforeCloudStart => ser_variant "phase" "stopped_before_cloud_start" [] []
  | StoppedAfterLowerFailure => ser_variant "phase" "stopped_after_lower_failure" [] []
  end.

Definition ser_turn (t : P0TurnSnapshot) : Json :=
  ser_struct ["turn_id"; "projection"] [ser_id (ts_turn_id t); ser_projection (ts_projection t)].
Definition ser_snapshot (s : P0SessionSnapshot) : Json :=
  ser_struct ["identity"; "state"; "current_turn"; "high_water_seq"]
    [ser_identity (sn_identity s); ser_state (sn_state s); ser_option ser_turn (sn_current_turn s); ser_seq (sn_high_water_seq s)].
Definition ser_receipt (r : P0TurnReceipt) : Json :=
  ser_struct ["turn_id"; "high_water_seq"] [ser_id (tr_turn_id r); ser_seq (tr_high_water_seq r)].
Definition ser_candidates (c : P0RecoveryCandidates) : Json :=
  ser_struct ["operation_id"; "task_ids"; "complete"]
    [ser_operation (rc_operation_id c); ser_vec ser_task (rc_task_ids c); JBool (rc_complete c)].

(** ** Events *)

Definition ser_decision (d : P0RecoveryDecisionKind) : Json := JString match d with Adopt => "adopt" | Abandon => "abandon" end.
Definition ser_reason (r : P0RuntimeStopReason) : Json := JString match r with Shutdown => "shutdown" | LowerFailure => "lower_failure" end.

Definition ser_event (e : P0SessionEvent) : Json :=
  match e with
  | TurnAccepted => ser_variant "type" "turn_accepted" [] []
  | TurnCanceledBeforeCloudStart => ser_variant "type" "turn_canceled_before_cloud_start" [] []
  | LifecycleChanged l => ser_variant "type" "lifecycle_changed" ["lifecycle"] [ser_lifecycle l]
  | CancelRequested a => ser_variant "type" "cancel_requested" ["actor"] [ser_actor a]
  | EvMonitoringDegraded => ser_variant "type" "monitoring_degraded" [] []
  | RecoveryObserved a op ts complete =>
      ser_variant "type" "recovery_observed" ["actor"; "operation_id"; "task_ids"; "complete"]
        [ser_actor a; ser_operation op; ser_vec ser_task ts; JBool complete]
  | RecoveryResolved a op d =>
      ser_variant "type" "recovery_resolved" ["actor"; "operation_id"; "decision"]
        [ser_actor a; ser_operation op; ser_decision d]
  | EvRuntimeStopped r => ser_variant "type" "runtime_stopped" ["reason"] [ser_reason r]
  end.

Definition ser_envelope (e : P0SessionEventEnvelope) : Json :=
  ser_struct ["schema_version"; "session_id"; "seq"; "turn_id"; "payload"]
    [JInt (ev_schema_version e); ser_id (ev_session_id e); ser_seq (ev_seq e); ser_option ser_id (ev_turn_id e);
     ser_event (ev_payload e)].

(** ** Frames of the stream (websocket.rs) *)

Definition ser_frame (f : ReplayFrame) : Json :=
  match f with
  | ReplayBegin sid after high =>
      ser_variant "type" "replay_begin" ["session_id"; "after_seq"; "high_water_seq"] [ser_id sid; ser_seq after; ser_seq high]
  | FEvent e => ser_variant "type" "event" ["envelope"] [ser_envelope e]
  | FSnapshot s high => ser_variant "type" "snapshot" ["snapshot"; "high_water_seq"] [ser_snapshot s; ser_seq high]
  | ReplayEnd sid high => ser_variant "type" "replay_end" ["session_id"; "high_water_seq"] [ser_id sid; ser_seq high]
  end.

Definition ser_error_frame (e : ErrorFrame) : Json :=
  JObject ([("type", JString (frame_type e)); ("code", JString (ef_code e)); ("message", JString (ef_message e))]
    ++ ser_present "oldest_available" ser_seq (ef_oldest_available e)
    ++ ser_present "latest_available" ser_seq (ef_latest_available e)
    ++ ser_present "supported_version" JInt (ef_supported_version e)).

(** ** Responses (types.rs and error.rs of the control plane) *)

Definition ser_login_status (s : LoginStatusResponse) : Json :=
  match s with
  | RLoggedOut => ser_variant "state" "logged_out" [] []
  | RDeviceLoginPending op => ser_variant "state" "device_login_pending" ["operation_id"] [ser_login_operation op]
  | RLoggedIn => ser_variant "state" "logged_in" [] []
  | ROutcomeUnknown op => ser_variant "state" "outcome_unknown" ["operation_id"] [ser_login_operation op]
  end.

Definition ser_bootstrap (b : BootstrapResponse) : Json :=
  ser_struct ["actor"; "expires_in_seconds"; "p0_session_id"; "instance_id"]
    [JString (actor b); JInt (bs_expires_in_seconds b); ser_id (p0_session_id b); ser_instance (bs_instance_id b)].
Definition ser_device_login (r : DeviceLoginResponse) : Json :=
  ser_struct ["operation_id"; "verification_url"; "verification_code"; "expires_in_seconds"]
    [ser_login_operation (dl_operation_id r); JString (verification_url r); JString (verification_code r);
     JInt (dl_expires_in_seconds r)].

Definition ser_response (v : ResponseValue) : Json :=
  match v with
  | VBootstrap b => ser_bootstrap b
  | VLoginStatus s => ser_login_status s
  | VDeviceLogin r => ser_device_login r
  | VReceipt r => ser_receipt r
  | VSnapshot s => ser_snapshot s
  | VCandidates c => ser_candidates c
  end.

(** [ApiError]: its status is skipped. *)
Definition ser_api_error (e : Api.ApiError) : Json :=
  JObject [("error", JObject ([("code", JString (Api.code e)); ("message", JString (Api.message e))]
                              ++ ser_present "operation_id" ser_operation (Api.operation_id e)))].

(** ** Identifiers have 128 bits *)

Definition lifecycle_ids (l : P0CloudLifecycle) : Prop := in_uuid (op_uuid (p0_operation_id l)).
Definition projection_ids (p : P0TurnProjection) : Prop :=
  match p with
  | Cloud l _ => lifecycle_ids l
  | MonitoringDegraded op l _ => in_uuid (op_uuid op) /\ lifecycle_ids l
  | _ => True
  end.
Definition identity_ids (i : P0SessionIdentity) : Prop := in_uuid (as_uuid (session_id i)) /\ in_uuid (instance_uuid (instance_id i)).
Definition snapshot_ids (s : P0SessionSnapshot) : Prop :=
  identity_ids (sn_identity s) /\
  forall t, sn_current_turn s = Some t -> in_uuid (as_uuid (ts_turn_id t)) /\ projection_ids (ts_projection t).
Definition event_ids (e : P0SessionEvent) : Prop :=
  match e with
  | LifecycleChanged l => lifecycle_ids l
  | RecoveryObserved _ op _ _ | RecoveryResolved _ op _ => in_uuid (op_uuid op)
  | _ => True
  end.
Definition envelope_ids (e : P0SessionEventEnvelope) : Prop :=
  in_uuid (as_uuid (ev_session_id e)) /\ (forall t, ev_turn_id e = Some t -> in_uuid (as_uuid t)) /\ event_ids (ev_payload e).

(** A frame that the runtime of a session may send. *)
Definition frame_typed (i : Inner) (f : ReplayFrame) : Prop :=
  match f with
  | ReplayBegin sid after high => in_uuid (as_uuid sid) /\ in_u64 (value after) /\ in_u64 (value high)
  | FEvent e => envelope_typed i e /\ envelope_ids e
  | FSnapshot s high => snapshot_typed s /\ snapshot_ids s /\ in_u64 (value high)
  | ReplayEnd sid high => in_uuid (as_uuid sid) /\ in_u64 (value high)
  end.

(** ** Depths *)

Lemma plifecycle_depth l : (json_depth (ser_lifecycle l) <= 1)%nat.
Proof. destruct l as [op|op|op|op t|op t|op t|op t|op [t|] c|op]; simpl; lia. Qed.

Lemma projection_depth p : (json_depth (ser_projection p) <= 2)%nat.
Proof.
  destruct p as [|c|l c|op l c| | |]; try (simpl; lia); pose proof (plifecycle_depth l);
    unfold ser_projection, ser_variant; apply depth_struct; repeat apply Forall_cons_2; try apply Forall_nil_2; simpl in *; lia.
Qed.

Lemma snapshot_depth s : (json_depth (ser_snapshot s) <= 4)%nat.
Proof.
  unfold ser_snapshot. apply depth_struct. repeat apply Forall_cons_2; try apply Forall_nil_2; try (simpl; lia).
  apply depth_option. intros t. unfold ser_turn. apply depth_struct. pose proof (projection_depth (ts_projection t)).
  repeat apply Forall_cons_2; try apply Forall_nil_2; simpl in *; lia.
Qed.

Lemma event_depth e : (json_depth (ser_event e) <= 2)%nat.
Proof.
  destruct e as [| |l|[]| |[] op ts c|[] op d|r]; try (simpl; lia); unfold ser_event, ser_variant; apply depth_struct;
    repeat apply Forall_cons_2; try apply Forall_nil_2; try (simpl; lia).
  - pose proof (plifecycle_depth l). lia.
  - by apply depth_vec.
Qed.

Lemma frame_depth f : (json_depth (ser_frame f) <= MAX_DEPTH)%nat.
Proof.
  destruct f as [sid after high|e|s high|sid high]; unfold ser_frame, ser_variant; struct_depth 5%nat.
  - unfold ser_envelope. apply (depth_weaken 3); [|lia]. apply depth_struct. pose proof (event_depth (ev_payload e)).
    repeat apply Forall_cons_2; try apply Forall_nil_2; try (simpl in *; lia). apply depth_option. intros t. simpl. lia.
  - pose proof (snapshot_depth s). lia.
Qed.

Lemma response_depth v : (json_depth (ser_response v) <= MAX_DEPTH)%nat.
Proof.
  destruct v as [b|[|op| |op]|r|r|s|c]; try (simpl; unfold MAX_DEPTH; lia).
  - pose proof (snapshot_depth s). simpl in *. unfold MAX_DEPTH. lia.
  - cbn [ser_response]. unfold ser_candidates. struct_depth 1%nat. apply depth_vec. done.
Qed.

Lemma error_depth e : (json_depth (ser_api_error e) <= MAX_DEPTH)%nat.
Proof. unfold ser_api_error. destruct (Api.operation_id e); simpl; unfold MAX_DEPTH; lia. Qed.

(** ** Sizes *)

Lemma fits_weaken k k' v : fits k v -> k <= k' -> fits k' v.
Proof. intros [Hw Hk] Hl. split; [done|lia]. Qed.

Lemma bool_fits b : fits 5 (JBool b).
Proof. by split. Qed.
Lemma seq_fits s : in_u64 (value s) -> fits 20 (ser_seq s).
Proof. apply (int_fits _ u64_max). done. Qed.
Lemma ptask_fits t : task_typed t -> fits 130 (ser_task t).
Proof. apply task_fits. Qed.
Lemma actor_fits a : fits 10 (ser_actor a).
Proof. by destruct a. Qed.
Lemma state_fits st : fits 21 (ser_state st).
Proof. by destruct st. Qed.
Lemma decision_fits d : fits 9 (ser_decision d).
Proof. by destruct d. Qed.
Lemma reason_fits r : fits 15 (ser_reason r).
Proof. by destruct r. Qed.

(** A struct from the sizes of its parts. *)
Ltac struct_fit ks :=
  eapply fits_weaken; [apply (struct_fits _ _ ks); [repeat apply Forall2_cons_2; try apply Forall2_nil_2|reflexivity|reflexivity]
                      |vm_compute; discriminate].
Ltac name_fits := split; [vm_compute; reflexivity|vm_compute; discriminate].

Lemma identity_fits i : identity_ids i -> fits 120 (ser_identity i).
Proof. intros [Hs Hi]. struct_fit [38; 38]; by apply uuid_fits. Qed.

Lemma plifecycle_fits l : P0Typing.lifecycle_typed l -> lifecycle_ids l -> fits 320 (ser_lifecycle l).
Proof.
  intros Ht Hi. assert (Ho : fits 38 (ser_operation (p0_operation_id l))) by (by apply uuid_fits).
  destruct l as [op|op|op|op t|op t|op t|op t|op t c|op]; cbn [p0_operation_id] in Ho.
  1,2,3,9: struct_fit [25; 38]; [name_fits|done].
  1,2,3,4: struct_fit [25; 38; 130]; [name_fits|done|by apply ptask_fits, Ht].
  struct_fit [25; 38; 130; 5]; [name_fits|done| |apply bool_fits]. apply option_fits; [|lia]. intros x ->. by apply ptask_fits, Ht.
Qed.

Lemma projection_fits p : (forall l, projection_lifecycle p = Some l -> P0Typing.lifecycle_typed l) -> projection_ids p -> fits 480 (ser_projection p).
Proof.
  intros Ht Hi. destruct p as [|c|l c|op l c| | |]; [struct_fit [40]; name_fits|struct_fit [40; 5]; [name_fits|apply bool_fits]| | |struct_fit [40]; name_fits..].
  - struct_fit [40; 320; 5]; [name_fits|apply plifecycle_fits; auto|apply bool_fits].
  - destruct Hi as [Ho Hi]. struct_fit [40; 38; 320; 5]; [name_fits|by apply uuid_fits|apply plifecycle_fits; auto|apply bool_fits].
Qed.

Lemma snapshot_fits s : snapshot_typed s -> snapshot_ids s -> fits 1000 (ser_snapshot s).
Proof.
  intros [Hq Ht] [Hi Hu]. struct_fit [120; 21; 560; 20]; [by apply identity_fits|apply state_fits| |by apply seq_fits].
  apply option_fits; [|lia]. intros t Et. destruct (Hu t Et) as [Hid Hp].
  struct_fit [38; 480]; [by apply uuid_fits|]. apply projection_fits; [|done]. intros l. by apply Ht.
Qed.

Lemma tasks_fits ts : candidates_typed ts -> fits (2 + 131 * 100) (ser_vec ser_task ts).
Proof.
  intros (HF & _ & Hl). apply (vec_fits ser_task 130 100); [|lia|exact Hl]. eapply Forall_impl; [|exact HF]. apply ptask_fits.
Qed.

Lemma event_fits e : event_typed e -> event_ids e -> fits 13400 (ser_event e).
Proof.
  intros Ht Hi. destruct e as [| |l|a| |a op ts c|a op d|r]; [struct_fit [40]; name_fits..| | |struct_fit [40]; name_fits| | |].
  - struct_fit [40; 320]; [name_fits|by apply plifecycle_fits].
  - struct_fit [40; 10]; [name_fits|apply actor_fits].
  - struct_fit [40; 10; 38; 2 + 131 * 100; 5]; [name_fits|apply actor_fits|by apply uuid_fits|by apply tasks_fits|apply bool_fits].
  - struct_fit [40; 10; 38; 9]; [name_fits|apply actor_fits|by apply uuid_fits|apply decision_fits].
  - struct_fit [40; 15]; [name_fits|apply reason_fits].
Qed.

Lemma envelope_fits i e : envelope_typed i e -> envelope_ids e -> fits 13700 (ser_envelope e).
Proof.
  intros (Hv & _ & Hq & Ht) (Hs & Hid & Hi). struct_fit [20; 38; 20; 38; 13400].
  - rewrite Hv. name_fits.
  - by apply uuid_fits.
  - apply seq_fits. split; lia.
  - apply option_fits; [|lia]. intros t Et. by apply uuid_fits, Hid.
  - by apply event_fits.
Qed.

Lemma frame_fits i f : frame_typed i f -> fits 13800 (ser_frame f).
Proof.
  destruct f as [sid after high|e|s high|sid high]; cbn [frame_typed ser_frame].
  - intros (Hs & Ha & Hh). struct_fit [30; 38; 20; 20]; [name_fits|by apply uuid_fits|by apply seq_fits..].
  - intros [Ht Hi]. struct_fit [30; 13700]; [name_fits|by eapply envelope_fits].
  - intros (Ht & Hi & Hh). struct_fit [30; 1000; 20]; [name_fits|by apply snapshot_fits|by apply seq_fits].
  - intros (Hs & Hh). struct_fit [30; 38; 20]; [name_fits|by apply uuid_fits|by apply seq_fits].
Qed.

(** ** What the JSON determines *)

Lemma ser_uuid_inj u u' : in_uuid u -> in_uuid u' -> ser_uuid u = ser_uuid u' -> u = u'.
Proof. intros Hu Hu' [= E]. pose proof (uuid_written u Hu) as W. rewrite E, (uuid_written u' Hu') in W. by injection W. Qed.

Lemma ser_operation_inj op op' : in_uuid (op_uuid op) -> in_uuid (op_uuid op') -> ser_operation op = ser_operation op' -> op = op'.
Proof. intros Hu Hu' E%ser_uuid_inj; [|done..]. destruct op, op'. simpl in E. congruence. Qed.

Lemma ser_id_inj {t} (i i' : Id t) : in_uuid (as_uuid i) -> in_uuid (as_uuid i') -> ser_id i = ser_id i' -> i = i'.
Proof. intros Hu Hu' E%ser_uuid_inj; [|done..]. destruct i, i'. simpl in E. congruence. Qed.

Lemma ser_instance_inj i i' : in_uuid (instance_uuid i) -> in_uuid (instance_uuid i') -> ser_instance i = ser_instance i' -> i = i'.
Proof. intros Hu Hu' E%ser_uuid_inj; [|done..]. destruct i, i'. simpl in E. congruence. Qed.

Lemma ser_seq_inj q q' : ser_seq q = ser_seq q' -> q = q'.
Proof. destruct q, q'. intros [= ->]. done. Qed.

Lemma ser_task_inj t t' : ser_task t = ser_task t' -> t = t'.
Proof. destruct t, t'. intros [= ->]. done. Qed.

Lemma ser_vec_inj {A} (f : A -> Json) l l' : (forall x y, f x = f y -> x = y) -> ser_vec f l = ser_vec f l' -> l = l'.
Proof.
  intros Hf [= E]. revert l' E. induction l as [|x l IH]; intros [|y l'] E; try done. cbn in E. injection E as E1 E2.
  f_equal; auto.
Qed.

Lemma ser_option_inj {A} (f : A -> Json) (P : A -> Prop) o o' : (forall x, f x <> JNull) ->
  (forall x y, P x -> P y -> f x = f y -> x = y) -> (forall x, o = Some x -> P x) -> (forall x, o' = Some x -> P x) ->
  ser_option f o = ser_option f o' -> o = o'.
Proof.
  intros Hn Hf Ho Ho' E. destruct o as [x|], o' as [y|]; simpl in E; [|by destruct (Hn x)|by destruct (Hn y)|done]. f_equal. apply Hf; auto.
Qed.

Lemma entry_inj (k k' : string) (v v' : Json) es es' : JObject ((k, v) :: es) = JObject ((k', v') :: es') -> k = k' /\ v = v' /\ JObject es = JObject es'.
Proof. by intros [= -> -> ->]. Qed.

(** The entries of two equal objects, one after the other. *)
Ltac entries E :=
  unfold ser_variant, ser_struct in E; cbn [zip zip_with] in E;
  repeat (apply entry_inj in E; let V := fresh "V" in destruct E as (_ & V & E); try discriminate V); try discriminate E; clear E.
Ltac same_operation := match goal with E : ser_operation ?a = ser_operation ?b |- _ => apply ser_operation_inj in E; [subst|assumption..] end.
Ltac same_rest := repeat match goal with
  | E : ser_task ?a = ser_task ?b |- _ => apply ser_task_inj in E; subst
  | E : ser_seq ?a = ser_seq ?b |- _ => apply ser_seq_inj in E; subst
  | E : JBool ?a = JBool ?b |- _ => injection E as E; subst
  end.

Lemma ser_lifecycle_inj l l' : lifecycle_ids l -> lifecycle_ids l' -> ser_lifecycle l = ser_lifecycle l' -> l = l'.
Proof.
  unfold lifecycle_ids. intros Hi Hi' E.
  destruct l as [op|op|op|op t|op t|op t|op t|op t c|op], l' as [op'|op'|op'|op' t'|op' t'|op' t'|op' t'|op' t' c'|op'];
    cbn [p0_operation_id ser_lifecycle] in *; entries E; same_operation; same_rest; try done.
  assert (t = t') as ->; [|done]. eapply (ser_option_inj ser_task (fun _ => True)); try done. intros x y _ _. apply ser_task_inj.
Qed.

Ltac same_lifecycle := match goal with E : ser_lifecycle ?a = ser_lifecycle ?b |- _ => apply ser_lifecycle_inj in E; [subst|assumption..] end.

Lemma ser_projection_inj p p' : projection_ids p -> projection_ids p' -> ser_projection p = ser_projection p' -> p = p'.
Proof.
  intros Hi Hi' E. destruct p as [|c|l c|op l c| | |], p' as [|c'|l' c'|op' l' c'| | |]; cbn [projection_ids ser_projection] in *;
    try match type of Hi with _ /\ _ => destruct Hi, Hi' end; entries E; try same_operation; try same_lifecycle; same_rest; done.
Qed.

Lemma ser_turn_inj t t' : in_uuid (as_uuid (ts_turn_id t)) /\ projection_ids (ts_projection t) ->
  in_uuid (as_uuid (ts_turn_id t')) /\ projection_ids (ts_projection t') -> ser_turn t = ser_turn t' -> t = t'.
Proof.
  intros [Hu Hp] [Hu' Hp'] E. unfold ser_turn in E. entries E. destruct t, t'. simpl in *.
  f_equal; [by apply ser_id_inj|by apply ser_projection_inj].
Qed.

Lemma ser_identity_inj i i' : identity_ids i -> identity_ids i' -> ser_identity i = ser_identity i' -> i = i'.
Proof.
  intros [Hs Hi] [Hs' Hi'] E. unfold ser_identity in E. entries E. destruct i, i'. simpl in *.
  f_equal; [by apply ser_id_inj|by apply ser_instance_inj].
Qed.

Lemma ser_state_inj st st' : ser_state st = ser_state st' -> st = st'.
Proof. destruct st, st'; (reflexivity || discriminate). Qed.

Lemma ser_snapshot_inj s s' : snapshot_ids s -> snapshot_ids s' -> ser_snapshot s = ser_snapshot s' -> s = s'.
Proof.
  intros [Hi Ht] [Hi' Ht'] E. unfold ser_snapshot in E. entries E. destruct s as [i st t q], s' as [i' st' t' q']. simpl in *.
  f_equal; [by apply ser_identity_inj|by apply ser_state_inj| |by apply ser_seq_inj].
  eapply (ser_option_inj ser_turn); [done|apply ser_turn_inj|exact Ht|exact Ht'|done].
Qed.

Lemma ser_event_inj e e' : event_ids e -> event_ids e' -> ser_event e = ser_event e' -> e = e'.
Proof.
  intros Hi Hi' E. destruct e as [| |l|a| |a op ts c|a op d|r], e' as [| |l'|a'| |a' op' ts' c'|a' op' d'|r'];
    cbn [event_ids ser_event] in *; entries E; try same_operation; try same_lifecycle; same_rest; try done.
  - by destruct a, a'.
  - match goal with V : ser_vec _ _ = _ |- _ => apply ser_vec_inj in V; [subst|apply ser_task_inj] end. by destruct a, a'.
  - by destruct a, a', d, d'.
  - by destruct r, r'.
Qed.

Lemma ser_envelope_inj e e' : envelope_ids e -> envelope_ids e' -> ser_envelope e = ser_envelope e' -> e = e'.
Proof.
  intros (Hs & Ht & Hi) (Hs' & Ht' & Hi') E. unfold ser_envelope in E. entries E. destruct e as [v sid q t p], e' as [v' sid' q' t' p']. simpl in *.
  f_equal; [congruence|by apply ser_id_inj|by apply ser_seq_inj| |by apply ser_event_inj].
  eapply (ser_option_inj ser_id (fun t => in_uuid (as_uuid t))); [done|apply ser_id_inj|exact Ht|exact Ht'|done].
Qed.

Lemma ser_frame_inj i f f' : frame_typed i f -> frame_typed i f' -> ser_frame f = ser_frame f' -> f = f'.
Proof.
  intros Ht Ht' E. destruct f as [sid a h|e|s h|sid h], f' as [sid' a' h'|e'|s' h'|sid' h']; cbn [frame_typed ser_frame] in *; entries E; same_rest.
  - f_equal. apply ser_id_inj; tauto.
  - f_equal. apply ser_envelope_inj; tauto.
  - f_equal. apply ser_snapshot_inj; tauto.
  - f_equal. apply ser_id_inj; tauto.
Qed.

(** ** Responses *)

Definition login_status_ids (s : LoginStatusResponse) : Prop :=
  match s with RDeviceLoginPending op | ROutcomeUnknown op => in_uuid (login_uuid op) | _ => True end.

(** A value that a handler may answer with. *)
Definition response_typed (v : ResponseValue) : Prop :=
  match v with
  | VBootstrap b => utf8_valid (actor b) = true /\ in_u64 (bs_expires_in_seconds b) /\ in_uuid (as_uuid (p0_session_id b)) /\
      in_uuid (instance_uuid (bs_instance_id b))
  | VLoginStatus s => login_status_ids s
  | VDeviceLogin r => in_uuid (login_uuid (dl_operation_id r)) /\ utf8_valid (verification_url r) = true /\
      utf8_valid (verification_code r) = true /\ in_u64 (dl_expires_in_seconds r)
  | VReceipt r => in_uuid (as_uuid (tr_turn_id r)) /\ in_u64 (value (tr_high_water_seq r))
  | VSnapshot s => snapshot_typed s /\ snapshot_ids s
  | VCandidates c => in_uuid (op_uuid (rc_operation_id c)) /\ candidates_typed (rc_task_ids c)
  end.

Definition error_typed (e : Api.ApiError) : Prop :=
  utf8_valid (Api.code e) = true /\ utf8_valid (Api.message e) = true /\
  forall op, Api.operation_id e = Some op -> in_uuid (op_uuid op).

Lemma uuid_writable u : in_uuid u -> writable (ser_uuid u) = true.
Proof. intros Hu. by destruct (uuid_fits u Hu). Qed.
Lemma u64_writable z : in_u64 z -> writable (JInt z) = true.
Proof. intros Hz. by destruct (int_fits z u64_max ltac:(done) Hz). Qed.

Ltac written_fields :=
  apply writable_struct; [done|]; cbn [forallb]; rewrite !andb_true_iff; split_and!;
    first [by apply u64_writable|by apply uuid_writable|done].

Lemma response_writable v : response_typed v -> writable (ser_response v) = true.
Proof.
  destruct v as [b|s|r|r|s|c]; cbn [response_typed ser_response].
  - intros (Ha & He & Hs & Hi). written_fields.
  - destruct s as [|op| |op]; cbn [login_status_ids]; try done; intros Hu; written_fields.
  - intros (Hu & Hv & Hc & He). written_fields.
  - intros (Hu & Hs). written_fields.
  - intros [Ht Hi]. by apply snapshot_fits.
  - intros [Hu Hc]. pose proof (proj1 (tasks_fits _ Hc)) as Hw. written_fields.
Qed.

Lemma error_writable e : error_typed e -> writable (ser_api_error e) = true.
Proof.
  intros (Hc & Hm & Ho). cbn. rewrite Hc, Hm. simpl. destruct (Api.operation_id e) as [op|]; [|done].
  pose proof (uuid_writable _ (Ho op eq_refl)) as Hu. simpl in *. by rewrite Hu.
Qed.
End Published.

(** ** The interfaces of the stream and of the responses *)

Section Sent.
Context `{JsonText} `{UuidText}.

Definition wire_frames : FrameJson :=
  {| frame_to_vec f := json_to_vec (ser_frame f);
     error_frame_to_vec e := json_to_vec (ser_error_frame e);
     client_frame_from_str text := v ← json_from_slice text; de_client_frame v |}.
Definition wire_responses : SerdeJson :=
  {| to_vec v := json_to_vec (ser_response v); error_to_vec e := json_to_vec (ser_api_error e) |}.
#[local] Existing Instances wire_frames wire_responses.

(** C17: Whatever a session publishes reaches a client whole.  Every frame with a value that a session may
    hold (the invariant of P0Typing.v, which every reachable session satisfies) is written in a message
    of less than the 64 KiB limit, so the stream is never closed for an event it cannot send; two frames
    of the same text are the same frame, so the text determines the event, its sequence and its turn.
    And every response and error that a handler answers is written: neither becomes the fallback body. *)
Theorem published_values_are_sent :
  (forall i f, frame_typed i f -> exists text, serialize_bounded f = Some text /\ slen text <= 13800 /\
     json_from_slice text = Some (ser_frame f)) /\
  (forall i f f' text, frame_typed i f -> frame_typed i f' -> serialize_bounded f = Some text -> serialize_bounded f' = Some text -> f = f') /\
  (forall status v, response_typed v -> exists body, json_from_slice body = Some (ser_response v) /\
     response_json status v = Ok (mkResponse status (common_headers (Some "application/json")) body)) /\
  (forall e, error_typed e -> exists body, json_from_slice body = Some (ser_api_error e) /\
     response_error e = mkResponse (Api.status e) (common_headers (Some "application/json")) body).
Proof.
  assert (Hsent : forall i f, frame_typed i f -> exists text, serialize_bounded f = Some text /\ slen text <= 13800 /\
     json_from_slice text = Some (ser_frame f)).
  { intros i f [Hw Hk]%frame_fits. destruct (json_written _ Hw (frame_depth f)) as (text & Ht & Hs & Hu & Hr). exists text. split; [|split; [lia|done]].
    unfold serialize_bounded, bounded. cbn [frame_to_vec wire_frames]. rewrite Ht, Hu, (proj2 (Z.ltb_ge _ _)); [done|].
    unfold MAX_SERVER_MESSAGE_BYTES. lia. }
  split_and!; [done| | |].
  - intros i f f' text Hf Hf' E E'. destruct (Hsent i f Hf) as (t & Et & _ & Hj). destruct (Hsent i f' Hf') as (t' & Et' & _ & Hj').
    assert (t = t') as -> by congruence. rewrite Hj in Hj'. injection Hj' as Hj'. by apply (ser_frame_inj i).
  - intros status v Hv%response_writable. destruct (json_written _ Hv (response_depth v)) as (body & Ht & _ & _ & Hr). exists body. split; [done|].
    unfold response_json. cbn [to_vec wire_responses]. by rewrite Ht.
  - intros e He%error_writable. destruct (json_written _ He (error_depth e)) as (body & Ht & _ & _ & Hr). exists body. split; [done|].
    unfold response_error. cbn [error_to_vec wire_responses]. by rewrite Ht.
Qed.
End Sent.

(** ** A recovery event on the stream *)

Definition sample_inner : Inner :=
  {| config := config_default; SessionRuntime.identity := {| session_id := mkId 201; instance_id := mkInstance 202 |} |}.
Definition sample_envelope : P0SessionEventEnvelope :=
  {| ev_schema_version := 1; ev_session_id := mkId 201; ev_seq := mkSeq 9; ev_turn_id := Some (mkId 203);
     ev_payload := RecoveryObserved Operator (mkOp 204) [mkP0Task "task_a"; mkP0Task "task_b"] true |}.

Lemma sample_frame_typed : frame_typed sample_inner (FEvent sample_envelope).
Proof.
  split.
  - split; [done|]. split; [done|]. split; [done|]. split; [|split].
    + by repeat constructor.
    + apply (bool_decide_unpack _); vm_compute; exact I.
    + done.
  - split; [done|]. split; [by intros t [= <-]|done].
Qed.

#[local] Existing Instances Compact.json_text Compact.uuid_text.
#[local] Existing Instances wire_frames.

Lemma published_values_are_sent_witness : exists text, serialize_bounded (FEvent sample_envelope) = Some text /\ slen text <= 13800 /\
  slen text = 316.
Proof.
  destruct (proj1 published_values_are_sent sample_inner (FEvent sample_envelope) sample_frame_typed) as (text & Ht & Hs & _).
  exists text. split; [exact Ht|]. split; [exact Hs|]. vm_compute in Ht. injection Ht as <-. vm_compute. reflexivity.
Defined.
