(* ===== verification/EventWire.v ===== *)
(** * The domain's values as JSON

    What serde derives for the durable session events of [codebox-domain/src/event.rs], and the hand
    written implementations of [id.rs] and [path.rs].  An event is tagged beside its data; its variants
    and the envelopes deny unknown fields.  A [DateTime<Utc>] is written and read by [chrono], an
    interface here ([TimeText]).

    The theorems: what is written is read back, and whatever is read has identifiers that are not nil
    and numbers of their width, so no event enters a session that its constructors would refuse. *)
From S2P Require Import Prelude DomainValues DomainReducer CloudTypes CloudAdapter SubmitLedger LifecycleLedger LoginTypes LoginLedger SessionTypes HttpTypes HttpConfig Routes WebSocket Json JsonCompact LedgerWire RequestWire.
From stdpp Require Import base numbers list strings option.
From Stdlib Require Import ZArith Lia.
Import Ids Seqs Str Events.

Open Scope Z_scope.

(** [chrono]: the RFC 3339 text of an instant in its range. *)
Class TimeText := {
  time_text : Z -> string;
  time_parse : string -> option Z;
  time_in_range : Z -> bool;
  time_written t : time_in_range t = true -> time_parse (time_text t) = Some t /\ utf8_valid (time_text t) = true;
  time_read s t : time_parse s = Some t -> time_in_range t = true }.

(** The tag of an enum tagged beside its content: [None] where the content is missing. *)
Definition split_adjacent (v : Json) : option (string * option Json) :=
  let name_of w := match w with JString name | JObject [(name, JNull)] => Some name | _ => None end in
  match v with
  | JObject es =>
      if forallb (fun e => bool_decide (e.1 ∈ ["type"; "data"])) es then
        match lookup_all "type" es, lookup_all "data" es with
        | [w], [] => name ← name_of w; Some (name, None)
        | [w], [content] => name ← name_of w; Some (name, Some content)
        | _, _ => None
        end
      else None
  | JArray [w; content] => name ← name_of w; Some (name, Some content)
  | _ => None
  end.

(** The content of a variant without fields, and of one with them, which is an object. *)
Definition de_unit_content {A} (x : A) (content : option Json) : option A :=
  match content with None | Some JNull => Some x | _ => None end.
Definition de_struct_content (names : list string) (content : option Json) : option Fields :=
  match content with Some (JObject es) => de_fields true names (JObject es) | _ => None end.

Section Events.
Context `{UuidText}.

Definition ser_domain_id {t} (i : Id t) : Json := ser_uuid (as_uuid i).

(** [Serialize] and [Deserialize for WorkspacePath]. *)
Definition ser_path (p : Paths.WorkspacePath) : Json := JString (Paths.as_str p).
Definition de_path : Decoder Paths.WorkspacePath := fun v =>
  raw ← de_string v; match Paths.try_new raw with Ok p => Some p | Err _ => None end.

(** ** Events *)

Definition APPROVALS : list (string * ApprovalDecision) := [("approved", Approved); ("denied", Denied)].
Definition ser_approval (d : ApprovalDecision) : Json := JString match d with Approved => "approved" | Denied => "denied" end.
Definition de_approval : Decoder ApprovalDecision := de_unit_variant APPROVALS.

Definition domain_event_name (k : DomainEventKind) : string :=
  match k with
  | KSessionCreated => "session_created" | KSandboxProvisioned => "sandbox_provisioned"
  | KProvisioningFailed => "provisioning_failed" | KTurnStarted => "turn_started"
  | KApprovalRequested => "approval_requested" | KApprovalResolved => "approval_resolved"
  | KTurnCancellationRequested => "turn_cancellation_requested" | KTurnCancelled => "turn_cancelled"
  | KTurnCompleted => "turn_completed" | KTurnFailed => "turn_failed" | KSessionIdled => "session_idled"
  | KSessionResumed => "session_resumed" | KSessionArchivingStarted => "session_archiving_started"
  | KSessionArchived => "session_archived"
  end.
Definition DOMAIN_EVENTS : list (string * DomainEventKind) :=
  (fun k => (domain_event_name k, k)) <$>
    [KSessionCreated; KSandboxProvisioned; KProvisioningFailed; KTurnStarted; KApprovalRequested; KApprovalResolved;
     KTurnCancellationRequested; KTurnCancelled; KTurnCompleted; KTurnFailed; KSessionIdled; KSessionResumed;
     KSessionArchivingStarted; KSessionArchived].

Definition SANDBOX_FIELDS : list string := ["sandbox_id"].
Definition TURN_FIELDS : list string := ["turn_id"].
Definition REQUESTED_FIELDS : list string := ["turn_id"; "approval_id"].
Definition RESOLVED_FIELDS : list string := ["turn_id"; "approval_id"; "decision"].

Definition ser_data (e : DomainEvent) : option Json :=
  match e with
  | SandboxProvisioned s => Some (ser_struct SANDBOX_FIELDS [ser_domain_id s])
  | ApprovalRequested t a => Some (ser_struct REQUESTED_FIELDS [ser_domain_id t; ser_domain_id a])
  | ApprovalResolved t a d => Some (ser_struct RESOLVED_FIELDS [ser_domain_id t; ser_domain_id a; ser_approval d])
  | TurnStarted t | TurnCancellationRequested t | TurnCancelled t | TurnCompleted t | TurnFailed t =>
      Some (ser_struct TURN_FIELDS [ser_domain_id t])
  | SessionCreated | ProvisioningFailed | SessionIdled | SessionResumed | SessionArchivingStarted | SessionArchived => None
  end.
Definition ser_domain_event (e : DomainEvent) : Json :=
  let tag := ("type", JString (domain_event_name (kind e))) in
  match ser_data e with Some d => JObject [tag; ("data", d)] | None => JObject [tag] end.

Definition de_turn_variant (make : TurnId -> DomainEvent) (content : option Json) : option DomainEvent :=
  fs ← de_struct_content TURN_FIELDS content; turn ← required (de_id TurnIdT) 0 fs; Some (make turn).

Definition de_domain_event : Decoder DomainEvent := fun v =>
  '(name, content) ← split_adjacent v;
  k ← snd <$> head (filter (fun e => e.1 = name) DOMAIN_EVENTS);
  match k with
  | KSessionCreated => de_unit_content SessionCreated content
  | KSandboxProvisioned =>
      fs ← de_struct_content SANDBOX_FIELDS content; s ← required (de_id SandboxIdT) 0 fs; Some (SandboxProvisioned s)
  | KProvisioningFailed => de_unit_content ProvisioningFailed content
  | KTurnStarted => de_turn_variant TurnStarted content
  | KApprovalRequested =>
      fs ← de_struct_content REQUESTED_FIELDS content; t ← required (de_id TurnIdT) 0 fs;
      a ← required (de_id ApprovalIdT) 1 fs; Some (ApprovalRequested t a)
  | KApprovalResolved =>
      fs ← de_struct_content RESOLVED_FIELDS content; t ← required (de_id TurnIdT) 0 fs;
      a ← required (de_id ApprovalIdT) 1 fs; d ← required de_approval 2 fs; Some (ApprovalResolved t a d)
  | KTurnCancellationRequested => de_turn_variant TurnCancellationRequested content
  | KTurnCancelled => de_turn_variant TurnCancelled content
  | KTurnCompleted => de_turn_variant TurnCompleted content
  | KTurnFailed => de_turn_variant TurnFailed content
  | KSessionIdled => de_unit_content SessionIdled content
  | KSessionResumed => de_unit_content SessionResumed content
  | KSessionArchivingStarted => de_unit_content SessionArchivingStarted content
  | KSessionArchived => de_unit_content SessionArchived content
  end.

(** ** Envelopes *)

Context `{TimeText}.

Definition ser_time (t : Z) : Json := JString (time_text t).
Definition de_time : Decoder Z := fun v => s ← de_string v; time_parse s.

Record NewDomainEvent := mkNewEvent {
  ne_schema_version : Z; ne_occurred_at : Z; ne_causation_id : option Uuid; ne_correlation_id : Uuid; ne_payload : DomainEvent }.

Definition NEW_EVENT_FIELDS : list string := ["schema_version"; "occurred_at"; "causation_id"; "correlation_id"; "payload"].
Definition ser_new_event (e : NewDomainEvent) : Json :=
  ser_struct NEW_EVENT_FIELDS
    [JInt (ne_schema_version e); ser_time (ne_occurred_at e); ser_option ser_uuid (ne_causation_id e);
     ser_uuid (ne_correlation_id e); ser_domain_event (ne_payload e)].
Definition de_new_event : Decoder NewDomainEvent := fun v =>
  fs ← de_fields true NEW_EVENT_FIELDS v;
  schema_version ← required de_u16 0 fs; occurred_at ← required de_time 1 fs; causation_id ← optional de_uuid 2 fs;
  correlation_id ← required de_uuid 3 fs; payload ← required de_domain_event 4 fs;
  Some (mkNewEvent schema_version occurred_at causation_id correlation_id payload).

Definition ENVELOPE_FIELDS : list string :=
  ["event_id"; "stream_id"; "seq"; "schema_version"; "occurred_at"; "causation_id"; "correlation_id"; "payload"].
Definition ser_domain_envelope (e : DomainEventEnvelope) : Json :=
  ser_struct ENVELOPE_FIELDS
    [ser_uuid (event_id e); ser_domain_id (stream_id e); JInt (value (seq e)); JInt (schema_version e); ser_time (occurred_at e);
     ser_option ser_uuid (causation_id e); ser_uuid (correlation_id e); ser_domain_event (payload e)].
Definition de_domain_envelope : Decoder DomainEventEnvelope := fun v =>
  fs ← de_fields true ENVELOPE_FIELDS v;
  event_id ← required de_uuid 0 fs; stream_id ← required (de_id SessionIdT) 1 fs; seq ← required de_seq 2 fs;
  schema_version ← required de_u16 3 fs; occurred_at ← required de_time 4 fs; causation_id ← optional de_uuid 5 fs;
  correlation_id ← required de_uuid 6 fs; payload ← required de_domain_event 7 fs;
  Some {| Events.event_id := event_id; Events.stream_id := stream_id; Events.seq := seq; Events.schema_version := schema_version;
          Events.occurred_at := occurred_at; Events.causation_id := causation_id; Events.correlation_id := correlation_id;
          Events.payload := payload |}.

(** ** The values of the types *)

Definition id_typed {t} (i : Id t) : Prop := in_uuid (as_uuid i) /\ is_nil (as_uuid i) = false.
Definition domain_event_typed (e : DomainEvent) : Prop :=
  match e with
  | SandboxProvisioned s => id_typed s
  | ApprovalRequested t a | ApprovalResolved t a _ => id_typed t /\ id_typed a
  | TurnStarted t | TurnCancellationRequested t | TurnCancelled t | TurnCompleted t | TurnFailed t => id_typed t
  | _ => True
  end.
Record domain_envelope_typed (e : DomainEventEnvelope) : Prop := {
  dt_event : in_uuid (event_id e);
  dt_stream : id_typed (stream_id e);
  dt_seq : in_u64 (value (seq e));
  dt_version : 0 <= schema_version e <= u16_max;
  dt_time : time_in_range (occurred_at e) = true;
  dt_causation : forall u, causation_id e = Some u -> in_uuid u;
  dt_correlation : in_uuid (correlation_id e);
  dt_payload : domain_event_typed (payload e) }.
Record new_event_typed (e : NewDomainEvent) : Prop := {
  nt_version : 0 <= ne_schema_version e <= u16_max;
  nt_time : time_in_range (ne_occurred_at e) = true;
  nt_causation : forall u, ne_causation_id e = Some u -> in_uuid u;
  nt_correlation : in_uuid (ne_correlation_id e);
  nt_payload : domain_event_typed (ne_payload e) }.

(** ** Reading back *)

Lemma id_back {t} (i : Id t) : id_typed i -> de_id t (ser_domain_id i) = Some i.
Proof. intros [Hu Hn]. apply de_id_iff. exists (uuid_hyphenated (as_uuid i)). split; [done|]. split; [by apply uuid_written|done]. Qed.

Lemma seq_back q : in_u64 (value q) -> de_seq (JInt (value q)) = Some q.
Proof. intros Hq. by apply de_seq_iff. Qed.

Lemma approval_back d : de_approval (ser_approval d) = Some d.
Proof. by destruct d. Qed.

Lemma uuid_option_back o : (forall u, o = Some u -> in_uuid u) -> de_option de_uuid (ser_option ser_uuid o) = Some o.
Proof. intros Ho. apply de_option_back. intros u Hu. split; [done|]. by apply de_uuid_back, Ho. Qed.

Lemma time_back t : time_in_range t = true -> de_time (ser_time t) = Some t.
Proof. intros Ht. by apply time_written. Qed.

Lemma split_written name d : split_adjacent (JObject [("type", JString name); ("data", d)]) = Some (name, Some d).
Proof. reflexivity. Qed.
Lemma split_written_unit name : split_adjacent (JObject [("type", JString name)]) = Some (name, None).
Proof. reflexivity. Qed.
Lemma kind_found k : snd <$> head (filter (fun e => e.1 = domain_event_name k) DOMAIN_EVENTS) = Some k.
Proof. destruct k; vm_compute; reflexivity. Qed.

Lemma struct_content names vs : de_struct_content names (Some (ser_struct names vs)) = de_fields true names (ser_struct names vs).
Proof. reflexivity. Qed.

Lemma turn_variant_back make t : id_typed t -> de_turn_variant make (Some (ser_struct TURN_FIELDS [ser_domain_id t])) = Some (make t).
Proof. intros Ht. unfold de_turn_variant. rewrite struct_content. struct_back. by field_back (id_back _ Ht). Qed.

Lemma domain_event_back e : domain_event_typed e -> de_domain_event (ser_domain_event e) = Some e.
Proof.
  intros Ht. unfold ser_domain_event, de_domain_event.
  destruct e as [|s| |t|t a|t a d|t|t|t|t| | | |]; cbn [domain_event_typed ser_data kind] in *;
    first [rewrite split_written|rewrite split_written_unit]; cbn [mbind option_bind]; rewrite kind_found; cbn [mbind option_bind];
    try reflexivity; try (by apply turn_variant_back).
  - rewrite struct_content. struct_back. by field_back (id_back _ Ht).
  - destruct Ht as [Ht Ha]. rewrite struct_content. struct_back. field_back (id_back _ Ht). by field_back (id_back _ Ha).
  - destruct Ht as [Ht Ha]. rewrite struct_content. struct_back. field_back (id_back _ Ht). field_back (id_back _ Ha).
    by field_back (approval_back d).
Qed.

Lemma new_event_back e : new_event_typed e -> de_new_event (ser_new_event e) = Some e.
Proof.
  intros [Hv Ht Hc Hr Hp]. unfold de_new_event, ser_new_event. struct_back. field_back (de_unsigned_back _ _ Hv).
  field_back (time_back _ Ht). field_back (uuid_option_back _ Hc). field_back (de_uuid_back _ Hr).
  field_back (domain_event_back _ Hp). by destruct e.
Qed.

Lemma domain_envelope_back e : domain_envelope_typed e -> de_domain_envelope (ser_domain_envelope e) = Some e.
Proof.
  intros [He Hs Hq Hv Ht Hc Hr Hp]. unfold de_domain_envelope, ser_domain_envelope. struct_back. field_back (de_uuid_back _ He).
  field_back (id_back _ Hs). field_back (seq_back _ Hq). field_back (de_unsigned_back _ _ Hv). field_back (time_back _ Ht).
  field_back (uuid_option_back _ Hc). field_back (de_uuid_back _ Hr). field_back (domain_event_back _ Hp). by destruct e.
Qed.

(** ** What is read is typed *)

Lemma de_uuid_typed v u : de_uuid v = Some u -> in_uuid u.
Proof. intros (s & _ & Hs)%bind_Some_inv. by eapply uuid_read. Qed.

Lemma de_id_typed t v (i : Id t) : de_id t v = Some i -> id_typed i.
Proof. intros (text & -> & Hp & Hn)%de_id_iff. split; [by eapply uuid_read|done]. Qed.

(** A field that was read came from some value. *)
Lemma required_inv {A} (d : Decoder A) i fs x : required d i fs = Some x -> exists w, d w = Some x.
Proof.
  unfold required. destruct fs as [names es|vs]; simpl.
  - destruct (names !! i); [|done]. destruct (lookup_all _ es) as [|w ws]; [done|]. by exists w.
  - destruct (vs !! i) as [w|]; [|done]. by exists w.
Qed.

Lemma optional_inv {A} (d : Decoder A) i fs x : optional d i fs = Some (Some x) -> exists w, d w = Some x.
Proof.
  assert (Ho : forall w, de_option d w = Some (Some x) -> exists w, d w = Some x).
  { intros w Hw. exists w. destruct w; simpl in Hw; try done; by apply fmap_Some in Hw as (y & Hy & [= ->]). }
  unfold optional. destruct fs as [names es|vs]; simpl.
  - destruct (names !! i); [|done]. destruct (lookup_all _ es) as [|w ws]; [done|]. apply Ho.
  - destruct (vs !! i) as [w|]; [|done]. apply Ho.
Qed.

(** Peel the fields off a decoder that answered. *)
Ltac read_fields E :=
  repeat (let x := fresh "x" in let F := fresh "F" in apply bind_Some_inv in E as (x & F & E)).
Ltac typed_ids := repeat match goal with
  | F : required (de_id _) _ _ = Some _ |- _ => apply required_inv in F as [? F]; apply de_id_typed in F
  | F : required de_uuid _ _ = Some _ |- _ => apply required_inv in F as [? F]; apply de_uuid_typed in F
  end.

Lemma de_turn_variant_typed make content e : (forall t, id_typed t -> domain_event_typed (make t)) ->
  de_turn_variant make content = Some e -> domain_event_typed e.
Proof. intros Hm E. unfold de_turn_variant in E. read_fields E. injection E as <-. typed_ids. auto. Qed.

Lemma unit_content_is {A} (x y : A) content : de_unit_content x content = Some y -> y = x.
Proof. destruct content as [[]|]; simpl; congruence. Qed.

Lemma de_domain_event_typed v e : de_domain_event v = Some e -> domain_event_typed e.
Proof.
  unfold de_domain_event. intros ([name content] & _ & (k & _ & E)%bind_Some_inv)%bind_Some_inv.
  destruct k; try (apply unit_content_is in E as ->; exact I);
    try (eapply de_turn_variant_typed; [|exact E]; by intros t Ht);
    read_fields E; injection E as <-; typed_ids; simpl; auto.
Qed.

Lemma de_unsigned_typed max v x : de_unsigned max v = Some x -> 0 <= x <= max.
Proof. destruct v; try done. simpl. destruct (_ && _) eqn:E; [|done]. intros [= ->]. apply andb_true_iff in E as [?%Z.leb_le ?%Z.leb_le]. done. Qed.

Lemma de_time_typed v t : de_time v = Some t -> time_in_range t = true.
Proof. intros (s & _ & Hs)%bind_Some_inv. by eapply time_read. Qed.

Lemma de_domain_envelope_typed v e : de_domain_envelope v = Some e -> domain_envelope_typed e.
Proof.
  intros E. unfold de_domain_envelope in E. read_fields E. injection E as <-. typed_ids.
  repeat match goal with
  | F : required de_seq _ _ = Some _ |- _ => apply required_inv in F as [? [_ F]%de_seq_iff]
  | F : required de_u16 _ _ = Some _ |- _ => apply required_inv in F as [? F%de_unsigned_typed]
  | F : required de_time _ _ = Some _ |- _ => apply required_inv in F as [? F%de_time_typed]
  | F : required de_domain_event _ _ = Some _ |- _ => apply required_inv in F as [? F%de_domain_event_typed]
  end. constructor; simpl; try done. intros u ->. match goal with F : optional _ _ _ = _ |- _ => apply optional_inv in F as [w F] end.
  by eapply de_uuid_typed.
Qed.
End Events.

(** ** Streams as text *)

Section Streams.
Context `{JsonText} `{UuidText} `{TimeText}.

Lemma id_writable {t} (i : Id t) : id_typed i -> writable (ser_domain_id i) = true.
Proof. intros [Hu _]. by destruct (writable_uuid _ Hu). Qed.
Lemma in_uuid_writable u : in_uuid u -> writable (ser_uuid u) = true.
Proof. intros Hu. by destruct (writable_uuid _ Hu). Qed.
Lemma unsigned_writable z max : max <= u64_max -> 0 <= z <= max -> writable (JInt z) = true.
Proof. intros Hm Hz. by destruct (int_fits z max Hm Hz). Qed.
Lemma time_writable t : time_in_range t = true -> writable (ser_time t) = true.
Proof. intros Ht. by destruct (time_written t Ht). Qed.

Lemma domain_event_writable e : domain_event_typed e -> writable (ser_domain_event e) = true.
Proof.
  intros Ht. destruct e as [|s| |t|t a|t a d|t|t|t|t| | | |]; cbn [domain_event_typed] in Ht; try reflexivity.
  all: assert (Hd : forall n d, utf8_valid n = true -> writable d = true -> writable (JObject [("type", JString n); ("data", d)]) = true)
    by (intros n x Hn Hx; cbn -[writable] in *; simpl; by rewrite Hn, Hx).
  all: apply Hd; [vm_compute; reflexivity|]; apply writable_struct; [reflexivity|]; cbn [forallb].
  all: try destruct Ht as [Ht Ha]; rewrite !andb_true_iff; split_and!; first [by apply id_writable|done|by destruct d].
Qed.

Lemma domain_envelope_writable e : domain_envelope_typed e -> writable (ser_domain_envelope e) = true.
Proof.
  intros [He Hs Hq Hv Ht Hc Hr Hp]. apply writable_struct; [reflexivity|]. cbn [forallb]. rewrite !andb_true_iff.
  split_and!; first [by apply in_uuid_writable|by apply id_writable|by apply (unsigned_writable _ u64_max)
    |by apply (unsigned_writable _ u16_max)|by apply time_writable|by apply domain_event_writable|done|idtac].
  apply writable_option. intros u Hu. by apply in_uuid_writable, Hc.
Qed.

Lemma new_event_writable e : new_event_typed e -> writable (ser_new_event e) = true.
Proof.
  intros [Hv Ht Hc Hr Hp]. apply writable_struct; [reflexivity|]. cbn [forallb]. rewrite !andb_true_iff.
  split_and!; first [by apply in_uuid_writable|by apply (unsigned_writable _ u16_max)|by apply time_writable
    |by apply domain_event_writable|done|idtac].
  apply writable_option. intros u Hu. by apply in_uuid_writable, Hc.
Qed.

Lemma domain_event_depth e : (json_depth (ser_domain_event e) <= 2)%nat.
Proof. by destruct e; simpl; lia. Qed.

Lemma domain_envelope_depth e : (json_depth (ser_domain_envelope e) <= MAX_DEPTH)%nat.
Proof.
  unfold ser_domain_envelope. struct_depth 2%nat; [apply depth_option; intros; simpl; lia|apply domain_event_depth].
Qed.

Lemma new_event_depth e : (json_depth (ser_new_event e) <= MAX_DEPTH)%nat.
Proof.
  unfold ser_new_event. struct_depth 2%nat; [apply depth_option; intros; simpl; lia|apply domain_event_depth].
Qed.

(** [serde_json::to_vec] and [from_slice] of an event. *)
Definition event_to_vec (e : DomainEventEnvelope) : option string := json_to_vec (ser_domain_envelope e).
Definition event_from_slice (bytes : string) : option DomainEventEnvelope := v ← json_from_slice bytes; de_domain_envelope v.

Lemma event_read_back e : domain_envelope_typed e -> exists bytes, event_to_vec e = Some bytes /\ event_from_slice bytes = Some e.
Proof.
  intros Ht. destruct (json_written _ (domain_envelope_writable e Ht) (domain_envelope_depth e)) as (bytes & Hw & _ & _ & Hr). exists bytes. split; [done|].
  unfold event_from_slice. rewrite Hr. by apply domain_envelope_back.
Qed.

(** C24: The durable events survive their JSON.  A stream of events is written event by event, read back as
    the same stream, and so replays to the same projection of the session; a new event reads back
    too.  And whatever bytes are read as an event, its identifiers are not nil and its numbers have
    their width: reading cannot make an event that the constructors refuse. *)
Theorem domain_events_round_trip :
  (forall es r, Forall domain_envelope_typed es -> exists texts, mapM event_to_vec es = Some texts /\
     mapM event_from_slice texts = Some es /\
     forall read, mapM event_from_slice texts = Some read -> Reducer.replay r read = Reducer.replay r es) /\
  (forall e, new_event_typed e -> exists bytes, json_to_vec (ser_new_event e) = Some bytes /\
     (v ← json_from_slice bytes; de_new_event v) = Some e) /\
  (forall bytes e, event_from_slice bytes = Some e -> domain_envelope_typed e).
Proof.
  split_and!.
  - intros es r Hf. assert (Ht : exists texts, mapM event_to_vec es = Some texts /\ mapM event_from_slice texts = Some es).
    { induction Hf as [|e es He _ (texts & Hw & Hr)]; [by exists []|]. destruct (event_read_back e He) as (bytes & Hb & Hd).
      exists (bytes :: texts). cbn. rewrite Hb, Hd. cbn. rewrite Hw, Hr. done. }
    destruct Ht as (texts & Hw & Hr). exists texts. split_and!; [done|done|]. intros read Hread. congruence.
  - intros e Ht. destruct (json_written _ (new_event_writable e Ht) (new_event_depth e)) as (bytes & Hw & _ & _ & Hr). exists bytes. split; [done|].
    rewrite Hr. by apply new_event_back.
  - intros bytes e (v & _ & Hd)%bind_Some_inv. by eapply de_domain_envelope_typed.
Qed.
End Streams.

(** ** A concrete text of instants: their digits *)

Definition instant_in_range (t : Z) : bool := (0 <=? t) && (t <? 2 ^ 128).

Lemma instant_written t : instant_in_range t = true ->
  Compact.parse_uuid (Compact.hyphenated t) = Some t /\ utf8_valid (Compact.hyphenated t) = true.
Proof.
  intros [?%Z.leb_le ?%Z.ltb_lt]%andb_true_iff. split; [by apply Compact.parse_hyphenated|].
  destruct (@uuid_chars Compact.uuid_text t) as [_ Hc]; [done|]. by apply chars_size_plain in Hc as [_ Hc].
Qed.

Lemma instant_read s t : Compact.parse_uuid s = Some t -> instant_in_range t = true.
Proof. intros [? ?]%Compact.parse_range. apply andb_true_iff. split; [by apply Z.leb_le|by apply Z.ltb_lt]. Qed.

Definition digits_time : TimeText :=
  {| time_text := Compact.hyphenated; time_parse := Compact.parse_uuid; time_in_range := instant_in_range;
     time_written := instant_written; time_read := instant_read |}.

#[local] Existing Instances Compact.json_text Compact.uuid_text digits_time.

Definition sample_created : DomainEventEnvelope :=
  {| event_id := 11; stream_id := mkId 12; seq := mkSeq 1; schema_version := 1; occurred_at := 1700000000; causation_id := None;
     correlation_id := 13; payload := SessionCreated |}.
Definition sample_provisioned : DomainEventEnvelope :=
  {| event_id := 14; stream_id := mkId 12; seq := mkSeq 2; schema_version := 1; occurred_at := 1700000001; causation_id := Some 11;
     correlation_id := 13; payload := SandboxProvisioned (mkId 15) |}.

Lemma sample_stream_typed : Forall domain_envelope_typed [sample_created; sample_provisioned].
Proof. repeat apply Forall_cons_2; try apply Forall_nil_2; constructor; simpl; try done. by intros u [= <-]. Qed.

Lemma domain_events_round_trip_witness : exists texts, mapM event_to_vec [sample_created; sample_provisioned] = Some texts /\
  mapM event_from_slice texts = Some [sample_created; sample_provisioned].
Proof.
  destruct (proj1 domain_events_round_trip [sample_created; sample_provisioned] (Reducer.new (mkId 12)) sample_stream_typed)
    as (texts & Hw & Hr & _).
  exists texts. split; [exact Hw|exact Hr].
Defined.
