(* ===== verification/WebSocketClaims.v ===== *)
(** * What a stream shows

    Properties of the connections of [WebSocket]: a client sees the events of the session without gap,
    repetition or reordering, a connection ends with at most one close, and the session runtime never
    gives the stream an event it would have to refuse. *)
From S2P Require Import Prelude DomainValues CloudTypes SessionTypes LoginTypes CloudAdapter HttpTypes Idempotency HttpConfig AppSessions Shutdown Routes WebSocket.
From stdpp Require Import base numbers list gmap strings sets.
From Stdlib Require Import ZArith Lia.
Import Ids Str Seqs.

Open Scope Z_scope.

(** Envelopes of one session, numbered from the one after [after]. *)
Definition numbered (sid : SessionId) (after : Z) (l : list P0SessionEventEnvelope) : Prop :=
  map (fun e => value (ev_seq e)) l = seqZ (after + 1) (Z.of_nat (length l)) /\
  Forall (fun e => ev_schema_version e = 1 /\ ev_session_id e = sid) l.

Lemma numbered_nil sid a : numbered sid a [].
Proof. split; [done|constructor]. Qed.

Lemma numbered_cons sid a e l :
  numbered sid a (e :: l) <->
  value (ev_seq e) = a + 1 /\ ev_schema_version e = 1 /\ ev_session_id e = sid /\ numbered sid (a + 1) l.
Proof.
  unfold numbered. cbn [map length]. rewrite Nat2Z.inj_succ, seqZ_cons, Forall_cons by lia.
  replace (Z.pred (Z.succ (Z.of_nat (length l)))) with (Z.of_nat (length l)) by lia.
  replace (Z.succ (a + 1)) with (a + 1 + 1) by lia. split.
  - intros [[= H1 H2] [[H3 H4] H5]]. done.
  - intros (H1 & H2 & H3 & H4 & H5). split; [by rewrite H1, H4|done].
Qed.

Lemma numbered_app sid a l k : numbered sid a l -> numbered sid (a + Z.of_nat (length l)) k -> numbered sid a (l ++ k).
Proof.
  revert a. induction l as [|e l IH]; intros a; simpl; [by rewrite Z.add_0_r|].
  rewrite !numbered_cons. intros (H1 & H2 & H3 & H4) Hk. split_and!; try done. apply IH; [done|].
  by replace (a + 1 + Z.of_nat (length l)) with (a + Z.of_nat (S (length l))) by lia.
Qed.

Lemma check_replay_spec sid hw expected l last :
  check_replay sid hw expected l = Ok last ->
  numbered sid (value expected) l /\ value last = value expected + Z.of_nat (length l).
Proof.
  revert expected. induction l as [|e l IH]; intros expected; cbn [check_replay].
  - intros [= <-]. split; [apply numbered_nil|simpl; lia].
  - destruct (checked_next expected) as [next|] eqn:En; simpl; [|done]. apply checked_next_Ok in En as [En _].
    destruct (Z.eqb_spec (ev_schema_version e) 1); [|done]. simpl. case_bool_decide; [done|]. simpl.
    case_bool_decide; [done|]. simpl. destruct (_ <? _); [done|]. intros [Hn Hl]%IH.
    rewrite numbered_cons. assert (ev_seq e = next) as Es by done.
    split; [|simpl; lia]. rewrite Es, En. split_and!; [done|done|done|by rewrite <- En].
Qed.

(** Conversely a numbered replay that ends at the high-water mark passes. *)
Lemma check_replay_complete sid hw expected l :
  numbered sid (value expected) l -> 0 <= value expected -> value expected + Z.of_nat (length l) <= value hw -> value hw <= u64_max ->
  check_replay sid hw expected l = Ok (mkSeq (value expected + Z.of_nat (length l))).
Proof.
  revert expected. induction l as [|e l IH]; intros expected; cbn [check_replay length].
  - intros _ _ _ _. destruct expected. simpl. by rewrite Z.add_0_r.
  - rewrite numbered_cons. intros (H1 & H2 & H3 & H4) H0 Hle Hhw. rewrite Nat2Z.inj_succ in *.
    unfold checked_next, u64_checked_add. rewrite (proj2 (Z.leb_le _ _)) by lia. simpl.
    rewrite H2. simpl. rewrite bool_decide_false by tauto. simpl.
    assert (ev_seq e = mkSeq (value expected + 1)) as Es by (destruct (ev_seq e); simpl in *; congruence).
    rewrite Es, bool_decide_false by tauto. simpl. rewrite (proj2 (Z.ltb_ge _ _)) by lia.
    rewrite IH; simpl; [do 2 f_equal; lia|done|lia..].
Qed.

#[local] Arguments serialize_bounded : simpl never.

Section Claims.
Context `{FrameJson}.

(** The texts written. *)
Definition texts (frames : list ServerFrame) : list string :=
  omap (fun f => match f with SText t => Some t | _ => None end) frames.

Definition is_close (f : ServerFrame) : bool := match f with SClose _ _ => true | _ => false end.

(** The frames of a stream: the replay with its snapshot, then live events. *)
Definition stream_frames (sid : SessionId) (after : EventSeq) (s : SessionSubscription) (live : list P0SessionEventEnvelope)
  : list ReplayFrame :=
  let hw := sn_high_water_seq (snapshot s) in
  ReplayBegin sid after hw :: map FEvent (replay s) ++ [FSnapshot (snapshot s) hw; ReplayEnd sid hw] ++ map FEvent live.

Lemma stream_frames_live sid after s live : stream_frames sid after s live = stream_frames sid after s [] ++ map FEvent live.
Proof. unfold stream_frames. simpl. by rewrite <- app_assoc. Qed.

Lemma serialize_events_spec l frames : serialize_events l = Ok frames ->
  map Some frames = map (fun e => serialize_bounded (FEvent e)) l.
Proof.
  revert frames. induction l as [|e l IH]; intros frames; simpl; [by intros [= <-]|].
  unfold serialize_or. destruct (serialize_bounded (FEvent e)) as [t|] eqn:Et; simpl; [|done].
  destruct (serialize_events l) as [ts|]; simpl; [|done]. intros [= <-]. simpl. f_equal. by apply IH.
Qed.

Lemma prepare_replay_spec sid after s frames :
  prepare_replay sid after (sn_high_water_seq (snapshot s)) s = Ok frames ->
  map Some frames = map serialize_bounded (stream_frames sid after s []) /\
  numbered sid (value after) (replay s) /\
  value (sn_high_water_seq (snapshot s)) = value after + Z.of_nat (length (replay s)).
Proof.
  unfold prepare_replay. set (hw := sn_high_water_seq (snapshot s)).
  destruct (bool_decide _ || bool_decide _ || _); [done|].
  destruct (check_replay sid hw after (replay s)) as [last|] eqn:Ec; simpl; [|done].
  apply check_replay_spec in Ec as [Hn Hl]. case_bool_decide as El; [done|]. subst last.
  unfold serialize_or. destruct (serialize_bounded (ReplayBegin _ _ _)) as [t1|] eqn:E1; simpl; [|done].
  destruct (serialize_events (replay s)) as [ts|] eqn:Es; simpl; [|done].
  destruct (serialize_bounded (FSnapshot _ _)) as [t2|] eqn:E2; simpl; [|done].
  destruct (serialize_bounded (ReplayEnd _ _)) as [t3|] eqn:E3; simpl; [|done]. intros [= <-].
  apply serialize_events_spec in Es. split; [|done]. unfold stream_frames. fold hw. simpl.
  rewrite !map_app, map_map, Es. simpl. by rewrite E2, E3.
Qed.

Lemma send_replay_spec frames script sent r : send_replay frames script = (sent, r) ->
  existsb is_close sent = false /\ texts sent `prefix_of` frames /\ (r = Some (Ok tt) -> texts sent = frames).
Proof.
  revert script sent r. induction frames as [|f frames IH]; intros script sent r; simpl.
  - intros [= <- <-]. done.
  - destruct script as [|[check written] script]; [intros [= <- <-]; split; [done|]; split; [apply prefix_nil|done]|].
    destruct (connection_outcome check); [intros [= <- <-]; split; [done|]; split; [apply prefix_nil|done]|].
    destruct written; [|intros [= <- <-]; split; [done|]; split; [apply prefix_nil|done]].
    destruct (send_replay frames script) as [sent' r'] eqn:E. intros [= <- <-]. destruct (IH _ _ _ E) as (H1 & H2 & H3).
    split; [done|]. split; [by apply prefix_cons|]. intros Hr. simpl. f_equal. by apply H3.
Qed.

Lemma live_frame_spec sid last e t : live_frame sid last e = Some t ->
  serialize_bounded (FEvent e) = Some t /\ value (ev_seq e) = value last + 1 /\ ev_schema_version e = 1 /\ ev_session_id e = sid.
Proof.
  unfold live_frame. destruct (checked_next last) as [next|] eqn:En; [|done]. apply checked_next_Ok in En as [En _].
  destruct (Z.eqb_spec (ev_schema_version e) 1); [|done]. simpl. case_bool_decide as E1; [done|]. simpl.
  case_bool_decide as E2; [done|]. simpl. intros Ht. by rewrite E2, En.
Qed.

Lemma live_loop_spec script sid last sent r : live_loop script sid last = (sent, r) ->
  existsb is_close sent = false /\ exists live, numbered sid (value last) live /\
  map Some (texts sent) = map (fun e => serialize_bounded (FEvent e)) live.
Proof.
  revert last sent r. induction script as [|t script IH]; intros last sent r; simpl.
  { intros [= <- <-]. split; [done|]. exists []. split; [apply numbered_nil|done]. }
  assert (Hnil : forall o, ([], o) = (sent, r) -> existsb is_close sent = false /\ exists live, numbered sid (value last) live /\
    map Some (texts sent) = map (fun e => serialize_bounded (FEvent e)) live).
  { intros o [= <- <-]. split; [done|]. exists []. split; [apply numbered_nil|done]. }
  destruct (connection_outcome (lt_check t)); [apply Hnil|].
  destruct (lt_ping_due t).
  { destruct (lt_written t); [|apply Hnil]. destruct (live_loop script sid last) as [sent' r'] eqn:E. intros [= <- <-].
    exact (IH _ _ _ E). }
  destruct (lt_received t) as [e|[| | |]]; [|by apply IH|apply Hnil..].
  destruct (live_frame sid last e) as [frame|] eqn:Ef; [|apply Hnil]. apply live_frame_spec in Ef as (E1 & E2 & E3 & E4).
  destruct (connection_outcome (lt_check_send t)); [apply Hnil|]. destruct (lt_written t); [|apply Hnil].
  destruct (live_loop script sid (ev_seq e)) as [sent' r'] eqn:E. intros [= <- <-].
  destruct (IH _ _ _ E) as (Hc & live & Hn & Ht). split; [done|]. exists (e :: live). rewrite numbered_cons, <- E2.
  split; [done|]. simpl. by rewrite E1, Ht.
Qed.

(** C22: A stream shows the client its session without gap, repetition or reordering, whatever the
    client, the timers, the writes and the live queue do: the texts written are a prefix of the begin
    mark, the replayed events, the snapshot, the end mark and then live events, all serialized within
    the frame limit, and the replayed and live events are of the requested session and numbered
    consecutively from the one after the client's cursor. *)
Theorem stream_is_gap_free sid after s replay_script live_script sent r :
  stream_subscription sid after s replay_script live_script = (sent, r) ->
  existsb is_close sent = false /\
  (sent = [] \/ exists live, numbered sid (value after) (replay s ++ live) /\
     map Some (texts sent) `prefix_of` map serialize_bounded (stream_frames sid after s live)).
Proof.
  unfold stream_subscription. destruct (prepare_replay _ _ _ _) as [frames|e] eqn:Ep; [|intros [= <- <-]; auto].
  apply prepare_replay_spec in Ep as (Hf & Hn & Hhw).
  destruct (send_replay frames replay_script) as [sent0 r0] eqn:Es. destruct (send_replay_spec _ _ _ _ Es) as (Hc & Hp & Hall).
  assert (Hpart : existsb is_close sent0 = false /\ (sent0 = [] \/ exists live, numbered sid (value after) (replay s ++ live) /\
     map Some (texts sent0) `prefix_of` map serialize_bounded (stream_frames sid after s live))).
  { split; [done|]. right. exists []. rewrite app_nil_r. split; [done|]. rewrite <- Hf.
    destruct Hp as [k Hk]. rewrite Hk, map_app. by exists (map Some k). }
  destruct r0 as [[[]|o]|]; [|by intros [= <- <-]..].
  destruct (live_loop live_script sid _) as [sent1 r1] eqn:El. intros [= <- <-].
  destruct (live_loop_spec _ _ _ _ _ El) as (Hc1 & live & Hn1 & Ht1).
  split; [by rewrite existsb_app, Hc, Hc1|]. right. exists live. split.
  - apply numbered_app; [done|]. by rewrite <- Hhw.
  - unfold texts. rewrite omap_app. fold (texts sent0) (texts sent1). rewrite map_app, (Hall eq_refl), Hf, Ht1.
    rewrite (stream_frames_live sid after s live), map_app, map_map. done.
Qed.

(** ** Endings *)

(** What a connection may write last: nothing, the shutdown close, or one error with its close. *)
Inductive ending (auth_valid : bool) : list ServerFrame -> Prop :=
| end_nothing : ending auth_valid []
| end_shutdown : ending auth_valid [SClose 1012 "server_shutdown"]
| end_error e text closed :
    serialize e = Some text -> close_code e = 1008 \/ close_code e = 1013 ->
    (auth_valid = false -> e = authentication_expired) ->
    ending auth_valid (SText text :: send_close (close_code e) (ae_code e) closed).

Definition policy_or_retry (e : ApplicationError) : Prop := close_code e = 1008 \/ close_code e = 1013.

Lemma send_error_ending e t : policy_or_retry e -> (ck_auth_valid (ft_check t) = false -> e = authentication_expired) ->
  ending (ck_auth_valid (ft_check t)) (send_error e t).
Proof.
  intros Hp Ha. unfold send_error. destruct (serialize e) as [text|] eqn:Es; [|constructor].
  destruct (ft_text t); [|constructor]. by apply end_error.
Qed.

Lemma shutdown_ending b w : ending b (send_close 1012 "server_shutdown" w).
Proof. destruct w; constructor. Qed.

Lemma before_ending e t : policy_or_retry e -> ending (ck_auth_valid (ft_check t)) (fail_before_subscription e t).
Proof.
  intros Hp. unfold fail_before_subscription. destruct (ck_auth_valid (ft_check t)) eqn:Ea; simpl.
  - destruct (ck_running _); simpl; [|apply shutdown_ending]. rewrite <- Ea. apply send_error_ending; [done|congruence].
  - rewrite <- Ea. apply send_error_ending; [by left|done].
Qed.

Lemma finish_ending o t : (forall e, o = Failed e -> policy_or_retry e) ->
  ending (ck_auth_valid (ft_check t)) (finish_stream_outcome o t).
Proof.
  intros Hp. destruct o as [| | |e]; simpl; [constructor|constructor|apply shutdown_ending|]. specialize (Hp e eq_refl).
  unfold fail_after_subscription.
  assert (Hgo : ending (ck_auth_valid (ft_check t))
    (if negb (ck_auth_valid (ft_check t)) then send_error authentication_expired t
     else if negb (ck_running (ft_check t)) then send_close 1012 "server_shutdown" (ft_close t)
     else if bool_decide (ft_control_again t = ProtocolErrorC) then send_error protocol_error t else send_error e t)).
  { destruct (ck_auth_valid (ft_check t)) eqn:Ea; simpl.
    - destruct (ck_running _); simpl; [|apply shutdown_ending].
      case_bool_decide; rewrite <- Ea; (apply send_error_ending; [try by left|congruence]); done.
    - rewrite <- Ea. apply send_error_ending; [by left|done]. }
  destruct (ck_control (ft_check t)); [exact Hgo|constructor|exact Hgo|constructor].
Qed.

Lemma outcome_kind c e : connection_outcome c = Some (Failed e) -> policy_or_retry e.
Proof.
  unfold connection_outcome. destruct (ck_control c); try done; [|intros [= <-]; by left].
  destruct (negb _); [intros [= <-]; by left|]. by destruct (negb _).
Qed.

Lemma from_subscribe_kind e : policy_or_retry (from_subscribe e).
Proof. unfold from_subscribe. destruct (sse_category e); [left|left|left|right|right]; done. Qed.

Lemma receive_kind script e : receive_subscribe script = Some (IFailed e) -> policy_or_retry e.
Proof.
  induction script as [|t script IH]; simpl; [done|]. destruct (negb _); [intros [= <-]; by left|].
  destruct (negb _); [done|]. destruct (it_event t) as [| |[[[text| | | |]|]|]]; try done; try (intros [= <-]; by left).
  unfold decode_subscribe. destruct (_ <? _); [intros [= <-]; by left|].
  destruct (client_frame_from_str text) as [[v s a]|]; [|intros [= <-]; by left].
  destruct (negb _); [intros [= <-]; by left|done].
Qed.

Lemma await_kind script o e : await_subscription script = Some (Err o) -> o = Failed e -> policy_or_retry e.
Proof.
  induction script as [|t script IH]; simpl; [done|].
  destruct (connection_outcome (aw_check t)) as [o'|] eqn:E1; [intros [= <-] ->; by eapply outcome_kind|].
  destruct (aw_event t) as [|[[sub|err]|]]; [exact IH|..];
    (destruct (connection_outcome (aw_check_done t)) as [o'|] eqn:E2; [intros [= <-] ->; by eapply outcome_kind|]);
    [done|intros [= <-] [= <-]; apply from_subscribe_kind|intros [= <-] [= <-]; by right].
Qed.

Lemma prepare_kind sid after hw s e : prepare_replay sid after hw s = Err e -> e = stream_unavailable.
Proof.
  assert (Hc : forall l x, check_replay sid hw x l = Err e -> e = stream_unavailable).
  { induction l as [|v l IH]; intros x; simpl; [done|]. destruct (checked_next x); simpl; [|congruence].
    destruct (negb _ || _ || _ || _); [congruence|apply IH]. }
  assert (Hs : forall f, serialize_or f = Err e -> e = stream_unavailable).
  { intros f. unfold serialize_or. destruct (serialize_bounded f); simpl; congruence. }
  assert (He : forall l, serialize_events l = Err e -> e = stream_unavailable).
  { induction l as [|v l IH]; simpl; [done|]. destruct (serialize_or (FEvent v)) eqn:E; simpl; [|intros [= <-]; by eapply Hs].
    destruct (serialize_events l); simpl; [done|]. intros [= <-]. by apply IH. }
  unfold prepare_replay. destruct (_ || _); [congruence|].
  destruct (check_replay _ _ _ _) eqn:E; simpl; [|intros [= <-]; by eapply Hc]. destruct (bool_decide _); [congruence|].
  destruct (serialize_or (ReplayBegin _ _ _)) eqn:E1; simpl; [|intros [= <-]; by eapply Hs].
  destruct (serialize_events _) eqn:E2; simpl; [|intros [= <-]; by eapply He].
  destruct (serialize_or (FSnapshot _ _)) eqn:E3; simpl; [|intros [= <-]; by eapply Hs].
  destruct (serialize_or (ReplayEnd _ _)) eqn:E4; simpl; [done|intros [= <-]; by eapply Hs].
Qed.

Lemma send_replay_kind frames script sent e : send_replay frames script = (sent, Some (Err (Failed e))) -> policy_or_retry e.
Proof.
  revert script sent. induction frames as [|f frames IH]; intros [|[c w] script] sent; simpl; try done.
  destruct (connection_outcome c) as [o|] eqn:Ec; [intros [= _ ->]; by eapply outcome_kind|]. destruct w; [|done].
  destruct (send_replay frames script) as [sent' r] eqn:E. intros [= _ ->]. by eapply IH.
Qed.

Lemma live_kind script sid last sent e : live_loop script sid last = (sent, Some (Failed e)) -> policy_or_retry e.
Proof.
  revert last sent. induction script as [|t script IH]; intros last sent; simpl; [done|].
  destruct (connection_outcome (lt_check t)) as [o|] eqn:Ec; [intros [= _ ->]; by eapply outcome_kind|].
  destruct (lt_ping_due t).
  { destruct (lt_written t); [|done]. destruct (live_loop script sid last) as [sent' r] eqn:E. intros [= _ ->]. by eapply IH. }
  destruct (lt_received t) as [v|[| | |]]; [|by apply IH|intros [= _ <-]; by right..].
  destruct (live_frame sid last v); [|intros [= _ <-]; by right].
  destruct (connection_outcome (lt_check_send t)) as [o|] eqn:Ec'; [intros [= _ ->]; by eapply outcome_kind|].
  destruct (lt_written t); [|done]. destruct (live_loop script sid (ev_seq v)) as [sent' r] eqn:E. intros [= _ ->]. by eapply IH.
Qed.

Lemma stream_kind sid after s rs ls sent o e : stream_subscription sid after s rs ls = (sent, Some o) -> o = Failed e -> policy_or_retry e.
Proof.
  unfold stream_subscription. destruct (prepare_replay _ _ _ _) eqn:Ep; [|intros [= _ <-] [= <-]; apply prepare_kind in Ep as ->; by right].
  destruct (send_replay _ rs) as [sent0 [[[]|o0]|]] eqn:Es; [|intros [= _ <-] ->; by eapply send_replay_kind|done].
  destruct (live_loop ls sid _) as [sent1 r1] eqn:El. intros [= _ ->] ->. by eapply live_kind.
Qed.

Lemma stream_no_close sid after s rs ls sent r : stream_subscription sid after s rs ls = (sent, r) -> existsb is_close sent = false.
Proof.
  unfold stream_subscription. destruct (prepare_replay _ _ _ _); [|by intros [= <- <-]].
  destruct (send_replay _ rs) as [sent0 r0] eqn:Es. apply send_replay_spec in Es as (Hc & _).
  destruct r0 as [[[]|o]|]; [|by intros [= <- <-]..]. destruct (live_loop ls sid _) as [sent1 r1] eqn:El.
  apply live_loop_spec in El as (Hc1 & _). intros [= <- <-]. by rewrite existsb_app, Hc, Hc1.
Qed.

(** A connection is closed once and says why: whatever happens on it, while it is open no close is
    written; when it has ended, what was written is data without a close followed by nothing, by the
    shutdown close 1012, or by one error within the frame limit and at most the close that carries the
    error's own code, 1008 or 1013; and if the session is no longer valid then, the error is
    [authentication_expired]. *)
Theorem connection_ends_with_one_close sc frames ended :
  run_socket sc = (frames, ended) ->
  if ended then exists data tail, frames = data ++ tail /\ existsb is_close data = false /\
                  ending (ck_auth_valid (ft_check (sc_finish sc))) tail
  else existsb is_close frames = false.
Proof.
  unfold run_socket. destruct (receive_subscribe (sc_initial sc)) as [o|] eqn:Er; [|by intros [= <- <-]].
  assert (Hend : forall tail, ending (ck_auth_valid (ft_check (sc_finish sc))) tail ->
    exists data tail', tail = data ++ tail' /\ existsb is_close data = false /\ ending (ck_auth_valid (ft_check (sc_finish sc))) tail')
    by (intros tail Ht; by exists [], tail).
  destruct o as [request| | | |e]; [|intros [= <- <-]..]; try (apply Hend; constructor).
  2: apply Hend, shutdown_ending. 2: apply Hend, before_ending; by eapply receive_kind.
  destruct (await_subscription (sc_await sc)) as [[sub|o]|] eqn:Ea; [|intros [= <- <-]|by intros [= <- <-]].
  2: apply Hend, finish_ending; intros e ->; by eapply await_kind.
  destruct (stream_subscription _ _ sub _ _) as [sent [o|]] eqn:Es; intros [= <- <-]; apply stream_no_close in Es as Hc; [|done].
  exists sent, (finish_stream_outcome o (sc_finish sc)). split; [done|]. split; [done|]. apply finish_ending.
  intros e ->. by eapply stream_kind.
Qed.
End Claims.

(** ** A concrete connection *)
Module StreamWitness.
#[local] Instance json : FrameJson :=
  {| frame_to_vec := fun f => Some match f with ReplayBegin _ _ _ => "begin" | FEvent _ => "event" | FSnapshot _ _ => "snapshot" | ReplayEnd _ _ => "end" end;
     error_frame_to_vec := fun e => Some (ef_code e);
     client_frame_from_str := fun _ => Some (Subscribe 1 (mkId 7) (mkSeq 0)) |}.

Definition event (n : Z) : P0SessionEventEnvelope :=
  {| ev_schema_version := 1; ev_session_id := mkId 7; ev_seq := mkSeq n; ev_turn_id := None; ev_payload := TurnAccepted |}.
Definition shown : P0SessionSnapshot :=
  {| sn_identity := {| SessionTypes.session_id := mkId 7; instance_id := mkInstance 8 |}; sn_state := SReady;
     sn_current_turn := None; sn_high_water_seq := mkSeq 1 |}.
Definition good : Check := mkCheck Open true true.
Definition expired : Check := mkCheck Open false true.
Definition sub : SessionSubscription := mkSubscription [event 1] shown.
Definition live : list LiveTurn :=
  [mkLive good false (Ok (event 2)) good true; mkLive good true (Err WebSocket.Empty) good true; mkLive expired false (Err WebSocket.Empty) good true].
Definition script : Script :=
  mkScript [mkInitial true true (Received (Ok (Some (CText "subscribe"))))]
    [mkAwait good (AwaitDone (Some (Ok sub))) good] (replicate 4 (good, true)) live (mkFinish expired Open true true).
Definition written : list ServerFrame :=
  [SText "begin"; SText "event"; SText "snapshot"; SText "end"; SText "event"; SPing].
End StreamWitness.

Lemma stream_is_gap_free_witness :
  exists live, numbered (mkId 7) 0 ([StreamWitness.event 1] ++ live).
Proof.
  destruct (@stream_is_gap_free StreamWitness.json (mkId 7) (mkSeq 0) StreamWitness.sub (replicate 4 (StreamWitness.good, true))
    StreamWitness.live StreamWitness.written (Some (Failed authentication_expired)) ltac:(vm_compute; reflexivity)) as (_ & [E|(live & Hn & _)]).
  - discriminate E.
  - exists live. exact Hn.
Defined.

Lemma connection_ends_with_one_close_witness : exists data tail,
  StreamWitness.written ++ [SText "authentication_expired"; SClose 1008 "authentication_expired"] = data ++ tail /\
  existsb is_close data = false.
Proof.
  destruct (@connection_ends_with_one_close StreamWitness.json StreamWitness.script _ true ltac:(vm_compute; reflexivity))
    as (data & tail & E & Hc & _).
  exists data, tail. split; [exact E|exact Hc].
Defined.
