(* ===== verification/StreamSession.v ===== *)
(** * The stream over the session runtime

    The session stream of [WebSocket] on top of the session of [SessionSystem]: in every reachable
    state of the session, what it gives a stream is what the stream accepts. *)
From S2P Require Import Prelude DomainValues CloudTypes SessionTypes SessionRuntime SessionLog SessionSystem SessionClaims WebSocket WebSocketClaims.
From stdpp Require Import base numbers list gmap strings sets.
From Stdlib Require Import ZArith Lia.
Import Ids Seqs.

Open Scope Z_scope.

(** [ConcreteSessionPort::subscribe]: the parts of the subscription; the live receiver is [sub_live]. *)
Definition port_subscribe (i : Inner) (sid : SessionId) (after : EventSeq) (w : World)
  : World * result SessionSubscribeError (SessionSubscription * Z) :=
  match subscribe i sid after w with
  | (w, Ok s) => (w, Ok (mkSubscription (sub_replay s) (sub_snapshot s), sub_live s))
  | (w, Err e) => (w, Err (from_session e))
  end.

(** [ConcreteLiveReceiver::try_recv]. *)
Definition port_try_recv (id : Z) (w : World) : World * result LiveEventError P0SessionEventEnvelope :=
  match try_recv id w with (w, r) => (w, map_err from_live r) end.

(** A part of the log is numbered. *)
Lemma log_numbered i d w (n : nat) : LogInv i d w -> (n <= length (log w))%nat ->
  numbered (SessionTypes.session_id (identity i)) (Z.of_nat n) (drop n (log w)).
Proof.
  intros [] Hn. split.
  - rewrite (seqs_drop (log w) 1 n li_seqs). unfold len. f_equal. lia.
  - apply Forall_drop. exact li_envelopes.
Qed.

Lemma numbered_lookup sid a l (k : nat) e : numbered sid a l -> l !! k = Some e ->
  value (ev_seq e) = a + Z.of_nat k + 1 /\ ev_schema_version e = 1 /\ ev_session_id e = sid.
Proof.
  revert a k. induction l as [|x l IH]; intros a [|k]; simpl; try done; rewrite numbered_cons; intros (H1 & H2 & H3 & H4).
  - intros [= <-]. split; [lia|done].
  - intros Hk. destruct (IH (a + 1) k H4 Hk) as (E & ?). split; [lia|done].
Qed.

Section Claims.
Context `{FrameJson}.

Lemma serialize_events_total l :
  (forall e, e ∈ l -> serialize_bounded (FEvent e) <> None) -> exists frames, serialize_events l = Ok frames.
Proof.
  induction l as [|e l IH]; intros Hl; simpl; [eauto|]. unfold serialize_or.
  destruct (serialize_bounded (FEvent e)) as [t|] eqn:E; [|destruct (Hl e); [left|done]]. simpl.
  destruct IH as [frames ->]; [intros e' He'; apply Hl; by right|]. simpl. eauto.
Qed.

Lemma serialize_or_total f : serialize_bounded f <> None -> exists t, serialize_or f = Ok t.
Proof. unfold serialize_or. destruct (serialize_bounded f); [simpl; eauto|done]. Qed.

Lemma prepare_replay_total sid after s :
  SessionTypes.session_id (sn_identity (WebSocket.snapshot s)) = sid ->
  numbered sid (value after) (replay s) -> 0 <= value after ->
  value (sn_high_water_seq (WebSocket.snapshot s)) = value after + Z.of_nat (length (replay s)) ->
  value (sn_high_water_seq (WebSocket.snapshot s)) <= u64_max ->
  (forall f, f ∈ stream_frames sid after s [] -> serialize_bounded f <> None) ->
  exists frames, prepare_replay sid after (sn_high_water_seq (WebSocket.snapshot s)) s = Ok frames.
Proof.
  intros Hsid Hn Ha Hhw Hmax Hser. unfold prepare_replay. rewrite bool_decide_false by tauto. simpl.
  rewrite bool_decide_false by tauto. simpl. rewrite (proj2 (Z.ltb_ge _ _)) by lia.
  rewrite check_replay_complete by (done || lia). simpl. rewrite <- Hhw.
  assert (mkSeq (value (sn_high_water_seq (WebSocket.snapshot s))) = sn_high_water_seq (WebSocket.snapshot s)) as -> by (by destruct (sn_high_water_seq _)).
  rewrite bool_decide_false by tauto. unfold stream_frames in Hser. simpl in Hser.
  destruct (serialize_or_total (ReplayBegin sid after (sn_high_water_seq (WebSocket.snapshot s)))) as [t1 ->]; [apply Hser; left|].
  destruct (serialize_events_total (replay s)) as [ts ->].
  { intros e He. apply Hser. right. apply elem_of_app. left. apply list_elem_of_In, in_map, list_elem_of_In. done. }
  destruct (serialize_or_total (FSnapshot (WebSocket.snapshot s) (sn_high_water_seq (WebSocket.snapshot s)))) as [t2 ->].
  { apply Hser. right. apply elem_of_app. right. left. }
  destruct (serialize_or_total (ReplayEnd sid (sn_high_water_seq (WebSocket.snapshot s)))) as [t3 ->].
  { apply Hser. right. apply elem_of_app. right. right. left. }
  simpl. eauto.
Qed.

(** C14: The session never gives a stream what the stream would refuse.  In every reachable state of
    the session: a subscription it accepts passes the replay check of the stream, which can then only
    fail if a frame exceeds the limit; and an event received from a live queue, at whatever moment,
    continues the numbering of what that subscriber was handed before, so the stream forwards it.
    The stream's [stream_unavailable] for a wrong event is unreachable over this session. *)
Theorem session_never_breaks_its_stream i y (Hv : valid_config (config i)) (Hy : reachable i y) :
  (forall sid after w s live, 0 <= value after -> port_subscribe i sid after (world y) = (w, Ok (s, live)) ->
     (forall f, f ∈ stream_frames sid after s [] -> serialize_bounded f <> None) ->
     exists frames, prepare_replay sid after (sn_high_water_seq (WebSocket.snapshot s)) s = Ok frames) /\
  (forall id cur got w e, deliveries y !! id = Some (cur, got) -> port_try_recv id (world y) = (w, Ok e) ->
     live_frame (SessionTypes.session_id (identity i)) (mkSeq (cur + Z.of_nat (length got))) e = serialize_bounded (FEvent e)).
Proof.
  pose proof (reachable_LogInv i y Hv Hy) as HI. split.
  - intros sid after w s live Ha Hp Hser. unfold port_subscribe in Hp.
    destruct (subscribe i sid after (world y)) as [w' [s0|]] eqn:Es; [|done]. injection Hp as <- <- <-.
    assert (Hsid : sid = SessionTypes.session_id (identity i)).
    { unfold subscribe in Es. case_bool_decide as E; [done|]. exact E. }
    pose proof (subscribe_inv i _ _ sid after _ _ Hv HI Ha Es) as (Hr & Hs & Hle & _).
    apply prepare_replay_total; cbn [replay WebSocket.snapshot]; rewrite ?Hs, ?Hr; try done.
    + rewrite Hsid. replace (value after) with (Z.of_nat (Z.to_nat (value after))) at 1 by lia.
      eapply log_numbered; [exact HI|]. unfold len in Hle. lia.
    + cbn. rewrite (li_high_water _ _ _ HI), length_drop. unfold len in *. lia.
    + cbn. rewrite (li_high_water _ _ _ HI). apply (li_bound _ _ _ HI).
    + by rewrite <- Hr, <- Hs.
  - intros id cur got w e Hd Hrecv. unfold port_try_recv in Hrecv.
    destruct (try_recv id (world y)) as [w' r] eqn:Er. injection Hrecv as <- Hr. destruct r as [e'|]; [|done]. injection Hr as ->.
    unfold try_recv in Er. destruct (heap (world y) !! id) as [c|] eqn:Eh; [|done].
    destruct (queue c) as [|e0 rest] eqn:Eq; [done|]. injection Er as <- ->.
    destruct (li_chan _ _ _ HI id c cur got Eh Hd) as (Hcur & _ & Hpre & _). rewrite Eq in Hpre.
    pose proof (log_numbered i _ _ (Z.to_nat cur) HI ltac:(unfold len in Hcur; lia)) as Hn.
    rewrite Z2Nat.id in Hn by lia.
    assert (Hk : drop (Z.to_nat cur) (log (world y)) !! length got = Some e).
    { destruct Hpre as [k ->]. rewrite <- app_assoc. rewrite lookup_app_r, Nat.sub_diag by lia. done. }
    destruct (numbered_lookup _ _ _ _ _ Hn Hk) as (E1 & E2 & E3).
    assert (Hmax : value (ev_seq e) <= u64_max).
    { pose proof (li_bound _ _ _ HI). apply lookup_lt_Some in Hk. rewrite length_drop in Hk. unfold len in *. lia. }
    unfold live_frame, checked_next, u64_checked_add. cbn [value]. rewrite (proj2 (Z.leb_le _ _)) by lia. simpl.
    rewrite E2. simpl. rewrite bool_decide_false by tauto. simpl. rewrite bool_decide_false; [done|].
    intros Hne. apply Hne. destruct (ev_seq e). simpl in *. f_equal. lia.
Qed.
End Claims.

(** The demonstration session: its second event waits in the queue of subscriber 1. *)
Lemma session_never_breaks_its_stream_witness : exists w e,
  port_try_recv 1 (world demo_state) = (w, Ok e) /\
  live_frame (H := StreamWitness.json) (mkId 7) (mkSeq (demo_delivery.1 + Z.of_nat (length demo_delivery.2))) e
  = serialize_bounded (H := StreamWitness.json) (FEvent e).
Proof.
  destruct (port_try_recv 1 (world demo_state)) as [w [e|]] eqn:E; [|vm_compute in E; discriminate].
  exists w, e. split; [reflexivity|].
  refine (proj2 (@session_never_breaks_its_stream StreamWitness.json demo_inner demo_state demo_valid demo_state_reachable)
    1 demo_delivery.1 demo_delivery.2 w e _ E).
  vm_compute. reflexivity.
Defined.
