(* ===== verification/EntryPoint.v ===== *)
(** * Start-up and the web page

    Models [main.rs] of the control plane: the program composed from its environment variables, in the
    order the code does it, and what it does when it ends; and [web.rs], the four embedded files with
    their security headers.

    The composed state is the host of P0System.v, on which the session runtime is started, with the
    ledger of the login broker beside it.  Environment variables, the file system at the two
    validations, the parsers of URLs, paths and socket addresses, the drawn identities and the answers
    of the system are inputs. *)
From S2P Require Import Prelude Effects DomainValues CloudTypes SessionTypes SessionRuntime SessionSystem CloudAdapter LoginTypes CloudRunner RunnerSafety Orchestrator P0System LoginLedger LoginBroker Scope HttpTypes Idempotency HttpConfig AppSessions AppSessionClaims Shutdown Routes RouteClaims LoginPort RunnerClaims OrchestratorClaims P0Claims.
From stdpp Require Import base numbers list strings gmap.
From Stdlib Require Import ZArith Lia.
Import Ids.

Open Scope Z_scope.

Module Main.

(** [env::var], which is [None] for a variable that is missing or not Unicode, and [env::var_os] as a
    path. *)
Record Environment := mkEnv { var : string -> option string; var_os : string -> option Scope.Path }.

Definition required_text (env : Environment) (name : string) : result unit string := ok_or (var env name) tt.
Definition required_path (env : Environment) (name : string) : result unit Scope.Path := ok_or (var_os env name) tt.

(** [map_err(|_| ())] *)
Definition discard {E A} (r : result E A) : result unit A := map_err (fun _ => tt) r.

(** What the parsers of other crates and the system answer during a start. *)
Record Inputs (Addr : Type) := mkInputs {
  in_uid : Z;
  in_fs_login : Scope.Fs; in_fs_cloud : Scope.Fs;
  in_parse_url : string -> option Url;
  in_parse_addr : string -> option Addr;
  in_identity : P0SessionIdentity; in_now : Z; in_turn : TurnId; in_os : Os }.
Arguments in_uid {Addr}. Arguments in_fs_login {Addr}. Arguments in_fs_cloud {Addr}.
Arguments in_parse_url {Addr}. Arguments in_parse_addr {Addr}. Arguments in_identity {Addr}.
Arguments in_now {Addr}. Arguments in_turn {Addr}. Arguments in_os {Addr}.

(** The components a start composes. *)
Record Built (Addr : Type) := mkBuilt {
  b_login_scope : Scope.CredentialScope;
  b_cloud_scope : Scope.CredentialScope;
  b_runner : Runner.Config;
  b_http : P0HttpConfig;
  b_listen : Addr }.
Arguments mkBuilt {Addr}. Arguments b_login_scope {Addr}. Arguments b_cloud_scope {Addr}.
Arguments b_runner {Addr}. Arguments b_http {Addr}. Arguments b_listen {Addr}.

Section Main.
Context (from_slice : string -> option RawTaskListPage) {Addr : Type}.

(** The four paths, in the order they are read. *)
Definition scope_config (env : Environment) : result unit Scope.CredentialScopeConfig :=
  let? executable := required_path env "CODEBOX_CODEX_EXECUTABLE" in
  let? codex_home := required_path env "CODEBOX_CODEX_HOME" in
  let? state_dir := required_path env "CODEBOX_STATE_DIR" in
  let? working_dir := required_path env "CODEBOX_WORKING_DIR" in
  Ok (Scope.mkScopeConfig executable codex_home state_dir working_dir).

(** Everything before the first component is started. *)
Definition validated (env : Environment) (i : Inputs Addr)
  : result unit (Scope.CredentialScope * Scope.CredentialScope * Runner.Config) :=
  let? config := scope_config env in
  let? login_scope := discard (Scope.validate_scope (in_fs_login i) config (in_uid i)) in
  let? cloud_scope := discard (Scope.validate_scope (in_fs_cloud i) config (in_uid i)) in
  let? text := required_text env "CODEBOX_CLOUD_ENVIRONMENT" in
  let? environment := discard (CloudEnvironmentId_try_new text) in
  let? text := required_text env "CODEBOX_CLOUD_BRANCH" in
  let? branch := discard (CloudBranch_try_new text) in
  Ok (login_scope, cloud_scope, Runner.mkConfig environment branch (Scope.runner_uid cloud_scope)).

(** The HTTP side, read after the session runtime was started. *)
Definition http_config (env : Environment) (i : Inputs Addr) : result unit P0HttpConfig :=
  let? text := required_text env "CODEBOX_PUBLIC_ORIGIN" in
  let? origin := discard (P0PublicOrigin_try_new (in_parse_url i) text) in
  let? text := required_text env "CODEBOX_BOOTSTRAP_TOKEN" in
  let? token := discard (OperatorBootstrapToken_try_new text) in
  let http := P0HttpConfig_new origin token in
  match var env "CODEBOX_APP_SESSION_SECONDS" with
  | None => Ok http
  | Some text =>
      let? seconds := ok_or (parse_usize text) tt in
      discard (try_with_session_lifetime http (from_secs seconds))
  end.

(** [build_control_plane]: an orchestrator or a session that cannot be made leaves no process on the
    host, and a failure after the session was started drops it. *)
Definition build_control_plane (env : Environment) (i : Inputs Addr) (s : P0System)
  : P0System * result unit (Built Addr) :=
  match validated env i with
  | Err e => (s, Err e)
  | Ok (login_scope, cloud_scope, runner) =>
      let session := SessionRuntime.Build_Inner config_default (in_identity i) in
      let s := boot_step from_slice runner session (in_now i) (in_turn i) (in_os i) s in
      if bool_decide (is_Some (proc s)) then
        match (let? http := http_config env i in
               let? text := required_text env "CODEBOX_LISTEN_ADDRESS" in
               let? listen := ok_or (in_parse_addr i text) tt in
               Ok (mkBuilt login_scope cloud_scope runner http listen)) with
        | Ok built => (s, Ok built)
        | Err e => (with_proc None s, Err e)
        end
      else (s, Err tt)
  end.

(** [with_components]: the plane starts with empty registries, an idle broker on the ledger of the
    state directory, and the session. *)
Definition with_components {S} (ledger : Ledger.Host) (agenda : list Broker.Answers) (rest : Broker.Answers) (session : S)
  : Plane (ConcreteLoginPort * S) :=
  mkPlane Shutdown.lifecycle_default registry_empty Idem.registry_default
    (mkLoginPort (Ledger.with_active None ledger) false agenda rest, session).

(** ** [run] *)

(** What [run] does once the plane is built, and what it returns. *)
Inductive Action := Serve | ShutdownPlane.

Definition run (built bound : bool) (serve shutdown : result unit unit) : list Action * result unit unit :=
  if negb built then ([], Err tt)
  else if negb bound then ([ShutdownPlane], Err tt)
  else ([Serve; ShutdownPlane], let? _ := serve in shutdown).

Definition main (r : result unit unit) : Z := if is_ok r then 0 else 1.

(** ** What a start establishes *)

Lemma validate_scope_is fs config uid scope :
  Scope.validate_scope fs config uid = Ok scope -> scope = Scope.mkScope config uid.
Proof. unfold Scope.validate_scope. intros H. by repeat (case_match; simplify_eq/=). Qed.

Lemma validated_spec env i login_scope cloud_scope runner :
  validated env i = Ok (login_scope, cloud_scope, runner) ->
  (exists config, Scope.validate_scope (in_fs_login i) config (in_uid i) = Ok login_scope /\
     Scope.validate_scope (in_fs_cloud i) config (in_uid i) = Ok cloud_scope) /\
  login_scope = cloud_scope /\ Runner.cfg_uid runner = in_uid i /\ cfg_ok runner.
Proof.
  unfold validated, discard. intros H.
  destruct (scope_config env) as [config|]; [|done]. simpl in H.
  destruct (Scope.validate_scope (in_fs_login i) config (in_uid i)) as [s1|] eqn:E1; [|done]. simpl in H.
  destruct (Scope.validate_scope (in_fs_cloud i) config (in_uid i)) as [s2|] eqn:E2; [|done]. simpl in H.
  destruct (required_text env "CODEBOX_CLOUD_ENVIRONMENT") as [t1|]; [|done]. simpl in H.
  destruct (CloudEnvironmentId_try_new t1) as [e|] eqn:Ee; [|done]. simpl in H.
  destruct (required_text env "CODEBOX_CLOUD_BRANCH") as [t2|]; [|done]. simpl in H.
  destruct (CloudBranch_try_new t2) as [br|] eqn:Eb; simplify_eq/=.
  pose proof (validate_scope_is _ _ _ _ E1) as ->. pose proof (validate_scope_is _ _ _ _ E2) as ->.
  split; [by exists config|]. split_and!; [done|done|].
  destruct (validated_names_are_stable _ _ _ _ Ee Eb) as (He & Hb & _). split; simpl; by rewrite ?He, ?Hb.
Qed.

Lemma http_config_spec env i http : http_config env i = Ok http ->
  (exists text, P0PublicOrigin_try_new (in_parse_url i) text = Ok (public_origin http)) /\
  (exists text, OperatorBootstrapToken_try_new text = Ok (cfg_bootstrap http)) /\
  MIN_SESSION_LIFETIME <= session_lifetime http <= MAX_SESSION_LIFETIME /\ session_lifetime http mod NANOS_PER_SEC = 0.
Proof.
  unfold http_config, discard. intros H.
  destruct (required_text env "CODEBOX_PUBLIC_ORIGIN") as [t1|]; [|done]. simpl in H.
  destruct (P0PublicOrigin_try_new (in_parse_url i) t1) as [o|] eqn:Eo; [|done]. simpl in H.
  destruct (required_text env "CODEBOX_BOOTSTRAP_TOKEN") as [t2|]; [|done]. simpl in H.
  destruct (OperatorBootstrapToken_try_new t2) as [tk|] eqn:Et; [|done]. simpl in H.
  destruct (var env "CODEBOX_APP_SESSION_SECONDS") as [t3|]; simplify_eq/=.
  - destruct (ok_or _ _) as [secs|]; [|done]. simpl in H. unfold try_with_session_lifetime in H.
    destruct (_ || _) eqn:Er; simplify_eq/=. apply orb_false_iff in Er as [Er1 Er2].
    apply negb_false_iff in Er1, Er2. unfold in_range in Er1. bool_to_prop. split_and!; eauto; lia.
  - split_and!; eauto; done.
Qed.

Lemma boot_inner runner j now turn os s p : proc (boot_step from_slice runner j now turn os s) = Some p -> inner p = j.
Proof.
  unfold boot_step. destruct (construct _ _ _) as [[r|e] [o w]|[o w]]; simpl; try done.
  destruct (sys_init j now turn r); simpl; [|done]. by intros [= <-].
Qed.

(** C8: a start that succeeds establishes what the other properties assume, and one that fails leaves
    nothing running.  When [build_control_plane] returns components, the environment and branch are
    the validated ones every Cloud command names; both scopes are the same validated scope; the
    session process was started on the host by one boot with a configuration in range; the origin
    and the bootstrap token passed their validators and the session lifetime is within five minutes
    and twelve hours, in whole seconds.  When it returns an error, no session process is left. *)
Theorem startup_establishes_assumptions env i s : proc s = None ->
  match build_control_plane env i s with
  | (s', Err _) => proc s' = None
  | (s', Ok b) =>
      let j := SessionRuntime.Build_Inner config_default (in_identity i) in
      p0_step from_slice (b_runner b) (PBoot j (in_now i) (in_turn i) (in_os i)) s = Some s' /\
      (exists p, proc s' = Some p /\ inner p = j /\ valid_config (SessionRuntime.config (inner p))) /\
      cfg_ok (b_runner b) /\ Runner.cfg_uid (b_runner b) = in_uid i /\
      b_login_scope b = b_cloud_scope b /\
      (exists config, Scope.validate_scope (in_fs_login i) config (in_uid i) = Ok (b_login_scope b) /\
         Scope.validate_scope (in_fs_cloud i) config (in_uid i) = Ok (b_cloud_scope b)) /\
      (exists text, P0PublicOrigin_try_new (in_parse_url i) text = Ok (public_origin (b_http b))) /\
      (exists text, OperatorBootstrapToken_try_new text = Ok (cfg_bootstrap (b_http b))) /\
      MIN_SESSION_LIFETIME <= session_lifetime (b_http b) <= MAX_SESSION_LIFETIME /\
      session_lifetime (b_http b) mod NANOS_PER_SEC = 0
  end.
Proof.
  intros Hs. unfold build_control_plane. destruct (validated env i) as [[[login cloud] runner]|e] eqn:Ev; [|done].
  apply validated_spec in Ev as (Hsc & -> & Hu & Hc). cbv zeta.
  set (j := SessionRuntime.Build_Inner _ _). set (s' := boot_step _ _ _ _ _ _ _).
  case_bool_decide as Ep; [|by destruct (proc s') eqn:E; [destruct Ep|]].
  destruct (http_config env i) as [http|] eqn:Eh; simpl; [|done]. apply http_config_spec in Eh as (Ho & Ht & Hl & Hm).
  destruct (required_text env "CODEBOX_LISTEN_ADDRESS") as [t|]; simpl; [|done].
  destruct (in_parse_addr i t) as [a|]; simpl; [|done]. rewrite Hs. destruct Ep as [p Ep].
  pose proof (boot_inner _ _ _ _ _ _ _ Ep) as Hj. split_and!; try done. all: try (by first [apply Hc|apply Hl]).
  exists p. rewrite Hj. by split_and!; try apply config_default_valid.
Qed.
End Main.
End Main.

(** ** The web page *)
Module Web.

(** [str::replacen(pattern, replacement, 1)] *)
Fixpoint replace_first (pattern replacement s : string) : string :=
  match CloudAdapter.strip_prefix pattern s with
  | Some r => replacement +:+ r
  | None => match s with EmptyString => EmptyString | String c s => String c (replace_first pattern replacement s) end
  end.

Definition websocket_origin (o : P0PublicOrigin) : string := replace_first "https://" "wss://" (origin_str o).

Section Web.
Context `{SerdeJson}.
(** [HeaderValue::from_str], and the contents of the files in [web/]. *)
Context (from_str : string -> option string) (INDEX_HTML APP_JS CLIENT_JS STYLE_CSS : string) (cfg : P0HttpConfig).

Definition asset_response (bytes content_type : string) : CachedResponse :=
  let csp := "default-src 'none'; script-src 'self'; style-src 'self'; connect-src 'self' "
    +:+ websocket_origin (public_origin cfg)
    +:+ "; img-src 'self'; base-uri 'none'; form-action 'none'; frame-ancestors 'none'; object-src 'none'" in
  match from_str csp with
  | None => response_error Api.service_unavailable
  | Some csp =>
      mkResponse OK
        [("content-type", content_type); ("cache-control", "no-store"); ("x-content-type-options", "nosniff");
         ("referrer-policy", "no-referrer"); ("x-frame-options", "DENY");
         ("cross-origin-opener-policy", "same-origin"); ("cross-origin-resource-policy", "same-origin");
         ("content-security-policy", csp)] bytes
  end.

Definition index : CachedResponse := asset_response INDEX_HTML "text/html; charset=utf-8".
Definition app : CachedResponse := asset_response APP_JS "text/javascript; charset=utf-8".
Definition client : CachedResponse := asset_response CLIENT_JS "text/javascript; charset=utf-8".
Definition style : CachedResponse := asset_response STYLE_CSS "text/css; charset=utf-8".

(** The four routes of the page. *)
Definition asset (path : string) : option CachedResponse :=
  if String.eqb path "/" then Some index
  else if String.eqb path "/assets/p0-app.js" then Some app
  else if String.eqb path "/assets/p0-client.js" then Some client
  else if String.eqb path "/assets/p0.css" then Some style
  else None.

(** The router sends exactly the paths of the assets here. *)
Lemma routed_assets path : router path GET = WebAsset <-> is_Some (asset path).
Proof.
  unfold router, on_get, on_post, asset. simpl.
  repeat match goal with |- context [String.eqb path ?r] => destruct (String.eqb_spec path r); [subst; simpl; split; intros H0; (done || by destruct H0)|] end.
  simpl. split; [done|]. by intros [].
Qed.
End Web.
End Web.

(** ** A concrete start *)
Module StartWitness.

Definition env : Main.Environment :=
  Main.mkEnv
    (fun name =>
       if String.eqb name "CODEBOX_CLOUD_ENVIRONMENT" then Some "prod"
       else if String.eqb name "CODEBOX_CLOUD_BRANCH" then Some "main"
       else if String.eqb name "CODEBOX_PUBLIC_ORIGIN" then Some "https://codebox.example"
       else if String.eqb name "CODEBOX_BOOTSTRAP_TOKEN" then Some "0123456789abcdef0123456789abcdef"
       else if String.eqb name "CODEBOX_APP_SESSION_SECONDS" then Some "3600"
       else if String.eqb name "CODEBOX_LISTEN_ADDRESS" then Some "127.0.0.1:8080"
       else None)
    (fun name =>
       if String.eqb name "CODEBOX_CODEX_EXECUTABLE" then Some (Scope.executable Scope.ScopeWitness.config)
       else if String.eqb name "CODEBOX_CODEX_HOME" then Some (Scope.codex_home Scope.ScopeWitness.config)
       else if String.eqb name "CODEBOX_STATE_DIR" then Some (Scope.state_dir Scope.ScopeWitness.config)
       else if String.eqb name "CODEBOX_WORKING_DIR" then Some (Scope.working_dir Scope.ScopeWitness.config)
       else None).

Definition inputs : Main.Inputs string :=
  Main.mkInputs string 1000 Scope.ScopeWitness.fs Scope.ScopeWitness.fs
    (fun text => Some (mkUrl "https" true "" None None None "/" (Some text))) Some
    (SessionRuntime.identity p0_inner) 0 (mkId 100) demo_os.

Definition started : P0System * result unit (Main.Built string) :=
  Main.build_control_plane demo_last_slice env inputs p0_init.
End StartWitness.

Lemma startup_establishes_assumptions_witness :
  exists b, StartWitness.started.2 = Ok b /\ cfg_ok (Main.b_runner b) /\ is_Some (proc StartWitness.started.1).
Proof.
  pose proof (Main.startup_establishes_assumptions demo_last_slice StartWitness.env StartWitness.inputs p0_init eq_refl) as H.
  destruct (Main.build_control_plane demo_last_slice StartWitness.env StartWitness.inputs p0_init) as [s' [b|e]] eqn:E.
  - exists b. unfold StartWitness.started. rewrite E. destruct H as (_ & (p & Hp & _) & Hc & _).
    split; [reflexivity|]. split; [exact Hc|]. exists p. exact Hp.
  - exfalso. revert E. vm_compute. discriminate.
Defined.
