(* ===== verification/Deployment.v ===== *)
(** * The deployed program: control plane, login broker and Cloud path

    Composes the handlers of Routes.v with the login port of LoginPort.v and, as the session port
    ([ConcreteSessionPort], ports.rs), the composed Cloud path of P0System.v.  Requests are handled
    one after another; between them, and during every call of the session port but [start_turn], the
    threads of the session take any steps.  Such a call is therefore a sequence of steps that accepts
    no turn, with an answer, both given by a script: this covers what the call itself does
    (SessionApi.v) with every interleaving.  [start_turn] is one locked region and runs as it is. *)
From S2P Require Import Prelude Effects DomainValues CloudTypes SessionTypes SessionRuntime SessionSystem CloudAdapter LoginTypes CloudRunner RunnerSafety RunnerClaims Orchestrator OrchestratorClaims P0System P0Calls P0Safety P0Claims LoginParser LoginLedger LoginBroker LoginClaims HttpTypes Idempotency HttpConfig AppSessions AppSessionClaims Shutdown Routes RouteClaims RouteCalls LoginPort EntryPoint.
From stdpp Require Import base numbers list strings gmap relations.
From Stdlib Require Import ZArith Lia.
Import Ids.

Open Scope Z_scope.

(** ** The session port *)

(** Labels of the threads of a living process that accept no turn. *)
Definition passive (l : P0Label) : bool :=
  match l with
  | PSession (SessionSystem.StartTurn _ _) | PBoot _ _ _ _ | PDie => false
  | PSession (Subscribe _ after) => 0 <=? Seqs.value after
  | _ => true
  end.

(** What happens in one call of the port: the identity [start_turn] draws, and for the other calls
    the steps taken until it returns, with its answer. *)
Record CallScript := mkScript {
  cs_turn : TurnId;
  cs_steps : list P0Label;
  cs_snapshot : result Errors.P0SessionError P0SessionSnapshot;
  cs_candidates : result Errors.P0SessionError P0RecoveryCandidates;
  cs_diff : result Errors.P0SessionError CloudDiff }.

Record ConcreteSessionPort := mkSessionPort { system : P0System; script : list CallScript }.

Definition stopped {A} : result Errors.P0SessionError A := Err (Errors.new Errors.RuntimeStopped).

Section Deployment.
Context (fs : string -> option RawTaskListPage) (cfg : Runner.Config).

(** A call other than [start_turn]. *)
Definition scripted {A} (answer : CallScript -> result Errors.P0SessionError A) (s : ConcreteSessionPort)
  : ConcreteSessionPort * result Errors.P0SessionError A :=
  match script s with
  | [] => (s, stopped)
  | c :: rest =>
      match forallb passive (cs_steps c), p0_run fs cfg (cs_steps c) (system s) with
      | true, Some x => (mkSessionPort x rest, answer c)
      | _, _ => (mkSessionPort (system s) rest, stopped)
      end
  end.

Definition port_snapshot (s : ConcreteSessionPort) : result Errors.P0SessionError P0SessionSnapshot :=
  match proc (system s) with
  | Some p => Ok (SessionRuntime.snapshot_from (inner p) (SessionRuntime.st (world (sys p))))
  | None => stopped
  end.

Definition port_start_turn (prompt : CloudPrompt) (s : ConcreteSessionPort)
  : ConcreteSessionPort * result Errors.P0SessionError P0TurnReceipt :=
  match script s, proc (system s) with
  | c :: rest, Some p =>
      match p0_step fs cfg (PSession (SessionSystem.StartTurn (cs_turn c) prompt)) (system s) with
      | Some x => (mkSessionPort x rest, (SessionRuntime.start_turn (inner p) (cs_turn c) prompt (world (sys p))).2)
      | None => (s, stopped)
      end
  | _, _ => (s, stopped)
  end.

Definition session_ports : SessionPorts ConcreteSessionPort :=
  {| sp_snapshot := port_snapshot;
     sp_start_turn := port_start_turn;
     sp_cancel_turn := fun _ => scripted cs_snapshot;
     sp_reconcile_unknown := fun _ => scripted cs_candidates;
     sp_resolve_unknown := fun _ _ _ => scripted cs_snapshot;
     sp_read_diff := scripted cs_diff |}.
#[local] Existing Instance session_ports.

(** ** What the steps accept *)

Lemma on_orch_accepted {A} (m : M (Orch.OrchestratorState * Orchestrator.World) A) os p s k :
  accepted (on_orch m os p s k) = accepted s.
Proof. unfold on_orch. by destruct (m _) as [a [o w]|[o w]]. Qed.

Lemma session_step_accepted l p s s' : session_step l p s = Some s' ->
  accepted s' = match P0System.accepts l p with Some (t, prompt) => ((epoch s, t), prompt) :: accepted s | None => accepted s end.
Proof.
  unfold session_step. destruct (sys_step _ _ _) as [y|]; [|done]. destruct (consume l p); [|done]. simpl.
  destruct (start_after l p y); [|done]. by intros [= <-].
Qed.

Lemma passive_accepted l s s' : passive l = true -> p0_step fs cfg l s = Some s' -> accepted s' = accepted s.
Proof.
  intros Hl H. unfold p0_step in H. destruct l as [l|c os|op os|os|os|i now fresh os|], (proc s) as [p|]; try done.
  - rewrite (session_step_accepted _ _ _ _ H). by destruct l.
  - unfold call_step in H. destruct (wanted _ _); simplify_eq. by rewrite on_orch_accepted.
  - unfold begin_step in H. destruct (starting p); try done. destruct (draws op s); simplify_eq. by rewrite on_orch_accepted.
  - unfold submit_step in H. destruct (starting p); simplify_eq. by rewrite on_orch_accepted.
  - unfold finish_step in H. destruct (starting p); simplify_eq. by rewrite on_orch_accepted.
Qed.

Lemma passive_ok l : passive l = true -> p0_label_ok l.
Proof. destruct l as [[]| | | | | |]; simpl; try done. lia. Qed.

Lemma p0_run_cons l ls s : p0_run fs cfg (l :: ls) s = p0_step fs cfg l s ≫= p0_run fs cfg ls.
Proof.
  unfold p0_run. simpl. destruct (p0_step fs cfg l s); [done|]. simpl. induction ls as [|x ls IH]; [done|exact IH].
Qed.

Lemma passive_run ls s s' : forallb passive ls = true -> p0_run fs cfg ls s = Some s' ->
  accepted s' = accepted s /\ (p0_reachable fs cfg s -> p0_reachable fs cfg s').
Proof.
  revert s. induction ls as [|l ls IH]; intros s Hls Hr; [by injection Hr as <-|].
  apply andb_true_iff in Hls as [Hl Hls]. rewrite p0_run_cons in Hr. destruct (p0_step fs cfg l s) as [s1|] eqn:E; [|done].
  destruct (IH s1 Hls Hr) as [Ha Hre]. split; [by rewrite Ha; eapply passive_accepted|].
  intros Hs. apply Hre. eapply p0_next; [exact Hs|by apply passive_ok|exact E].
Qed.

(** ** Requests *)

Section Requests.
Context `{SerdeJson, Crates, HttpCrates} (runner_uid : Z).

Abbreviation DPlane := (Plane (ConcreteLoginPort * ConcreteSessionPort)).
Definition control_ports : ControlPorts (ConcreteLoginPort * ConcreteSessionPort) := login_ports runner_uid.
#[local] Existing Instance control_ports.

(** A request as it was handled: the plane of its process with the ghost state of its sessions, and the
    readings of the clock. *)
Record Handled := mkHandled {
  hd_http : P0HttpConfig; hd_identity : P0SessionIdentity; hd_auth : Auth; hd_plane : DPlane;
  hd_request : Request; hd_now : Z; hd_admitted_at : Z }.

(** The state of the process, and every request that was ever handled on this host. *)
Record Deployment := mkDeployment {
  http : P0HttpConfig; identity : P0SessionIdentity; plane : DPlane; auth : Auth; history : list Handled }.

Definition system_of (d : Deployment) : P0System := system (pl_lower (plane d)).2.
Definition login_of (d : Deployment) : ConcreteLoginPort := (pl_lower (plane d)).1.

Definition with_plane (p : DPlane) (x : Auth) (d : Deployment) : Deployment :=
  mkDeployment (http d) (identity d) p x (history d).

Definition with_system (s : P0System) (d : Deployment) : Deployment :=
  with_plane (with_pl_lower (login_of d, mkSessionPort s []) (plane d)) (auth d) d.

(** What the system and the threads of the session do during a request. *)
Definition scheduled (agenda : list Broker.Answers) (rest : Broker.Answers) (calls : list CallScript) (p : DPlane) : DPlane :=
  let '(l, s) := pl_lower p in
  with_pl_lower (mkLoginPort (broker l) (poisoned l) agenda rest, mkSessionPort (system s) calls) p.

Definition request_step (rq : Request) (draws : nat -> option string) (now admitted_at : Z) (p : DPlane) (x : Auth)
    (d : Deployment) : Deployment :=
  mkDeployment (http d) (identity d) (handle (http d) (identity d) rq draws now admitted_at p).1 x
    (mkHandled (http d) (identity d) (auth d) p rq now admitted_at :: history d).

(** The broker of the last process, which was dropped or died with it, and what a new one finds. *)
Definition restarted (dropped : bool) (writes : list Ledger.PersistOs) (life : nat) (l : ConcreteLoginPort) : Ledger.Host :=
  Broker.run runner_uid (broker l) ((if dropped then [Broker.Drop] else []) ++ [Broker.Restart writes life]).

(** A new process: empty registries, an idle broker on the ledger left behind, the session booted. *)
Definition boot_plane (h : P0HttpConfig) (i : SessionRuntime.Inner) (ledger : Ledger.Host) (rest : Broker.Answers)
    (s : P0System) (d : Deployment) : Deployment :=
  mkDeployment h (SessionRuntime.identity i) (Main.with_components ledger [] rest (mkSessionPort s [])) auth_init
    (history d).

Definition first_install (h : P0HttpConfig) (id : P0SessionIdentity) (rest : Broker.Answers) : Deployment :=
  mkDeployment h id (Main.with_components Broker.fresh [] rest (mkSessionPort p0_init [])) auth_init [].

(** The steps a stream takes: it opens no session. *)
Definition keeps_sessions (l : AuthStep) : Prop := match l with ACreate _ _ => False | _ => True end.

(** The states of a host from its first installation.  Beside the requests: the threads of the session;
    the streams, which authenticate, check and release sessions; waiters that are polled again; the
    lifecycle, which requests and the shutdown count in; and the death and start of processes. *)
Inductive deployed : Deployment -> Prop :=
| dp_first h id rest : deployed (first_install h id rest)
| dp_request d rq draws now admitted_at agenda rest calls x :
    deployed d -> is_Some (proc (system_of d)) ->
    plane_ok (plane d) -> next_seq (pl_app (plane d)) < u64_max ->
    let p := scheduled agenda rest calls (plane d) in
    auth_steps (http d) (identity d) (may_take (http d) rq now) (auth d) x ->
    registry x = pl_app (handle (http d) (identity d) rq draws now admitted_at p).1 ->
    deployed (request_step rq draws now admitted_at p x d)
| dp_thread d l s :
    deployed d -> passive l = true -> p0_step fs cfg l (system_of d) = Some s -> deployed (with_system s d)
| dp_stream d x :
    deployed d -> auth_steps (http d) (identity d) keeps_sessions (auth d) x ->
    deployed (with_plane (with_pl_app (registry x) (plane d)) x d)
| dp_poll d key :
    deployed d -> deployed (with_plane (with_pl_idem (poll_response key (pl_idem (plane d))).1 (plane d)) (auth d) d)
| dp_life d l : deployed d -> deployed (with_plane (with_pl_life l (plane d)) (auth d) d)
| dp_die d s : deployed d -> p0_step fs cfg PDie (system_of d) = Some s -> deployed (with_system s d)
| dp_boot d h i now fresh os dropped writes life rest s :
    deployed d -> p0_step fs cfg (PBoot i now fresh os) (system_of d) = Some s ->
    deployed (boot_plane h i (restarted dropped writes life (login_of d)) rest s d).

(** ** What a request does to the session *)

Lemma scripted_steps {A} (answer : CallScript -> result Errors.P0SessionError A) s :
  accepted (system (scripted answer s).1) = accepted (system s) /\
  (p0_reachable fs cfg (system s) -> p0_reachable fs cfg (system (scripted answer s).1)).
Proof.
  unfold scripted. destruct (script s) as [|c rest]; [done|].
  destruct (forallb passive (cs_steps c)) eqn:Hp; [|done]. destruct (p0_run fs cfg (cs_steps c) (system s)) as [x|] eqn:Hr; [|done].
  by apply (passive_run (cs_steps c)).
Qed.

Lemma port_start_turn_steps prompt s :
  (accepted (system (port_start_turn prompt s).1) = accepted (system s) \/
   exists t, accepted (system (port_start_turn prompt s).1) = (t, prompt) :: accepted (system s)) /\
  (p0_reachable fs cfg (system s) -> p0_reachable fs cfg (system (port_start_turn prompt s).1)).
Proof.
  unfold port_start_turn. destruct (script s) as [|c rest]; [by split; [left|]|].
  destruct (proc (system s)) as [p|] eqn:Hp; [|by split; [left|]].
  destruct (p0_step _ _ _ _) as [x|] eqn:E; [|by split; [left|]]. cbn [fst system]. split.
  - unfold p0_step in E. rewrite Hp in E. rewrite (session_step_accepted _ _ _ _ E). simpl.
    destruct (is_ok _); [right; eauto|by left].
  - intros Hs. by eapply p0_next; [exact Hs| |exact E].
Qed.

Lemma session_lower_r {A} (call : ConcreteSessionPort -> ConcreteSessionPort * result Errors.P0SessionError A) l :
  (let '(c, s) := l in let '(s, r) := call s in ((c : ConcreteLoginPort, s), r)).1.2 = (call l.2).1.
Proof. destruct l as [c s]. simpl. by destruct (call s). Qed.

Lemma login_lower_r {A} (call : ConcreteLoginPort -> ConcreteLoginPort * result Api.LoginPortError A)
    (l : ConcreteLoginPort * ConcreteSessionPort) :
  (let '(c, s) := l in let '(c, r) := call c in ((c, s), r)).1.2 = l.2.
Proof. destruct l as [c s]. simpl. by destruct (call c). Qed.

(** A request accepts at most one turn, with the prompt it posts. *)
Lemma lower_call_accepts rq (l l' : ConcreteLoginPort * ConcreteSessionPort) : lower_call rq l l' ->
  (accepted (system l'.2) = accepted (system l.2) \/
   exists t prompt, posts_prompt rq prompt /\ accepted (system l'.2) = (t, prompt) :: accepted (system l.2)) /\
  (p0_reachable fs cfg (system l.2) -> p0_reachable fs cfg (system l'.2)).
Proof.
  intros [| | | |prompt Hpost| | | |]; cbn [login_status start_device_login cancel_login start_turn cancel_turn reconcile_unknown resolve_unknown read_diff control_ports login_ports];
    rewrite ?login_lower_r, ?session_lower_r;
    cbn [sp_start_turn sp_cancel_turn sp_reconcile_unknown sp_resolve_unknown sp_read_diff session_ports];
    try (by split; [left|]); try (match goal with |- context [scripted ?a ?s] => destruct (scripted_steps a s) end; by split; [left|]).
  destruct (port_start_turn_steps prompt l.2) as [[E|[t E]] Hr]; split; [by left|done|right; eauto|done].
Qed.

(** ** The invariant *)

(** [b] is the request that opened the session [i] of the process that handled [q]. *)
Definition opens (h : P0HttpConfig) (id : P0SessionIdentity) (i : Issue) (b : Handled) : Prop :=
  hd_http b = h /\ hd_identity b = id /\ hd_now b = is_at i /\ bootstraps h (hd_request b).

(** A request that passed every guard of a mutation, each session known to its process having been
    opened by a request with the bootstrap secret. *)
Definition by_operator (history : list Handled) (q : Handled) : Prop :=
  authorized (hd_http q) (hd_identity q) (hd_auth q) (hd_plane q) (hd_request q) (hd_now q) (hd_admitted_at q) /\
  forall i, i ∈ issued (hd_auth q) -> exists b, b ∈ history /\ opens (hd_http q) (hd_identity q) i b.

Definition posts_turn (q : Handled) (prompt : CloudPrompt) : Prop := posts_prompt (hd_request q) prompt.
Definition posts_login (q : Handled) : Prop :=
  rq_path (hd_request q) = ROUTE_LOGIN_DEVICE /\ rq_method (hd_request q) = POST.

(** Each element of [l] has its own request in the history. *)
Definition asked_for {A} (R : Handled -> A -> Prop) (history : list Handled) (l : list A) : Prop :=
  exists qs, qs ⊆+ history /\ Forall (by_operator history) qs /\ Forall2 R qs l.

Record DInv (d : Deployment) : Prop := {
  di_system : p0_reachable fs cfg (system_of d);
  di_login : reached runner_uid (login_of d);
  di_auth : auth_reachable (http d) (identity d) (auth d);
  di_registry : registry (auth d) = pl_app (plane d);
  di_opened : forall i, i ∈ issued (auth d) -> exists b, b ∈ history d /\ opens (http d) (identity d) i b;
  di_turns : asked_for (fun q a => posts_turn q a.2) (history d) (accepted (system_of d));
  di_logins : asked_for (fun q _ => posts_login q) (history d) (Ledger.logins (broker (login_of d))) }.

Lemma by_operator_later history b q : by_operator history q -> by_operator (b :: history) q.
Proof. intros [Ha Ho]. split; [done|]. intros i Hi. destruct (Ho i Hi) as (c & Hc & ?). exists c. split; [by right|done]. Qed.

Lemma asked_for_nil {A} (R : Handled -> A -> Prop) history : asked_for R history [].
Proof. exists []. split_and!; [apply submseteq_nil_l|constructor|constructor]. Qed.

Lemma asked_for_later {A} (R : Handled -> A -> Prop) q history l : asked_for R history l -> asked_for R (q :: history) l.
Proof.
  intros (qs & Hq & Ho & Hl). exists qs. split_and!; [by apply submseteq_cons| |done].
  eapply Forall_impl; [exact Ho|]. intros. by apply by_operator_later.
Qed.

Lemma asked_for_grow {A} (R : Handled -> A -> Prop) q history x l :
  by_operator history q -> R q x -> asked_for R history l -> asked_for R (q :: history) (x :: l).
Proof.
  intros Hb Hx (qs & Hq & Ho & Hl). exists (q :: qs). split_and!; [by apply submseteq_skip| |by constructor].
  constructor; [by apply by_operator_later|]. eapply Forall_impl; [exact Ho|]. intros. by apply by_operator_later.
Qed.

Lemma asked_for_one {A} (R : Handled -> A -> Prop) history l x : asked_for R history l -> l = [x] -> exists q, q ∈ history /\ R q x.
Proof.
  intros (qs & Hq & _ & Hl) ->. apply Forall2_cons_inv_r in Hl as (q & qs' & Hx & _ & ->). exists q. split; [|done].
  eapply elem_of_submseteq; [|exact Hq]. left.
Qed.

(** What has its own request keeps it in a selection. *)
Lemma asked_for_select {A} (R : Handled -> A -> Prop) history l l' : asked_for R history l -> l' ⊆+ l -> asked_for R history l'.
Proof.
  intros (qs & Hq & Ho & Hl) [k Hk]%submseteq_Permutation.
  destruct (Permutation_Forall2 Hk (proj2 (Forall2_flip _ _ _) Hl)) as (qs' & Hp & (q1 & q2 & Hq1 & _ & ->)%Forall2_app_inv_l).
  exists q1. rewrite Hp, Forall_app in Ho. split_and!; [|apply Ho|by apply Forall2_flip].
  etrans; [|exact Hq]. rewrite Hp. by apply submseteq_inserts_r.
Qed.

Lemma restarted_spec dropped writes life l : reached runner_uid l ->
  Ledger.logins (restarted dropped writes life l) = Ledger.logins (broker l) /\
  exists steps, Ledger.with_active None (restarted dropped writes life l) = Broker.run runner_uid Broker.fresh steps.
Proof.
  intros Hr. pose proof (reached_port_inv _ _ Hr) as HI. destruct Hr as [steps Hs]. split.
  - unfold restarted. destruct dropped; [|done]. simpl.
    pose proof (drop_spec runner_uid (broker l) HI) as Hd. unfold spec, Broker.settle_run in *.
    destruct (Broker.drop_broker _ _); simpl; apply Hd.
  - exists (steps ++ (if dropped then [Broker.Drop] else []) ++ [Broker.Restart writes life]).
    unfold restarted, Broker.run in *. by rewrite !fold_left_app, <- Hs.
Qed.

Lemma scheduled_keeps agenda rest calls (p : DPlane) :
  pl_app (scheduled agenda rest calls p) = pl_app p /\ pl_life (scheduled agenda rest calls p) = pl_life p /\
  system (pl_lower (scheduled agenda rest calls p)).2 = system (pl_lower p).2 /\
  broker (pl_lower (scheduled agenda rest calls p)).1 = broker (pl_lower p).1.
Proof. unfold scheduled. by destruct (pl_lower p). Qed.

Lemma grown_differs {A} (x : A) l l' : l' = x :: l -> l <> l'.
Proof. intros -> E. apply (f_equal length) in E. simpl in E. lia. Qed.

Lemma DInv_request d rq draws now admitted_at agenda rest calls x :
  let p := scheduled agenda rest calls (plane d) in
  DInv d -> plane_ok (plane d) -> auth_steps (http d) (identity d) (may_take (http d) rq now) (auth d) x ->
  registry x = pl_app (handle (http d) (identity d) rq draws now admitted_at p).1 ->
  DInv (request_step rq draws now admitted_at p x d).
Proof.
  intros p [Hsys Hlog Hauth Hreg Hop Hturns Hlogins] [Hok1 Hok2] Hx Hreg'.
  destruct (scheduled_keeps agenda rest calls (plane d)) as (Eapp & Elife & Esys & Ebr). fold p in Eapp, Elife, Esys, Ebr.
  assert (Hp : plane_ok p) by (split; congruence).
  pose proof (handle_call (http d) (identity d) rq draws now admitted_at p Hp) as Hc.
  assert (Hau : pl_lower (handle (http d) (identity d) rq draws now admitted_at p).1 <> pl_lower p ->
    by_operator (history d) (mkHandled (http d) (identity d) (auth d) p rq now admitted_at))
    by (intros Hne; split; [apply (lower_change_authorized _ _ _ _ _ draws); [done|exact (eq_trans Hreg (eq_sym Eapp))|done..]|exact Hop]).
  destruct (lower_call_accepts _ _ _ Hc) as [Ht Hre]. pose proof (lower_login_call _ _ _ _ Hc) as Hl.
  assert (Hr : reached runner_uid (pl_lower p).1) by (destruct Hlog as [st ?]; exists st; by rewrite Ebr).
  constructor; unfold system_of, login_of in *; cbn [plane auth http identity history request_step]; try done.
  - apply Hre. by rewrite Esys.
  - by eapply login_call_reached.
  - by eapply auth_steps_reachable.
  - intros i Hi. destruct (auth_steps_issued _ _ _ _ _ _ Hx Hi) as [Hi'|(? & Hb & Eat)].
    + destruct (Hop i Hi') as (b & Hb & Ho). exists b. split; [by right|done].
    + eexists. split; [by left|]. by split_and!.
  - rewrite Esys in Ht. destruct Ht as [->|(t & prompt & Hpost & E)]; [by apply asked_for_later|].
    rewrite E. apply asked_for_grow; [|done|done]. apply Hau. intros Eq. rewrite Eq, Esys in E. by apply grown_differs in E.
  - destruct (login_call_started _ _ _ _ Hl Hr) as [E|(Hpath & Hm & _ & [_ [E|(E & _)]])];
      [rewrite E, Ebr; by apply asked_for_later..|].
    rewrite E. rewrite Ebr in *. apply asked_for_grow; [|done|done]. apply Hau. intros Eq.
    rewrite Eq, Ebr in E. by apply grown_differs in E.
Qed.

Lemma deployed_inv d : deployed d -> DInv d.
Proof.
  induction 1 as [h id rest|d rq draws now at_ agenda rest calls x Hd IH _ Hp _ p Hx Hreg|d l s Hd IH Hl Hs|d x Hd IH Hx|
    d key Hd IH|d l Hd IH|d s Hd IH Hs|d h i now fresh os dropped writes life rest s Hd IH Hs].
  - constructor; [apply p0_first|by exists []|apply ar_init|done|by intros i ?%not_elem_of_nil|apply asked_for_nil..].
  - by apply DInv_request.
  - destruct IH as [Hsys ? ? ? ? Ht ?]. constructor; try done.
    + eapply p0_next; [exact Hsys|by apply passive_ok|exact Hs].
    + change (asked_for (fun q a => posts_turn q a.2) (history d) (accepted s)). by rewrite (passive_accepted _ _ _ Hl Hs).
  - destruct IH as [? ? ? ? Ho ? ?]. constructor; try done; [by eapply auth_steps_reachable|].
    intros i Hi. destruct (auth_steps_issued _ _ _ _ _ _ Hx Hi) as [Hi'|[? []]]. by apply Ho.
  - by destruct IH.
  - by destruct IH.
  - destruct IH as [Hsys ? ? ? ? Ht ?].
    assert (Ea : accepted s = accepted (system_of d)) by (unfold p0_step in Hs; destruct (proc _); by simplify_eq).
    constructor; try done; [by eapply p0_next; [exact Hsys| |exact Hs]|]. change (asked_for (fun q a => posts_turn q a.2) (history d) (accepted s)). by rewrite Ea.
  - destruct IH as [Hsys Hlog ? ? ? Ht Hg]. destruct (restarted_spec dropped writes life _ Hlog) as [El Hst].
    assert (Ea : accepted s = accepted (system_of d)).
    { unfold p0_step in Hs. destruct (proc _); [done|]. simplify_eq. unfold boot_step. by destruct (construct _ _ _) as [[] []|[]]. }
    constructor; try done; [by eapply p0_next; [exact Hsys| |exact Hs]|apply ar_init|by intros j ?%not_elem_of_nil|..].
    + change (asked_for (fun q a => posts_turn q a.2) (history d) (accepted s)). by rewrite Ea.
    + change (asked_for (fun q (_ : LoginOperationId) => posts_login q) (history d) (Ledger.logins (restarted dropped writes life (login_of d)))). by rewrite El.
Qed.

(** Requests are never stuck on the ghost state. *)
Lemma request_can_step d rq draws now admitted_at agenda rest calls :
  deployed d -> next_seq (pl_app (plane d)) < u64_max ->
  exists x, auth_steps (http d) (identity d) (may_take (http d) rq now) (auth d) x /\
    registry x = pl_app (handle (http d) (identity d) rq draws now admitted_at (scheduled agenda rest calls (plane d))).1.
Proof.
  intros Hd Hs. destruct (scheduled_keeps agenda rest calls (plane d)) as (E & _).
  apply (handle_follows (http d) (identity d) rq draws now); rewrite E; [done|]. by apply deployed_inv.
Qed.

(** ** Commands and requests *)

(** The accepted turns whose submissions ran, in the order of the commands. *)
Lemma turns_of_commands s (Hcfg : cfg_ok cfg) : p0_reachable fs cfg s -> exists sel, sel ⊆+ accepted s /\
  Forall2 (fun a c => c.2 = inv_exec (Runner.cfg_environment cfg) (Runner.cfg_branch cfg) a.2) sel (Runner.execs (host s)).
Proof.
  intros Hs. destruct (p0_reachable_inv fs cfg Hcfg s Hs) as [ts [_ Hc _ Hn _ _ _]].
  assert (Hsel : exists sel : list ((nat * TurnId) * CloudPrompt), sel.*1 = ts /\ Forall (fun a => a ∈ accepted s) sel /\
    Forall2 (fun a c => c.2 = inv_exec (Runner.cfg_environment cfg) (Runner.cfg_branch cfg) a.2) sel (Runner.execs (host s))).
  { clear Hn. induction Hc as [|t c ts cs (prompt & Hin & Hex) _ (sel & <- & Hin' & Hsel)]; [by exists []|].
    exists ((t, prompt) :: sel). split_and!; [done|by constructor..]. }
  destruct Hsel as (sel & <- & Hin & Hsel). exists sel. split; [|done].
  apply NoDup_submseteq; [by eapply NoDup_fmap_1|]. by apply Forall_forall.
Qed.

(** C1: every command this host ever ran was asked for by an operator.  From the first installation,
    over any number of processes, requests, thread interleavings, failed writes and deaths: each
    [cloud exec] the host started can be given a request of its own in the history, a [POST] on the turn
    route whose body's prompt is the prompt of the command, with the configured environment and branch;
    and each device login started, a [POST] of its own on the device-login route.  Each of these
    requests passed every guard of an authorized mutation (live session cookie, origin, instance, first
    use of its idempotency key), and every session its process knew had been opened by a request that
    carried the configured origin and the bootstrap secret. *)
Theorem every_command_was_posted d (Hcfg : cfg_ok cfg) (Hd : deployed d) :
  asked_for (fun q c => exists prompt, posts_turn q prompt /\
      c.2 = inv_exec (Runner.cfg_environment cfg) (Runner.cfg_branch cfg) prompt)
    (history d) (Runner.execs (host (system_of d))) /\
  asked_for (fun q _ => posts_login q) (history d) (Ledger.logins (broker (login_of d))).
Proof.
  destruct (deployed_inv d Hd) as [Hsys _ _ _ _ Ht Hl]. split; [|done].
  destruct (turns_of_commands _ Hcfg Hsys) as (sel & Hsub & Hsel).
  destruct (asked_for_select _ _ _ _ Ht Hsub) as (qs & Hq & Ho & Hf). exists qs. split_and!; [done|done|].
  eapply Forall2_trans; [|exact Hf|exact Hsel]. intros q a c Hpost Hex. by exists a.2.
Qed.
End Requests.
End Deployment.

(** ** A day on a concrete host *)
Module DeploymentWitness.
#[local] Existing Instance Witness.serde.
#[local] Existing Instance Witness.crates.
#[local] Existing Instance RouteWitness.http.

Definition secret : string := "0123456789abcdef0123456789abcdef".
Definition http : P0HttpConfig :=
  P0HttpConfig_new (mkOrigin "https://codebox.example")
    (match OperatorBootstrapToken_try_new secret with Ok t => t | Err _ => mkToken [] 0 end).
Definition id : P0SessionIdentity := SessionRuntime.identity p0_inner.
Definition rest : Broker.Answers := LoginWitness.answers (Ok tt) LoggedOut.

Definition bootstrap : Request :=
  mkRequest POST ROUTE_OPERATOR_SESSION
    [("origin", "https://codebox.example"); ("authorization", "Bearer " +:+ secret)] (Some "").
Definition device : Request := mkRequest POST ROUTE_LOGIN_DEVICE RouteWitness.headers (Some "").
Definition turn : Request :=
  mkRequest POST ROUTE_SESSION_TURNS
    [("cookie", cookie_pair Witness.tok); ("origin", "https://codebox.example"); (HEADER_INSTANCE, "8");
     (HEADER_IDEMPOTENCY, "6"); ("content-type", "application/json")] (Some "fix the build").

Definition installed : Deployment := first_install http id rest.
Definition booted_system : P0System :=
  default p0_init (p0_step demo_last_slice demo_cfg (PBoot p0_inner 0 (mkId 100) demo_os) p0_init).
Definition booted : Deployment :=
  boot_plane http p0_inner (restarted 1000 false [] 40 (login_of installed)) rest booted_system installed.

Definition calls : list CallScript := [mkScript p0_turn1 [] stopped stopped stopped].
Definition ask (rq : Request) (now : Z) (x : Auth) (d : Deployment) : Deployment :=
  request_step demo_last_slice demo_cfg 1000 rq Witness.draws now now (scheduled [] rest calls (plane d)) x d.

(** The session registry after the secret was presented, and after an authenticated request. *)
Definition opened : Auth := auth_step http id (ACreate Witness.draws 5) auth_init.
Definition visited (hs : HeaderMap) (now : Z) (x : Auth) : Auth :=
  auth_step http id (ARelease 1) (auth_step http id (AAuthenticate hs now) x).

Definition in_session : Deployment := ask bootstrap 5 opened booted.
Definition logged_in : Deployment := ask device 6 (visited (rq_headers device) 6 opened) in_session.
Definition asked : Deployment := ask turn 7 (visited (rq_headers turn) 7 (auth logged_in)) logged_in.

(** The worker takes the turn to its command. *)
Definition worked : list P0Label :=
  [PSession (WorkerNext 8); PSession WorkerAdmit; PStartBegin demo_op demo_os; PSubmit demo_os].
Definition evening : Deployment :=
  foldl (fun d l => with_system (default p0_init (p0_step demo_last_slice demo_cfg l (system_of d))) d) asked worked.

Abbreviation reached_by := (deployed demo_last_slice demo_cfg 1000).

Lemma threads_deployed ls d : reached_by d ->
  Forall (fun l => passive l = true) ls -> is_Some (p0_run demo_last_slice demo_cfg ls (system_of d)) ->
  reached_by (foldl (fun d l => with_system (default p0_init (p0_step demo_last_slice demo_cfg l (system_of d))) d) d ls).
Proof.
  intros Hd Hls. revert d Hd. induction Hls as [|l ls Hl _ IH]; intros d Hd; [done|]. rewrite p0_run_cons. simpl.
  destruct (p0_step _ _ l (system_of d)) as [s|] eqn:E; simpl; [|by intros []]. intros Hr.
  apply IH; [by eapply dp_thread|exact Hr].
Qed.

Lemma visited_steps rq hs now x : auth_steps http id (may_take http rq now) x (visited hs now x).
Proof. eapply rtc_l; [by exists (AAuthenticate hs now)|]. apply rtc_once. by exists (ARelease 1). Qed.

(** A plane with the one session is in range. *)
Lemma one_session_ok (d : Deployment) s : sessions (pl_app (plane d)) = [s] -> active_requests s = 0 ->
  Shutdown.active (pl_life (plane d)) = 0 -> plane_ok (plane d).
Proof.
  intros E Ha Hl. split; [split; rewrite E|by rewrite Hl].
  - repeat constructor.
  - constructor; [by rewrite Ha|constructor].
Qed.

Lemma evening_deployed : reached_by evening.
Proof.
  assert (Hb : reached_by booted).
  { apply (dp_boot _ _ _ installed http p0_inner 0 (mkId 100) demo_os); [apply dp_first|vm_compute; reflexivity]. }
  assert (Hs : reached_by in_session).
  { apply dp_request; [exact Hb|vm_compute; eauto|by split; [split; [constructor|constructor]|]|done| |vm_compute; reflexivity].
    apply rtc_once. exists (ACreate Witness.draws 5). split; [|done]. split; [|done].
    split_and!; [done|done|vm_compute; reflexivity|vm_compute; reflexivity]. }
  assert (Hl : reached_by logged_in).
  { apply dp_request; [exact Hs|vm_compute; eauto| |done|apply visited_steps|vm_compute; reflexivity].
    eapply one_session_ok; vm_compute; reflexivity. }
  assert (Ha : reached_by asked).
  { apply dp_request; [exact Hl|vm_compute; eauto| |done|apply visited_steps|vm_compute; reflexivity].
    eapply one_session_ok; vm_compute; reflexivity. }
  apply threads_deployed; [exact Ha|by repeat constructor|]. vm_compute. eauto.
Qed.
End DeploymentWitness.

Lemma every_command_was_posted_witness :
  Runner.execs (host (system_of DeploymentWitness.evening)) = [(demo_op, demo_exec)] /\
  Ledger.logins (broker (login_of DeploymentWitness.evening)) = [LoginWitness.op] /\
  exists q, q ∈ history DeploymentWitness.evening /\ posts_login q.
Proof.
  split; [vm_compute; reflexivity|]. split; [vm_compute; reflexivity|].
  pose proof (@every_command_was_posted demo_last_slice demo_cfg Witness.serde Witness.crates RouteWitness.http 1000
    DeploymentWitness.evening demo_cfg_ok DeploymentWitness.evening_deployed) as [_ Hm].
  refine (asked_for_one _ _ _ LoginWitness.op Hm _). vm_compute. reflexivity.
Defined.
