(* ===== verification/Redaction.v ===== *)
(** * What the values print

    The [Debug] and [Display] implementations of the repository: [cloud.rs], [cloud_runner_types.rs],
    [cloud_lifecycle_types.rs], [cloud_diff.rs], [login_types.rs], [scope.rs], [broker.rs], the session
    runtime's [types.rs], [error.rs] and [runtime.rs], the control plane's [types.rs], [ports.rs],
    [config.rs], [error.rs], [transport.rs] and [state.rs], and the messages of the [thiserror] enums.

    An implementation of [Debug] drives a formatter; here it answers the tree of what it wrote
    ([Dbg]), which [render] turns into the text of [{:?}].  How [str]'s own [Debug] escapes its text is
    a parameter.  The theorems are about secrets: what a prompt, a verification code, a token, a
    cursor, a diff or a captured stream leaves in the text. *)
From S2P Require Import Prelude DomainValues SessionRuntime LoginLedger CloudTypes CloudAdapter CloudRunner SessionTypes LoginTypes Scope HttpTypes HttpConfig Routes Json JsonCompact.
From stdpp Require Import base numbers list strings option pretty.
From Stdlib Require Import ZArith Lia.
Import Ids Seqs Paths Config Errors Str.

Open Scope Z_scope.

(** ** Formatters *)

Inductive Dbg :=
| DWrite (text : string)
| DStr (text : string)
| DNum (n : Z)
| DUuid (u : Uuid)
| DStruct (name : string) (fields : list (string * Dbg)) (exhaustive : bool)
| DTuple (name : string) (fields : list Dbg)
| DList (items : list Dbg).

Section Render.
Context `{UuidText} (escape_debug : string -> string).

Definition join (sep : string) (parts : list string) : string :=
  match parts with [] => "" | p :: ps => foldl (fun acc q => acc +:+ sep +:+ q) p ps end.

(** [Formatter]'s text without the alternate flag. *)
Fixpoint render (d : Dbg) : string :=
  match d with
  | DWrite t => t
  | DStr t => quoted (escape_debug t)
  | DNum n => pretty n
  | DUuid u => uuid_hyphenated u
  | DStruct name fields exhaustive =>
      let parts := map (fun '(k, v) => k +:+ ": " +:+ render v) fields in
      match fields with
      | [] => if exhaustive then name else name +:+ " { .. }"
      | _ => name +:+ " { " +:+ join ", " parts +:+ (if exhaustive then " }" else ", .. }")
      end
  | DTuple name fields =>
      match fields with [] => name | _ => name +:+ "(" +:+ join ", " (map render fields) +:+ ")" end
  | DList items => "[" +:+ join ", " (map render items) +:+ "]"
  end.
End Render.

Class Debug (A : Type) := debug : A -> Dbg.
Class Display (A : Type) := display : A -> string.

Definition REDACTED : Dbg := DStr "[REDACTED]".

(** The implementations of the standard library and of [uuid]. *)
#[export] Instance bool_debug : Debug bool := fun b => DWrite (if b then "true" else "false").
#[export] Instance int_debug : Debug Z := DNum.
#[export] Instance str_debug : Debug string := DStr.
#[export] Instance option_debug {A} `{Debug A} : Debug (option A) :=
  fun o => match o with Some x => DTuple "Some" [debug x] | None => DWrite "None" end.
#[export] Instance vec_debug {A} `{Debug A} : Debug (list A) := fun l => DList (debug <$> l).

(** ** Codex Cloud values (cloud.rs) *)

Definition CloudField_display : Display CloudField := fun f =>
  match f with
  | FEnvironment => "environment"
  | FBranch => "branch"
  | FPrompt => "prompt"
  | FTaskId => "task ID"
  | FTaskUrl => "task URL"
  | FCursor => "cursor"
  | FStatus => "status"
  | FTitle => "title"
  | FUpdatedAt => "updated timestamp"
  | FEnvironmentId => "task environment ID"
  | FEnvironmentLabel => "task environment label"
  | FFilesChanged => "files changed"
  | FLinesAdded => "lines added"
  | FLinesRemoved => "lines removed"
  | FAttempts => "attempt count"
  | FList => "task list"
  | FDiff => "diff"
  | FStdout => "stdout"
  | FStderr => "stderr"
  | FExitStatus => "exit status"
  | FVersion => "CLI version"
  end.
#[export] Existing Instance CloudField_display.

Definition CloudErrorCategory_display : Display CloudErrorCategory := fun c =>
  match c with
  | CEmpty => "is empty"
  | CTooLong => "exceeds its size limit"
  | CControlCharacter => "contains a forbidden control character"
  | CLeadingHyphen => "begins with a forbidden hyphen"
  | CReservedValue => "uses a reserved value"
  | CInvalidFormat => "has an invalid format"
  | CInvalidUtf8 => "is not valid UTF-8"
  | COverflow => "exceeded the capture limit"
  | CMissing => "is missing"
  | CUnexpected => "has an unexpected value"
  | CDuplicate => "contains a duplicate"
  | CLimitExceeded => "exceeds a numeric limit"
  | CProviderDrift => "does not match the pinned provider contract"
  end.
#[export] Existing Instance CloudErrorCategory_display.

Definition CloudAdapterError_display : Display CloudAdapterError := fun e =>
  "Codex Cloud " +:+ display (ae_field e) +:+ " " +:+ display (ae_category e).
#[export] Existing Instance CloudAdapterError_display.

Definition CloudEnvironmentId_debug : Debug CloudEnvironmentId := fun e => DTuple "CloudEnvironmentId" [debug (env_str e)].
Definition CloudBranch_debug : Debug CloudBranch := fun b => DTuple "CloudBranch" [debug (branch_str b)].
Definition CloudPrompt_debug : Debug CloudPrompt := fun _ => DWrite "CloudPrompt([REDACTED])".
Definition CloudTaskId_debug : Debug CloudTaskId := fun t => DTuple "CloudTaskId" [debug (task_str t)].
Definition CloudTaskUrl_debug : Debug CloudTaskUrl := fun _ => DWrite "CloudTaskUrl([REDACTED])".
Definition CloudCursor_debug : Debug CloudCursor := fun _ => DWrite "CloudCursor([REDACTED])".
Definition CloudTaskSummary_debug : Debug CloudTaskSummary := fun _ => DWrite "CloudTaskSummary([REDACTED])".
Definition CloudTaskListPage_debug : Debug CloudTaskListPage := fun p =>
  DStruct "CloudTaskListPage" [("task_count", debug (len (page_tasks p))); ("cursor", REDACTED)] true.
Definition CloudDiff_debug : Debug CloudDiff := fun _ => DWrite "CloudDiff([REDACTED])".
Definition CloudCapture_debug : Debug CloudCapture := fun c =>
  DStruct "CloudCapture"
    [("stdout", REDACTED); ("stderr", REDACTED); ("stdout_overflow", debug (stdout_overflow c));
     ("stderr_overflow", debug (stderr_overflow c)); ("exit_code", debug (exit_code c))] true.
Definition CloudInvocationKind_debug : Debug CloudInvocationKind := fun k =>
  DWrite match k with KVersion => "Version" | KExec => "Exec" | KStatus => "Status" | KList => "List" | KDiff => "Diff" end.
#[export] Existing Instances CloudEnvironmentId_debug CloudBranch_debug CloudPrompt_debug CloudTaskId_debug CloudTaskUrl_debug
  CloudCursor_debug CloudTaskSummary_debug CloudTaskListPage_debug CloudDiff_debug CloudCapture_debug CloudInvocationKind_debug.
Definition CloudInvocation_debug : Debug CloudInvocation := fun i =>
  DStruct "CloudInvocation" [("kind", debug (inv_kind i)); ("args", REDACTED)] true.
#[export] Existing Instance CloudInvocation_debug.

(** ** The runner's types (cloud_runner_types.rs) *)

Definition CloudSubmitOperationId_debug : Debug CloudSubmitOperationId := fun op =>
  DTuple "CloudSubmitOperationId" [DUuid (op_uuid op)].
#[export] Existing Instance CloudSubmitOperationId_debug.
Definition CloudSubmitOperationId_display `{UuidText} : Display CloudSubmitOperationId := fun op => uuid_hyphenated (op_uuid op).
#[export] Existing Instance CloudSubmitOperationId_display.

Record CloudRunnerConfig := mkRunnerConfig {
  rcf_scope : Scope.CredentialScope; rcf_environment : CloudEnvironmentId; rcf_branch : CloudBranch }.
Definition CloudRunnerConfig_debug : Debug CloudRunnerConfig := fun _ => DStruct "CloudRunnerConfig" [] false.

Record CloudSubmitRequest := mkSubmitRequest { sr_operation_id : CloudSubmitOperationId; sr_prompt : CloudPrompt }.
Definition CloudSubmitRequest_debug : Debug CloudSubmitRequest := fun r =>
  DStruct "CloudSubmitRequest" [("operation_id", debug (sr_operation_id r)); ("prompt", REDACTED)] true.

(** The flag behind the [Arc]. *)
Record CloudCancellation := mkCancellation { cancel_requested : bool }.
Definition CloudCancellation_new : CloudCancellation := mkCancellation false.
Definition cancel (c : CloudCancellation) : CloudCancellation := mkCancellation true.
Definition is_cancelled (c : CloudCancellation) : bool := cancel_requested c.
Definition CloudCancellation_debug : Debug CloudCancellation := fun c =>
  DStruct "CloudCancellation" [("cancel_requested", debug (is_cancelled c))] true.

Definition CloudSubmission_debug : Debug CloudSubmission := fun s =>
  DStruct "CloudSubmission" [("operation_id", debug (sub_operation_id s)); ("task_id", debug (sub_task_id s))] true.
Definition CloudReconciliation_debug : Debug Runner.CloudReconciliation := fun r =>
  DStruct "CloudReconciliation"
    [("operation_id", debug (Runner.rec_operation_id r)); ("task_count", debug (len (Runner.rec_tasks r)));
     ("complete", debug (Runner.rec_complete r))] true.
#[export] Existing Instances CloudRunnerConfig_debug CloudSubmitRequest_debug CloudCancellation_debug CloudSubmission_debug
  CloudReconciliation_debug.

Definition CloudRunnerErrorCategory_display : Display CloudRunnerErrorCategory := fun c =>
  match c with
  | RunScope => "credential scope is unavailable"
  | RunBusy => "credential scope is busy"
  | RunVersion => "CLI version is not accepted"
  | RunNotAuthenticated => "ChatGPT login is required"
  | RunLoginOutcomeUnknown => "login outcome requires reconciliation"
  | RunDiagnosticBoundary => "diagnostic write boundary is unsafe"
  | RunLedgerInvalid => "submit ledger is invalid"
  | RunLedgerUnavailable => "submit ledger is unavailable"
  | RunProcess => "Cloud process failed"
  | RunTimeout => "Cloud process timed out"
  | RunCanceledBeforeStart => "Cloud submit was canceled before authorization"
  | RunProviderOutput => "provider output does not match the pinned contract"
  | RunOutcomeUnknown => "Cloud submit outcome requires reconciliation"
  | RunRecoveryRequired => "Cloud submit recovery requires operator action"
  | RunPriorFailedBeforeSpawn => "submit previously failed before spawn"
  | RunPriorExplicitlyAbandoned => "submit was explicitly abandoned"
  | RunReconciliationCycle => "provider pagination contains a cycle"
  | RunNoUnknownOperation => "no unknown Cloud submit can be reconciled"
  | RunOperationConflict => "another Cloud submit operation owns the durable state"
  | RunResolutionUnavailable => "Cloud submit cannot be resolved in its current state"
  | RunResolutionConflict => "Cloud submit already has a different resolution"
  | RunCandidateNotRecorded => "Cloud task is not in the recorded candidate set"
  end.
#[export] Existing Instance CloudRunnerErrorCategory_display.
Definition CloudRunnerError_display : Display CloudRunnerError := fun e => "Codex Cloud runner: " +:+ display (re_category e).

(** ** The lifecycle's types (cloud_lifecycle_types.rs) and the diff reader's (cloud_diff.rs) *)

Definition CloudLifecycle_debug : Debug CloudLifecycle := fun l =>
  match l with
  | LSubmitting op => DStruct "Submitting" [("operation_id", debug op)] true
  | LFailedBeforeSubmit op => DStruct "FailedBeforeSubmit" [("operation_id", debug op)] true
  | LOutcomeUnknown op => DStruct "OutcomeUnknown" [("operation_id", debug op)] true
  | LPending op t => DStruct "Pending" [("operation_id", debug op); ("task_id", debug t)] true
  | LReady op t => DStruct "Ready" [("operation_id", debug op); ("task_id", debug t)] true
  | LApplied op t => DStruct "Applied" [("operation_id", debug op); ("task_id", debug t)] true
  | LProviderError op t => DStruct "ProviderError" [("operation_id", debug op); ("task_id", debug t)] true
  | LCanceledLocally op t continue =>
      DStruct "CanceledLocally" [("operation_id", debug op); ("task_id", debug t); ("provider_may_continue", debug continue)] true
  | LAbandonedUnknown op => DStruct "AbandonedUnknown" [("operation_id", debug op)] true
  end.
#[export] Existing Instance CloudLifecycle_debug.

Record DuplicateRiskAcknowledgement := for_operation { dra_operation_id : CloudSubmitOperationId }.
Definition DuplicateRiskAcknowledgement_debug : Debug DuplicateRiskAcknowledgement := fun a =>
  DStruct "DuplicateRiskAcknowledgement" [("operation_id", debug (dra_operation_id a))] true.
#[export] Existing Instance DuplicateRiskAcknowledgement_debug.

Definition CloudLifecycleErrorCategory_display : Display CloudLifecycleErrorCategory := fun c =>
  match c with
  | EScope => "credential scope is unavailable"
  | EBusy => "credential scope is busy"
  | ETurnAlreadyRunning => "a Cloud turn is already running"
  | ENoCurrentOperation => "no Cloud operation is recorded"
  | EWrongState => "Cloud operation is in the wrong lifecycle state"
  | EStaleDecision => "Cloud recovery decision is stale"
  | ETaskNotListed => "Cloud task is not in the latest complete reconciliation"
  | EAcknowledgementRequired => "duplicate-risk acknowledgement is required"
  | ELowerRunner => "trusted Cloud runner failed"
  | EProviderRead => "Cloud provider status could not be inspected"
  | EOperationConflict => "another Cloud operation owns durable state"
  | EOutcomeUnknown => "Cloud submit outcome requires explicit recovery"
  | ELedgerInvalid => "Cloud lifecycle ledger is invalid"
  | ELedgerUnavailable => "Cloud lifecycle ledger is unavailable"
  | ERecoveryRequired => "Cloud lifecycle recovery requires operator action"
  end.
#[export] Existing Instance CloudLifecycleErrorCategory_display.
Definition CloudLifecycleError_display : Display CloudLifecycleError := fun e => "Codex Cloud lifecycle: " +:+ display (le_category e).
#[export] Existing Instances CloudRunnerError_display CloudLifecycleError_display.

Definition DiffEligibleCloudTask_debug : Debug Runner.DiffEligibleCloudTask := fun _ => DStruct "DiffEligibleCloudTask" [] false.
#[export] Existing Instance DiffEligibleCloudTask_debug.

Definition CloudDiffReadErrorCategory_display : Display CloudDiffReadErrorCategory := fun c =>
  match c with
  | DIneligibleLifecycle => "Cloud task is not eligible for diff retrieval"
  | DAuthorityMismatch => "Cloud task authority does not match durable state"
  | DScope => "credential scope is unavailable"
  | DBusy => "credential scope is busy"
  | DVersion => "CLI version is not accepted"
  | DDiagnosticBoundary => "diagnostic write boundary is unsafe"
  | DProcess => "Cloud diff process failed"
  | DTimeout => "Cloud diff process timed out"
  | DCanceled => "Cloud diff retrieval was canceled"
  | DOutputLimit => "Cloud diff output exceeded its limit"
  | DProviderDrift => "Cloud diff output does not match the pinned provider contract"
  | DInvalidDiff => "Cloud diff contains invalid display data"
  end.
#[export] Existing Instance CloudDiffReadErrorCategory_display.

(** ** Login values (login_types.rs), the scope and the broker *)

Definition LoginOperationId_debug : Debug LoginOperationId := fun op => DUuid (login_uuid op).
Definition LoginOperationId_display `{UuidText} : Display LoginOperationId := fun op => uuid_hyphenated (login_uuid op).
Definition VerificationCode_debug : Debug VerificationCode := fun _ => DWrite "VerificationCode([REDACTED])".
#[export] Existing Instances LoginOperationId_debug LoginOperationId_display VerificationCode_debug.
(** Derived; [VerificationUrl] is a unit struct. *)
Definition LoginInteraction_debug : Debug LoginInteraction := fun i =>
  DStruct "LoginInteraction"
    [("operation_id", debug (li_operation_id i)); ("verification_url", DWrite "VerificationUrl");
     ("verification_code", debug (li_verification_code i)); ("expires_in_seconds", debug (li_expires_in_seconds i))] true.
Definition CredentialScope_debug : Debug Scope.CredentialScope := fun _ => DStruct "CredentialScope" [] false.
#[export] Existing Instances LoginInteraction_debug CredentialScope_debug.

Definition CredentialScopeError_display : Display CredentialScopeError := fun e =>
  match e with
  | SEUnsupportedPlatform => "credential scopes are unsupported on this platform"
  | SEDirectoryUnsafe _ _ => "a configured credential directory is unsafe"
  | SEDirectoryUnavailable _ => "a configured credential directory is unavailable"
  | SEExecutableUnsafe _ => "the configured Codex executable is unsafe"
  | SEExecutableUnavailable => "the configured Codex executable is unavailable"
  | SEDirectoryOverlap => "configured credential directories must not overlap"
  | SERepositoryPathRejected _ => "a configured credential path is inside a repository"
  | SERepositoryInspectionUnavailable _ => "repository ancestry could not be inspected"
  | SELeaseUnsafe _ => "the credential-scope lease file is unsafe"
  | SELeaseUnavailable => "the credential-scope lease operation failed"
  | SELoginAlreadyRunning => "another login operation already owns the credential scope"
  end.

Definition LoginBrokerError_display : Display LoginBrokerError := fun e =>
  match e with
  | LBCredentialScope _ => "the credential scope rejected the login operation"
  | LBVersionMismatch => "the configured Codex CLI version does not match the pin"
  | LBLoginAlreadyRunning => "a login operation is already running"
  | LBAlreadyLoggedIn => "Codex is already logged in with ChatGPT"
  | LBProviderOutputInvalid => "the pinned Codex CLI returned unrecognized output"
  | LBOutputLimitExceeded => "the pinned Codex CLI exceeded the output limit"
  | LBStatusUnavailable => "Codex login status is unavailable"
  | LBLoginFailed => "the Codex device-login operation failed"
  | LBOutcomeUnknown => "the Codex login outcome is unknown and must be reconciled"
  | LBProcess => "the Codex login process supervisor failed"
  | LBLedgerUnavailable => "the Codex login ledger is unavailable"
  | LBLedgerInvalid => "the Codex login ledger is invalid"
  end.
#[export] Existing Instances CredentialScopeError_display LoginBrokerError_display.

(** ** Domain values *)

Definition Id_debug t : Debug (Id t) := fun i => DTuple (TYPE_NAME t) [DUuid (as_uuid i)].
Definition Id_display `{UuidText} t : Display (Id t) := fun i => uuid_hyphenated (as_uuid i).
Definition EventSeq_debug : Debug EventSeq := fun s => DTuple "EventSeq" [debug (value s)].
Definition WorkspacePath_display : Display WorkspacePath := fun p => as_str p.
#[export] Existing Instances Id_debug Id_display EventSeq_debug WorkspacePath_display.

(** ** The session runtime (types.rs, error.rs, runtime.rs) *)

Definition P0InstanceId_debug : Debug P0InstanceId := fun i => DUuid (instance_uuid i).
Definition P0InstanceId_display `{UuidText} : Display P0InstanceId := fun i => uuid_hyphenated (instance_uuid i).
Definition P0CloudTaskId_debug : Debug P0CloudTaskId := fun t => DTuple "P0CloudTaskId" [debug (p0_task_str t)].
#[export] Existing Instances P0InstanceId_debug P0InstanceId_display P0CloudTaskId_debug.
Definition P0SessionIdentity_debug : Debug P0SessionIdentity := fun i =>
  DStruct "P0SessionIdentity" [("session_id", debug (session_id i)); ("instance_id", debug (instance_id i))] true.

Definition P0SessionErrorCategory_display : Display P0SessionErrorCategory := fun c =>
  match c with
  | InvalidConfig => "P0 session configuration is invalid"
  | TurnAlreadyRunning => "a P0 turn is already active"
  | NoCurrentTurn => "no P0 turn is recorded"
  | WrongState => "the P0 session is in the wrong state"
  | WrongSession => "the P0 session identifier does not match"
  | WrongOperation => "the Cloud operation identifier does not match"
  | RuntimeStopped => "the P0 session runtime is stopped"
  | CloudLifecycleFailed => "the Cloud lifecycle operation failed"
  | CloudDiffFailed => "the Cloud diff read failed"
  | HistoryGap => "the requested P0 event history was evicted"
  | FutureCursor => "the requested P0 event cursor is in the future"
  | SubscriberLimit => "the P0 subscriber limit was reached"
  | SequenceExhausted => "the P0 event sequence is exhausted"
  | LowerConflict => "the Cloud lifecycle moved incompatibly"
  end.
#[export] Existing Instances P0SessionIdentity_debug P0SessionErrorCategory_display.
Definition P0SessionError_display : Display P0SessionError := fun e => "P0 session: " +:+ display (category e).
Definition P0LiveReceiveError_display : Display P0LiveReceiveError := fun e =>
  match e with
  | LiveEmpty => "no P0 event is currently available"
  | LiveLagged => "the P0 subscriber fell behind"
  | LiveRuntimeStopped => "the P0 session runtime stopped"
  | LiveClosed => "the P0 subscription closed"
  end.
#[export] Existing Instances P0SessionError_display P0LiveReceiveError_display.

(** Derived on the categories. *)
Definition P0SessionErrorCategory_debug : Debug P0SessionErrorCategory := fun c =>
  DWrite match c with
  | InvalidConfig => "InvalidConfig" | TurnAlreadyRunning => "TurnAlreadyRunning" | NoCurrentTurn => "NoCurrentTurn"
  | WrongState => "WrongState" | WrongSession => "WrongSession" | WrongOperation => "WrongOperation"
  | RuntimeStopped => "RuntimeStopped" | CloudLifecycleFailed => "CloudLifecycle" | CloudDiffFailed => "CloudDiff"
  | HistoryGap => "HistoryGap" | FutureCursor => "FutureCursor" | SubscriberLimit => "SubscriberLimit"
  | SequenceExhausted => "SequenceExhausted" | LowerConflict => "LowerConflict" end.
Definition CloudLifecycleErrorCategory_debug : Debug CloudLifecycleErrorCategory := fun c =>
  DWrite match c with
  | EScope => "Scope" | EBusy => "Busy" | ETurnAlreadyRunning => "TurnAlreadyRunning" | ENoCurrentOperation => "NoCurrentOperation"
  | EWrongState => "WrongState" | EStaleDecision => "StaleDecision" | ETaskNotListed => "TaskNotListed"
  | EAcknowledgementRequired => "AcknowledgementRequired" | ELowerRunner => "LowerRunner" | EProviderRead => "ProviderRead"
  | EOperationConflict => "OperationConflict" | EOutcomeUnknown => "OutcomeUnknown" | ELedgerInvalid => "LedgerInvalid"
  | ELedgerUnavailable => "LedgerUnavailable" | ERecoveryRequired => "RecoveryRequired" end.
Definition CloudDiffReadErrorCategory_debug : Debug CloudDiffReadErrorCategory := fun c =>
  DWrite match c with
  | DIneligibleLifecycle => "IneligibleLifecycle" | DAuthorityMismatch => "AuthorityMismatch" | DScope => "Scope" | DBusy => "Busy"
  | DVersion => "Version" | DDiagnosticBoundary => "DiagnosticBoundary" | DProcess => "Process" | DTimeout => "Timeout"
  | DCanceled => "Canceled" | DOutputLimit => "OutputLimit" | DProviderDrift => "ProviderDrift" | DInvalidDiff => "InvalidDiff" end.
Definition P0SessionConfigField_debug : Debug P0SessionConfigField := fun f =>
  DWrite match f with PollInterval => "PollInterval" | HistoryCapacity => "HistoryCapacity"
  | MaxSubscribers => "MaxSubscribers" | LiveCapacity => "LiveCapacity" end.
#[export] Existing Instances P0SessionErrorCategory_debug CloudLifecycleErrorCategory_debug CloudDiffReadErrorCategory_debug
  P0SessionConfigField_debug.

Definition P0SessionError_debug : Debug P0SessionError := fun e =>
  DStruct "P0SessionError"
    [("category", debug (category e)); ("turn_id", debug (turn_id e)); ("operation_id", debug (operation_id e));
     ("oldest_available", debug (oldest_available e)); ("latest_available", debug (latest_available e));
     ("cloud_lifecycle", debug (cloud_lifecycle e)); ("cloud_diff", debug (cloud_diff e));
     ("config_field", debug (config_field e))] true.
#[export] Existing Instance P0SessionError_debug.

(** ** The control plane (types.rs, ports.rs, config.rs, error.rs, transport.rs) *)

Definition DeviceLoginResponse_debug : Debug DeviceLoginResponse := fun r =>
  DStruct "DeviceLoginResponse"
    [("operation_id", debug (dl_operation_id r)); ("verification_url", debug (verification_url r));
     ("verification_code", REDACTED); ("expires_in_seconds", debug (dl_expires_in_seconds r))] true.

(** [LoginInstructions], and how [start_device_login] of the port fills it. *)
Record LoginInstructions := mkInstructions {
  in_operation_id : LoginOperationId; in_verification_url : string; in_verification_code : string;
  in_expires_in_seconds : Z }.
Definition LoginInstructions_from (i : LoginInteraction) : LoginInstructions :=
  mkInstructions (li_operation_id i) VERIFICATION_URL (code_str (li_verification_code i)) (li_expires_in_seconds i).
Definition LoginInstructions_debug : Debug LoginInstructions := fun r =>
  DStruct "LoginInstructions"
    [("operation_id", debug (in_operation_id r)); ("verification_url", debug (in_verification_url r));
     ("verification_code", REDACTED); ("expires_in_seconds", debug (in_expires_in_seconds r))] true.

Definition LoginPortError_debug `{Debug LoginBrokerError} : Debug Api.LoginPortError := fun e =>
  match e with Api.Lower error => DTuple "Lower" [debug error] | Api.Unavailable => DWrite "Unavailable" end.
(** Outside tests [SessionPortError] has the one variant. *)
Definition SessionPortError_debug (error : P0SessionError) : Dbg := DTuple "Lower" [debug error].

Definition StartTurnBody_debug : Debug StartTurnBody := fun _ => DStruct "StartTurnBody" [("prompt", REDACTED)] true.
Definition ResolveDecisionBody_debug : Debug ResolveDecisionBody := fun d =>
  match d with
  | DAdopt _ => DWrite "Adopt"
  | DAbandon acknowledged => DStruct "Abandon" [("acknowledge_duplicate_task_risk", debug acknowledged)] true
  end.
#[export] Existing Instances DeviceLoginResponse_debug LoginInstructions_debug LoginPortError_debug StartTurnBody_debug
  ResolveDecisionBody_debug.
Definition ResolveBody_debug : Debug ResolveBody := fun b =>
  DStruct "ResolveBody" [("operation_id", DStr "[UNVALIDATED]"); ("decision", debug (rb_decision b))] true.

Definition Mutation_debug : Debug Mutation := fun m =>
  match m with
  | MLogout _ _ => DWrite "Logout"
  | MStartDeviceLogin => DWrite "StartDeviceLogin"
  | MCancelLogin => DWrite "CancelLogin"
  | MStartTurn _ => DWrite "StartTurn([REDACTED])"
  | MCancelTurn => DWrite "CancelTurn"
  | MReconcile => DWrite "Reconcile"
  | MAdopt op _ => DStruct "Adopt" [("operation_id", debug op)] true
  | MAbandon op => DStruct "Abandon" [("operation_id", debug op)] true
  end.

Definition RequestIdentity_debug : Debug RequestIdentity := fun i =>
  DStruct "RequestIdentity"
    [("method", debug (ri_method i)); ("route", debug (ri_route i)); ("body", REDACTED);
     ("instance_id", debug (ri_instance_id i))] true.

Definition OperatorBootstrapToken_debug : Debug OperatorBootstrapToken := fun _ => DWrite "OperatorBootstrapToken([REDACTED])".
Definition P0PublicOrigin_debug : Debug P0PublicOrigin := fun o => DTuple "P0PublicOrigin" [debug (origin_str o)].
Definition P0HttpConfigField_debug : Debug P0HttpConfigField := fun f =>
  DWrite match f with PublicOrigin => "PublicOrigin" | BootstrapToken => "BootstrapToken" | SessionLifetime => "SessionLifetime" end.
#[export] Existing Instances ResolveBody_debug Mutation_debug RequestIdentity_debug OperatorBootstrapToken_debug
  P0PublicOrigin_debug P0HttpConfigField_debug.
Definition P0HttpConfigError_debug (field : P0HttpConfigField) : Dbg := DStruct "P0HttpConfigError" [("field", debug field)] true.
(** Derived; a valid lifetime is in whole seconds, and prints as them. *)
Definition P0HttpConfig_debug : Debug P0HttpConfig := fun c =>
  DStruct "P0HttpConfig"
    [("public_origin", debug (public_origin c)); ("bootstrap", debug (cfg_bootstrap c));
     ("session_lifetime", DWrite (pretty (session_lifetime c / NANOS_PER_SEC) +:+ "s"))] true.
#[export] Existing Instance P0HttpConfig_debug.
Definition P0HttpShutdownErrorCategory_debug : Debug Api.P0HttpShutdownErrorCategory := fun c =>
  DWrite match c with Api.Session => "Session" | Api.Login => "Login" | Api.Worker => "Worker" end.
#[export] Existing Instance P0HttpShutdownErrorCategory_debug.
Definition P0HttpShutdownError_debug (c : Api.P0HttpShutdownErrorCategory) : Dbg :=
  DStruct "P0HttpShutdownError" [("category", debug c)] true.

(** A [StatusCode] prints its number. *)
Definition ApiError_debug : Debug Api.ApiError := fun e =>
  DStruct "ApiError"
    [("status", DNum (Api.status e)); ("code", debug (Api.code e)); ("operation_id", debug (Api.operation_id e))] true.
Definition CachedResponse_debug : Debug CachedResponse := fun r =>
  DStruct "CachedResponse"
    [("status", DNum (rs_status r)); ("header_count", debug (len (rs_headers r))); ("body", REDACTED)] true.
#[export] Existing Instances ApiError_debug CachedResponse_debug.

(** ** The runtimes themselves *)

(** What [finish_non_exhaustive] leaves of a type that prints no field: [CloudTaskRunner],
    [CloudTaskOrchestrator], [CloudDiffReader], [P0LiveReceiver]. *)
Definition CloudTaskRunner_debug : Dbg := DStruct "CloudTaskRunner" [] false.
Definition CloudTaskOrchestrator_debug : Dbg := DStruct "CloudTaskOrchestrator" [] false.
Definition CloudDiffReader_debug : Dbg := DStruct "CloudDiffReader" [] false.
Definition P0LiveReceiver_debug : Dbg := DStruct "P0LiveReceiver" [] false.

Definition LoginBroker_debug : Debug Ledger.Host := fun h =>
  DStruct "LoginBroker" [("has_active_login", debug (bool_decide (Ledger.active h <> None)))] false.
Definition P0SessionSubscription_debug : Debug Subscription := fun s =>
  DStruct "P0SessionSubscription"
    [("replay_count", debug (len (sub_replay s))); ("high_water_seq", debug (sn_high_water_seq (sub_snapshot s)))] false.

(** The runtime, and the control plane with its shared part, print the identity. *)
Definition P0SessionRuntime_debug (i : Inner) : Dbg := DStruct "P0SessionRuntime" [("identity", debug (SessionRuntime.identity i))] false.
Definition P0ControlPlane_debug (identity : P0SessionIdentity) : Dbg := DStruct "P0ControlPlane" [("identity", debug identity)] false.
Definition Shared_debug (identity : P0SessionIdentity) : Dbg := DStruct "Shared" [("identity", debug identity)] false.
#[export] Existing Instances LoginBroker_debug P0SessionSubscription_debug.

(** ** Clean text *)

(** No byte below the space: no line break, no escape sequence. *)
Definition c0_control (c : Ascii.ascii) : bool := byte c <? 32.
Definition no_control (s : string) : bool := all_bytes (fun c => negb (c0_control c)) s.

(** The fixed words of a tree are clean and its UUIDs have 128 bits. *)
Fixpoint clean (d : Dbg) : bool :=
  match d with
  | DWrite t => no_control t
  | DStr _ | DNum _ => true
  | DUuid u => (0 <=? u) && (u <? 2 ^ 128)
  | DStruct name fields _ => no_control name && forallb (fun '(k, v) => no_control k && clean v) fields
  | DTuple name fields => no_control name && forallb clean fields
  | DList items => forallb clean items
  end.

Section Clean.
Context `{UuidText} (escape_debug : string -> string) (Hescape : forall s, no_control (escape_debug s) = true).

Lemma no_control_app s t : no_control s = true -> no_control t = true -> no_control (s +:+ t) = true.
Proof.
  unfold no_control. induction s as [|c s IH]; simpl; [done|]. intros [Hc Hs]%andb_true_iff Ht. rewrite Hc. simpl. by apply IH.
Qed.

Lemma no_control_join sep parts : no_control sep = true -> Forall (fun p => no_control p = true) parts -> no_control (join sep parts) = true.
Proof.
  intros Hsep Hp. destruct Hp as [|p ps Hp Hps]; [done|]. simpl. revert p Hp. induction Hps as [|q ps Hq _ IH]; intros p Hp; simpl; [done|].
  apply IH. by repeat apply no_control_app.
Qed.

Lemma no_control_pretty_N (n : N) : no_control (pretty n : string) = true.
Proof.
  assert (Hgo : forall n s, no_control s = true -> no_control (pretty_N_go n s) = true).
  { clear n. intros n. induction n as [n IH] using (well_founded_induction N.lt_wf_0). intros s Hs.
    destruct (decide (0 < n)%N) as [Hn|Hn].
    - rewrite pretty_N_go_step by done. apply IH; [apply N.div_lt; lia|].
      assert (Hc : c0_control (pretty_N_char (n mod 10)) = false) by (unfold pretty_N_char; repeat case_match; done).
      unfold no_control in *. cbn [all_bytes]. by rewrite Hc, Hs.
    - assert (n = 0%N) as -> by lia. by rewrite pretty_N_go_0. }
  unfold pretty, pretty_N. case_decide; [done|]. by apply Hgo.
Qed.

Lemma no_control_pretty (n : Z) : no_control (pretty n) = true.
Proof. destruct n; [done|apply no_control_pretty_N|]. apply (no_control_app "-"); [done|apply no_control_pretty_N]. Qed.

Lemma no_control_uuid u : 0 <= u < 2 ^ 128 -> no_control (uuid_hyphenated u) = true.
Proof.
  intros Hu. destruct (uuid_chars u Hu) as [_ Hc]. revert Hc. apply all_bytes_impl.
  intros c. destruct c as [[] [] [] [] [] [] [] []]; vm_compute; intros Hc; (done || discriminate Hc).
Qed.

Lemma render_clean d : clean d = true -> no_control (render escape_debug d) = true.
Proof.
  revert d. fix IH 1. intros [t|t|n|u|name fields ex|name fields|items] Hd; simpl in *.
  - done.
  - apply no_control_app; [done|]. apply no_control_app; [apply Hescape|done].
  - apply no_control_pretty.
  - apply no_control_uuid. apply andb_true_iff in Hd as [?%Z.leb_le ?%Z.ltb_lt]. done.
  - apply andb_true_iff in Hd as [Hname Hf].
    assert (Hp : Forall (fun p => no_control p = true) (map (fun '(k, v) => k +:+ ": " +:+ render escape_debug v) fields)).
    { clear -IH Hf. induction fields as [|[k v] fields IHf]; simpl in *; constructor.
      - apply andb_true_iff in Hf as [[Hk Hv]%andb_true_iff _]. apply no_control_app; [done|]. apply no_control_app; [done|]. by apply IH.
      - apply IHf. by apply andb_true_iff in Hf as [_ Hf]. }
    destruct fields as [|f fields]; [destruct ex; [done|]; by apply no_control_app|].
    apply no_control_app; [done|]. apply no_control_app; [done|]. apply no_control_app; [by apply no_control_join|]. by destruct ex.
  - apply andb_true_iff in Hd as [Hname Hf].
    assert (Hp : Forall (fun p => no_control p = true) (map (render escape_debug) fields)).
    { clear -IH Hf. induction fields as [|v fields IHf]; simpl in *; constructor; apply andb_true_iff in Hf as [Hv Hf]; [by apply IH|by apply IHf]. }
    destruct fields as [|f fields]; [done|].
    apply no_control_app; [done|]. apply no_control_app; [done|]. apply no_control_app; [by apply no_control_join|done].
  - assert (Hp : Forall (fun p => no_control p = true) (map (render escape_debug) items)).
    { clear -IH Hd. induction items as [|v items IHf]; simpl in *; constructor; apply andb_true_iff in Hd as [Hv Hf]; [by apply IH|by apply IHf]. }
    apply no_control_app; [done|]. apply no_control_app; [by apply no_control_join|done].
Qed.
End Clean.

(** ** Secrets leave no trace *)

Section Secrets.
Context `{UuidText} (escape_debug : string -> string).

Definition text {A} `{Debug A} (x : A) : string := render escape_debug (debug x).

(** The identifiers an error carries have 128 bits. *)
Definition error_ids (e : P0SessionError) : Prop :=
  (forall t, turn_id e = Some t -> in_uuid (as_uuid t)) /\ (forall op, operation_id e = Some op -> in_uuid (op_uuid op)).

Lemma clean_uuid u : in_uuid u -> clean (DUuid u) = true.
Proof. intros [Hl Hu]. simpl. apply andb_true_iff. split; [by apply Z.leb_le|by apply Z.ltb_lt]. Qed.

Lemma clean_option {A} `{Debug A} (o : option A) : (forall x, o = Some x -> clean (debug x) = true) -> clean (debug o) = true.
Proof. destruct o as [x|]; [|done]. intros Hx. simpl. by rewrite Hx. Qed.

Lemma clean_operation op : in_uuid (op_uuid op) -> clean (debug op) = true.
Proof.
  intros Hu%clean_uuid. unfold debug, CloudSubmitOperationId_debug. cbn [clean forallb] in *. by rewrite Hu.
Qed.

Lemma clean_lifecycle l : in_uuid (op_uuid (lifecycle_operation_id l)) -> clean (debug l) = true.
Proof.
  intros Hu%clean_operation. destruct l as [| | |op t|op t|op t|op t|op [t|] []|]; cbn [debug CloudLifecycle_debug clean forallb lifecycle_operation_id] in *;
    change (CloudSubmitOperationId_debug ?x) with (debug x) in *; by rewrite Hu.
Qed.

Lemma clean_session_error e : error_ids e -> clean (debug e) = true.
Proof.
  intros [Ht Hop]. unfold debug at 1, P0SessionError_debug. cbn [clean forallb].
  rewrite (clean_option (turn_id e)), (clean_option (operation_id e)), (clean_option (oldest_available e)),
    (clean_option (latest_available e)), (clean_option (cloud_lifecycle e)), (clean_option (cloud_diff e)), (clean_option (config_field e)).
  - by destruct (category e).
  - by intros [] _.
  - by intros [] _.
  - by intros [] _.
  - done.
  - done.
  - intros op Ho. apply clean_operation. by apply Hop.
  - intros t Hx. specialize (Ht t Hx). apply clean_uuid in Ht. cbn in *. by rewrite Ht.
Qed.

(** C25: What a value prints with [Debug] tells nothing of the secrets in it.  Two prompts print alike in
    every value a turn puts them in: the decoded body, the mutation, the submit request and the argument
    vector of the command; so do two request bodies in the identity the replay cache keeps, two
    verification codes in everything a login hands out, two bootstrap tokens in the configuration; and
    what the provider sent (streams, pages, candidates, diffs, URLs, cursors) and what was answered
    shows at most counts, flags and exit codes.  And an error or a lifecycle prints on one line, without
    control characters, whatever it holds. *)
Theorem debug_text_hides_secrets :
  (forall p p' op e b, text p = text p' /\ text (mkStartTurn (prompt_str p)) = text (mkStartTurn (prompt_str p')) /\
     text (MStartTurn p) = text (MStartTurn p') /\ text (mkSubmitRequest op p) = text (mkSubmitRequest op p') /\
     text (inv_exec e b p) = text (inv_exec e b p')) /\
  (forall m r body body' i seq seq', text (mkIdentity m r body i seq) = text (mkIdentity m r body' i seq')) /\
  (forall op c c', text c = text c' /\ text (LoginInteraction_new op c) = text (LoginInteraction_new op c') /\
     text (LoginInstructions_from (LoginInteraction_new op c)) = text (LoginInstructions_from (LoginInteraction_new op c')) /\
     text (mkDeviceLogin op VERIFICATION_URL (code_str c) 900) = text (mkDeviceLogin op VERIFICATION_URL (code_str c') 900)) /\
  (forall o t t' lifetime, text (mkHttpConfig o t lifetime) = text (mkHttpConfig o t' lifetime)) /\
  (forall c c', stdout_overflow c = stdout_overflow c' -> stderr_overflow c = stderr_overflow c' -> exit_code c = exit_code c' ->
     text c = text c') /\
  (forall p p', len (page_tasks p) = len (page_tasks p') -> text p = text p') /\
  (forall r r', Runner.rec_operation_id r = Runner.rec_operation_id r' -> len (Runner.rec_tasks r) = len (Runner.rec_tasks r') ->
     Runner.rec_complete r = Runner.rec_complete r' -> text r = text r') /\
  (forall d d' : CloudDiff, text d = text d') /\ (forall u u' : CloudTaskUrl, text u = text u') /\
  (forall c c' : CloudCursor, text c = text c') /\ (forall c c' : CloudRunnerConfig, text c = text c') /\
  (forall r r', rs_status r = rs_status r' -> len (rs_headers r) = len (rs_headers r') -> text r = text r') /\
  ((forall s, no_control (escape_debug s) = true) ->
     (forall e, error_ids e -> no_control (text e) = true) /\
     (forall l, in_uuid (op_uuid (lifecycle_operation_id l)) -> no_control (text l) = true)).
Proof.
  split_and!; try done.
  - intros c c' H1 H2 H3. unfold text, debug, CloudCapture_debug. by rewrite H1, H2, H3.
  - intros p p' Hl. unfold text, debug, CloudTaskListPage_debug. by rewrite Hl.
  - intros r r' H1 H2 H3. unfold text, debug, CloudReconciliation_debug. by rewrite H1, H2, H3.
  - intros r r' H1 H2. unfold text, debug, CachedResponse_debug. by rewrite H1, H2.
  - intros Hesc. split; intros x Hx; apply render_clean; [done|by apply clean_session_error|done|by apply clean_lifecycle].
Qed.
End Secrets.

(** Within each enumeration, the message tells the category; an adapter's tells field and category. *)
Definition fields : list CloudField :=
  [FEnvironment; FBranch; FPrompt; FTaskId; FTaskUrl; FCursor; FStatus; FTitle; FUpdatedAt; FEnvironmentId; FEnvironmentLabel;
   FFilesChanged; FLinesAdded; FLinesRemoved; FAttempts; FList; FDiff; FStdout; FStderr; FExitStatus; FVersion].
Definition categories : list CloudErrorCategory :=
  [CEmpty; CTooLong; CControlCharacter; CLeadingHyphen; CReservedValue; CInvalidFormat; CInvalidUtf8; COverflow; CMissing;
   CUnexpected; CDuplicate; CLimitExceeded; CProviderDrift].

Lemma adapter_message_inj e e' : CloudAdapterError_display e = CloudAdapterError_display e' -> e = e'.
Proof.
  assert (Hall : forallb (fun f => forallb (fun c => forallb (fun f' => forallb (fun c' =>
      negb (String.eqb (CloudAdapterError_display (mkAdapterError f c)) (CloudAdapterError_display (mkAdapterError f' c')))
      || bool_decide (mkAdapterError f c = mkAdapterError f' c')) categories) fields) categories) fields = true) by (vm_compute; reflexivity).
  assert (Hf : forall f, In f fields) by (intros []; vm_compute; tauto). assert (Hc : forall c, In c categories) by (intros []; vm_compute; tauto).
  destruct e as [f c], e' as [f' c']. intros Heq. rewrite forallb_forall in Hall. specialize (Hall f (Hf f)). rewrite forallb_forall in Hall.
  specialize (Hall c (Hc c)). rewrite forallb_forall in Hall. specialize (Hall f' (Hf f')). rewrite forallb_forall in Hall. specialize (Hall c' (Hc c')).
  rewrite Heq, String.eqb_refl in Hall. simpl in Hall. by apply bool_decide_eq_true in Hall.
Qed.

Lemma messages_identify_categories :
  (forall c c', CloudRunnerErrorCategory_display c = CloudRunnerErrorCategory_display c' -> c = c') /\
  (forall c c', CloudLifecycleErrorCategory_display c = CloudLifecycleErrorCategory_display c' -> c = c') /\
  (forall c c', CloudDiffReadErrorCategory_display c = CloudDiffReadErrorCategory_display c' -> c = c') /\
  (forall c c', P0SessionErrorCategory_display c = P0SessionErrorCategory_display c' -> c = c') /\
  (forall e e', CloudAdapterError_display e = CloudAdapterError_display e' -> e = e').
Proof. split_and!; [intros [] []; (reflexivity || discriminate)..|apply adapter_message_inj]. Qed.

(** A text escaped by leaving its control characters out. *)
Fixpoint drop_controls (s : string) : string :=
  match s with EmptyString => EmptyString | String c s => if c0_control c then drop_controls s else String c (drop_controls s) end.

Lemma drop_controls_clean s : no_control (drop_controls s) = true.
Proof. unfold no_control. induction s as [|c s IH]; simpl; [done|]. destruct (c0_control c) eqn:E; [done|]. simpl. by rewrite E. Qed.

#[local] Existing Instance Compact.uuid_text.

(** The text of a submit request, whatever its prompt; and the line an error prints. *)
Lemma debug_text_hides_secrets_witness :
  text drop_controls (mkSubmitRequest (mkOp 301) (mkPrompt "deploy with key hunter2"))
    = ("CloudSubmitRequest { operation_id: CloudSubmitOperationId(00000000-0000-0000-0000-00000000012d), prompt: "
       +:+ quoted "[REDACTED]" +:+ " }")%string /\
  no_control (text drop_controls (Errors.for_operation WrongOperation (mkOp 301))) = true.
Proof.
  destruct (debug_text_hides_secrets drop_controls) as (Hp & _ & _ & _ & _ & _ & _ & _ & _ & _ & _ & _ & Hc). split.
  - rewrite (proj1 (proj2 (proj2 (proj2 (Hp (mkPrompt "deploy with key hunter2") (mkPrompt "") (mkOp 301) (mkEnvironment "") (mkBranch "")))))).
    vm_compute. reflexivity.
  - apply (proj1 (Hc drop_controls_clean)). split; [intros t Ht; discriminate Ht|]. intros op Hop. injection Hop as <-. vm_compute. split; [discriminate|reflexivity].
Defined.
